(* ===== verification/_CoqProject ===== *)
-Q . S2P
Prelude.v
GoBase.v
GoSort.v
GoRegexp.v
GoText.v
GoFloat.v
GoTime.v
GoPath.v
DnsWire.v
DnsCache.v
DnsLane.v
DnsQuestion.v
DnsResolve.v
DnsResolveSafety.v
DnsAdmission.v
DnsAdmissionSafety.v
MemoryBudget.v
MemoryLoan.v
ApplyGuard.v
Supervisor.v
SupervisorSafety.v
Recovery.v
RecoverySafety.v
RecoveryCrash.v
RouterTransaction.v
StateStore.v
StateStoreSafety.v
ApplyWorld.v
Apply.v
RouterGuard.v
RouterTransactionSafety.v
ApplyLogic.v
ApplyActivation.v
ApplySafety.v
ApplyRecovery.v
ApplyRouter.v
RouterGuardSafety.v
RouterSim.v
ApplySim.v
ApplyCorrect.v
SafeMode.v
RouterDelta.v
CandidateStore.v
CandidateSafety.v
CandidatePrepare.v
CandidateCorrect.v
Watchdog.v
WatchdogSafety.v
HealthModel.v
HealthSelect.v
HealthSchedule.v
