(* ===== verification/Prelude.v ===== *)
(** * SB Gateway: a verification library

    SB Gateway is an appliance that runs beside a RouterOS router: it resolves
    DNS per policy, keeps the best network exit selected, applies
    configurations under a rollback guard and watches over its own runtime.
    This library models the decision-making core of its Go code under
    [src/internal] as executable definitions and proves what makes each
    part correct.  Names follow the source; every file says which source files
    it models.

    ** Conventions

    - A machine integer is a [Z] whose wrap-around is written out ([+w], [-w],
      [*w] in [GoBase]); a string or a byte slice is a list of bytes; a Go map is
      a [gmap]; a float64 is a [spec_float] ([GoFloat]); a time is its number of
      nanoseconds, the zero time is [None] where the code tests for it.
    - Code that can panic returns an [outcome]; a loop that is not structural
      takes fuel, and a theorem shows that [Stuck] and [Panic] are unreachable
      for the fuel the caller passes (a bound on the rounds, such as the length
      of the message).
    - Concurrent code is a step relation: a thread is a program counter, a
      step is one critical section or channel operation, the scheduler and the
      environment are free.
    - What is read from the outside (files, clocks, processes, sockets, the
      router) is an argument, an observation or a class of operations; libraries
      outside the repository are parameters with named hypotheses.

    ** Files

    - [Prelude]: outcomes, tactics, sums over lists and maps, reachability, maps
      made from lists.
    - [GoBase], [GoSort], [GoRegexp], [GoText], [GoFloat], [GoTime]: the part of
      the language and of its standard library that the models use.
    - [DnsWire], [DnsCache]: [policydns/cache.go]; the lifetime of a
      response, the ageing of its records, and the LRU cache, which refines an
      abstract list.
    - [DnsLane]: [policydns/config.go] and [domainset]; the indexed lookup
      is first-match routing.
    - [DnsQuestion]: the question of a message and the error reply of
      [policydns/resolver.go].
    - [DnsResolve], [DnsResolveSafety]: the whole path of a query in
      [policydns/resolver.go], from the plan over the shared flight to the
      answer, in every interleaving and for every reply of an upstream: a client
      gets its own answer, from its own route, or a refusal.
    - [DnsAdmission], [DnsAdmissionSafety]: [policydns/admission.go] with
      the flight group; limits, coalescing, absence of leaks and of deadlock, and
      termination, in every interleaving.
    - [MemoryBudget], [MemoryLoan]: [memorybudget]; the division of the
      memory ceiling and the loan of the idle helper's share.
    - [ApplyGuard]: [applyguard/guard.go].
    - [Supervisor], [SupervisorSafety]: [appliance/supervisor.go]; the goroutines
      of the programs and the callers of [Restart] in every interleaving: single
      instances, acknowledged restarts, and a shutdown that ends.
    - [GoPath]: clean paths and file trees.  [Recovery], [RecoverySafety],
      [RecoveryCrash]: [recovery/pending.go] on a file tree with failing
      operations; a program logic with crash invariants, containment of every
      intermediate tree, and completion after a crash at any point.
    - [RouterTransaction], [RouterTransactionSafety]: [routeros/transaction.go];
      a candidate is applied under a Safe Mode console and a scheduler on the
      router, over the classes [GuardOps] and [ConsoleOps].  An armed guard
      can fire between any two operations of a run ([fired]); unless one does, the
      reported outcome is true of the router for every implementation that obeys
      their laws.
    - [RouterGuard], [RouterGuardSafety]: [routeros/rollback.go] and the script
      part of [routeros/client.go]; the implementation of [GuardOps] over REST
      resources, and its laws.
    - [RouterSim]: a router with faults, an instance of all laws, on which the
      properties of the two are stated and tried.
    - [StateStore], [StateStoreSafety]: the documents of
      [controlplane/storage.go]: generations, the commit point [active.json] and
      its copies, which are repaired from it.  That two copies are equal JSON
      documents is a parameter.
    - [ApplyWorld], [Apply]: [controlplane/apply.go], [apply_recovery.go] and the
      activation of [runtime.go]: an Apply prepares a plan, opens a journal,
      activates the runtime inside the router's transaction, publishes the commit
      point and closes the journal; its recovery starts from the commit point.
      The state keeps the history of documents and outside, whose points are
      the states a crash can leave.  [ApplyLogic] is a program logic with crash
      invariants over the classes [RuntimeOps] and [ControlOps] and their laws;
      [ApplyActivation], [ApplySafety], [ApplyRouter] and [ApplyRecovery] use it
      on the activation, the Apply, its router side and the recovery;
      [ApplySim] is an appliance with faults that obeys the laws, and
      [ApplyCorrect] states the properties of the whole and tries them.  They
      assume that a document whose replacement failed late can be read back, and
      admit a runtime damaged by a failed publication that could not be undone.
    - [SafeMode]: [routeros/safe_mode.go] and [routeros/ssh_script.go]; the
      console session against an arbitrary stream of answers, and receipts.
    - [RouterDelta]: [runtimeconfig/routeros_delta.go]; a router candidate is split
      into its sections, and a delta of whole sections leads from one candidate to
      the other and back.
    - [CandidateStore], [CandidateSafety], [CandidatePrepare], [CandidateCorrect]:
      [runtimeconfig/candidate.go] on the file tree of [Recovery]: a candidate
      appears complete or not at all, activation and commit replace files one by
      one and whole, rollback restores, and every instant is recoverable; outside
      these files only named paths change.
    - [Watchdog], [WatchdogSafety]: [watchdog] and
      [runtimeproof/lease.go]; the loop over observations, in which an apply can
      begin and end between any two cycles; restarts need a streak and a budget,
      the lease needs a passed check of the very generation and configuration.
    - [HealthModel], [HealthSelect], [HealthSchedule]: the selection logic of
      [agent]: ranking, emergencies, planned switches, probe schedules and the
      shared probe budget; decisions are judged by a specification of their own
      ([qualified], [faster]).

    ** Bounds

    Fuel is always the length of the scanned message or a count the code itself
    bounds; the theorems about those routines are unconditional.  Arithmetic that
    cannot overflow is shown not to; where it can, the wrap-around is part of the
    definition.

    ** Not modelled

    Network and process input and output, JSON decoding, the rendering of Xray,
    nginx and RouterOS configurations, the web interface and its API, ACME,
    downloads and image handling: they are plumbing around external programs or
    text generation without a contract of their own.  The manifest lists every
    part with its status. *)

From stdpp Require Export base gmap sets list strings fin_maps.
From Stdlib Require Export ZArith Lia.

(** ** Outcomes of Go code

    [Ret a] is a normal return; [Panic] is a run-time panic (an index or a
    slice bound out of range, a nil dereference); [Stuck] is reserved for loops
    translated with fuel and means that the fuel ran out.  Theorems that a
    routine is safe show that neither [Panic] nor [Stuck] is reachable. *)
Inductive outcome (A : Type) : Type :=
| Ret (a : A)
| Panic
| Stuck.
Arguments Ret {A} a.
Arguments Panic {A}.
Arguments Stuck {A}.

Definition obind {A B} (m : outcome A) (k : A -> outcome B) : outcome B :=
  match m with
  | Ret a => k a
  | Panic => Panic
  | Stuck => Stuck
  end.

Declare Scope go_scope.
Delimit Scope go_scope with go.
Notation "'let!' x ':=' m 'in' k" := (obind m (fun x => k))
  (at level 10, x pattern, m at level 100, k at level 200) : go_scope.
Open Scope go_scope.

Create HintDb go discriminated.
#[export] Hint Constants Opaque : go.

(** A routine that returns: it neither panics nor runs out of fuel. *)
Definition returns {A} (m : outcome A) : Prop := exists a, m = Ret a.

Lemma returns_ret {A} (a : A) : returns (Ret a).
Proof. by exists a. Qed.

Lemma returns_bind {A B} (m : outcome A) (k : A -> outcome B) :
  returns m -> (forall a, m = Ret a -> returns (k a)) -> returns (obind m k).
Proof. intros [a ->] H. by apply H. Qed.

Lemma obind_ret_inv {A B} (m : outcome A) (k : A -> outcome B) b :
  obind m k = Ret b -> exists a, m = Ret a /\ k a = Ret b.
Proof. destruct m; naive_solver. Qed.

#[export] Hint Resolve returns_ret : go.

(** ** Tactics *)

(** Turn the boolean tests of the source into propositions, and split the
    conjunctions they produce. *)
Ltac bool_prop :=
  repeat match goal with
  | H : _ && _ = true |- _ => apply andb_true_iff in H; destruct H
  | H : _ || _ = false |- _ => apply orb_false_iff in H; destruct H
  | H : negb _ = true |- _ => apply negb_true_iff in H
  | H : negb _ = false |- _ => apply negb_false_iff in H
  | H : bool_decide _ = true |- _ => apply bool_decide_eq_true in H
  | H : bool_decide _ = false |- _ => apply bool_decide_eq_false in H
  | H : Z.ltb _ _ = true |- _ => apply Z.ltb_lt in H
  | H : Z.ltb _ _ = false |- _ => apply Z.ltb_ge in H
  | H : Z.leb _ _ = true |- _ => apply Z.leb_le in H
  | H : Z.leb _ _ = false |- _ => apply Z.leb_gt in H
  | H : Z.eqb _ _ = true |- _ => apply Z.eqb_eq in H
  | H : Z.eqb _ _ = false |- _ => apply Z.eqb_neq in H
  | H : Nat.ltb _ _ = true |- _ => apply Nat.ltb_lt in H
  | H : Nat.ltb _ _ = false |- _ => apply Nat.ltb_ge in H
  | H : Nat.leb _ _ = true |- _ => apply Nat.leb_le in H
  | H : Nat.leb _ _ = false |- _ => apply Nat.leb_gt in H
  | H : Nat.eqb _ _ = true |- _ => apply Nat.eqb_eq in H
  | H : Nat.eqb _ _ = false |- _ => apply Nat.eqb_neq in H
  end.

(** Split on the first conditional or match of a hypothesis or of the goal. *)
Ltac split_if H :=
  match type of H with
  | context [if ?b then _ else _] => destruct b eqn:?
  | context [match ?x with _ => _ end] => destruct x eqn:?
  end; bool_prop; simplify_eq/=; bool_prop.
Ltac split_goal :=
  match goal with
  | |- context [if ?b then _ else _] => destruct b eqn:?
  | |- context [match ?x with _ => _ end] => destruct x eqn:?
  end; bool_prop; simplify_eq/=; bool_prop.

(** Evaluate every integer test of the goal (of [H]) that the context decides,
    and split on the others. *)
Ltac case_tests :=
  repeat (match goal with
  | |- context [Nat.leb ?a ?b] => destruct (Nat.leb_spec a b); try lia
  | |- context [Nat.ltb ?a ?b] => destruct (Nat.ltb_spec a b); try lia
  | |- context [Nat.eqb ?a ?b] => destruct (Nat.eqb_spec a b); try lia
  | |- context [Z.leb ?a ?b] => destruct (Z.leb_spec a b); try lia
  | |- context [Z.ltb ?a ?b] => destruct (Z.ltb_spec a b); try lia
  | |- context [Z.eqb ?a ?b] => destruct (Z.eqb_spec a b); try lia
  end; cbn [andb orb negb obind]).
Ltac case_tests_in H :=
  repeat (match type of H with
  | context [Nat.leb ?a ?b] => destruct (Nat.leb_spec a b); try lia
  | context [Nat.ltb ?a ?b] => destruct (Nat.ltb_spec a b); try lia
  | context [Nat.eqb ?a ?b] => destruct (Nat.eqb_spec a b); try lia
  | context [Z.leb ?a ?b] => destruct (Z.leb_spec a b); try lia
  | context [Z.ltb ?a ?b] => destruct (Z.ltb_spec a b); try lia
  | context [Z.eqb ?a ?b] => destruct (Z.eqb_spec a b); try lia
  end; cbn [andb orb negb obind] in H).

(** ** Generic lemmas on lists *)

Lemma filter_all {A} (P : A -> Prop) `{forall x, Decision (P x)} (l : list A) :
  Forall P l -> filter P l = l.
Proof. induction 1 as [|x l Hx _ IH]; [done|]. by rewrite filter_cons_True, IH. Qed.

Lemma filter_length_le {A} (P : A -> Prop) `{forall x, Decision (P x)} (l : list A) :
  (length (filter P l) <= length l)%nat.
Proof. induction l as [|x l IH]; [done|]. rewrite filter_cons. case_decide; simpl; lia. Qed.

Lemma elem_of_concat_fmap {A B} (f : A -> list B) (l : list A) x :
  x ∈ concat (f <$> l) <-> exists y, y ∈ l /\ x ∈ f y.
Proof.
  induction l as [|y l IH]; simpl.
  - split; [by intros ?%elem_of_nil|]. by intros (y & Hy%elem_of_nil & _).
  - rewrite elem_of_app, IH. setoid_rewrite elem_of_cons. naive_solver.
Qed.

(** Sum of a measure over a list. *)
Definition sum_with {A} (f : A -> Z) (l : list A) : Z := foldr (fun x acc => f x + acc)%Z 0%Z l.

Lemma sum_with_app {A} (f : A -> Z) l k : sum_with f (l ++ k) = (sum_with f l + sum_with f k)%Z.
Proof. induction l; simpl; [done|]. rewrite IHl. lia. Qed.

Lemma sum_with_perm {A} (f : A -> Z) l k : l ≡ₚ k -> sum_with f l = sum_with f k.
Proof. induction 1; simpl; lia. Qed.

Lemma sum_with_nonneg {A} (f : A -> Z) l :
  (forall x, x ∈ l -> 0 <= f x)%Z -> (0 <= sum_with f l)%Z.
Proof.
  induction l as [|x l IH]; simpl; intros H; [lia|].
  assert (0 <= f x)%Z by (apply H; set_solver).
  assert (0 <= sum_with f l)%Z by (apply IH; set_solver). lia.
Qed.

(** Sum of a measure over the values of a finite map: resource accounting over
    the threads of a concurrent component is phrased with it. *)
Definition total {K A} `{Countable K} (f : A -> Z) (m : gmap K A) : Z :=
  map_fold (fun _ x acc => f x + acc)%Z 0%Z m.

Section Total.
Context {K A : Type} `{Countable K}.
Implicit Types (f : A -> Z) (m : gmap K A).

Lemma total_empty f : total f (∅ : gmap K A) = 0%Z.
Proof. apply map_fold_empty. Qed.

Lemma total_insert_new f m i x :
  m !! i = None -> total f (<[i:=x]> m) = (f x + total f m)%Z.
Proof. intros Hi. unfold total. rewrite map_fold_insert_L; [done|intros; lia|done]. Qed.

Lemma total_delete f m i x :
  m !! i = Some x -> total f m = (f x + total f (delete i m))%Z.
Proof.
  intros Hi. rewrite <- (insert_delete_id m i x Hi) at 1.
  apply total_insert_new. apply lookup_delete_eq.
Qed.

Lemma total_update f m i x y :
  m !! i = Some x -> total f (<[i:=y]> m) = (total f m - f x + f y)%Z.
Proof.
  intros Hi. rewrite (total_delete f m i x Hi), <- (insert_delete_eq m i y).
  rewrite total_insert_new by apply lookup_delete_eq. lia.
Qed.

Lemma total_nonneg f m : (forall i x, m !! i = Some x -> 0 <= f x)%Z -> (0 <= total f m)%Z.
Proof.
  induction m as [|i x m Hi IH] using map_ind; intros Hf; [rewrite total_empty; lia|].
  rewrite total_insert_new by done.
  assert (0 <= f x)%Z by (eapply Hf; apply lookup_insert_eq).
  assert (0 <= total f m)%Z by (apply IH; intros j y Hj; apply (Hf j);
    rewrite lookup_insert_ne; [done|naive_solver]). lia.
Qed.

Lemma total_ge_one f m i x :
  (forall x, 0 <= f x)%Z -> m !! i = Some x -> (f x <= total f m)%Z.
Proof.
  intros Hf Hi. rewrite (total_delete f m i x Hi).
  pose proof (total_nonneg f (delete i m) ltac:(intros; apply Hf)). lia.
Qed.

Lemma total_zero f m : (forall i x, m !! i = Some x -> f x = 0)%Z -> total f m = 0%Z.
Proof.
  induction m as [|i x m Hi IH] using map_ind; intros Hf; [apply total_empty|].
  rewrite total_insert_new by done.
  rewrite (Hf i x) by apply lookup_insert_eq.
  rewrite IH; [done|]. intros j y Hj. apply (Hf j). rewrite lookup_insert_ne; naive_solver.
Qed.

Lemma total_witness f m : (total f m <> 0)%Z -> exists i x, m !! i = Some x /\ (f x <> 0)%Z.
Proof.
  induction m as [|i x m Hi IH] using map_ind; [by rewrite total_empty|].
  rewrite total_insert_new by done. intros Hn. destruct (decide (f x = 0)%Z) as [E|E].
  - destruct IH as (j & y & Hj & Hy); [lia|]. exists j, y. rewrite lookup_insert_ne by naive_solver. done.
  - exists i, x. by rewrite lookup_insert_eq.
Qed.

Lemma total_mono f g m : (forall i x, m !! i = Some x -> f x <= g x)%Z -> (total f m <= total g m)%Z.
Proof.
  induction m as [|i x m Hi IH] using map_ind; intros Hfg; [by rewrite !total_empty|].
  rewrite !total_insert_new by done. pose proof (Hfg i x (lookup_insert_eq _ _ _)).
  assert (total f m <= total g m)%Z; [|lia]. apply IH. intros j y Hj. apply (Hfg j).
  rewrite lookup_insert_ne; naive_solver.
Qed.
End Total.

(** ** Reachability in a step relation *)
Section Star.
Context {A : Type} (R : A -> A -> Prop).
Inductive steps : A -> A -> Prop :=
| steps_refl a : steps a a
| steps_cons a b c : R a b -> steps b c -> steps a c.

Lemma steps_invariant (I : A -> Prop) :
  (forall a b, I a -> R a b -> I b) -> forall a b, steps a b -> I a -> I b.
Proof. intros HR a b Hs. induction Hs; eauto. Qed.

Lemma steps_one a b : R a b -> steps a b.
Proof. intros. econstructor; [done|constructor]. Qed.
End Star.

(** A decidable fact by evaluation. *)
Ltac by_decide := refine (bool_decide_eq_true_1 _ _); vm_compute; reflexivity.

(** A map made from the list of its keys. *)
Lemma assoc_lookup `{Countable K} {A} (f : K -> A) names n :
  (list_to_map ((fun n => (n, f n)) <$> names) : gmap K A) !! n = if decide (n ∈ names) then Some (f n) else None.
Proof.
  induction names as [|k names IH]; [by rewrite decide_False by apply not_elem_of_nil|].
  cbn [fmap list_fmap list_to_map foldr fst snd]. change (foldr _ _ _) with (list_to_map ((fun n => (n, f n)) <$> names) : gmap K A).
  destruct (decide (n = k)) as [->|Hn]; [by rewrite lookup_insert_eq, decide_True by by left|].
  rewrite lookup_insert_ne, IH by done. destruct (decide (n ∈ names)); [by rewrite decide_True by by right|].
  rewrite decide_False; [done|]. by rewrite elem_of_cons; intros [].
Qed.
