(* ===== verification/GoBase.v ===== *)
(** * The part of Go the gateway's sources use: slices, big-endian words, time

    Slices of bytes are [list byte]; an index or a slice bound outside the
    length is a [Panic].  (Go checks the upper bound of a slice expression
    against the capacity; the model checks it against the length, which can
    only panic more often.)  Times are nanoseconds since the Unix epoch and
    durations nanoseconds, both as [Z]. *)

From Stdlib Require Import String.
From Stdlib Require Export Strings.Byte.
From S2P Require Import Prelude.
Open Scope Z_scope.

(** ** Machine integers *)
Definition wrap_u16 (z : Z) : Z := z mod 2 ^ 16.
Definition wrap_u32 (z : Z) : Z := z mod 2 ^ 32.
Definition wrap_i64 (z : Z) : Z := (z + 2 ^ 63) mod 2 ^ 64 - 2 ^ 63.
Definition max_i64 : Z := 2 ^ 63 - 1.
Definition min_i64 : Z := - 2 ^ 63.

Lemma wrap_i64_id z : min_i64 <= z <= max_i64 -> wrap_i64 z = z.
Proof. unfold wrap_i64, min_i64, max_i64. intros. rewrite Z.mod_small; lia. Qed.

Lemma wrap_i64_le z : 0 <= z -> wrap_i64 z <= z.
Proof. unfold wrap_i64. intros. pose proof (Z.mod_le (z + 2 ^ 63) (2 ^ 64)). lia. Qed.

Lemma wrap_i64_range z : min_i64 <= wrap_i64 z <= max_i64.
Proof.
  unfold wrap_i64, min_i64, max_i64.
  pose proof (Z.mod_pos_bound (z + 2 ^ 63) (2 ^ 64) ltac:(lia)). lia.
Qed.

(** The arithmetic of [int64] (and of [int] on a 64-bit machine): sums,
    differences and products wrap around, division truncates. *)
Notation "a '+w' b" := (wrap_i64 (a + b)) (at level 50, left associativity) : go_scope.
Notation "a '-w' b" := (wrap_i64 (a - b)) (at level 50, left associativity) : go_scope.
Notation "a '*w' b" := (wrap_i64 (a * b)) (at level 40, left associativity) : go_scope.
Definition i64 (z : Z) : Prop := min_i64 <= z <= max_i64.

(** Remove the wrap-arounds whose arguments the context bounds. *)
Ltac nowrap := repeat (rewrite wrap_i64_id by (unfold min_i64, max_i64 in *; lia)).

(** ** Time *)
Definition second : Z := 1000000000.

(** [time.Time.Sub] saturates at the bounds of [time.Duration]. *)
Definition time_sub (a b : Z) : Z := Z.max min_i64 (Z.min max_i64 (a - b)).
(** [t.Before(u)] and [t.After(u)]. *)
Definition before (a b : Z) : bool := a <? b.
Definition after (a b : Z) : bool := b <? a.
(** [t.Unix()]: whole seconds, rounded towards minus infinity. *)
Definition unix (t : Z) : Z := t / second.

(** ** Bytes *)
#[export] Instance byte_eq_decision : EqDecision byte := Byte.byte_eq_dec.
#[export] Instance byte_inhabited : Inhabited byte := populate x00.

#[export] Instance byte_countable : Countable byte.
Proof.
  refine (inj_countable Byte.to_N Byte.of_N _). intros b. apply Byte.of_to_N.
Defined.

Definition bval (b : byte) : Z := Z.of_N (Byte.to_N b).
Definition byte_of (z : Z) : byte := default x00 (Byte.of_N (Z.to_N (z mod 256))).

Lemma bval_range b : 0 <= bval b < 256.
Proof. unfold bval. pose proof (Byte.to_N_bounded b). lia. Qed.

Lemma bval_byte_of z : bval (byte_of z) = z mod 256.
Proof.
  unfold bval, byte_of. pose proof (Z.mod_pos_bound z 256 ltac:(lia)) as Hz.
  destruct (Byte.of_N (Z.to_N (z mod 256))) as [b|] eqn:E; simpl.
  - apply Byte.to_of_N_iff in E. rewrite E. lia.
  - apply Byte.of_N_None_iff in E. lia.
Qed.

Lemma byte_of_bval b : byte_of (bval b) = b.
Proof.
  unfold byte_of. rewrite Z.mod_small by apply bval_range.
  unfold bval. rewrite N2Z.id, Byte.of_to_N. done.
Qed.

(** A Go string is its sequence of bytes. *)
Abbreviation gostr := (list byte).
Definition bs (s : string) : gostr := list_byte_of_string s.

(** ** Slices *)
Definition index {A} (l : list A) (i : nat) : outcome A :=
  match l !! i with Some x => Ret x | None => Panic end.

Definition slice {A} (l : list A) (lo hi : nat) : outcome (list A) :=
  if ((lo <=? hi) && (hi <=? length l))%nat then Ret (take (hi - lo) (drop lo l)) else Panic.

(** [copy(dst[at:], src)]: as many bytes as both sides have. *)
Definition copy_at {A} (dst : list A) (at_ : nat) (src : list A) : list A :=
  take at_ dst ++ take (length dst - at_) src
    ++ drop (at_ + length (take (length dst - at_) src)) dst.

(** ** [encoding/binary.BigEndian] *)
Definition uint16 (b : list byte) : outcome Z :=
  let! b1 := index b 1 in
  let! b0 := index b 0 in
  Ret (Z.lor (bval b1) (Z.shiftl (bval b0) 8)).

Definition uint32 (b : list byte) : outcome Z :=
  let! b3 := index b 3 in
  let! b2 := index b 2 in
  let! b1 := index b 1 in
  let! b0 := index b 0 in
  Ret (Z.lor (Z.lor (Z.lor (bval b3) (Z.shiftl (bval b2) 8))
    (Z.shiftl (bval b1) 16)) (Z.shiftl (bval b0) 24)).

Definition uint32_bytes (v : Z) : list byte :=
  [byte_of (Z.shiftr v 24); byte_of (Z.shiftr v 16); byte_of (Z.shiftr v 8); byte_of v].

(** [binary.BigEndian.PutUint32(b[off:off+4], v)]. *)
Definition put_uint32 (b : list byte) (off : nat) (v : Z) : outcome (list byte) :=
  if (off + 4 <=? length b)%nat then Ret (copy_at b off (uint32_bytes v)) else Panic.

(** [binary.BigEndian.Uint16(b[off:off+2])] and the 32-bit form. *)
Definition be16 (b : list byte) (off : nat) : outcome Z :=
  let! s := slice b off (off + 2) in uint16 s.
Definition be32 (b : list byte) (off : nat) : outcome Z :=
  let! s := slice b off (off + 4) in uint32 s.

(** ** Facts *)

Lemma index_lt {A} (l : list A) i : (i < length l)%nat -> exists x, index l i = Ret x /\ l !! i = Some x.
Proof. intros [x Hx]%lookup_lt_is_Some. exists x. unfold index. by rewrite Hx. Qed.

Lemma slice_ok {A} (l : list A) lo hi :
  (lo <= hi <= length l)%nat -> slice l lo hi = Ret (take (hi - lo) (drop lo l)).
Proof. intros. unfold slice. rewrite !(proj2 (Nat.leb_le _ _)) by lia. done. Qed.

Lemma lor_shift_add a b k : 0 <= k -> 0 <= a < 2 ^ k -> 0 <= b ->
  Z.lor a (Z.shiftl b k) = a + b * 2 ^ k.
Proof.
  intros Hk Ha Hb.
  assert (Hland : Z.land a (Z.shiftl b k) = 0).
  { apply Z.bits_inj'. intros n Hn. rewrite Z.land_spec, Z.bits_0.
    destruct (Z.lt_ge_cases n k).
    - rewrite Z.shiftl_spec_low by lia. apply andb_false_r.
    - replace a with (a mod 2 ^ k) by (apply Z.mod_small; lia).
      rewrite Z.mod_pow2_bits_high by lia. done. }
  pose proof (Z.add_lor_land a (Z.shiftl b k)) as E.
  rewrite Hland, Z.shiftl_mul_pow2 in E by lia. rewrite Z.shiftl_mul_pow2 by lia. lia.
Qed.

(** The two bytes at [off] as a number; [u16]/[u32] are the values the guarded
    reads of the source return. *)
Definition u16 (b : list byte) (off : nat) : Z :=
  bval (b !!! (off + 1)%nat) + bval (b !!! off) * 2 ^ 8.
Definition u32 (b : list byte) (off : nat) : Z :=
  bval (b !!! (off + 3)%nat) + bval (b !!! (off + 2)%nat) * 2 ^ 8
    + bval (b !!! (off + 1)%nat) * 2 ^ 16 + bval (b !!! off) * 2 ^ 24.

Lemma lookup_slice {A} (l : list A) lo hi i :
  (lo + i < hi)%nat -> take (hi - lo) (drop lo l) !! i = l !! (lo + i)%nat.
Proof. intros. rewrite lookup_take_lt by lia. apply lookup_drop. Qed.

Lemma be16_ok b off : (off + 2 <= length b)%nat -> be16 b off = Ret (u16 b off).
Proof.
  intros H. unfold be16. rewrite slice_ok by lia. cbn [obind].
  unfold uint16, index. rewrite !lookup_slice by lia. unfold u16.
  rewrite Nat.add_0_r.
  rewrite !(list_lookup_lookup_total_lt b) by lia. cbn [obind].
  pose proof (bval_range (b !!! (off + 1)%nat)). pose proof (bval_range (b !!! off)).
  by rewrite lor_shift_add by lia.
Qed.

Lemma be32_ok b off : (off + 4 <= length b)%nat -> be32 b off = Ret (u32 b off).
Proof.
  intros H. unfold be32. rewrite slice_ok by lia. cbn [obind].
  unfold uint32, index. rewrite !lookup_slice by lia. unfold u32.
  rewrite Nat.add_0_r.
  rewrite !(list_lookup_lookup_total_lt b) by lia. cbn [obind].
  pose proof (bval_range (b !!! (off + 3)%nat)). pose proof (bval_range (b !!! (off + 2)%nat)).
  pose proof (bval_range (b !!! (off + 1)%nat)). pose proof (bval_range (b !!! off)).
  rewrite (lor_shift_add _ _ 8), (lor_shift_add _ _ 16), (lor_shift_add _ _ 24) by lia. done.
Qed.

Lemma u16_range b off : 0 <= u16 b off < 2 ^ 16.
Proof. unfold u16. pose proof (bval_range (b !!! (off + 1)%nat)). pose proof (bval_range (b !!! off)). lia. Qed.

Lemma u32_range b off : 0 <= u32 b off < 2 ^ 32.
Proof.
  unfold u32. pose proof (bval_range (b !!! (off + 3)%nat)). pose proof (bval_range (b !!! (off + 2)%nat)).
  pose proof (bval_range (b !!! (off + 1)%nat)). pose proof (bval_range (b !!! off)). lia.
Qed.

Lemma length_copy_at {A} (dst : list A) k src :
  (k + length src <= length dst)%nat -> length (copy_at dst k src) = length dst.
Proof.
  intros. unfold copy_at. rewrite !length_app, !length_take, length_drop. lia.
Qed.

Lemma lookup_copy_at_out {A} (dst : list A) k src i :
  (k + length src <= length dst)%nat -> (i < k \/ k + length src <= i)%nat ->
  copy_at dst k src !! i = dst !! i.
Proof.
  intros Hl Hi. unfold copy_at. rewrite !(take_ge src) by lia.
  destruct Hi as [Hi|Hi].
  - rewrite lookup_app_l by (rewrite length_take; lia). by rewrite lookup_take_lt.
  - rewrite lookup_app_r by (rewrite length_take; lia).
    rewrite lookup_app_r by (rewrite length_take; lia).
    rewrite lookup_drop, length_take. f_equal. lia.
Qed.

Lemma lookup_copy_at_in {A} (dst : list A) k src i :
  (k + length src <= length dst)%nat -> (i < length src)%nat ->
  copy_at dst k src !! (k + i)%nat = src !! i.
Proof.
  intros Hl Hi. unfold copy_at. rewrite !(take_ge src) by lia.
  rewrite lookup_app_r by (rewrite length_take; lia).
  rewrite lookup_app_l by (rewrite length_take; lia).
  f_equal. rewrite length_take. lia.
Qed.

Lemma put_uint32_ok b off v :
  (off + 4 <= length b)%nat -> put_uint32 b off v = Ret (copy_at b off (uint32_bytes v)).
Proof. intros. unfold put_uint32. by rewrite (proj2 (Nat.leb_le _ _)) by lia. Qed.

Lemma uint32_bytes_val v : 0 <= v < 2 ^ 32 ->
  v mod 256 + (Z.shiftr v 8 mod 256) * 2 ^ 8 + (Z.shiftr v 16 mod 256) * 2 ^ 16
    + (Z.shiftr v 24 mod 256) * 2 ^ 24 = v.
Proof.
  intros. rewrite !Z.shiftr_div_pow2 by lia.
  replace (v / 2 ^ 16) with (v / 2 ^ 8 / 2 ^ 8) by (rewrite Z.div_div by lia; done).
  replace (v / 2 ^ 24) with (v / 2 ^ 8 / 2 ^ 8 / 2 ^ 8) by (rewrite !Z.div_div by lia; done).
  change (2 ^ 8) with 256. change (2 ^ 16) with 65536. change (2 ^ 24) with 16777216.
  pose proof (Z.div_mod v 256 ltac:(lia)). set (q := v / 256) in *.
  pose proof (Z.div_mod q 256 ltac:(lia)). set (r := q / 256) in *.
  pose proof (Z.div_mod r 256 ltac:(lia)). set (t := r / 256) in *.
  pose proof (Z.mod_pos_bound v 256). pose proof (Z.mod_pos_bound q 256).
  pose proof (Z.mod_pos_bound r 256). rewrite (Z.mod_small t) by lia. lia.
Qed.

(** Writing a 32-bit word and reading it back. *)
Lemma u32_put b off v :
  (off + 4 <= length b)%nat -> 0 <= v < 2 ^ 32 -> u32 (copy_at b off (uint32_bytes v)) off = v.
Proof.
  intros Hl Hv. unfold u32.
  assert (Hb : forall i, (i < 4)%nat ->
    copy_at b off (uint32_bytes v) !!! (off + i)%nat = uint32_bytes v !!! i).
  { intros i Hi. rewrite !list_lookup_total_alt, lookup_copy_at_in; simpl; auto. }
  rewrite (Hb 3%nat), (Hb 2%nat), (Hb 1%nat) by lia.
  rewrite <- (Nat.add_0_r off) at 1. rewrite (Hb 0%nat) by lia. simpl.
  rewrite !bval_byte_of. by apply uint32_bytes_val.
Qed.

(** ** ASCII case *)
Definition is_ascii (b : byte) : bool := bval b <? 128.
Definition lower_byte (b : byte) : byte :=
  if (65 <=? bval b) && (bval b <=? 90) then byte_of (bval b + 32) else b.

(** [strings.EqualFold] with a text whose letters fold within ASCII. *)
Definition EqualFold (s t : gostr) : bool := bool_decide (lower_byte <$> s = lower_byte <$> t).
