(* ===== verification/GoSort.v ===== *)
(** * The sorts of Go's standard library

    [sort.SliceStable], [sort.Strings] and [sort.Ints] are modelled by one
    stable insertion sort that takes the comparison [less] of the call.  For a
    strict weak order the stable result is unique, so this is the result the
    library computes; the lemmas below are what the clients use. *)

From S2P Require Import Prelude.
From Stdlib Require Import Sorted.

Section Sort.
Context {A : Type} (less : A -> A -> bool).

(** [x] precedes every element of [l] in the input: it goes behind exactly the
    elements that are strictly less. *)
Fixpoint insert_stable (x : A) (l : list A) : list A :=
  match l with
  | [] => [x]
  | y :: l => if less y x then y :: insert_stable x l else x :: y :: l
  end.

Definition sort_stable (l : list A) : list A := foldr insert_stable [] l.

Lemma insert_stable_perm x l : insert_stable x l ≡ₚ x :: l.
Proof.
  induction l as [|y l IH]; simpl; [done|]. destruct (less y x); [|done].
  rewrite IH. apply perm_swap.
Qed.

Lemma sort_stable_perm l : sort_stable l ≡ₚ l.
Proof. induction l as [|x l IH]; simpl; [done|]. by rewrite insert_stable_perm, IH. Qed.

Lemma sort_stable_elem x l : x ∈ sort_stable l <-> x ∈ l.
Proof. by rewrite sort_stable_perm. Qed.

Lemma sort_stable_length l : length (sort_stable l) = length l.
Proof. by rewrite sort_stable_perm. Qed.

(** A strict weak order: asymmetric, and "not greater" is transitive. *)
Definition weak_order : Prop :=
  (forall a b, less a b = true -> less b a = false) /\
  (forall a b c, less b a = false -> less c b = false -> less c a = false).

Definition ordered : list A -> Prop := StronglySorted (fun a b => less b a = false).

Lemma insert_stable_ordered x l : weak_order -> ordered l -> ordered (insert_stable x l).
Proof.
  intros [Hasym Htrans]. induction 1 as [|y l Hs IH Hy]; simpl.
  - repeat constructor.
  - destruct (less y x) eqn:E.
    + constructor; [done|]. rewrite insert_stable_perm. constructor; [by apply Hasym|done].
    + constructor; [by constructor|]. constructor; [done|].
      eapply Forall_impl; [exact Hy|]. simpl. intros z Hz. by eapply Htrans.
Qed.

Lemma sort_stable_ordered l : weak_order -> ordered (sort_stable l).
Proof. intros Hw. induction l; simpl; [constructor|]. by apply insert_stable_ordered. Qed.

(** The head of a sorted list is not beaten by any element. *)
Lemma sort_stable_head l x r :
  weak_order -> sort_stable l = x :: r -> x ∈ l /\ forall y, y ∈ l -> less y x = false.
Proof.
  intros Hw E. pose proof (sort_stable_ordered l Hw) as Ho. rewrite E in Ho.
  inversion Ho as [|?? _ Hx]; subst. split.
  - apply sort_stable_elem. rewrite E. by left.
  - intros y Hy%sort_stable_elem. rewrite E in Hy. apply elem_of_cons in Hy as [->|Hy].
    + destruct (less x x) eqn:Exx; [|done]. pose proof (proj1 Hw x x Exx). congruence.
    + rewrite Forall_forall in Hx. by apply Hx.
Qed.

Lemma sort_stable_nil l : sort_stable l = [] <-> l = [].
Proof.
  split; [|by intros ->]. intros E. apply Permutation_nil_r. rewrite <- E. symmetry. apply sort_stable_perm.
Qed.

(** An ordered list is left alone. *)
Lemma insert_stable_front x l :
  Forall (fun y => less y x = false) l -> insert_stable x l = x :: l.
Proof. destruct 1 as [|y l Hy _]; simpl; [done|]. by rewrite Hy. Qed.

Lemma sort_stable_id l : ordered l -> sort_stable l = l.
Proof.
  induction 1 as [|x l Hs IH Hx]; simpl; [done|]. rewrite IH. by apply insert_stable_front.
Qed.
End Sort.

(** The comparison of [sort.Ints]. *)
Definition less_int (a b : Z) : bool := Z.ltb a b.

Lemma less_int_order : weak_order less_int.
Proof. unfold weak_order, less_int. split; intros; bool_prop; apply Z.ltb_ge; lia. Qed.

Definition sort_ints (l : list Z) : list Z := sort_stable less_int l.

(** Lexicographic comparison by an integer key and then by another order: the
    shape of the comparison functions of the source. *)
Lemma weak_order_key {A} (key : A -> Z) (less : A -> A -> bool) :
  (forall a b, less a b = (key a <? key b)%Z) -> weak_order less.
Proof.
  intros E. split; intros; rewrite E in *; bool_prop; apply Z.ltb_ge; lia.
Qed.

(** Lexicographic comparison of three integer keys. *)
Definition lex3 (a b : Z * Z * Z) : bool :=
  let '(a1, a2, a3) := a in let '(b1, b2, b3) := b in
  ((a1 <? b1) || ((a1 =? b1) && ((a2 <? b2) || ((a2 =? b2) && (a3 <? b3)))))%Z.

Lemma lex3_spec a1 a2 a3 b1 b2 b3 :
  lex3 (a1, a2, a3) (b1, b2, b3) = true <->
  (a1 < b1 \/ a1 = b1 /\ (a2 < b2 \/ a2 = b2 /\ a3 < b3))%Z.
Proof. simpl. rewrite !orb_true_iff, !andb_true_iff, !orb_true_iff, !andb_true_iff, !Z.ltb_lt, !Z.eqb_eq. done. Qed.

Lemma weak_order_lex3 {A} (key : A -> Z * Z * Z) (less : A -> A -> bool) :
  (forall a b, less a b = lex3 (key a) (key b)) -> weak_order less.
Proof.
  intros E.
  assert (F : forall a b, less a b = false <-> ~ lex3 (key a) (key b) = true)
    by (intros; rewrite E; by destruct (lex3 _ _)).
  split.
  - intros a b. rewrite E, F. destruct (key a) as [[a1 a2] a3], (key b) as [[b1 b2] b3].
    rewrite !lex3_spec. lia.
  - intros a b c. rewrite !F. destruct (key a) as [[a1 a2] a3], (key b) as [[b1 b2] b3], (key c) as [[c1 c2] c3].
    rewrite !lex3_spec. lia.
Qed.
