(* ===== verification/GoRegexp.v ===== *)
(** * Regular expressions

    The part of Go's [regexp] the modelled code uses, on bytes: literals,
    classes, sequences, alternatives, repetition, the anchors and the ASCII word
    boundary.  [MatchString] is an executable search with backtracking; it decides
    the declarative relation [Matches]. *)

From Stdlib Require Import String.
From S2P Require Import Prelude GoBase.
Open Scope Z_scope.

Inductive re :=
| Eps
| Class (p : byte -> bool)
| Cat (a b : re)
| Alt (a b : re)
| Star (a : re)
| Bol                       (* start of the text *)
| Eol                       (* end of the text *)
| WordB.                    (* ASCII word boundary *)

(** ** Building blocks *)

Definition in_range (lo hi : Z) (b : byte) : bool := (lo <=? bval b) && (bval b <=? hi).
Definition is_byte (c : byte) (b : byte) : bool := bool_decide (b = c).
Definition is_digit09 : byte -> bool := in_range 48 57.
Definition is_hex (b : byte) : bool := is_digit09 b || in_range 97 102 b.
Definition is_upper : byte -> bool := in_range 65 90.
Definition is_lower : byte -> bool := in_range 97 122.
Definition is_word (b : byte) : bool := is_digit09 b || is_upper b || is_lower b || is_byte x5f b.
(** [\s]. *)
Definition is_blank (b : byte) : bool := is_byte x09 b || is_byte x0a b || is_byte x0c b || is_byte x0d b || is_byte x20 b.

(** A literal. *)
Fixpoint lit (s : gostr) : re := match s with [] => Eps | c :: s => Cat (Class (is_byte c)) (lit s) end.
Fixpoint alts (l : list re) : re := match l with [] => Class (fun _ => false) | [a] => a | a :: l => Alt a (alts l) end.
Definition plus (a : re) : re := Cat a (Star a).
Definition opt (a : re) : re := Alt a Eps.
Fixpoint rep (n : nat) (a : re) : re := match n with O => Eps | S n => Cat a (rep n a) end.
(** [a{lo,lo+more}]. *)
Fixpoint rep_more (more : nat) (a : re) : re := match more with O => Eps | S more => opt (Cat a (rep_more more a)) end.
Definition rep_between (lo more : nat) (a : re) : re := Cat (rep lo a) (rep_more more a).

(** A literal under the flag [i], written in lower case: besides the two ASCII
    cases, [s] also folds to U+017F and [k] to U+212A. *)
Definition fold_byte (c : byte) : re :=
  let both := Class (fun b => is_byte c b || (is_lower c && (bval b =? bval c - 32))) in
  if bool_decide (c = x73) then Alt both (lit [xc5; xbf])
  else if bool_decide (c = x6b) then Alt both (lit [xe2; x84; xaa]) else both.
Fixpoint lit_fold (s : gostr) : re := match s with [] => Eps | c :: s => Cat (fold_byte c) (lit_fold s) end.

(** ** Matching *)

Definition word_at (p : option byte) : bool := match p with Some b => is_word b | None => false end.

(** [Matches r p s p' s']: from the text [s] behind the byte [p] ([None] at the
    start), [r] can consume up to [s']. *)
Inductive Matches : re -> option byte -> gostr -> option byte -> gostr -> Prop :=
| m_eps p s : Matches Eps p s p s
| m_class f p b s : f b = true -> Matches (Class f) p (b :: s) (Some b) s
| m_cat a b p1 s1 p2 s2 p3 s3 : Matches a p1 s1 p2 s2 -> Matches b p2 s2 p3 s3 -> Matches (Cat a b) p1 s1 p3 s3
| m_left a b p s p' s' : Matches a p s p' s' -> Matches (Alt a b) p s p' s'
| m_right a b p s p' s' : Matches b p s p' s' -> Matches (Alt a b) p s p' s'
| m_stop a p s : Matches (Star a) p s p s
| m_more a p1 s1 p2 s2 p3 s3 : Matches a p1 s1 p2 s2 -> Matches (Star a) p2 s2 p3 s3 -> Matches (Star a) p1 s1 p3 s3
| m_bol s : Matches Bol None s None s
| m_eol p : Matches Eol p [] p []
| m_word p s : word_at p <> word_at (head s) -> Matches WordB p s p s.

(** The backtracking matcher with a continuation; a round of a repetition has to
    consume something. *)
Fixpoint run_re (r : re) (p : option byte) (s : gostr) (k : option byte -> gostr -> bool) : bool :=
  match r with
  | Eps => k p s
  | Class f => match s with b :: s' => if f b then k (Some b) s' else false | [] => false end
  | Cat a b => run_re a p s (fun p s => run_re b p s k)
  | Alt a b => if run_re a p s k then true else run_re b p s k
  | Star a =>
      (fix loop (n : nat) (p : option byte) (s : gostr) : bool :=
         if k p s then true
         else match n with
              | O => false
              | S n => run_re a p s (fun p' s' => if (length s' <? length s)%nat then loop n p' s' else false)
              end) (length s) p s
  | Bol => match p with None => k p s | Some _ => false end
  | Eol => match s with [] => k p s | _ => false end
  | WordB => if Bool.eqb (word_at p) (word_at (head s)) then false else k p s
  end.

(** [Regexp.MatchString]: a match anywhere in the text. *)
Fixpoint search (r : re) (p : option byte) (s : gostr) : bool :=
  if run_re r p s (fun _ _ => true) then true else match s with [] => false | b :: s => search r (Some b) s end.
Definition MatchString (r : re) (s : gostr) : bool := search r None s.

(** ** Correctness of the matcher *)

Lemma Matches_suffix r p s p' s' : Matches r p s p' s' -> s' `suffix_of` s /\ (s' = s -> p' = p).
Proof.
  induction 1 as [| |? ? ? ? ? ? ? ? ? IH1 ? IH2| | | |? ? ? ? ? ? ? ? IH1 ? IH2| | |]; try done.
  - split; [by apply suffix_cons_r|]. intros E. apply (f_equal length) in E. simpl in E. lia.
  - destruct IH1 as [S1 E1], IH2 as [S2 E2]. split; [by etrans|]. intros ->.
    assert (s2 = s1) as -> by (apply (anti_symm suffix); done). rewrite E2; auto.
  - destruct IH1 as [S1 E1], IH2 as [S2 E2]. split; [by etrans|]. intros ->.
    assert (s2 = s1) as -> by (apply (anti_symm suffix); done). rewrite E2; auto.
Qed.

Lemma Matches_shorter r p s p' s' : Matches r p s p' s' -> (p', s') = (p, s) \/ (length s' < length s)%nat.
Proof.
  intros H. destruct (Matches_suffix _ _ _ _ _ H) as [[l ->] E]. destruct l as [|b l]; [left; by rewrite E|].
  right. rewrite length_app. simpl. lia.
Qed.

(** The matcher tests with conditionals, which evaluate only what they need. *)
Lemma lazy_and (a b : bool) : (if a then b else false) = true <-> a = true /\ b = true.
Proof. destruct a; naive_solver. Qed.
Lemma lazy_or (a b : bool) : (if a then true else b) = true <-> a = true \/ b = true.
Proof. destruct a; naive_solver. Qed.

Section Loop.
Context (a : re) (k : option byte -> gostr -> bool).
Context (IHa : forall p s (k : option byte -> gostr -> bool), run_re a p s k = true <-> exists p' s', Matches a p s p' s' /\ k p' s' = true).

Definition star_loop : nat -> option byte -> gostr -> bool :=
  fix loop (n : nat) (p : option byte) (s : gostr) : bool :=
    if k p s then true
    else match n with
         | O => false
         | S n => run_re a p s (fun p' s' => if (length s' <? length s)%nat then loop n p' s' else false)
         end.

Lemma star_loop_sound n : forall p s, star_loop n p s = true -> exists p' s', Matches (Star a) p s p' s' /\ k p' s' = true.
Proof using IHa.
  induction n as [|n IH]; intros p s H; simpl in H; apply lazy_or in H as [H|H]; try done;
    try (exists p, s; split; [constructor|done]).
  apply IHa in H as (p1 & s1 & Hm & H). apply lazy_and in H as [_ H].
  apply IH in H as (p2 & s2 & Hs & Hk). exists p2, s2. split; [by econstructor|done].
Qed.

Lemma star_loop_complete p s p' s' :
  Matches (Star a) p s p' s' -> k p' s' = true -> forall n, (length s <= n)%nat -> star_loop n p s = true.
Proof using IHa.
  intros H Hk. remember (Star a) as r eqn:Er. revert Er. induction H; intros [=]; subst.
  - intros n _. destruct n; simpl; by rewrite Hk.
  - intros n Hn. destruct (Matches_shorter _ _ _ _ _ H) as [[= -> ->]|Hl]; [by apply IHMatches2|].
    destruct n as [|n]; [lia|]. simpl. apply lazy_or. right. apply IHa. exists p2, s2. split; [done|].
    apply lazy_and. split; [by apply Nat.ltb_lt|]. apply IHMatches2; [done|done|lia].
Qed.
End Loop.

Lemma run_correct r : forall p s (k : option byte -> gostr -> bool),
  run_re r p s k = true <-> exists p' s', Matches r p s p' s' /\ k p' s' = true.
Proof.
  induction r as [|f|a IHa b IHb|a IHa b IHb|a IHa| | |]; intros p s k.
  - split; [intros H; exists p, s; split; [constructor|done]|]. intros (? & ? & H & ?). by inversion H; subst.
  - simpl. split.
    + destruct s as [|b s]; [done|]. intros [Hf Hk]%lazy_and. exists (Some b), s. split; [by constructor|done].
    + intros (? & ? & H & Hk). inversion H; subst. apply lazy_and. done.
  - simpl. rewrite IHa. split.
    + intros (p1 & s1 & H1 & H%IHb). destruct H as (p2 & s2 & H2 & Hk). exists p2, s2. split; [by econstructor|done].
    + intros (p2 & s2 & H & Hk). inversion H; subst. eexists _, _. split; [done|]. apply IHb. eauto.
  - simpl. rewrite lazy_or, IHa, IHb. split.
    + intros [(p' & s' & H & Hk)|(p' & s' & H & Hk)]; exists p', s'; (split; [|done]); [by apply m_left|by apply m_right].
    + intros (p' & s' & H & Hk). inversion H; subst; [left|right]; eauto.
  - change (run_re (Star a) p s k) with (star_loop a k (length s) p s). split; [by apply star_loop_sound|].
    intros (p' & s' & H & Hk). by eapply star_loop_complete.
  - simpl. split; [destruct p; [done|]; intros; exists None, s; split; [constructor|done]|].
    intros (? & ? & H & ?). by inversion H; subst.
  - simpl. split; [destruct s; [|done]; intros; exists p, []; split; [constructor|done]|].
    intros (? & ? & H & ?). by inversion H; subst.
  - simpl. destruct (Bool.eqb (word_at p) (word_at (head s))) eqn:E.
    + split; [done|]. apply Bool.eqb_prop in E. intros (? & ? & H & ?). inversion H; congruence.
    + apply Bool.eqb_false_iff in E. split; [intros Hk; exists p, s; split; [by constructor|done]|].
      intros (? & ? & H & ?). by inversion H; subst.
Qed.

(** A match at some position; [last_byte pre p] is the byte before the rest. *)
Definition last_byte (pre : gostr) (p : option byte) : option byte := match last pre with Some b => Some b | None => p end.

Lemma search_correct r : forall s p, search r p s = true <->
  exists pre rest p' s', s = pre ++ rest /\ Matches r (last_byte pre p) rest p' s'.
Proof.
  induction s as [|b s IH]; intros p; simpl; rewrite lazy_or, run_correct.
  - split.
    + intros [(p' & s' & H & _)|]; [|done]. by exists [], [], p', s'.
    + intros (pre & rest & p' & s' & E & H). left. symmetry in E. apply app_eq_nil in E as [-> ->]. eauto.
  - rewrite IH. split.
    + intros [(p' & s' & H & _)|(pre & rest & p' & s' & -> & H)]; [by exists [], (b :: s), p', s'|].
      exists (b :: pre), rest, p', s'. split; [done|]. unfold last_byte in *. rewrite last_cons. by destruct (last pre).
    + intros ([|c pre] & rest & p' & s' & E & H); [left; simpl in E; subst; eauto|]. right.
      injection E as <- ->. exists pre, rest, p', s'. split; [done|]. unfold last_byte in *. rewrite last_cons in H. by destruct (last pre).
Qed.

(** Patterns between [^] and [$] describe the whole text. *)
Definition full (r : re) : re := Cat Bol (Cat r Eol).

Lemma last_byte_none pre : last_byte pre None = None -> pre = [].
Proof. unfold last_byte. destruct (last pre) eqn:E; [done|]. by apply last_None in E. Qed.

Lemma full_match r s : MatchString (full r) s = true <-> exists p, Matches r None s p [].
Proof.
  unfold MatchString. rewrite search_correct. split.
  - intros (pre & rest & p' & s' & -> & H). inversion H as [| |? ? ? ? ? ? ? ? Hb Hc| | | | | | |]; subst. inversion Hb as [| | | | | | |s0 Hp| |]; subst.
    match goal with E : None = last_byte _ _ |- _ => symmetry in E; apply last_byte_none in E; subst end.
    inversion Hc as [| |? ? ? ? ? ? ? ? Hr He| | | | | | |]; subst. inversion He; subst. eauto.
  - intros (p & H). exists [], s, p, []. split; [done|]. simpl. repeat (econstructor; try done).
Qed.

(** Literals and repetitions of a class. *)
Lemma match_lit w : forall p s p' s', Matches (lit w) p s p' s' <-> s = w ++ s' /\ p' = last_byte w p.
Proof.
  induction w as [|c w IH]; intros p s p' s'; simpl.
  - split; [by inversion 1|]. intros [-> ->]. constructor.
  - split.
    + inversion 1 as [| |? ? ? ? ? ? ? ? Ha Hb| | | | | | |]; subst. inversion Ha; subst.
      match goal with E : is_byte _ _ = true |- _ => apply bool_decide_eq_true in E; subst end.
      apply IH in Hb as [-> ->]. split; [done|]. unfold last_byte. rewrite last_cons. by destruct (last w).
    + intros [-> ->]. econstructor; [constructor; by apply bool_decide_eq_true|]. apply IH. split; [done|].
      unfold last_byte. rewrite last_cons. by destruct (last w).
Qed.

Lemma match_rep n f : forall p s p' s', Matches (rep n (Class f)) p s p' s' <->
  exists w, s = w ++ s' /\ length w = n /\ forallb f w = true /\ p' = last_byte w p.
Proof.
  induction n as [|n IH]; intros p s p' s'; simpl.
  - split; [inversion 1; subst; by exists []|]. intros (w & -> & Hl & _ & ->). destruct w; [constructor|done].
  - split.
    + inversion 1 as [| |? ? ? ? ? ? ? ? Ha Hb| | | | | | |]; subst. inversion Ha as [|? ? c| | | | | | | |]; subst.
      apply IH in Hb as (w & -> & Hl & Hf & ->). exists (c :: w). split; [done|]. split; [simpl; lia|].
      split; [simpl; by apply andb_true_iff|]. unfold last_byte. rewrite last_cons. by destruct (last w).
    + intros ([|b w] & -> & Hl & Hf & ->); [done|]. simpl in *. apply andb_true_iff in Hf as [Hb Hf].
      econstructor; [by constructor|]. apply IH. exists w. split; [done|]. split; [lia|]. split; [done|].
      unfold last_byte. rewrite last_cons. by destruct (last w).
Qed.

(** [^prefix[class]{n}$] describes the prefix followed by [n] bytes of the class. *)
Lemma prefix_rep_match w n f s :
  MatchString (full (Cat (lit w) (rep n (Class f)))) s = true <->
  exists v, s = w ++ v /\ length v = n /\ forallb f v = true.
Proof.
  rewrite full_match. split.
  - intros (p & H). inversion H as [| |? ? ? ? ? ? ? ? Ha Hb| | | | | | |]; subst. apply match_lit in Ha as [-> ->].
    apply match_rep in Hb as (v & -> & Hl & Hf & _). exists v. by rewrite app_nil_r.
  - intros (v & -> & Hl & Hf). eexists. econstructor; [by apply match_lit|]. apply match_rep. exists v. by rewrite app_nil_r.
Qed.
