(* ===== verification/GoText.v ===== *)
(** * The text routines of Go's standard library that the sources call

    Strings are lists of bytes ([gostr]).  White space is [unicode.IsSpace]: its
    members beyond ASCII are matched by their UTF-8 encodings, which start with a
    byte that never occurs inside another encoded rune, so a match at any byte
    position is a match of [strings]' rune-wise scan. *)

From S2P Require Import Prelude GoBase.
Open Scope Z_scope.

(** ** [strings.TrimSpace] and [strings.Fields] *)

Definition ascii_space (b : byte) : bool := let n := bval b in ((9 <=? n) && (n <=? 13)) || (n =? 32).

(** The encodings of the white-space runes beyond ASCII. *)
Definition wide_spaces : list gostr :=
  [[xc2; x85]; [xc2; xa0]; [xe1; x9a; x80];
   [xe2; x80; x80]; [xe2; x80; x81]; [xe2; x80; x82]; [xe2; x80; x83]; [xe2; x80; x84]; [xe2; x80; x85];
   [xe2; x80; x86]; [xe2; x80; x87]; [xe2; x80; x88]; [xe2; x80; x89]; [xe2; x80; x8a];
   [xe2; x80; xa8]; [xe2; x80; xa9]; [xe2; x80; xaf]; [xe2; x81; x9f]; [xe3; x80; x80]].

Definition wide_space_at (s : gostr) : option gostr := head (filter (fun w => bool_decide (take (length w) s = w) = true) wide_spaces).

(** The number of bytes of the white-space rune at the start of a string, zero
    when it does not start with one. *)
Definition space_width (s : gostr) : nat :=
  match s with
  | [] => 0
  | b :: _ => if ascii_space b then 1 else match wide_space_at s with Some w => length w | None => 0 end
  end.

(** The same at the end of a string given in reverse. *)
Definition wide_space_end (r : gostr) : option gostr :=
  head (filter (fun w => bool_decide (take (length w) r = rev w) = true) wide_spaces).
Definition space_width_end (r : gostr) : nat :=
  match r with
  | [] => 0
  | b :: _ => if ascii_space b then 1 else match wide_space_end r with Some w => length w | None => 0 end
  end.

Fixpoint strip (width : gostr -> nat) (fuel : nat) (s : gostr) : gostr :=
  match fuel with
  | O => s
  | S fuel => match width s with O => s | n => strip width fuel (drop n s) end
  end.

Definition TrimSpace (s : gostr) : gostr :=
  let s := strip space_width (length s) s in
  rev (strip space_width_end (length s) (rev s)).

(** [strings.Fields]: the maximal runs without white space; [word] is the run
    being read, in reverse, and [skip] the bytes of the current space rune that
    are still to be passed over. *)
Fixpoint fields_loop (s word : gostr) (skip : nat) : list gostr :=
  let emit rest := match word with [] => rest | _ => rev word :: rest end in
  match s with
  | [] => emit []
  | b :: rest =>
      match skip with
      | S skip => fields_loop rest word skip
      | O => match space_width s with
             | O => fields_loop rest (b :: word) 0
             | S n => emit (fields_loop rest [] n)
             end
      end
  end.
Definition Fields (s : gostr) : list gostr := fields_loop s [] 0.

(** ** [strings.CutSuffix], [strings.Cut] and [strings.Split] *)

Definition CutSuffix (s suffix : gostr) : option gostr :=
  let n := (length s - length suffix)%nat in
  if bool_decide (length suffix <= length s)%nat && bool_decide (drop n s = suffix) then Some (take n s) else None.

(** [strings.Cut] and [strings.Split] with a one-byte separator. *)
Fixpoint Cut (s : gostr) (sep : byte) : option (gostr * gostr) :=
  match s with
  | [] => None
  | b :: rest =>
      if bool_decide (b = sep) then Some ([], rest)
      else match Cut rest sep with Some (p, q) => Some (b :: p, q) | None => None end
  end.

Fixpoint Split (s : gostr) (sep : byte) : list gostr :=
  match s with
  | [] => [[]]
  | b :: rest =>
      let tail := Split rest sep in
      if bool_decide (b = sep) then [] :: tail
      else match tail with w :: ws => (b :: w) :: ws | [] => [[b]] end
  end.

(** ** [strconv.ParseInt] with base 10

    [None] is a syntax or a range error, which no caller distinguishes. *)

Definition digit (b : byte) : option Z :=
  let n := bval b in if (48 <=? n) && (n <=? 57) then Some (n - 48) else None.

Fixpoint parse_digits (s : gostr) (acc : Z) : option Z :=
  match s with
  | [] => Some acc
  | b :: rest => match digit b with Some d => parse_digits rest (acc * 10 + d) | None => None end
  end.

Definition parse_unsigned (s : gostr) : option Z := match s with [] => None | _ => parse_digits s 0 end.

Definition ParseInt (s : gostr) (bits : Z) : option Z :=
  let '(neg, body) := match s with
                      | b :: rest => if bool_decide (b = x2d) then (true, rest)
                                     else if bool_decide (b = x2b) then (false, rest) else (false, s)
                      | [] => (false, []) end in
  match parse_unsigned body with
  | None => None
  | Some n =>
      if negb neg && (n <? 2 ^ (bits - 1)) then Some n
      else if neg && (n <=? 2 ^ (bits - 1)) then Some (- n) else None
  end.

(** ** Facts *)

Lemma parse_digits_nonneg s acc n : 0 <= acc -> parse_digits s acc = Some n -> 0 <= n.
Proof.
  revert acc. induction s as [|b s IH]; simpl; intros acc Ha; [naive_solver|].
  unfold digit. destruct (_ && _) eqn:E; [|done]. bool_prop. apply IH. lia.
Qed.

Lemma ParseInt_range s bits n :
  1 <= bits -> ParseInt s bits = Some n -> - 2 ^ (bits - 1) <= n < 2 ^ (bits - 1).
Proof.
  intros Hb. unfold ParseInt. destruct (match s with [] => _ | _ => _ end) as [neg body].
  unfold parse_unsigned. destruct body as [|b body]; [done|].
  destruct (parse_digits (b :: body) 0) as [v|] eqn:E; [|done].
  assert (0 <= v) by (by eapply parse_digits_nonneg in E).
  assert (0 < 2 ^ (bits - 1)) by (apply Z.pow_pos_nonneg; lia).
  intros Hn. destruct neg; simpl in Hn; case_tests_in Hn; simplify_eq; lia.
Qed.

(** The decimal digits of a number, as [strconv.FormatInt] prints them. *)
Fixpoint digits_loop (fuel : nat) (n : Z) (acc : gostr) : gostr :=
  match fuel with
  | O => acc
  | S fuel =>
      let acc := byte_of (48 + n mod 10) :: acc in
      if n <? 10 then acc else digits_loop fuel (n / 10) acc
  end.
Definition Itoa (n : Z) : gostr := digits_loop 20 n [].

Definition FormatInt (n : Z) : gostr := if n <? 0 then x2d :: Itoa (- n) else Itoa n.

Example trim_example : TrimSpace (bs "	 12 ") = bs "12".
Proof. vm_compute. reflexivity. Qed.
Example trim_wide : TrimSpace ([xc2; xa0] ++ bs "x" ++ [xe2; x80; x83]) = bs "x".
Proof. vm_compute. reflexivity. Qed.
Example fields_example : Fields (bs " 12 34  56") = [bs "12"; bs "34"; bs "56"].
Proof. vm_compute. reflexivity. Qed.
Example parse_example : (ParseInt (bs "-128") 8, ParseInt (bs "128") 8, ParseInt (bs "+7") 64, ParseInt (bs "") 64)
  = (Some (-128), None, Some 7, None).
Proof. vm_compute. reflexivity. Qed.

(** ** Printing and reading integers *)

Lemma digit_byte d : 0 <= d < 10 -> digit (byte_of (48 + d)) = Some d.
Proof. intros Hd. unfold digit. rewrite bval_byte_of, Z.mod_small by lia. case_tests. f_equal. lia. Qed.

Lemma parse_digits_app s t acc :
  parse_digits (s ++ t) acc = match parse_digits s acc with Some v => parse_digits t v | None => None end.
Proof. revert acc. induction s as [|b s IH]; intros acc; simpl; [done|]. by destruct (digit b). Qed.

Definition is_digit (b : byte) : bool := match digit b with Some _ => true | None => false end.

Lemma digits_loop_spec fuel n acc : 0 <= n < 10 ^ Z.of_nat fuel -> (0 < fuel)%nat ->
  exists ds, digits_loop fuel n acc = ds ++ acc /\ ds <> [] /\ parse_digits ds 0 = Some n /\
    Forall (fun b => is_digit b = true) ds.
Proof.
  revert n acc. induction fuel as [|fuel IH]; intros n acc Hn Hf; [lia|].
  pose proof (Z.mod_pos_bound n 10 ltac:(lia)) as Hm. pose proof (Z.div_mod n 10 ltac:(lia)) as Hd.
  assert (Hb : is_digit (byte_of (48 + n mod 10)) = true) by (unfold is_digit; by rewrite digit_byte).
  cbn [digits_loop]. destruct (Z.ltb_spec n 10).
  - exists [byte_of (48 + n mod 10)]. split; [done|]. split; [done|]. split; [|by repeat constructor].
    cbn [parse_digits]. rewrite digit_byte by done. f_equal. rewrite Z.mod_small by lia. lia.
  - assert (Hp : 10 ^ Z.of_nat (S fuel) = 10 * 10 ^ Z.of_nat fuel) by (rewrite Nat2Z.inj_succ, Z.pow_succ_r by lia; done).
    assert (Hq : 1 <= n / 10 < 10 ^ Z.of_nat fuel).
    { rewrite Hp in Hn. split; [apply Z.div_le_lower_bound; lia|apply Z.div_lt_upper_bound; lia]. }
    destruct fuel as [|fuel]; [simpl in Hq; lia|].
    destruct (IH (n / 10) (byte_of (48 + n mod 10) :: acc) ltac:(lia) ltac:(lia)) as (ds & E & Hne & Hpd & Hall).
    exists (ds ++ [byte_of (48 + n mod 10)]). rewrite E, <- (assoc_L (++)). split; [done|].
    split; [by destruct ds|]. split; [|by apply Forall_app; split; [|repeat constructor]].
    rewrite parse_digits_app, Hpd. cbn [parse_digits]. rewrite digit_byte by done. f_equal. lia.
Qed.

Lemma Itoa_spec n : 0 <= n < 10 ^ 20 ->
  Itoa n <> [] /\ parse_digits (Itoa n) 0 = Some n /\ Forall (fun b => is_digit b = true) (Itoa n).
Proof.
  intros Hn. destruct (digits_loop_spec 20 n [] ltac:(simpl; lia) ltac:(lia)) as (ds & E & H).
  unfold Itoa. rewrite E, app_nil_r. done.
Qed.

(** The characters of a printed integer. *)
Definition int_byte (b : byte) : bool := is_digit b || bool_decide (b = x2d).

Lemma FormatInt_bytes n : i64 n -> FormatInt n <> [] /\ Forall (fun b => int_byte b = true) (FormatInt n).
Proof.
  unfold i64, min_i64, max_i64, FormatInt. intros Hn. destruct (Z.ltb_spec n 0).
  - destruct (Itoa_spec (- n) ltac:(lia)) as (_ & _ & H1). split; [done|]. constructor; [done|].
    eapply Forall_impl; [exact H1|]. intros b Hb. unfold int_byte. by rewrite Hb.
  - destruct (Itoa_spec n ltac:(lia)) as (H0 & _ & H1). split; [done|].
    eapply Forall_impl; [exact H1|]. intros b Hb. unfold int_byte. by rewrite Hb.
Qed.

Lemma ParseInt_digits s n :
  s <> [] -> Forall (fun b => is_digit b = true) s -> parse_digits s 0 = Some n -> n < 2 ^ 63 -> ParseInt s 64 = Some n.
Proof.
  intros Hne Hall Hp Hn. unfold ParseInt. destruct s as [|b s]; [done|].
  inversion Hall as [|? ? Hb _]; subst.
  assert (b <> x2d /\ b <> x2b) as [H1 H2] by (split; intros ->; vm_compute in Hb; done).
  rewrite !bool_decide_eq_false_2 by done. unfold parse_unsigned. rewrite Hp. simpl. change (64 - 1) with 63.
  rewrite (proj2 (Z.ltb_lt _ _)) by done. done.
Qed.

Lemma ParseInt_FormatInt n : i64 n -> ParseInt (FormatInt n) 64 = Some n.
Proof.
  unfold i64, min_i64, max_i64, FormatInt. intros Hn. destruct (Z.ltb_spec n 0).
  - destruct (Itoa_spec (- n) ltac:(lia)) as (H0 & H1 & _). unfold ParseInt. rewrite bool_decide_eq_true_2 by done.
    unfold parse_unsigned. destruct (Itoa (- n)) as [|b s]; [done|]. rewrite H1. simpl negb. cbv iota. cbn [andb].
    change (64 - 1) with 63. rewrite (proj2 (Z.leb_le _ _)) by lia. f_equal. lia.
  - destruct (Itoa_spec n ltac:(lia)) as (H0 & H1 & H2). apply ParseInt_digits; try done. lia.
Qed.

(** White space. *)
Lemma int_byte_ascii b : int_byte b = true -> bval b < 128 /\ ascii_space b = false.
Proof. destruct b; intros H; first [vm_compute in H; discriminate H|vm_compute; split; reflexivity]. Qed.

(** An ASCII byte neither starts nor ends a wide space. *)
Definition wide_head (w : gostr) : bool := match w with x :: _ => 128 <=? bval x | [] => false end.
Lemma wide_heads : (forallb wide_head wide_spaces && forallb (fun w => wide_head (rev w)) wide_spaces) = true.
Proof. vm_compute. reflexivity. Qed.

Lemma no_wide (f : gostr -> gostr) b s :
  (forall w, length (f w) = length w) -> forallb (fun w => wide_head (f w)) wide_spaces = true -> bval b < 128 ->
  filter (fun w => bool_decide (take (length w) (b :: s) = f w) = true) wide_spaces = [].
Proof.
  intros Hlen Hw Hb. rewrite forallb_forall in Hw.
  induction wide_spaces as [|w l IH]; [done|]. rewrite filter_cons_False.
  - apply IH. intros x Hx. apply Hw. by right.
  - specialize (Hw w (or_introl eq_refl)). rewrite bool_decide_eq_true. intros E. unfold wide_head in Hw.
    destruct (f w) as [|x r]; [done|]. destruct (length w); simpl in E; [done|]. injection E as -> _. bool_prop. lia.
Qed.

Lemma int_byte_plain b s : int_byte b = true -> space_width (b :: s) = 0%nat.
Proof.
  intros [Hb Hs]%int_byte_ascii. unfold space_width, wide_space_at. rewrite Hs.
  pose proof wide_heads as Hw. bool_prop. rewrite (no_wide (fun w => w)) by done. done.
Qed.

Lemma int_byte_plain_end b s : int_byte b = true -> space_width_end (b :: s) = 0%nat.
Proof.
  intros [Hb Hs]%int_byte_ascii. unfold space_width_end, wide_space_end. rewrite Hs.
  pose proof wide_heads as Hw. bool_prop. rewrite (no_wide (@rev byte)); [done|intros; apply length_rev|done|done].
Qed.

Lemma strip_plain width fuel s : width s = 0%nat -> strip width fuel s = s.
Proof. intros H. destruct fuel; simpl; [done|]. by rewrite H. Qed.

Lemma TrimSpace_int s : s <> [] -> Forall (fun b => int_byte b = true) s -> TrimSpace s = s.
Proof.
  intros Hne Hall. unfold TrimSpace.
  destruct s as [|b s]; [done|]. inversion Hall; subst.
  rewrite (strip_plain space_width) by (by apply int_byte_plain).
  destruct (rev (b :: s)) as [|x r] eqn:E; [by apply (f_equal (@length _)) in E; rewrite length_rev in E|].
  assert (Hx : int_byte x = true).
  { rewrite Forall_forall in Hall. apply Hall. apply list_elem_of_In, in_rev. rewrite E. by left. }
  rewrite (strip_plain space_width_end) by (by apply int_byte_plain_end).
  by rewrite <- E, rev_involutive.
Qed.

(** Splitting text made of lines. *)
Lemma Split_plain s sep : sep ∉ s -> Split s sep = [s].
Proof.
  induction s as [|b s IH]; simpl; intros Hn; [done|].
  rewrite bool_decide_eq_false_2 by set_solver. rewrite IH by set_solver. done.
Qed.

Lemma Split_line s sep rest : sep ∉ s -> Split (s ++ sep :: rest) sep = s :: Split rest sep.
Proof.
  induction s as [|b s IH]; simpl; intros Hn; [by rewrite bool_decide_eq_true_2|].
  rewrite bool_decide_eq_false_2 by set_solver. rewrite IH by set_solver. done.
Qed.
