(* ===== verification/GoFloat.v ===== *)
(** * [float64]

    Go's [float64] is IEEE 754 binary64.  The model is the Standard Library's
    executable specification of the binary formats, [SpecFloat], at precision 53
    and maximal exponent 1024. *)

From Stdlib Require Export Floats.SpecFloat.
From S2P Require Import Prelude GoBase.
Open Scope Z_scope.

Definition f64 : Type := spec_float.
Definition prec : Z := 53.
Definition emax : Z := 1024.

Definition fzero : f64 := S754_zero false.
Definition fadd : f64 -> f64 -> f64 := SFadd prec emax.
Definition fsub : f64 -> f64 -> f64 := SFsub prec emax.
Definition fmul : f64 -> f64 -> f64 := SFmul prec emax.
Definition fdiv : f64 -> f64 -> f64 := SFdiv prec emax.
Definition fabs : f64 -> f64 := SFabs.

(** [a < b], [a <= b], [a > b], [a >= b] and [a == b]: false when an operand is
    not a number. *)
Definition flt (a b : f64) : bool := match SFcompare a b with Some Lt => true | _ => false end.
Definition fle (a b : f64) : bool := match SFcompare a b with Some (Lt | Eq) => true | _ => false end.
Definition fgt (a b : f64) : bool := flt b a.
Definition fge (a b : f64) : bool := fle b a.
Definition feq (a b : f64) : bool := match SFcompare a b with Some Eq => true | _ => false end.

(** [float64(n)] for an integer: the nearest representable value. *)
Definition f64_of_Z (z : Z) : f64 := binary_normalize prec emax z 0 false.

Definition is_nan (a : f64) : bool := match a with S754_nan => true | _ => false end.

(** Numbers are totally ordered. *)
Lemma SFcompare_nan a b : SFcompare a b = None <-> is_nan a = true \/ is_nan b = true.
Proof.
  destruct a as [s|s| |s m e], b as [s'|s'| |s' m' e']; simpl; try (by intuition discriminate);
    destruct s; try destruct s'; simpl; try (by intuition discriminate);
    destruct (e ?= e')%Z; try (by intuition discriminate); destruct (Pos.compare_cont _ _ _); intuition discriminate.
Qed.

Lemma fle_total a b : is_nan a = false -> is_nan b = false -> fle a b = false -> flt b a = true.
Proof.
  assert (Hpos : forall m m', PosDef.Pos.compare_cont Eq m' m = CompOpp (PosDef.Pos.compare_cont Eq m m'))
    by (intros m m'; exact (Pos.compare_antisym m m')).
  intros Ha Hb. unfold fle, flt.
  destruct a as [s|s| |s m e], b as [s'|s'| |s' m' e']; simpl in *; try done;
    destruct s; try destruct s'; simpl; try done;
    rewrite (Z.compare_antisym e e'); destruct (e ?= e')%Z eqn:E; simpl; try done;
    rewrite (Hpos m m'); by destruct (PosDef.Pos.compare_cont Eq m m').
Qed.

Example f64_example : fle (fsub (f64_of_Z 1700000060) (f64_of_Z 1700000000)) (f64_of_Z 60) = true.
Proof. vm_compute. reflexivity. Qed.
