(* ===== verification/GoTime.v ===== *)
(** * Calendar dates and RFC 3339 stamps of package [time]

    Instants are nanoseconds since the Unix epoch.  [civil] is the proleptic
    Gregorian date of a day number and [days_of_civil] its inverse;
    [FormatRFC3339] and [FormatDate] print an instant in UTC, [parseRFC3339] is
    the library's strict reader.  [time.Parse] falls back to a lenient scanner
    for other texts, which is the parameter of [ParseRFC3339]. *)

From Stdlib Require Import String.
From S2P Require Import Prelude GoBase GoText.
Open Scope Z_scope.

(** ** Dates *)

(** Day number (0 is 1970-01-01) to (year, month, day): years start in March, an
    era is 400 years. *)
Definition civil_of_era (doe : Z) : Z * Z * Z :=
  let yoe := (doe - doe / 1460 + doe / 36524 - doe / 146096) / 365 in
  let doy := doe - (365 * yoe + yoe / 4 - yoe / 100) in
  let mp := (5 * doy + 2) / 153 in
  let d := doy - (153 * mp + 2) / 5 + 1 in
  let m := if mp <? 10 then mp + 3 else mp - 9 in
  (if m <=? 2 then yoe + 1 else yoe, m, d).

Definition civil (days : Z) : Z * Z * Z :=
  let z := days + 719468 in
  let '(y, m, d) := civil_of_era (z mod 146097) in
  (y + z / 146097 * 400, m, d).

Definition days_in_era (yoe m d : Z) : Z :=
  let mp := if 2 <? m then m - 3 else m + 9 in
  yoe * 365 + yoe / 4 - yoe / 100 + ((153 * mp + 2) / 5 + d - 1).

Definition days_of_civil (y m d : Z) : Z :=
  let y := if m <=? 2 then y - 1 else y in
  y / 400 * 146097 + days_in_era (y mod 400) m d - 719468.

Definition leap (y : Z) : bool := (y mod 4 =? 0) && (negb (y mod 100 =? 0) || (y mod 400 =? 0)).
Definition days_in_month (y m : Z) : Z :=
  if m =? 2 then (if leap y then 29 else 28)
  else if (m =? 4) || (m =? 6) || (m =? 9) || (m =? 11) then 30 else 31.

(** A predicate on the integers from [k] on, checked by evaluation. *)
Fixpoint all_below (f : Z -> bool) (n : nat) (k : Z) : bool :=
  match n with O => true | S n => f k && all_below f n (k + 1) end.

Lemma all_below_spec f n k : all_below f n k = true -> forall z, k <= z < k + Z.of_nat n -> f z = true.
Proof.
  revert k. induction n as [|n IH]; simpl; intros k H z Hz; [lia|]. bool_prop.
  destruct (Z.eq_dec z k) as [->|]; [done|]. apply (IH (k + 1)); [done|lia].
Qed.

(** The year of a day is found between the first days of the 400 years. *)
Definition year_of_day (doe : Z) : Z := (doe - doe / 1460 + doe / 36524 - doe / 146096) / 365.
Definition year_start (yoe : Z) : Z := 365 * yoe + yoe / 4 - yoe / 100.
Definition next_start (yoe : Z) : Z := if yoe =? 399 then 146097 else year_start (yoe + 1).

Lemma year_of_day_step k : 0 <= k < 146096 -> year_of_day k <= year_of_day (k + 1).
Proof.
  intros Hk. apply Z.div_le_mono; [lia|].
  assert (k / 146096 = 0) by (apply Z.div_small; lia).
  pose proof (Z.div_le_mono k (k + 1) 36524 ltac:(lia) ltac:(lia)).
  assert ((k + 1) / 1460 <= k / 1460 + 1).
  { rewrite <- (Z.div_add k 1 1460) by lia. apply Z.div_le_mono; lia. }
  destruct (Z.eq_dec k 146095) as [->|]; [vm_compute; discriminate|].
  assert ((k + 1) / 146096 = 0) by (apply Z.div_small; lia). lia.
Qed.

Lemma year_of_day_mono a n : 0 <= a -> a + Z.of_nat n <= 146096 -> year_of_day a <= year_of_day (a + Z.of_nat n).
Proof.
  intros Ha. induction n as [|n IH]; intros Hn; [rewrite Z.add_0_r; lia|].
  etransitivity; [apply IH; lia|]. replace (a + Z.of_nat (S n)) with (a + Z.of_nat n + 1) by lia.
  apply year_of_day_step. lia.
Qed.

Definition year_ok (yoe : Z) : bool :=
  (year_of_day (year_start yoe) =? yoe) && (year_of_day (next_start yoe - 1) =? yoe)
  && (next_start yoe - year_start yoe =? (if leap (yoe + 1) then 366 else 365)).
Lemma years_ok : all_below year_ok 400 0 = true.
Proof. vm_compute. reflexivity. Qed.

(** The month and day of a day of the year; only the last day depends on the year. *)
Definition month_ok (doy : Z) : bool :=
  let mp := (5 * doy + 2) / 153 in
  let d := doy - (153 * mp + 2) / 5 + 1 in
  let m := if mp <? 10 then mp + 3 else mp - 9 in
  ((if 2 <? m then m - 3 else m + 9) =? mp) && (1 <=? m) && (m <=? 12) && (1 <=? d)
  && (d <=? (if m =? 2 then (if doy =? 365 then 29 else 28) else days_in_month 0 m)).
Lemma months_ok : all_below month_ok 366 0 = true.
Proof. vm_compute. reflexivity. Qed.

Lemma year_of_day_range doe : 0 <= doe < 146097 ->
  let y := year_of_day doe in 0 <= y < 400 /\ year_start y <= doe < next_start y.
Proof.
  intros Hd y.
  assert (M : forall a b, 0 <= a <= b -> b <= 146096 -> year_of_day a <= year_of_day b).
  { intros a b Hab Hb. replace b with (a + Z.of_nat (Z.to_nat (b - a))) by lia. apply year_of_day_mono; lia. }
  assert (Hy : 0 <= y < 400).
  { pose proof (M 0 doe ltac:(lia) ltac:(lia)) as H1. pose proof (M doe 146096 ltac:(lia) ltac:(lia)) as H2.
    change (year_of_day 0) with 0 in H1. change (year_of_day 146096) with 399 in H2. unfold y. lia. }
  split; [done|].
  assert (Y : forall k, 0 <= k < 400 -> year_of_day (year_start k) = k /\ year_of_day (next_start k - 1) = k /\
              365 <= next_start k - year_start k).
  { intros k Hk. pose proof (all_below_spec _ _ _ years_ok k ltac:(lia)) as H. unfold year_ok in H. bool_prop.
    destruct (leap (k + 1)); lia. }
  assert (S0 : forall k, 0 <= k < 400 -> 0 <= year_start k < 146097).
  { intros k Hk. unfold year_start. Z.div_mod_to_equations. lia. }
  split.
  - destruct (Z.le_gt_cases (year_start y) doe) as [|Hgt]; [done|exfalso].
    assert (0 < y) by (destruct (Z.eq_dec y 0) as [E|]; [rewrite E in Hgt; change (year_start 0) with 0 in Hgt; lia|lia]).
    destruct (Y (y - 1) ltac:(lia)) as (_ & H2 & _). unfold next_start in H2.
    rewrite (proj2 (Z.eqb_neq (y - 1) 399)) in H2 by lia. replace (y - 1 + 1) with y in H2 by lia.
    pose proof (M doe (year_start y - 1) ltac:(lia) ltac:(pose proof (S0 y Hy); lia)) as H3. fold y in H3. lia.
  - unfold next_start. destruct (Z.eqb_spec y 399); [lia|].
    destruct (Z.lt_ge_cases doe (year_start (y + 1))) as [|Hge]; [done|exfalso].
    destruct (Y (y + 1) ltac:(lia)) as (H1 & _). pose proof (S0 (y + 1) ltac:(lia)).
    pose proof (M (year_start (y + 1)) doe ltac:(lia) ltac:(lia)) as H2. fold y in H2. lia.
Qed.

Lemma era_ok doe : 0 <= doe < 146097 ->
  let '(y, m, d) := civil_of_era doe in
  let y' := if m <=? 2 then y - 1 else y in
  0 <= y' < 400 /\ days_in_era y' m d = doe /\ 1 <= m <= 12 /\ 1 <= d <= days_in_month y m.
Proof.
  intros Hd. destruct (year_of_day_range doe Hd) as [Hy [Hs Hn]].
  pose proof (all_below_spec _ _ _ years_ok (year_of_day doe) ltac:(lia)) as Hyear.
  unfold civil_of_era. fold (year_of_day doe). set (yoe := year_of_day doe) in *.
  fold (year_start yoe). set (doy := doe - year_start yoe).
  unfold year_ok in Hyear. bool_prop.
  assert (Hdoy : 0 <= doy <= 365 /\ (doy = 365 -> leap (yoe + 1) = true)).
  { unfold doy. destruct (leap (yoe + 1)); split; intros; try done; lia. }
  pose proof (all_below_spec _ _ _ months_ok doy ltac:(lia)) as Hm. unfold month_ok in Hm.
  set (mp := (5 * doy + 2) / 153) in *. set (m := if mp <? 10 then mp + 3 else mp - 9) in *.
  rewrite !andb_true_iff, !Z.leb_le, Z.eqb_eq in Hm. destruct Hm as ((((Hmp & Hm1) & Hm2) & Hd1) & Hd2).
  assert (E : (if m <=? 2 then (if m <=? 2 then yoe + 1 else yoe) - 1 else if m <=? 2 then yoe + 1 else yoe) = yoe)
    by (destruct (m <=? 2); lia).
  cbv zeta. rewrite E. split; [done|]. split.
  { unfold days_in_era. rewrite Hmp. unfold doy, year_start. lia. }
  split; [done|]. split; [done|].
  unfold days_in_month in *. destruct (Z.eqb_spec m 2) as [E2|]; [|done].
  rewrite (proj2 (Z.leb_le m 2)) by lia.
  destruct (Z.eqb_spec doy 365); [rewrite (proj2 Hdoy) by done; done|]. destruct (leap _); lia.
Qed.

Lemma civil_valid days :
  let '(y, m, d) := civil days in
  days_of_civil y m d = days /\ 1 <= m <= 12 /\ 1 <= d <= days_in_month y m.
Proof.
  unfold civil. set (z := days + 719468).
  pose proof (Z.mod_pos_bound z 146097 ltac:(lia)) as Hm. pose proof (Z.div_mod z 146097 ltac:(lia)) as Hz.
  pose proof (era_ok (z mod 146097) Hm) as H.
  destruct (civil_of_era (z mod 146097)) as [[y m] d]. destruct H as (Hy & He & Hmm & Hdd).
  assert (Hleap : forall k, days_in_month (y + k * 400) m = days_in_month y m).
  { intros k. unfold days_in_month, leap. destruct (m =? 2); [|done].
    replace (y + k * 400) with (y + k * 100 * 4) by lia. rewrite Z.mod_add by lia.
    replace (y + k * 100 * 4) with (y + k * 4 * 100) by lia. rewrite Z.mod_add by lia.
    replace (y + k * 4 * 100) with (y + k * 400) by lia. rewrite Z.mod_add by lia. done. }
  split; [|rewrite Hleap; lia]. unfold days_of_civil.
  assert (E : forall y', 0 <= y' < 400 -> (y' + z / 146097 * 400) / 400 = z / 146097 /\
                        (y' + z / 146097 * 400) mod 400 = y').
  { intros y' Hy'. rewrite Z.div_add, Z.mod_add by lia. rewrite Z.div_small, Z.mod_small by lia. lia. }
  destruct (Z.leb_spec m 2).
  - replace (y + z / 146097 * 400 - 1) with (y - 1 + z / 146097 * 400) by lia.
    destruct (E (y - 1) ltac:(lia)) as [-> ->]. lia.
  - destruct (E y ltac:(lia)) as [-> ->]. lia.
Qed.

(** ** Printing *)

(** [n] decimal digits, zero padded. *)
Fixpoint pad (n : nat) (v : Z) : gostr :=
  match n with O => [] | S n => pad n (v / 10) ++ [byte_of (48 + v mod 10)] end.

Definition day_number (t : Z) : Z := unix t / 86400.
Definition FormatDate (t : Z) : gostr :=
  let '(y, m, d) := civil (day_number t) in pad 4 y ++ [x2d] ++ pad 2 m ++ [x2d] ++ pad 2 d.
Definition FormatRFC3339 (t : Z) : gostr :=
  let s := unix t mod 86400 in
  FormatDate t ++ [x54] ++ pad 2 (s / 3600) ++ [x3a] ++ pad 2 (s / 60 mod 60) ++ [x3a] ++ pad 2 (s mod 60) ++ [x5a].

(** ** Reading *)

(** [parseUint] of [parseRFC3339] on exactly [n] bytes at an offset. *)
Definition field_at (s : gostr) (at_ n : nat) (lo hi : Z) : option Z :=
  match parse_digits (take n (drop at_ s)) 0 with
  | Some v => if (lo <=? v) && (v <=? hi) then Some v else None
  | None => None
  end.

Definition byte_at (s : gostr) (i : nat) (b : byte) : bool := bool_decide (s !! i = Some b).

(** The fraction of a second, in nanoseconds, and the text behind it; digits
    beyond the ninth are dropped. *)
Fixpoint digits_prefix (s : gostr) : gostr :=
  match s with b :: r => match digit b with Some _ => b :: digits_prefix r | None => [] end | [] => [] end.
Definition fraction (s : gostr) : Z * gostr :=
  match s with
  | b :: r =>
      let ds := digits_prefix r in
      if bool_decide (b = x2e) && bool_decide (ds <> []) then
        let ds9 := take 9 ds in
        (default 0 (parse_digits ds9 0) * 10 ^ (9 - Z.of_nat (length ds9)), drop (length ds) r)
      else (0, s)
  | [] => (0, [])
  end.

Definition zone (s : gostr) : option Z :=
  if bool_decide (s = [x5a]) then Some 0
  else if bool_decide (length s = 6%nat) then
    match field_at s 1 2 0 23, field_at s 4 2 0 59 with
    | Some hr, Some mm =>
        let off := (hr * 60 + mm) * 60 in
        if byte_at s 3 x3a then
          if byte_at s 0 x2d then Some (- off) else if byte_at s 0 x2b then Some off else None
        else None
    | _, _ => None
    end
  else None.

Definition parseRFC3339 (s : gostr) : option Z :=
  if (length s <? 19)%nat then None
  else
    match field_at s 0 4 0 9999, field_at s 5 2 1 12, field_at s 11 2 0 23, field_at s 14 2 0 59, field_at s 17 2 0 59 with
    | Some y, Some m, Some hh, Some mm, Some ss =>
        match field_at s 8 2 1 (days_in_month y m) with
        | Some d =>
            if byte_at s 4 x2d && byte_at s 7 x2d && byte_at s 10 x54 && byte_at s 13 x3a && byte_at s 16 x3a then
              let '(ns, rest) := fraction (drop 19 s) in
              match zone rest with
              | Some off => Some ((days_of_civil y m d * 86400 + hh * 3600 + mm * 60 + ss - off) * second + ns)
              | None => None
              end
            else None
        | None => None
        end
    | _, _, _, _, _ => None
    end.

Definition ParseRFC3339 (lenient : gostr -> option Z) (s : gostr) : option Z :=
  match parseRFC3339 s with Some t => Some t | None => lenient s end.

Example rfc_example : FormatRFC3339 (1700000000 * second + 5) = bs "2023-11-14T22:13:20Z".
Proof. vm_compute. reflexivity. Qed.
Example rfc_parse_example :
  parseRFC3339 (bs "2024-02-29T12:00:00.25+01:00") = Some (1709204400 * second + 250000000).
Proof. vm_compute. reflexivity. Qed.

(** ** Round trip *)

Lemma parse_pad n v acc : 0 <= v < 10 ^ Z.of_nat n -> parse_digits (pad n v) acc = Some (acc * 10 ^ Z.of_nat n + v).
Proof.
  revert v acc. induction n as [|n IH]; intros v acc Hv.
  - simpl in *. f_equal. lia.
  - assert (Hp : 10 ^ Z.of_nat (S n) = 10 * 10 ^ Z.of_nat n)
      by (rewrite Nat2Z.inj_succ, Z.pow_succ_r by lia; done).
    rewrite Hp in *. pose proof (Z.mod_pos_bound v 10 ltac:(lia)).
    pose proof (Z.div_mod v 10 ltac:(lia)).
    assert (0 <= v / 10 < 10 ^ Z.of_nat n) by (split; [apply Z.div_pos; lia|apply Z.div_lt_upper_bound; lia]).
    cbn [pad]. rewrite parse_digits_app, IH by done. cbn [parse_digits]. rewrite digit_byte by done. f_equal. lia.
Qed.

Lemma pad_length n v : length (pad n v) = n.
Proof. revert v. induction n as [|n IH]; intros v; simpl; [done|]. rewrite length_app, IH. simpl. lia. Qed.

(** The years that print with four digits. *)
Definition year_printable (t : Z) : Prop := let '(y, _, _) := civil (day_number t) in 0 <= y <= 9999.

Lemma parse_parts y m d hh mm ss :
  0 <= y <= 9999 -> 1 <= m <= 12 -> 1 <= d <= days_in_month y m -> 0 <= hh <= 23 -> 0 <= mm <= 59 -> 0 <= ss <= 59 ->
  parseRFC3339 (pad 4 y ++ [x2d] ++ pad 2 m ++ [x2d] ++ pad 2 d ++ [x54] ++ pad 2 hh ++ [x3a] ++ pad 2 mm
                ++ [x3a] ++ pad 2 ss ++ [x5a]) =
  Some ((days_of_civil y m d * 86400 + hh * 3600 + mm * 60 + ss) * second).
Proof.
  intros Hy Hm Hd Hh Hmm Hs.
  assert (Hd31 : days_in_month y m <= 31) by (unfold days_in_month; repeat case_match; lia).
  assert (F : forall n v lo hi, 0 <= v < 10 ^ Z.of_nat n -> lo <= v <= hi ->
    (match parse_digits (pad n v) 0 with Some v => if (lo <=? v) && (v <=? hi) then Some v else None | None => None end) = Some v).
  { intros n v lo hi Hv Hr. rewrite parse_pad by done. rewrite Z.mul_0_l, Z.add_0_l. case_tests. done. }
  pose proof (F 4%nat y 0 9999 ltac:(lia) Hy) as Fy. pose proof (F 2%nat m 1 12 ltac:(lia) Hm) as Fm.
  pose proof (F 2%nat d 1 (days_in_month y m) ltac:(lia) Hd) as Fd. pose proof (F 2%nat hh 0 23 ltac:(lia) Hh) as Fh.
  pose proof (F 2%nat mm 0 59 ltac:(lia) Hmm) as Fmm. pose proof (F 2%nat ss 0 59 ltac:(lia) Hs) as Fs. clear F.
  assert (P2 : forall v, exists a b, pad 2 v = [a; b]) by (intros; simpl; eauto).
  assert (P4 : forall v, exists a b c e, pad 4 v = [a; b; c; e]) by (intros; simpl; eauto).
  destruct (P4 y) as (y1 & y2 & y3 & y4 & Ey), (P2 m) as (m1 & m2 & Em), (P2 d) as (d1 & d2 & Ed),
    (P2 hh) as (h1 & h2 & Eh), (P2 mm) as (n1 & n2 & En), (P2 ss) as (s1 & s2 & Es).
  rewrite Ey, Em, Ed, Eh, En, Es in *. unfold parseRFC3339, field_at, byte_at.
  cbn [app length Nat.ltb Nat.leb take drop lookup list_lookup].
  rewrite Fy, Fm, Fh, Fmm, Fs, Fd. rewrite !bool_decide_eq_true_2 by done. cbn [andb].
  change (fraction (drop _ _)) with (0, [x5a]). change (zone [x5a]) with (Some 0). cbv iota beta.
  f_equal. lia.
Qed.

(** Reading a printed stamp gives back the whole seconds of the instant. *)
Lemma parse_format t : year_printable t -> parseRFC3339 (FormatRFC3339 t) = Some (unix t * second).
Proof.
  unfold year_printable, FormatRFC3339, FormatDate. pose proof (civil_valid (day_number t)) as Hc.
  destruct (civil (day_number t)) as [[y m] d]. destruct Hc as (Hdays & Hm & Hd). intros Hy.
  set (s := unix t mod 86400). assert (Hs : 0 <= s < 86400) by (apply Z.mod_pos_bound; lia).
  rewrite <- !(assoc_L (++)).
  rewrite parse_parts; try done.
  - f_equal. f_equal. rewrite Hdays. unfold day_number. pose proof (Z.div_mod (unix t) 86400 ltac:(lia)). fold s in H.
    Z.div_mod_to_equations. lia.
  - Z.div_mod_to_equations. lia.
  - pose proof (Z.mod_pos_bound (s / 60) 60). lia.
  - pose proof (Z.mod_pos_bound s 60). lia.
Qed.

Lemma ParseRFC3339_format lenient t :
  year_printable t -> ParseRFC3339 lenient (FormatRFC3339 t) = Some (unix t * second).
Proof. intros H. unfold ParseRFC3339. by rewrite parse_format. Qed.
