(* ===== verification/GoPath.v ===== *)
(** * Slash-separated paths and a file tree

    The part of [path/filepath] and of the file system that the models use.  A
    clean absolute path is the list of its components; a file tree maps clean
    paths to nodes and its root always is a directory.  Operations on a tree do
    not follow symbolic links on the way: a path through one is an error. *)

From Stdlib Require Import String.
From S2P Require Import Prelude GoBase GoText.
Open Scope Z_scope.

Abbreviation path := (list gostr).

Definition sep : byte := x2f.
Definition dot : gostr := bs ".".
Definition dotdot : gostr := bs "..".
Definition isAbs (s : gostr) : bool := match s with b :: _ => bool_decide (b = sep) | [] => false end.
Definition parts (s : gostr) : list gostr := Split s sep.

(** The components after [Clean] of an absolute path, from the components so far. *)
Definition cleanStep (p : path) (c : gostr) : path :=
  if bool_decide (c = []) then p
  else if bool_decide (c = dot) then p
  else if bool_decide (c = dotdot) then take (length p - 1) p
  else p ++ [c].
Definition cleanFrom (p : path) (l : list gostr) : path := foldl cleanStep p l.

(** [filepath.Clean] of an absolute path, and [Clean (Join root relative)]. *)
Definition cleanAbs (s : gostr) : path := cleanFrom [] (parts s).
Definition joinClean (root : path) (relative : gostr) : path := cleanFrom root (parts relative).

(** [filepath.Rel] of clean absolute paths; [None] when the result leaves the root. *)
Definition relTo (root p : path) : option path :=
  if bool_decide (root `prefix_of` p) then Some (drop (length root) p) else None.

Definition below (root p : path) : Prop := root `prefix_of` p.

(** ** File trees *)

Inductive node := Dir | File (mode : Z) (body : gostr) | Symlink.
#[export] Instance node_eq : EqDecision node.
Proof. solve_decision. Defined.
Definition path_eq : EqDecision path := _.
Definition path_countable : Countable path := _.
Abbreviation tree := (@gmap path path_eq path_countable node).

Definition at_ (t : tree) (p : path) : option node := match p with [] => Some Dir | _ => t !! p end.

Inductive found := Found (n : node) (p : path) | NotExist | OtherError.

(** [os.Lstat] of a path whose components still hold dots: the node and its clean
    path. *)
Fixpoint lstatFrom (t : tree) (p : path) (l : list gostr) : found :=
  match l with
  | [] => match at_ t p with Some n => Found n p | None => NotExist end
  | c :: rest =>
      match at_ t p with
      | Some Dir => lstatFrom t (cleanStep p c) rest
      | Some _ => OtherError
      | None => NotExist
      end
  end.
Definition lstat (t : tree) (p : path) : found := lstatFrom t [] p.

(** ** Facts *)

(** A component that is a name. *)
Definition proper (c : gostr) : Prop := c <> [] /\ c <> dot /\ c <> dotdot.

Lemma cleanStep_proper p c : proper c -> cleanStep p c = p ++ [c].
Proof. intros (H1 & H2 & H3). unfold cleanStep. rewrite !bool_decide_false by done. done. Qed.

Lemma lstatFrom_Some t p l n q :
  Forall proper l -> lstatFrom t p l = Found n q ->
  q = p ++ l /\ at_ t (p ++ l) = Some n /\ (forall k, (k < length l)%nat -> at_ t (p ++ take k l) = Some Dir).
Proof.
  intros Hl. revert p. induction Hl as [|c l Hc Hl IH]; intros p; simpl.
  - rewrite app_nil_r. destruct (at_ t p); [|done]. intros [= -> ->]. split_and!; auto. intros; lia.
  - destruct (at_ t p) as [[]|] eqn:E; try discriminate. rewrite cleanStep_proper by done. intros H.
    apply IH in H as (-> & H & Hk). rewrite <- app_assoc in *. split_and!; auto.
    intros [|k] Hlt; simpl; [rewrite app_nil_r; auto|]. specialize (Hk k ltac:(simpl in *; lia)).
    rewrite <- app_assoc in Hk. exact Hk.
Qed.

Lemma lstatFrom_intro t p l n :
  Forall proper l -> at_ t (p ++ l) = Some n -> (forall k, (k < length l)%nat -> at_ t (p ++ take k l) = Some Dir) ->
  lstatFrom t p l = Found n (p ++ l).
Proof.
  intros Hl. revert p. induction Hl as [|c l Hc Hl IH]; intros p Hn Hk; simpl.
  - rewrite app_nil_r in *. rewrite Hn; auto.
  - pose proof (Hk 0%nat ltac:(simpl; lia)) as H0. simpl in H0. rewrite app_nil_r in H0. rewrite H0, cleanStep_proper by done.
    rewrite IH; rewrite <- ?app_assoc; auto. intros k Hlt. rewrite <- app_assoc. apply (Hk (S k)). simpl; lia.
Qed.

(** A tree in which the way to every node is made of directories. *)
Definition wellFormed (t : tree) : Prop :=
  forall p n, t !! p = Some n -> forall k, (k < length p)%nat -> at_ t (take k p) = Some Dir.

Lemma lstat_wf t p : wellFormed t -> Forall proper p -> at_ t p <> None -> exists n, lstat t p = Found n p /\ at_ t p = Some n.
Proof.
  intros Hw Hp Hn. destruct (at_ t p) as [n|] eqn:E; [|done]. exists n. split; auto.
  apply (lstatFrom_intro t [] p n); auto. intros k Hk. simpl.
  destruct p as [|c p]; [simpl in Hk; lia|]. by apply (Hw (c :: p) n).
Qed.
