(* ===== verification/DnsWire.v ===== *)
(** * DNS wire format helpers of the policy resolver

    Models the wire routines of [internal/policydns/cache.go]: skipping a
    domain name, the cacheable lifetime of a response, ageing the TTL fields of
    a cached response in place, and replacing the query identifier.  Offsets
    and lengths are [nat] (Go [int]s that never go below zero here); 16- and
    32-bit fields are [Z].  Every index and slice expression of the source is a
    checked read, so the safety theorems state that no message, however
    malformed, makes the code panic. *)

From S2P Require Import Prelude GoBase.
Open Scope Z_scope.

(** ** The code *)

(** [skipName]: [Ret None] is the source's [(0, false)].  The loop consumes at
    least one byte per iteration, so [length message + 1] rounds suffice
    ([skipName_returns]). *)
Fixpoint skipName_loop (fuel : nat) (message : list byte) (offset : nat) : outcome (option nat) :=
  match fuel with
  | O => Stuck
  | S fuel =>
      if (length message <=? offset)%nat then Ret None else
      let! b := index message offset in
      let len := Z.to_nat (bval b) in
      let offset := S offset in
      if (len =? 0)%nat then Ret (Some offset)
      else if Z.land (bval b) 0xC0 =? 0xC0 then
        if (length message <=? offset)%nat then Ret None else Ret (Some (offset + 1)%nat)
      else if ((63 <? len) || (length message <? offset + len))%nat then Ret None
      else skipName_loop fuel message (offset + len)
  end.

Definition skipName (message : list byte) (offset : nat) : outcome (option nat) :=
  skipName_loop (S (length message)) message offset.

(** The question loop shared by [responseTTL] and [adjustResponseTTLs]. *)
Fixpoint skipQuestions (message : list byte) (offset questions : nat) : outcome (option nat) :=
  match questions with
  | O => Ret (Some offset)
  | S questions =>
      let! next := skipName message offset in
      match next with
      | None => Ret None
      | Some next =>
          if (length message <? next + 4)%nat then Ret None
          else skipQuestions message (next + 4) questions
      end
  end.

(** The loop of [minimumRecordTTL] with its variables [minimum], [found] and
    [offset]; [Ret None] is [(0, 0, false)]. *)
Fixpoint minimumRecordTTL_loop (message : list byte) (minimum : Z) (found : bool)
    (offset records : nat) (negativeSOA : bool) : outcome (option (Z * nat)) :=
  match records with
  | O => Ret (Some (minimum, offset))
  | S records =>
      let! next := skipName message offset in
      match next with
      | None => Ret None
      | Some next =>
          if (length message <? next + 10)%nat then Ret None else
          let! recordType := be16 message next in
          let! ttl := be32 message (next + 4) in
          let! size16 := be16 message (next + 8) in
          let size := Z.to_nat size16 in
          let dataStart := (next + 10)%nat in
          let offset := (dataStart + size)%nat in
          if (length message <? offset)%nat then Ret None else
          if recordType =? 41 then
            minimumRecordTTL_loop message minimum found offset records negativeSOA
          else if negativeSOA && negb (recordType =? 6) then
            minimumRecordTTL_loop message minimum found offset records negativeSOA
          else if negativeSOA && (size <? 20)%nat then
            minimumRecordTTL_loop message minimum found offset records negativeSOA
          else
            let! ttl := (if negativeSOA then
                           let! soaMinimum := be32 message (offset - 4) in
                           Ret (if soaMinimum <? ttl then soaMinimum else ttl)
                         else Ret ttl) in
            if negb found || (ttl <? minimum) then
              minimumRecordTTL_loop message ttl true offset records negativeSOA
            else
              minimumRecordTTL_loop message minimum found offset records negativeSOA
      end
  end.

Definition minimumRecordTTL (message : list byte) (offset records : nat) (negativeSOA : bool) :
    outcome (option (Z * nat)) :=
  minimumRecordTTL_loop message 0 false offset records negativeSOA.

(** [responseTTL]: a duration in nanoseconds, zero when not cacheable. *)
Definition responseTTL (message : list byte) : outcome Z :=
  if (length message <? 12)%nat then Ret 0 else
  let! flags := be16 message 2 in
  let rcode := Z.land flags 0x000f in
  if negb (rcode =? 0) && negb (rcode =? 3) then Ret 0 else
  let! questions := be16 message 4 in
  let! answers := be16 message 6 in
  let! authorities := be16 message 8 in
  let! additionals := be16 message 10 in
  let! after_questions := skipQuestions message 12 (Z.to_nat questions) in
  match after_questions with
  | None => Ret 0
  | Some offset =>
      let! r := minimumRecordTTL message offset (Z.to_nat answers) false in
      match r with
      | None => Ret 0
      | Some (minimum, offset) =>
          let! r := (if answers =? 0 then
              let! r := minimumRecordTTL message offset (Z.to_nat authorities) true in
              match r with
              | None => Ret None
              | Some (minimum, offset) => Ret (Some (if 60 <? minimum then 60 else minimum, offset))
              end
            else
              let! r := minimumRecordTTL message offset (Z.to_nat authorities) false in
              match r with
              | None => Ret None
              | Some (_, offset) => Ret (Some (minimum, offset))
              end) in
          match r with
          | None => Ret 0
          | Some (minimum, offset) =>
              let! r := minimumRecordTTL message offset (Z.to_nat additionals) false in
              match r with
              | None => Ret 0
              | Some _ =>
                  if minimum =? 0 then Ret 0
                  else Ret ((if 300 <? minimum then 300 else minimum) * second)
              end
          end
      end
  end.

(** One TTL after [age] seconds, or the override when it is positive. *)
Definition agedTTL (age override ttl : Z) : Z :=
  if 0 <? override then override
  else if ttl <=? age then 0
  else wrap_u32 (ttl - age).

(** The record loop of [adjustResponseTTLs]; the slice is updated in place, so
    the message is threaded and an early return keeps the writes already done. *)
Fixpoint adjustRecords (message : list byte) (offset records : nat) (age override : Z) :
    outcome (list byte) :=
  match records with
  | O => Ret message
  | S records =>
      let! next := skipName message offset in
      match next with
      | None => Ret message
      | Some next =>
          if (length message <? next + 10)%nat then Ret message else
          let! recordType := be16 message next in
          let ttlOffset := (next + 4)%nat in
          let! size16 := be16 message (next + 8) in
          let offset := (next + 10 + Z.to_nat size16)%nat in
          if (length message <? offset)%nat then Ret message else
          if recordType =? 41 then adjustRecords message offset records age override
          else
            let! ttl := be32 message ttlOffset in
            let! message := put_uint32 message ttlOffset (agedTTL age override ttl) in
            adjustRecords message offset records age override
      end
  end.

Definition adjustResponseTTLs (message : list byte) (age override : Z) : outcome (list byte) :=
  if (length message <? 12)%nat then Ret message else
  let! questions := be16 message 4 in
  let! answers := be16 message 6 in
  let! authorities := be16 message 8 in
  let! additionals := be16 message 10 in
  let records := (Z.to_nat answers + Z.to_nat authorities + Z.to_nat additionals)%nat in
  let! after_questions := skipQuestions message 12 (Z.to_nat questions) in
  match after_questions with
  | None => Ret message
  | Some offset => adjustRecords message offset records age override
  end.

(** [responseWithID]: a copy with the query's identifier. *)
Definition responseWithID (response queryID : list byte) : list byte :=
  if ((2 <=? length response) && (2 <=? length queryID))%nat
  then copy_at response 0 (take 2 queryID) else response.

(** [cachedResponse]: [uint32(age/time.Second)] truncates towards zero and
    wraps to 32 bits. *)
Definition cachedResponse (response queryID : list byte) (age overrideTTL : Z) : outcome (list byte) :=
  adjustResponseTTLs (responseWithID response queryID) (wrap_u32 (Z.quot age second)) overrideTTL.

(** [normalizedQueryKey]: the server tag, a zero byte and the query with its
    identifier zeroed; [None] is the error for a short query.  A Go string is
    its byte sequence. *)
Definition normalizedQueryKey (serverTag : list byte) (query : list byte) : option (list byte) :=
  if (length query <? 12)%nat then None
  else Some (serverTag ++ [x00] ++ [x00; x00] ++ drop 2 query).

(** ** Reference semantics *)

(** Where an encoded name that starts at [off] ends: a sequence of labels of
    1 to 63 bytes closed by the root label or by a compression pointer. *)
Inductive name_ends (m : list byte) : nat -> nat -> Prop :=
| name_root off :
    m !! off = Some x00 -> name_ends m off (S off)
| name_pointer off b c :
    m !! off = Some b -> 192 <= bval b -> m !! S off = Some c -> name_ends m off (S off + 1)
| name_label off b next :
    m !! off = Some b -> 0 < bval b <= 63 -> (S off + Z.to_nat (bval b) <= length m)%nat ->
    name_ends m (S off + Z.to_nat (bval b)) next -> name_ends m off next.

(** A resource record as it lies in the message. *)
Record rr := RR {
  rr_type : Z;
  rr_ttl_at : nat;
  rr_ttl : Z;
  rr_size : nat;
  rr_end : nat;
}.

(** [n] records from [off] on, and the offset behind them. *)
Fixpoint parseRecords (m : list byte) (off n : nat) : option (list rr * nat) :=
  match n with
  | O => Some ([], off)
  | S n =>
      match skipName m off with
      | Ret (Some next) =>
          if (length m <? next + 10)%nat then None else
          let size := Z.to_nat (u16 m (next + 8)) in
          let e := (next + 10 + size)%nat in
          if (length m <? e)%nat then None else
          match parseRecords m e n with
          | Some (l, o) => Some (RR (u16 m next) (next + 4) (u32 m (next + 4)) size e :: l, o)
          | None => None
          end
      | _ => None
      end
  end.

(** The TTL a record contributes to the lifetime of a section. *)
Definition relevantTTL (m : list byte) (negativeSOA : bool) (r : rr) : option Z :=
  if rr_type r =? 41 then None
  else if negativeSOA && negb (rr_type r =? 6) then None
  else if negativeSOA && (rr_size r <? 20)%nat then None
  else Some (if negativeSOA then Z.min (u32 m (rr_end r - 4)) (rr_ttl r) else rr_ttl r).

Definition minimum_of (l : list Z) : Z :=
  match l with [] => 0 | t :: l => foldl Z.min t l end.

(** A whole response: its answer, authority and additional records. *)
Record sections := Sections { answer : list rr; authority : list rr; additional : list rr }.

Definition parseSections (m : list byte) : option sections :=
  if (length m <? 12)%nat then None else
  match skipQuestions m 12 (Z.to_nat (u16 m 4)) with
  | Ret (Some o) =>
      '(an, o) ← parseRecords m o (Z.to_nat (u16 m 6));
      '(ns, o) ← parseRecords m o (Z.to_nat (u16 m 8));
      '(ar, _) ← parseRecords m o (Z.to_nat (u16 m 10));
      Some (Sections an ns ar)
  | _ => None
  end.

(** The lifetime in seconds that a parsed response deserves. *)
Definition sectionTTL (m : list byte) (s : sections) : Z :=
  if u16 m 6 =? 0 then Z.min 60 (minimum_of (omap (relevantTTL m true) (authority s)))
  else minimum_of (omap (relevantTTL m false) (answer s)).

Definition ageRecord (age override : Z) (r : rr) : rr :=
  if rr_type r =? 41 then r
  else RR (rr_type r) (rr_ttl_at r) (agedTTL age override (rr_ttl r)) (rr_size r) (rr_end r).

(** ** Safety: the name, question and record loops return on every input *)

Lemma byte_classes b :
  (bval b = 0 /\ b = x00) \/ (0 < bval b <= 63) \/ (63 < bval b < 192) \/ 192 <= bval b.
Proof.
  pose proof (bval_range b). destruct (decide (bval b = 0)) as [E|E]; [left|lia].
  split; [done|]. rewrite <- (byte_of_bval b), E. done.
Qed.

Lemma pointer_bits b : (Z.land (bval b) 0xC0 =? 0xC0) = (192 <=? bval b).
Proof. destruct b; reflexivity. Qed.

Lemma skipName_loop_returns fuel m off :
  (length m - off < fuel)%nat -> returns (skipName_loop fuel m off).
Proof.
  revert off. induction fuel as [|fuel IH]; intros off Hf; [lia|]. simpl.
  destruct (Nat.leb_spec (length m) off); [auto with go|].
  destruct (index_lt m off) as (b & -> & _); [lia|]. cbn [obind].
  repeat (split_goal; auto with go). apply IH. simpl. lia.
Qed.

Lemma skipName_returns m off : returns (skipName m off).
Proof. apply skipName_loop_returns. lia. Qed.

Lemma skipName_loop_spec fuel m off next :
  skipName_loop fuel m off = Ret (Some next) -> name_ends m off next.
Proof.
  revert off. induction fuel as [|fuel IH]; intros off Hs; [done|]. simpl in Hs.
  destruct (Nat.leb_spec (length m) off); [done|].
  destruct (index_lt m off) as (b & Hi & Hb); [lia|]. rewrite Hi in Hs. cbn [obind] in Hs.
  rewrite pointer_bits in Hs.
  destruct (byte_classes b) as [[H0 ->]|[Hb'|[Hb'|Hb']]].
  - simpl in Hs. simplify_eq. by constructor.
  - case_tests_in Hs; try done. eapply name_label; [done|done|simpl; lia|by apply IH].
  - by case_tests_in Hs.
  - case_tests_in Hs; try done. destruct (index_lt m (S off)) as (c & _ & Hc); [lia|].
    simplify_eq. eapply name_pointer; eauto.
Qed.

Lemma name_ends_range m off next : name_ends m off next -> (off < next <= length m)%nat.
Proof.
  induction 1 as [off H|off b c Hb ? Hc|off b next Hb ? Hl Hn IH].
  - apply lookup_lt_Some in H. lia.
  - apply lookup_lt_Some in Hc. lia.
  - lia.
Qed.

Lemma name_ends_skip m off next : name_ends m off next ->
  forall fuel, (length m - off < fuel)%nat -> skipName_loop fuel m off = Ret (Some next).
Proof.
  induction 1 as [off H|off b c Hb Hr Hc|off b next Hb Hr Hl Hn IH]; intros [|fuel] Hf; try lia; simpl.
  - pose proof (lookup_lt_Some _ _ _ H). unfold index. rewrite H. by case_tests.
  - pose proof (lookup_lt_Some _ _ _ Hb). pose proof (lookup_lt_Some _ _ _ Hc).
    unfold index. rewrite Hb. cbn [obind]. rewrite pointer_bits. by case_tests.
  - pose proof (lookup_lt_Some _ _ _ Hb). unfold index. rewrite Hb. cbn [obind].
    rewrite pointer_bits. simpl in Hl. case_tests. apply IH. simpl. lia.
Qed.

Lemma skipName_iff m off next : skipName m off = Ret (Some next) <-> name_ends m off next.
Proof.
  split; [apply skipName_loop_spec|]. intros H. unfold skipName. eapply name_ends_skip; [done|lia].
Qed.

Lemma skipName_range m off next : skipName m off = Ret (Some next) -> (off < next <= length m)%nat.
Proof. rewrite skipName_iff. apply name_ends_range. Qed.

Lemma skipQuestions_returns m off n : returns (skipQuestions m off n).
Proof.
  revert off. induction n as [|n IH]; intros off; simpl; [auto with go|].
  apply returns_bind; [apply skipName_returns|]. intros [next|] _; [|auto with go].
  split_goal; auto with go.
Qed.

Lemma skipQuestions_range m off n o :
  (off <= length m)%nat -> skipQuestions m off n = Ret (Some o) -> (off <= o <= length m)%nat.
Proof.
  revert off. induction n as [|n IH]; intros off Hl Hs; simpl in Hs; [simplify_eq; lia|].
  apply obind_ret_inv in Hs as ([next|] & Hn & Hs); [|done].
  apply skipName_range in Hn. case_tests_in Hs; [done|].
  specialize (IH (next + 4)%nat ltac:(lia) Hs). lia.
Qed.

(** The code reads the records that [parseRecords] lists, and keeps their
    minimum. *)
Definition keep_minimum (minimum : Z) (found : bool) (l : list Z) : Z :=
  if found then foldl Z.min minimum l else minimum_of l.

Lemma keep_minimum_step minimum found t l :
  keep_minimum minimum found (t :: l) =
  keep_minimum (if negb found || (t <? minimum) then t else minimum) true l.
Proof.
  destruct found; simpl; [|done]. f_equal.
  destruct (Z.ltb_spec t minimum); [rewrite Z.min_r by lia|rewrite Z.min_l by lia]; done.
Qed.

Lemma minimumRecordTTL_loop_eq m n : forall minimum found off neg,
  (found = false -> minimum = 0) ->
  minimumRecordTTL_loop m minimum found off n neg =
  Ret (match parseRecords m off n with
       | None => None
       | Some (l, o) => Some (keep_minimum minimum found (omap (relevantTTL m neg) l), o)
       end).
Proof.
  induction n as [|n IH]; intros minimum found off neg Hf; simpl.
  { destruct found; simpl; [done|]. by rewrite Hf. }
  destruct (skipName_returns m off) as [[next|] Hn]; rewrite Hn; [|done]. cbn [obind].
  destruct (Nat.ltb_spec (length m) (next + 10)); [done|].
  rewrite !be16_ok, be32_ok by lia. cbn [obind].
  set (size := Z.to_nat (u16 m (next + 8))).
  destruct (Nat.ltb_spec (length m) (next + 10 + size)); [done|].
  set (rec := RR (u16 m next) (next + 4) (u32 m (next + 4)) size (next + 10 + size)).
  destruct (u16 m next =? 41) eqn:Hopt.
  { rewrite IH by done. destruct (parseRecords _ _ n) as [[l o]|]; [|done].
    simpl. unfold relevantTTL at 2. simpl. by rewrite Hopt. }
  destruct (neg && negb (u16 m next =? 6)) eqn:Hsoa.
  { rewrite IH by done. destruct (parseRecords _ _ n) as [[l o]|]; [|done].
    simpl. unfold relevantTTL at 2. simpl. by rewrite Hopt, Hsoa. }
  destruct (neg && (size <? 20)%nat) eqn:Hsz.
  { rewrite IH by done. destruct (parseRecords _ _ n) as [[l o]|]; [|done].
    simpl. unfold relevantTTL at 2. simpl. by rewrite Hopt, Hsoa, Hsz. }
  set (t := if neg then Z.min (u32 m (next + 10 + size - 4)) (u32 m (next + 4)) else u32 m (next + 4)).
  assert (Ht : (if neg then
       let! soaMinimum := be32 m (next + 10 + size - 4) in
       Ret (if soaMinimum <? u32 m (next + 4) then soaMinimum else u32 m (next + 4))
       else Ret (u32 m (next + 4))) = Ret t).
  { subst t. destruct neg; [|done]. rewrite be32_ok by lia. cbn [obind]. f_equal.
    case_tests; lia. }
  rewrite Ht. cbn [obind].
  assert (Hr : relevantTTL m neg rec = Some t).
  { unfold relevantTTL. simpl. by rewrite Hopt, Hsoa, Hsz. }
  assert (Hk : forall l, keep_minimum minimum found (omap (relevantTTL m neg) (rec :: l)) =
    keep_minimum (if negb found || (t <? minimum) then t else minimum) true (omap (relevantTTL m neg) l)).
  { intros l. simpl. rewrite Hr. apply keep_minimum_step. }
  destruct (negb found || (t <? minimum)) eqn:Hm; rewrite IH by (by destruct found);
    (destruct (parseRecords _ _ n) as [[l o]|]; [|done]); rewrite Hk; [done|].
  by destruct found.
Qed.

Lemma minimumRecordTTL_eq m off n neg :
  minimumRecordTTL m off n neg =
  Ret (match parseRecords m off n with
       | None => None
       | Some (l, o) => Some (minimum_of (omap (relevantTTL m neg) l), o)
       end).
Proof. unfold minimumRecordTTL. by rewrite minimumRecordTTL_loop_eq. Qed.

Lemma foldl_min_le l : forall t, foldl Z.min t l <= t /\ Forall (fun x => foldl Z.min t l <= x) l.
Proof.
  induction l as [|x l IH]; intros t; simpl; [split; [lia|constructor]|].
  destruct (IH (Z.min t x)) as [H1 H2]. split; [lia|]. constructor; [lia|done].
Qed.

Lemma minimum_of_le l x : x ∈ l -> minimum_of l <= x.
Proof.
  destruct l as [|t l]; [by intros ?%elem_of_nil|]. simpl. destruct (foldl_min_le l t) as [H1 H2].
  rewrite Forall_forall in H2. intros [->|?]%elem_of_cons; auto.
Qed.

Lemma foldl_min_nonneg l : forall t, 0 <= t -> Forall (fun x => 0 <= x) l -> 0 <= foldl Z.min t l.
Proof.
  induction l as [|x l IH]; intros t Ht Hl; simpl; [done|]. inversion Hl; subst.
  apply IH; [lia|done].
Qed.

Lemma minimum_of_nonneg l : Forall (fun x => 0 <= x) l -> 0 <= minimum_of l.
Proof. destruct l; simpl; [done|]. intros H. inversion H; subst. by apply foldl_min_nonneg. Qed.

Lemma parseRecords_nonneg m n : forall off l o,
  parseRecords m off n = Some (l, o) -> Forall (fun r => 0 <= rr_ttl r) l.
Proof.
  induction n as [|n IH]; intros off l o Hp; simpl in Hp; [by simplify_eq; constructor|].
  repeat split_if Hp. constructor; [|by eapply IH]. simpl. apply u32_range.
Qed.

Lemma relevant_nonneg m neg l :
  Forall (fun r => 0 <= rr_ttl r) l -> Forall (fun x => 0 <= x) (omap (relevantTTL m neg) l).
Proof.
  induction 1 as [|r l Hr _ IH]; simpl; [constructor|].
  pose proof (u32_range m (rr_end r - 4)).
  unfold relevantTTL at 1. repeat split_goal; try done; constructor; first [done|lia].
Qed.

(** ** Claims on the lifetime of a response *)

Lemma responseTTL_eq m :
  (12 <= length m)%nat -> Z.land (u16 m 2) 0x000f = 0 \/ Z.land (u16 m 2) 0x000f = 3 ->
  responseTTL m = Ret (match parseSections m with
    | None => 0
    | Some s => Z.min 300 (sectionTTL m s) * second
    end).
Proof.
  intros Hl Hc. unfold responseTTL, parseSections. case_tests.
  rewrite !be16_ok by lia. cbn [obind].
  replace (negb _ && negb _) with false by (destruct Hc as [-> | ->]; done).
  destruct (skipQuestions_returns m 12 (Z.to_nat (u16 m 4))) as [[o|] Hq]; rewrite Hq; [|done].
  cbn [obind]. rewrite minimumRecordTTL_eq. cbn [obind].
  destruct (parseRecords m o (Z.to_nat (u16 m 6))) as [[an o1]|] eqn:Ha; [|done]. simpl.
  unfold sectionTTL.
  destruct (Z.eqb_spec (u16 m 6) 0); rewrite minimumRecordTTL_eq; cbn [obind];
    (destruct (parseRecords m o1 (Z.to_nat (u16 m 8))) as [[ns o2]|] eqn:Hns; [|done]); simpl;
    rewrite minimumRecordTTL_eq; cbn [obind];
    (destruct (parseRecords m o2 (Z.to_nat (u16 m 10))) as [[ar o3]|]; [|done]); simpl;
    unfold second; case_tests; f_equal; lia.
Qed.

(** C-safety: [responseTTL] returns on every byte sequence. *)
Lemma responseTTL_returns m : returns (responseTTL m).
Proof.
  destruct (decide (12 <= length m)%nat).
  2: { unfold responseTTL. case_tests. auto with go. }
  destruct (decide (Z.land (u16 m 2) 0x000f = 0 \/ Z.land (u16 m 2) 0x000f = 3)).
  - rewrite responseTTL_eq by done. auto with go.
  - unfold responseTTL. case_tests. rewrite be16_ok by lia. cbn [obind].
    case_tests; try (exfalso; lia). auto with go.
Qed.

(** ** Ageing in place *)

(** [m] and [m'] have the same length and the same bytes at [lo, hi). *)
Definition agree (m m' : list byte) (lo hi : nat) : Prop :=
  length m = length m' /\ forall i, (lo <= i < hi)%nat -> m !! i = m' !! i.

Lemma agree_refl m lo hi : agree m m lo hi.
Proof. done. Qed.

Lemma agree_trans m1 m2 m3 lo hi : agree m1 m2 lo hi -> agree m2 m3 lo hi -> agree m1 m3 lo hi.
Proof. intros [? H1] [? H2]. split; [congruence|]. intros i Hi. by rewrite H1, H2. Qed.

Lemma agree_sub m m' lo hi lo' hi' :
  (lo <= lo')%nat -> (hi' <= hi)%nat -> agree m m' lo hi -> agree m m' lo' hi'.
Proof. intros ?? [? H]. split; [done|]. intros i Hi. apply H. lia. Qed.

Lemma agree_lookup_total m m' lo hi i :
  agree m m' lo hi -> (lo <= i < hi)%nat -> m !!! i = m' !!! i.
Proof. intros [_ H] Hi. by rewrite !list_lookup_total_alt, H. Qed.

Lemma agree_u16 m m' lo hi i : agree m m' lo hi -> (lo <= i)%nat -> (i + 2 <= hi)%nat -> u16 m i = u16 m' i.
Proof.
  intros Ha ??. unfold u16. by rewrite !(agree_lookup_total m m' lo hi) by (done || lia).
Qed.

Lemma agree_u32 m m' lo hi i : agree m m' lo hi -> (lo <= i)%nat -> (i + 4 <= hi)%nat -> u32 m i = u32 m' i.
Proof.
  intros Ha ??. unfold u32. by rewrite !(agree_lookup_total m m' lo hi) by (done || lia).
Qed.

Lemma name_ends_agree m m' off next :
  name_ends m off next -> agree m m' off next -> name_ends m' off next.
Proof.
  induction 1 as [off H|off b c Hb ? Hc|off b next Hb ? Hl Hn IH]; intros Ha.
  - apply name_root. rewrite <- (proj2 Ha) by lia. done.
  - apply (name_pointer _ _ b c); [|done|]; rewrite <- (proj2 Ha) by lia; done.
  - pose proof (name_ends_range _ _ _ Hn).
    apply (name_label _ _ b); [rewrite <- (proj2 Ha) by lia; done|done|rewrite <- (proj1 Ha); done|].
    apply IH. eapply agree_sub; [| |done]; lia.
Qed.

Lemma skipName_agree m m' off next :
  skipName m off = Ret (Some next) -> agree m m' off next -> skipName m' off = Ret (Some next).
Proof. rewrite !skipName_iff. apply name_ends_agree. Qed.

Lemma skipQuestions_agree m m' n : forall off o,
  skipQuestions m off n = Ret (Some o) -> agree m m' off o -> skipQuestions m' off n = Ret (Some o).
Proof.
  induction n as [|n IH]; intros off o Hs Ha; simpl in *; [done|].
  apply obind_ret_inv in Hs as ([next|] & Hn & Hs); [|done].
  pose proof (skipName_range _ _ _ Hn). case_tests_in Hs; [done|].
  pose proof (skipQuestions_range m (next + 4) n o ltac:(lia) Hs).
  rewrite (skipName_agree m m' off next); [|done|eapply agree_sub; [| |done]; lia].
  cbn [obind]. rewrite <- (proj1 Ha). case_tests.
  apply IH; [done|]. eapply agree_sub; [| |done]; lia.
Qed.

Lemma parseRecords_range m n : forall off l o,
  (off <= length m)%nat -> parseRecords m off n = Some (l, o) ->
  (off <= o <= length m)%nat /\
  Forall (fun r => off < rr_ttl_at r /\ rr_ttl_at r + 6 <= rr_end r <= o)%nat l.
Proof.
  induction n as [|n IH]; intros off l o Hl Hp; simpl in Hp; [simplify_eq; split; [lia|constructor]|].
  destruct (skipName m off) as [[next|]| |] eqn:Hn; try done.
  apply skipName_range in Hn. case_tests_in Hp; try done.
  destruct (parseRecords m _ n) as [[l' o']|] eqn:Hp'; simplify_eq.
  apply IH in Hp' as [Ho Hf]; [|lia]. split; [lia|]. constructor; [simpl; lia|].
  eapply Forall_impl; [done|]. simpl. intros r. lia.
Qed.

Lemma parseRecords_agree m m' n : forall off l o,
  (off <= length m)%nat -> parseRecords m off n = Some (l, o) -> agree m m' off o ->
  parseRecords m' off n = Some (l, o).
Proof.
  induction n as [|n IH]; intros off l o Hl Hp Ha; simpl in *; [done|].
  destruct (skipName m off) as [[next|]| |] eqn:Hn; try done.
  pose proof (skipName_range _ _ _ Hn). case_tests_in Hp; try done.
  destruct (parseRecords m (next + 10 + _) n) as [[l' o']|] eqn:Hp'; simplify_eq.
  edestruct parseRecords_range as [? _]; [|exact Hp'|]; [lia|].
  rewrite (skipName_agree m m' off next) by first [done|eapply agree_sub; [| |done]; lia].
  rewrite <- !(agree_u16 m m' off o), <- (agree_u32 m m' off o), <- (proj1 Ha) by (done || lia).
  case_tests. by rewrite (IH _ l' o) by first [done|lia|eapply agree_sub; [| |done]; lia].
Qed.

(** The bytes of [m] that lie outside the TTL fields of the records [l]
    (EDNS pseudo-records excepted) are kept. *)
Definition outside_ttl (l : list rr) (i : nat) : Prop :=
  Forall (fun r => rr_type r = 41 \/ (i < rr_ttl_at r \/ rr_ttl_at r + 4 <= i)%nat) l.

Lemma agedTTL_range age override ttl :
  0 <= age -> 0 <= ttl < 2 ^ 32 -> 0 <= override < 2 ^ 32 -> 0 <= agedTTL age override ttl < 2 ^ 32.
Proof.
  intros. unfold agedTTL, wrap_u32. case_tests; try lia. apply Z.mod_pos_bound. lia.
Qed.

Lemma put_agree m off v lo hi :
  (off + 4 <= length m)%nat -> (hi <= off \/ off + 4 <= lo)%nat ->
  agree m (copy_at m off (uint32_bytes v)) lo hi.
Proof.
  intros Hl Hi. split; [by rewrite length_copy_at by (simpl; lia)|].
  intros i ?. rewrite lookup_copy_at_out; simpl; [done|lia|lia].
Qed.

Section Ageing.
Context (age override : Z) (Hage : 0 <= age) (Hover : 0 <= override < 2 ^ 32).

Lemma adjustRecords_spec n : forall m off l o,
  (off <= length m)%nat -> parseRecords m off n = Some (l, o) ->
  exists m', adjustRecords m off n age override = Ret m' /\
    length m' = length m /\
    (forall i, outside_ttl l i -> m' !! i = m !! i) /\
    parseRecords m' off n = Some (ageRecord age override <$> l, o).
Proof.
  induction n as [|n IH]; intros m off l o Hl Hp; simpl in Hp.
  { simplify_eq. exists m. done. }
  destruct (skipName m off) as [[next|]| |] eqn:Hn; try done.
  pose proof (skipName_range _ _ _ Hn). case_tests_in Hp; try done.
  set (e := (next + 10 + Z.to_nat (u16 m (next + 8)))%nat) in *.
  destruct (parseRecords m e n) as [[l' o']|] eqn:Hp'; simplify_eq.
  edestruct parseRecords_range as [Hor Hfr]; [|exact Hp'|]; [lia|].
  set (v := agedTTL age override (u32 m (next + 4))).
  set (m1 := if u16 m next =? 41 then m else copy_at m (next + 4) (uint32_bytes v)).
  assert (Hlo : forall lo hi, (hi <= next + 4 \/ next + 8 <= lo)%nat -> agree m m1 lo hi).
  { intros lo hi Hi. subst m1. destruct (_ =? _); [apply agree_refl|]. apply put_agree; lia. }
  assert (Hlen : length m = length m1) by apply (Hlo 0%nat 0%nat ltac:(lia)).
  destruct (IH m1 e l' o) as (m' & Hadj & Hl' & Hout & Hparse); [lia| |].
  { eapply parseRecords_agree; [|exact Hp'|apply Hlo]; lia. }
  assert (Hm' : agree m1 m' 0 e).
  { split; [done|]. intros i Hi. symmetry. apply Hout. unfold outside_ttl.
    eapply Forall_impl; [exact Hfr|]. simpl. intros r ?. right. lia. }
  exists m'. split_and!.
  - simpl. rewrite Hn. cbn [obind]. case_tests. rewrite !be16_ok by lia. cbn [obind].
    fold e. destruct (Nat.ltb_spec (length m) e); [lia|]. subst m1.
    destruct (Z.eqb_spec (u16 m next) 41); [done|].
    rewrite be32_ok by lia. cbn [obind]. by rewrite put_uint32_ok by lia.
  - lia.
  - intros i Hi. inversion Hi as [|r l'' Hr Hrs]; subst. simpl in Hr. rewrite Hout by done.
    subst m1. destruct (Z.eqb_spec (u16 m next) 41); [done|].
    rewrite lookup_copy_at_out; simpl; [done|lia|lia].
  - simpl.
    rewrite (skipName_agree m m' off next); [|done|].
    2: { eapply agree_trans; [apply Hlo; lia|]. eapply agree_sub; [| |exact Hm']; lia. }
    assert (Hu : u16 m' next = u16 m next /\ u16 m' (next + 8) = u16 m (next + 8)).
    { rewrite <- !(agree_u16 m1 m' 0 e) by (done || lia). split; symmetry.
      - apply (agree_u16 m m1 0 (next + 4)); [apply Hlo|..]; lia.
      - apply (agree_u16 m m1 (next + 8) e); [apply Hlo|..]; lia. }
    destruct Hu as [-> ->].
    fold e. rewrite Hl', <- Hlen. case_tests. rewrite Hparse.
    rewrite <- (agree_u32 m1 m' 0 e) by (done || lia).
    subst m1. cbn [fmap list_fmap]. unfold ageRecord at 2. cbn [rr_type rr_ttl_at rr_ttl rr_size rr_end].
    destruct (Z.eqb_spec (u16 m next) 41); [done|].
    rewrite u32_put; [done|lia|]. apply agedTTL_range; [done|apply u32_range|done].
Qed.

End Ageing.

Lemma adjustRecords_length age override n : forall m off,
  exists m', adjustRecords m off n age override = Ret m' /\ length m' = length m.
Proof.
  induction n as [|n IH]; intros m off; simpl; [by exists m|].
  destruct (skipName_returns m off) as [[next|] Hn]; rewrite Hn; [|by exists m]. cbn [obind].
  destruct (Nat.ltb_spec (length m) (next + 10)); [by exists m|].
  rewrite !be16_ok by lia. cbn [obind].
  destruct (Nat.ltb_spec (length m) (next + 10 + Z.to_nat (u16 m (next + 8)))); [by exists m|].
  destruct (_ =? 41); [apply IH|].
  rewrite be32_ok by lia. cbn [obind]. rewrite put_uint32_ok by lia. cbn [obind].
  edestruct IH as (m' & -> & Hl). exists m'. split; [done|].
  rewrite Hl, length_copy_at; simpl; lia.
Qed.

(** Only bytes behind the start of the records are written. *)
Lemma adjustRecords_low age override n : forall m off,
  exists m', adjustRecords m off n age override = Ret m' /\ agree m m' 0 off.
Proof.
  induction n as [|n IH]; intros m off; simpl; [exists m; split; [done|apply agree_refl]|].
  destruct (skipName_returns m off) as [[next|] Hn]; rewrite Hn; cbn [obind];
    [|exists m; split; [done|apply agree_refl]].
  apply skipName_range in Hn.
  destruct (Nat.ltb_spec (length m) (next + 10)); [exists m; split; [done|apply agree_refl]|].
  rewrite !be16_ok by lia. cbn [obind].
  set (e := (next + 10 + Z.to_nat (u16 m (next + 8)))%nat).
  destruct (Nat.ltb_spec (length m) e); [exists m; split; [done|apply agree_refl]|].
  assert (He : (off <= e)%nat) by (subst e; lia). clearbody e.
  destruct (_ =? 41).
  - destruct (IH m e) as (m' & -> & Ha). exists m'. split; [done|]. by eapply agree_sub; [..|exact Ha].
  - rewrite be32_ok by lia. cbn [obind]. rewrite put_uint32_ok by lia. cbn [obind].
    edestruct (IH (copy_at m (next + 4) (uint32_bytes (agedTTL age override (u32 m (next + 4))))) e)
      as (m' & -> & Ha). exists m'. split; [done|].
    eapply agree_trans; [|eapply agree_sub; [..|exact Ha]; lia]. apply put_agree; lia.
Qed.

Lemma parseRecords_app m a b : forall off,
  parseRecords m off (a + b) =
  '(l1, o1) ← parseRecords m off a; '(l2, o2) ← parseRecords m o1 b; Some (l1 ++ l2, o2).
Proof.
  induction a as [|a IH]; intros off; simpl.
  { by destruct (parseRecords m off b) as [[??]|]. }
  destruct (skipName m off) as [[next|]| |]; try done.
  destruct (Nat.ltb_spec (length m) (next + 10)); [done|].
  destruct (Nat.ltb_spec (length m) (next + 10 + Z.to_nat (u16 m (next + 8)))); [done|].
  rewrite IH. destruct (parseRecords m _ a) as [[l1 o1]|]; [|done]. simpl.
  by destruct (parseRecords m o1 b) as [[l2 o2]|].
Qed.

Lemma parseRecords_length m n : forall off l o,
  parseRecords m off n = Some (l, o) -> length l = n.
Proof.
  induction n as [|n IH]; intros off l o Hp; simpl in Hp; [by simplify_eq|].
  repeat split_if Hp. f_equal. by eapply IH.
Qed.

Definition ageSections (age override : Z) (s : sections) : sections :=
  Sections (ageRecord age override <$> answer s) (ageRecord age override <$> authority s)
    (ageRecord age override <$> additional s).

Lemma parseSections_inv m s : parseSections m = Some s ->
  exists o l1 l2 l3 o3,
    (12 <= o)%nat /\ (12 <= length m)%nat /\ s = Sections l1 l2 l3 /\
    skipQuestions m 12 (Z.to_nat (u16 m 4)) = Ret (Some o) /\
    parseRecords m o (Z.to_nat (u16 m 6) + Z.to_nat (u16 m 8) + Z.to_nat (u16 m 10))
      = Some ((l1 ++ l2) ++ l3, o3) /\
    length l1 = Z.to_nat (u16 m 6) /\ length l2 = Z.to_nat (u16 m 8).
Proof.
  unfold parseSections. intros Hs. case_tests_in Hs; [done|].
  destruct (skipQuestions m 12 _) as [[o|]| |] eqn:Hq; try done.
  pose proof (skipQuestions_range m 12 _ o ltac:(lia) Hq).
  destruct (parseRecords m o _) as [[l1 o1]|] eqn:H1; [|done]. simpl in Hs.
  destruct (parseRecords m o1 _) as [[l2 o2]|] eqn:H2; [|done]. simpl in Hs.
  destruct (parseRecords m o2 _) as [[l3 o3]|] eqn:H3; [|done]. simplify_eq/=.
  exists o, l1, l2, l3, o3. rewrite !parseRecords_app, H1. simpl. rewrite H2. simpl. rewrite H3. simpl.
  split_and!; try done; try lia; by eapply parseRecords_length.
Qed.

(** The TTL fields lie behind the header and the question section. *)
Lemma outside_ttl_low m n o l o3 i :
  (o <= length m)%nat -> parseRecords m o n = Some (l, o3) -> (i < o)%nat -> outside_ttl l i.
Proof.
  intros Hl Hp Hi. apply parseRecords_range in Hp as [_ Hf]; [|done].
  eapply Forall_impl; [exact Hf|]. simpl. intros r ?. right. lia.
Qed.

Lemma adjustResponseTTLs_sections m s age override :
  0 <= age -> 0 <= override < 2 ^ 32 -> parseSections m = Some s ->
  exists m', adjustResponseTTLs m age override = Ret m' /\ length m' = length m /\
    (forall i, outside_ttl (answer s ++ authority s ++ additional s) i -> m' !! i = m !! i) /\
    parseSections m' = Some (ageSections age override s).
Proof.
  intros Hage Hov Hs.
  apply parseSections_inv in Hs as (o & l1 & l2 & l3 & o3 & Ho & Hl & -> & Hq & Hp & Hl1 & Hl2).
  pose proof (skipQuestions_range m 12 _ o ltac:(lia) Hq).
  destruct (adjustRecords_spec age override Hage Hov _ m o _ _ ltac:(lia) Hp)
    as (m' & Hadj & Hlen & Hout & Hparse).
  exists m'. assert (Hag : agree m m' 0 o).
  { split; [done|]. intros i Hi. symmetry. apply Hout. eapply outside_ttl_low; [|exact Hp|]; lia. }
  split_and!; [|done| |].
  - unfold adjustResponseTTLs. case_tests. rewrite !be16_ok by lia. cbn [obind].
    rewrite Hq. exact Hadj.
  - intros i Hi. apply Hout. simpl in Hi. by rewrite <- app_assoc.
  - unfold parseSections. rewrite Hlen. case_tests.
    rewrite <- !(agree_u16 m m' 0 o) by (done || lia).
    rewrite (skipQuestions_agree m m' _ 12 o) by (done || (eapply agree_sub; [| |exact Hag]; lia)).
    rewrite !parseRecords_app in Hparse.
    destruct (parseRecords m' o _) as [[k1 p1]|] eqn:E1; [|done]. simpl in *.
    destruct (parseRecords m' p1 _) as [[k2 p2]|] eqn:E2; [|done]. simpl in *.
    destruct (parseRecords m' p2 _) as [[k3 p3]|] eqn:E3; [|done]. simpl in *.
    apply parseRecords_length in E1, E2. injection Hparse as Happ <-. rewrite !fmap_app in Happ.
    unfold ageSections. simpl.
    apply app_inj_1 in Happ as [Happ ->]; [|rewrite !length_app, !length_fmap; lia].
    apply app_inj_1 in Happ as [-> ->]; [done|rewrite length_fmap; lia].
Qed.

(** ** Properties *)

(** The lifetime the resolver is meant to give a response, in nanoseconds. *)
Definition cacheableLifetime (m : list byte) : Z :=
  if (12 <=? length m)%nat && ((Z.land (u16 m 2) 0x000f =? 0) || (Z.land (u16 m 2) 0x000f =? 3)) then
    match parseSections m with
    | None => 0
    | Some s => Z.min 300 (sectionTTL m s) * second
    end
  else 0.

(** [skipName] is correct and total: on every message and offset it
    returns the end of the encoded name that starts there when there is one
    (labels of at most 63 bytes, closed by the root label or a pointer), and
    [(0, false)] exactly when there is none.  It never panics. *)
Theorem skipName_correct (m : list byte) (off : nat) :
  (exists next, skipName m off = Ret (Some next) /\ name_ends m off next) \/
  (skipName m off = Ret None /\ forall next, ~ name_ends m off next).
Proof.
  destruct (skipName_returns m off) as [[next|] Hn].
  - left. exists next. split; [done|]. by apply skipName_iff.
  - right. split; [done|]. intros next Hne%skipName_iff. congruence.
Qed.

Lemma sectionTTL_nonneg m s : parseSections m = Some s -> 0 <= sectionTTL m s.
Proof.
  intros (o & l1 & l2 & l3 & o3 & _ & _ & -> & _ & Hp & _)%parseSections_inv.
  apply parseRecords_nonneg in Hp. apply Forall_app in Hp as [[H1 H2]%Forall_app _].
  unfold sectionTTL. simpl. case_tests.
  - pose proof (minimum_of_nonneg _ (relevant_nonneg m true _ H2)). lia.
  - apply minimum_of_nonneg, relevant_nonneg, H1.
Qed.

Lemma responseTTL_lifetime (m : list byte) :
  responseTTL m = Ret (cacheableLifetime m) /\ 0 <= cacheableLifetime m <= 300 * second.
Proof.
  unfold cacheableLifetime.
  destruct (Nat.leb_spec 12 (length m)); cbn [andb].
  2: { unfold responseTTL. case_tests. unfold second. split; [done|lia]. }
  destruct ((Z.land (u16 m 2) 0x000f =? 0) || _) eqn:Hc.
  - rewrite responseTTL_eq by (try done; apply orb_true_iff in Hc; rewrite !Z.eqb_eq in Hc; done).
    split; [done|]. destruct (parseSections m) as [s|] eqn:Hs; unfold second; [|lia].
    pose proof (sectionTTL_nonneg m s Hs). lia.
  - bool_prop. unfold responseTTL. rewrite be16_ok by lia. cbn [obind]. case_tests.
    unfold second. split; [done|lia].
Qed.

(** C38: [responseTTL] is the reference lifetime: it returns on every byte
    sequence, is zero for a short, malformed or failed (RCODE other than 0 and
    3) response, and otherwise is the minimum TTL of the answer records, or for
    an empty answer the negative-caching TTL of the authority section capped at
    60 s, the whole capped at 300 s; so it is always between 0 and 300 s. *)
Theorem responseTTL_correct (m : list byte) :
  responseTTL m = Ret (cacheableLifetime m) /\ 0 <= cacheableLifetime m <= 300 * second.
Proof. apply responseTTL_lifetime. Qed.

(** A response is never cached longer than any of its answers allows: when
    the answer section is not empty, the lifetime is at most the TTL of every
    answer record other than an EDNS pseudo-record. *)
Theorem responseTTL_below_answers (m : list byte) (s : sections) (r : rr) :
  parseSections m = Some s -> r ∈ answer s -> rr_type r <> 41 ->
  exists d, responseTTL m = Ret d /\ d <= rr_ttl r * second.
Proof.
  intros Hs Hr Ht. exists (cacheableLifetime m). split; [apply responseTTL_lifetime|].
  pose proof Hs as Hinv.
  apply parseSections_inv in Hinv as (o & l1 & l2 & l3 & o3 & _ & _ & -> & _ & Hp & Hl1 & _).
  apply parseRecords_nonneg in Hp. apply Forall_app in Hp as [[H1 _]%Forall_app _]. simpl in Hr.
  assert (0 <= rr_ttl r) by (rewrite Forall_forall in H1; by apply H1).
  unfold cacheableLifetime. destruct (_ && _); [|unfold second; lia]. rewrite Hs.
  unfold sectionTTL. simpl. destruct (Z.eqb_spec (u16 m 6) 0) as [E|E].
  { rewrite E in Hl1. destruct l1; [by apply elem_of_nil in Hr|done]. }
  assert (minimum_of (omap (relevantTTL m false) l1) <= rr_ttl r).
  { apply minimum_of_le, list_elem_of_omap. exists r. split; [done|].
    unfold relevantTTL. case_tests; done. }
  unfold second. lia.
Qed.

(** C39: ageing a cached response rewrites exactly its TTL fields: the result
    has the same length, differs from the original only inside the TTL fields
    of records that are not EDNS pseudo-records, still parses to the same
    records, and every TTL became [max 0 (ttl - age)], or the override. *)
Theorem adjustResponseTTLs_correct (m : list byte) (s : sections) (age override : Z) :
  0 <= age -> 0 <= override < 2 ^ 32 -> parseSections m = Some s ->
  exists m', adjustResponseTTLs m age override = Ret m' /\ length m' = length m /\
    (forall i, outside_ttl (answer s ++ authority s ++ additional s) i -> m' !! i = m !! i) /\
    parseSections m' = Some (ageSections age override s).
Proof. apply adjustResponseTTLs_sections. Qed.

Lemma adjustResponseTTLs_length (m : list byte) (age override : Z) :
  exists m', adjustResponseTTLs m age override = Ret m' /\ length m' = length m.
Proof.
  unfold adjustResponseTTLs. destruct (Nat.ltb_spec (length m) 12); [by exists m|].
  rewrite !be16_ok by lia. cbn [obind].
  destruct (skipQuestions_returns m 12 (Z.to_nat (u16 m 4))) as [[o|] Hq]; rewrite Hq; [|by exists m].
  cbn [obind]. apply adjustRecords_length.
Qed.

(** The header and the question section survive the ageing. *)
Lemma adjustResponseTTLs_low m o age override :
  (12 <= length m)%nat -> skipQuestions m 12 (Z.to_nat (u16 m 4)) = Ret (Some o) ->
  exists m', adjustResponseTTLs m age override = Ret m' /\ agree m m' 0 o.
Proof.
  intros Hl Hq. unfold adjustResponseTTLs. case_tests. rewrite !be16_ok by lia. cbn [obind].
  rewrite Hq. cbn [obind]. apply adjustRecords_low.
Qed.

Lemma length_responseWithID response queryID : length (responseWithID response queryID) = length response.
Proof.
  unfold responseWithID. split_goal; [|done]. apply length_copy_at. rewrite length_take. lia.
Qed.

Lemma cachedResponse_length response queryID age override :
  exists m, cachedResponse response queryID age override = Ret m /\ length m = length response.
Proof.
  unfold cachedResponse. edestruct adjustResponseTTLs_length as (m & -> & Hl).
  exists m. by rewrite Hl, length_responseWithID.
Qed.

(** [adjustResponseTTLs] never panics and never changes the length of the
    message, whatever the message. *)
Theorem adjustResponseTTLs_total (m : list byte) (age override : Z) :
  exists m', adjustResponseTTLs m age override = Ret m' /\ length m' = length m.
Proof. apply adjustResponseTTLs_length. Qed.

(** A response to [a.] with one A record (TTL 77) and an EDNS pseudo-record. *)
Definition sample_response : list byte :=
  byte_of <$> [18;52; 129;128; 0;1; 0;1; 0;0; 0;1;
    1;97;0; 0;1; 0;1;
    192;12; 0;1; 0;1; 0;0;0;77; 0;4; 1;2;3;4;
    0; 0;41; 16;0; 0;0;0;0; 0;0].

Definition sample_records : sections :=
  Sections [RR 1 25 77 4 35] [] [RR 41 40 0 0 46].

Example sample_ttl : responseTTL sample_response = Ret (77 * second).
Proof. vm_compute. reflexivity. Qed.

Lemma responseTTL_below_answers_witness :
  exists d, responseTTL sample_response = Ret d /\ d <= 77 * second.
Proof.
  apply (responseTTL_below_answers sample_response sample_records (RR 1 25 77 4 35)).
  - vm_compute. reflexivity.
  - apply elem_of_cons. by left.
  - discriminate.
Defined.

Lemma adjustResponseTTLs_correct_witness :
  exists m', adjustResponseTTLs sample_response 30 0 = Ret m' /\ length m' = length sample_response /\
    (forall i, outside_ttl (answer sample_records ++ authority sample_records ++ additional sample_records) i ->
       m' !! i = sample_response !! i) /\
    parseSections m' = Some (ageSections 30 0 sample_records).
Proof.
  apply (adjustResponseTTLs_correct sample_response sample_records 30 0); [lia|lia|].
  vm_compute. reflexivity.
Defined.
