(* ===== verification/DnsCache.v ===== *)
(** * The bounded TTL cache of the policy resolver

    Models [responseCache] of [internal/policydns/cache.go].  The Go type keeps
    a map from the query key to an element of a doubly linked list
    ([container/list]) whose front is the most recently used entry.  Here the
    list is [rc_order], a list of element identities with the entry each
    element points to, and [rc_entries] maps a key to an element identity, so
    that the two structures can disagree and their consistency is a theorem.
    The mutex makes every method atomic: a method is a function on the state. *)

From S2P Require Import Prelude GoBase DnsWire.
Open Scope Z_scope.

(** ** State *)
Record cacheEntry := CacheEntry {
  ce_key : list byte;
  ce_response : list byte;
  ce_weight : Z;
  ce_stored : Z;
  ce_expires : Z;
  ce_staleAt : Z;
}.

Record responseCache := ResponseCache {
  rc_limit : Z;
  rc_byteLimit : Z;
  rc_used : Z;
  rc_staleTTL : Z;
  rc_entries : gmap (list byte) nat;
  rc_order : list (nat * cacheEntry);
  rc_fresh : nat;  (* the next element identity to allocate *)
}.

Definition newResponseCache (limit byteLimit staleTTL : Z) : responseCache :=
  ResponseCache limit byteLimit 0 staleTTL ∅ [] 0.

(** *** [container/list] *)

(** The entry an element points to; a dangling identity has none. *)
Fixpoint element (order : list (nat * cacheEntry)) (id : nat) : option cacheEntry :=
  match order with
  | [] => None
  | (i, e) :: order => if decide (i = id) then Some e else element order id
  end.

Definition listRemove (order : list (nat * cacheEntry)) (id : nat) : list (nat * cacheEntry) :=
  filter (fun p => p.1 <> id) order.

Definition moveToFront (order : list (nat * cacheEntry)) (id : nat) : list (nat * cacheEntry) :=
  match element order id with
  | Some e => (id, e) :: listRemove order id
  | None => order
  end.

Definition set_cache (c : responseCache) (used : Z) (entries : gmap (list byte) nat)
    (order : list (nat * cacheEntry)) (fresh : nat) : responseCache :=
  ResponseCache (rc_limit c) (rc_byteLimit c) used (rc_staleTTL c) entries order fresh.

(** ** Operations *)

(** [get]: a fresh hit moves to the front; an entry past its stale bound is
    dropped; an expired entry inside the stale window is kept but not served. *)
Definition get (c : responseCache) (key queryID : list byte) (now : Z) :
    outcome (option (list byte) * responseCache) :=
  match rc_entries c !! key with
  | None => Ret (None, c)
  | Some id =>
      match element (rc_order c) id with
      | None => Panic
      | Some entry =>
          if negb (before now (ce_expires entry)) then
            if negb (before now (ce_staleAt entry)) then
              Ret (None, set_cache c (rc_used c - ce_weight entry) (delete key (rc_entries c))
                           (listRemove (rc_order c) id) (rc_fresh c))
            else Ret (None, c)
          else
            let c := set_cache c (rc_used c) (rc_entries c) (moveToFront (rc_order c) id) (rc_fresh c) in
            let! r := cachedResponse (ce_response entry) queryID (time_sub now (ce_stored entry)) 0 in
            Ret (Some r, c)
      end
  end.

(** [getStale]: serves an expired entry inside the stale window with TTL 30. *)
Definition getStale (c : responseCache) (key queryID : list byte) (now : Z) :
    outcome (option (list byte) * responseCache) :=
  if rc_staleTTL c <=? 0 then Ret (None, c) else
  match rc_entries c !! key with
  | None => Ret (None, c)
  | Some id =>
      match element (rc_order c) id with
      | None => Panic
      | Some entry =>
          if before now (ce_expires entry) || negb (before now (ce_staleAt entry)) then Ret (None, c)
          else
            let c := set_cache c (rc_used c) (rc_entries c) (moveToFront (rc_order c) id) (rc_fresh c) in
            let! r := cachedResponse (ce_response entry) queryID 0 30 in
            Ret (Some r, c)
      end
  end.

(** The eviction loop: [order.Back()] of an empty list is nil, and using it
    panics.  Each round removes one element, so [length order + 1] rounds are
    enough. *)
Fixpoint evict_loop (fuel : nat) (c : responseCache) : outcome responseCache :=
  match fuel with
  | O => Stuck
  | S fuel =>
      if (rc_limit c <? Z.of_nat (length (rc_order c))) || (rc_byteLimit c <? rc_used c) then
        match last (rc_order c) with
        | None => Panic
        | Some (id, entry) =>
            evict_loop fuel (set_cache c (rc_used c - ce_weight entry)
              (delete (ce_key entry) (rc_entries c)) (listRemove (rc_order c) id) (rc_fresh c))
        end
      else Ret c
  end.

Definition evict (c : responseCache) : outcome responseCache :=
  evict_loop (S (length (rc_order c))) c.

Definition approximateEntryOverhead : Z := 128.

Definition entryWeight (key response : list byte) : Z :=
  approximateEntryOverhead + Z.of_nat (length key) + Z.of_nat (length response).

(** [response[0], response[1] = 0, 0]. *)
Definition zeroID (response : list byte) : list byte := [x00; x00] ++ drop 2 response.

(** The part of [putOwned] before the eviction loop: update the entry the key
    already has in place and move it to the front, or push a new element. *)
Definition storeEntry (c : responseCache) (key response : list byte) (ttl now : Z) : outcome responseCache :=
  let weight := entryWeight key response in
  let entry := CacheEntry key (zeroID response) weight now (now + ttl) (now + (ttl +w rc_staleTTL c)) in
  match rc_entries c !! key with
  | Some id =>
      match element (rc_order c) id with
      | None => Panic
      | Some old =>
          Ret (set_cache c (rc_used c - ce_weight old + weight) (rc_entries c)
                 ((id, CacheEntry (ce_key old) (ce_response entry) weight (ce_stored entry)
                         (ce_expires entry) (ce_staleAt entry)) :: listRemove (rc_order c) id) (rc_fresh c))
      end
  | None =>
      let id := rc_fresh c in
      Ret (set_cache c (rc_used c + weight) (<[key:=id]> (rc_entries c))
             ((id, entry) :: rc_order c) (S id))
  end.

Definition putOwned (c : responseCache) (key response : list byte) (ttl now : Z) : outcome responseCache :=
  let weight := entryWeight key response in
  if (rc_limit c <=? 0) || (rc_byteLimit c <=? 0) || (rc_byteLimit c <? weight) || (ttl <=? 0)
     || (length response <? 2)%nat then Ret c
  else
    let! c := storeEntry c key response ttl now in
    evict c.

(** ** Abstract specification: a least-recently-used list of entries *)

Definition contents (c : responseCache) : list cacheEntry := (rc_order c).*2.

Definition lru_find (l : list cacheEntry) (k : list byte) : option cacheEntry :=
  head (filter (fun e => ce_key e = k) l).

Definition lru_drop (l : list cacheEntry) (k : list byte) : list cacheEntry :=
  filter (fun e => ce_key e <> k) l.

(** The longest prefix (most recently used first) within both bounds. *)
Fixpoint lru_fit (limit bytes : Z) (l : list cacheEntry) : list cacheEntry :=
  match l with
  | [] => []
  | e :: l =>
      if (1 <=? limit) && (ce_weight e <=? bytes)
      then e :: lru_fit (limit - 1) (bytes - ce_weight e) l else []
  end.

(** The three operations on the list: result and new list. *)
Definition lru_get (l : list cacheEntry) (key queryID : list byte) (now : Z) :
    outcome (option (list byte)) * list cacheEntry :=
  match lru_find l key with
  | Some e =>
      if now <? ce_expires e then
        (let! r := cachedResponse (ce_response e) queryID (time_sub now (ce_stored e)) 0 in Ret (Some r),
         e :: lru_drop l key)
      else if now <? ce_staleAt e then (Ret None, l) else (Ret None, lru_drop l key)
  | None => (Ret None, l)
  end.

Definition lru_getStale (staleTTL : Z) (l : list cacheEntry) (key queryID : list byte) (now : Z) :
    outcome (option (list byte)) * list cacheEntry :=
  match lru_find l key with
  | Some e =>
      if (0 <? staleTTL) && (ce_expires e <=? now) && (now <? ce_staleAt e) then
        (let! r := cachedResponse (ce_response e) queryID 0 30 in Ret (Some r), e :: lru_drop l key)
      else (Ret None, l)
  | None => (Ret None, l)
  end.

Definition lru_put (limit bytes staleTTL : Z) (l : list cacheEntry) (key response : list byte)
    (ttl now : Z) : list cacheEntry :=
  if (0 <? limit) && (0 <? bytes) && (entryWeight key response <=? bytes) && (0 <? ttl)
     && (2 <=? length response)%nat then
    lru_fit limit bytes
      (CacheEntry key (zeroID response) (entryWeight key response) now (now + ttl) (now + (ttl +w staleTTL))
        :: lru_drop l key)
  else l.

(** ** The invariant *)

Definition weight_of (p : nat * cacheEntry) : Z := ce_weight p.2.

Record cache_wf (c : responseCache) : Prop := CacheWf {
  wf_ids : NoDup (rc_order c).*1;
  wf_index : forall k id, rc_entries c !! k = Some id <-> exists e, (id, e) ∈ rc_order c /\ ce_key e = k;
  wf_used : rc_used c = sum_with weight_of (rc_order c);
  wf_fresh : forall p, p ∈ rc_order c -> (p.1 < rc_fresh c)%nat;
  wf_weight : forall p, p ∈ rc_order c -> 0 < ce_weight p.2;
}.

(** The memory bound the cache promises. *)
Definition cache_bounded (c : responseCache) : Prop :=
  Z.of_nat (length (rc_order c)) <= Z.max 0 (rc_limit c) /\ rc_used c <= Z.max 0 (rc_byteLimit c).

Lemma element_elem order id e :
  NoDup order.*1 -> element order id = Some e <-> (id, e) ∈ order.
Proof.
  induction order as [|[i x] order IH]; simpl; intros Hd.
  { split; [done|]. by intros ?%elem_of_nil. }
  inversion Hd as [|?? Hi Hd']; subst. rewrite elem_of_cons. case_decide as Hdec.
  - subst. split; [intros [= ->]; by left|]. intros [[= ->]|Hin]; [done|].
    exfalso. apply Hi, list_elem_of_fmap. by exists (id, e).
  - rewrite IH by done. split; [by right|]. intros [[= -> ->]|]; done.
Qed.

Lemma wf_key_unique c i j e f :
  cache_wf c -> (i, e) ∈ rc_order c -> (j, f) ∈ rc_order c -> ce_key e = ce_key f -> i = j /\ e = f.
Proof.
  intros Hwf He Hf Hk.
  assert (Hi : rc_entries c !! ce_key e = Some i) by (apply wf_index; eauto).
  assert (Hj : rc_entries c !! ce_key e = Some j) by (apply wf_index; eauto).
  assert (i = j) as <- by congruence. split; [done|].
  apply (element_elem _ i) in He, Hf; try apply Hwf. congruence.
Qed.

(** Removing the element of key [k] from the list is dropping [k]. *)
Lemma contents_remove c id e :
  cache_wf c -> (id, e) ∈ rc_order c -> (listRemove (rc_order c) id).*2 = lru_drop (contents c) (ce_key e).
Proof.
  intros Hwf He. unfold listRemove, lru_drop, contents.
  assert (Hall : forall p, p ∈ rc_order c -> p.1 = id <-> ce_key p.2 = ce_key e).
  { intros [j f] Hf. simpl. split; [intros ->|].
    - apply (element_elem _ id) in He, Hf; try apply Hwf. congruence.
    - intros Hk. by edestruct (wf_key_unique c j id f e) as [-> _]. }
  clear Hwf He. induction (rc_order c) as [|p l IH]; [done|].
  rewrite fmap_cons, !filter_cons.
  assert (Hp := Hall p ltac:(by left)). rewrite <- IH by (intros; apply Hall; by right).
  destruct (decide (p.1 <> id)), (decide (ce_key p.2 <> ce_key e)); tauto.
Qed.

Lemma lru_find_element c k id e :
  cache_wf c -> rc_entries c !! k = Some id -> element (rc_order c) id = Some e ->
  lru_find (contents c) k = Some e /\ ce_key e = k.
Proof.
  intros Hwf Hk He. apply element_elem in He; [|apply Hwf].
  pose proof (proj1 (wf_index c Hwf k id) Hk) as (e' & He' & <-).
  assert (e = e') as <-.
  { pose proof (proj2 (element_elem _ _ _ (wf_ids c Hwf)) He).
    pose proof (proj2 (element_elem _ _ _ (wf_ids c Hwf)) He'). congruence. }
  split; [|done]. unfold lru_find, contents.
  assert (Hu : forall p, p ∈ rc_order c -> ce_key p.2 = ce_key e -> p.2 = e).
  { intros [j f] Hf Hkf. simpl in *. by edestruct (wf_key_unique c j id f e). }
  clear Hwf Hk He'. induction (rc_order c) as [|p l IH]; [by apply elem_of_nil in He|].
  rewrite fmap_cons, filter_cons. case_decide as Hd.
  - simpl. f_equal. apply Hu; [by left|done].
  - apply IH; [|intros q Hq; apply Hu; by right].
    apply elem_of_cons in He as [<-|]; done.
Qed.

Lemma lru_find_none c k :
  cache_wf c -> rc_entries c !! k = None -> lru_find (contents c) k = None /\ lru_drop (contents c) k = contents c.
Proof.
  intros Hwf Hk. unfold lru_find, lru_drop, contents.
  assert (Hn : Forall (fun e => ce_key e <> k) (rc_order c).*2).
  { apply Forall_fmap, Forall_forall. intros [i e] He Hke. simpl in Hke.
    assert (Hs : rc_entries c !! k = Some i) by (apply (wf_index c Hwf); eauto). congruence. }
  induction Hn as [|e l He _ IH]; [done|]. rewrite !filter_cons.
  rewrite decide_False, decide_True by done. destruct IH as [-> ->]. done.
Qed.

Lemma element_total c k id :
  cache_wf c -> rc_entries c !! k = Some id -> exists e, element (rc_order c) id = Some e.
Proof.
  intros Hwf Hk. apply (wf_index c Hwf) in Hk as (e & He & _). exists e.
  apply element_elem; [apply Hwf|done].
Qed.

(** *** Preservation under the three list updates the operations make *)

Lemma listRemove_elem order id p : p ∈ listRemove order id <-> p ∈ order /\ p.1 <> id.
Proof. unfold listRemove. rewrite list_elem_of_filter. tauto. Qed.

Lemma listRemove_nodup order id : NoDup order.*1 -> NoDup (listRemove order id).*1.
Proof.
  intros Hd. eapply sublist_NoDup; [exact Hd|]. apply fmap_sublist, sublist_filter.
Qed.

Lemma listRemove_perm order id e :
  NoDup order.*1 -> (id, e) ∈ order -> order ≡ₚ (id, e) :: listRemove order id.
Proof.
  induction order as [|[i x] order IH]; intros Hd He; [by apply elem_of_nil in He|].
  inversion Hd as [|?? Hi Hd']; subst. unfold listRemove in *. rewrite filter_cons. simpl.
  apply elem_of_cons in He as [[= -> ->]|He].
  - rewrite decide_False by (intros Hx; by apply Hx). apply perm_skip.
    rewrite filter_all; [done|]. apply Forall_forall. intros [j f] Hf. simpl. intros ->.
    apply Hi, list_elem_of_fmap. by exists (i, f).
  - assert (i <> id). { intros ->. apply Hi, list_elem_of_fmap. by exists (id, e). }
    rewrite decide_True by done. etransitivity; [apply perm_skip, IH; done|]. apply perm_swap.
Qed.

Lemma wf_remove c id e :
  cache_wf c -> (id, e) ∈ rc_order c ->
  cache_wf (set_cache c (rc_used c - ce_weight e) (delete (ce_key e) (rc_entries c))
    (listRemove (rc_order c) id) (rc_fresh c)).
Proof.
  intros Hwf He. constructor; simpl.
  - apply listRemove_nodup, Hwf.
  - intros k j. rewrite lookup_delete_Some, (wf_index c Hwf). setoid_rewrite listRemove_elem. simpl.
    split.
    + intros (Hk & f & Hf & <-). exists f. split_and!; try done. intros ->.
      apply (element_elem _ id) in He, Hf; try apply Hwf. congruence.
    + intros (f & [Hf Hj] & <-). split; [|eauto]. intros Hke.
      edestruct (wf_key_unique c id j e f); done.
  - rewrite (wf_used c Hwf), (sum_with_perm _ _ _ (listRemove_perm _ _ _ (wf_ids c Hwf) He)).
    simpl. unfold weight_of at 1. simpl. lia.
  - intros p [Hp _]%listRemove_elem. by apply (wf_fresh c Hwf).
  - intros p [Hp _]%listRemove_elem. by apply (wf_weight c Hwf).
Qed.

(** Replacing the entry of an element (same key) and moving it to the front;
    [moveToFront] is the case [e' = e]. *)
Lemma wf_replace c id e e' :
  cache_wf c -> (id, e) ∈ rc_order c -> ce_key e' = ce_key e -> 0 < ce_weight e' ->
  cache_wf (set_cache c (rc_used c - ce_weight e + ce_weight e') (rc_entries c)
    ((id, e') :: listRemove (rc_order c) id) (rc_fresh c)).
Proof.
  intros Hwf He Hk Hw. constructor; simpl.
  - constructor; [|apply listRemove_nodup, Hwf].
    intros ([j f] & Heq & [_ Hne]%listRemove_elem)%list_elem_of_fmap. simpl in *. congruence.
  - intros k j. rewrite (wf_index c Hwf). setoid_rewrite elem_of_cons. setoid_rewrite listRemove_elem.
    simpl. split.
    + intros (f & Hf & <-). destruct (decide (j = id)) as [->|Hj]; [|by eauto 10].
      exists e'. split; [by left|]. apply (element_elem _ id) in He, Hf; try apply Hwf. congruence.
    + intros (f & [[= -> ->]|[Hf Hj]] & <-); [|by eauto]. exists e. by rewrite Hk.
  - rewrite (wf_used c Hwf), (sum_with_perm _ _ _ (listRemove_perm _ _ _ (wf_ids c Hwf) He)).
    simpl. unfold weight_of at 1 3. simpl. lia.
  - intros p [->|[Hp _]%listRemove_elem]%elem_of_cons; [apply (wf_fresh c Hwf _ He)|by apply (wf_fresh c Hwf)].
  - intros p [->|[Hp _]%listRemove_elem]%elem_of_cons; [done|by apply (wf_weight c Hwf)].
Qed.

Lemma wf_push c k e :
  cache_wf c -> rc_entries c !! k = None -> ce_key e = k -> 0 < ce_weight e ->
  cache_wf (set_cache c (rc_used c + ce_weight e) (<[k:=rc_fresh c]> (rc_entries c))
    ((rc_fresh c, e) :: rc_order c) (S (rc_fresh c))).
Proof.
  intros Hwf Hk Hke Hw.
  assert (Hnew : forall f, ~ (rc_fresh c, f) ∈ rc_order c).
  { intros f Hf%(wf_fresh c Hwf). simpl in Hf. lia. }
  constructor; simpl.
  - constructor; [|apply Hwf]. intros ([j f] & Heq & Hf)%list_elem_of_fmap.
    simpl in Heq. subst j. by eapply Hnew.
  - intros k' j. rewrite lookup_insert_Some. setoid_rewrite elem_of_cons. split.
    + intros [[<- <-]|[Hne (f & Hf & <-)%(wf_index c Hwf)]]; [exists e|exists f]; split; eauto.
    + intros (f & [[= -> ->]|Hf] & <-); [by left|]. right.
      assert (Hs : rc_entries c !! ce_key f = Some j) by (apply (wf_index c Hwf); eauto).
      split; [|done]. intros Heq. congruence.
  - rewrite (wf_used c Hwf). unfold weight_of at 2. simpl. lia.
  - intros p [->|Hp%(wf_fresh c Hwf)]%elem_of_cons; simpl; lia.
  - intros p [->|Hp]%elem_of_cons; [done|by apply (wf_weight c Hwf)].
Qed.

(** *** Eviction *)

Definition list_weight (l : list cacheEntry) : Z := sum_with ce_weight l.

Lemma list_weight_cons e l : list_weight (e :: l) = ce_weight e + list_weight l.
Proof. done. Qed.

Lemma sum_with_weight order : sum_with weight_of order = list_weight order.*2.
Proof. induction order as [|p l IH]; simpl; [done|]. by rewrite IH. Qed.

Lemma lru_fit_all limit bytes l :
  (forall e, e ∈ l -> 0 < ce_weight e) -> Z.of_nat (length l) <= limit -> list_weight l <= bytes ->
  lru_fit limit bytes l = l.
Proof.
  revert limit bytes. induction l as [|e l IH]; intros limit bytes Hpos Hl Hw; simpl in *; [done|].
  assert (0 <= list_weight l) by (apply sum_with_nonneg; intros x Hx; apply Z.lt_le_incl, Hpos; by right).
  case_tests. f_equal. apply IH; [intros; apply Hpos; by right|lia|lia].
Qed.

Lemma lru_fit_snoc limit bytes l e :
  limit < Z.of_nat (length (l ++ [e])) \/ bytes < list_weight (l ++ [e]) ->
  lru_fit limit bytes (l ++ [e]) = lru_fit limit bytes l.
Proof.
  revert limit bytes. induction l as [|x l IH]; intros limit bytes Hover; simpl in *.
  - case_tests; done.
  - case_tests; try done. f_equal. apply IH. lia.
Qed.

Lemma lru_fit_bounds limit bytes l :
  0 <= limit -> 0 <= bytes ->
  Z.of_nat (length (lru_fit limit bytes l)) <= limit /\ list_weight (lru_fit limit bytes l) <= bytes.
Proof.
  revert limit bytes. induction l as [|e l IH]; intros limit bytes Hl Hb; simpl; [lia|].
  case_tests; simpl; try lia. destruct (IH (limit - 1) (bytes - ce_weight e)); lia.
Qed.

Lemma lru_fit_prefix limit bytes l : lru_fit limit bytes l `prefix_of` l.
Proof.
  revert limit bytes. induction l as [|e l IH]; intros limit bytes; simpl; [done|].
  destruct (_ && _); [by apply prefix_cons|apply prefix_nil].
Qed.

Lemma wf_snoc_remove c l id e :
  cache_wf c -> rc_order c = l ++ [(id, e)] -> listRemove (rc_order c) id = l.
Proof.
  intros Hwf Ho. rewrite Ho. unfold listRemove. rewrite filter_app, filter_cons_False by (simpl; tauto).
  rewrite filter_nil, app_nil_r. apply filter_all, Forall_forall. intros [j f] Hf Hj. simpl in Hj. subst.
  pose proof (wf_ids c Hwf) as Hd. rewrite Ho, fmap_app in Hd.
  apply NoDup_app in Hd as (_ & Hd & _). eapply Hd; [|simpl; by left].
  apply list_elem_of_fmap. by exists (id, f).
Qed.

Definition same_bounds (c c' : responseCache) : Prop :=
  rc_limit c' = rc_limit c /\ rc_byteLimit c' = rc_byteLimit c /\ rc_staleTTL c' = rc_staleTTL c.

Lemma evict_loop_spec fuel : forall c,
  cache_wf c -> (length (rc_order c) < fuel)%nat -> 0 <= rc_limit c -> 0 <= rc_byteLimit c ->
  exists c', evict_loop fuel c = Ret c' /\ cache_wf c' /\ same_bounds c c' /\
    contents c' = lru_fit (rc_limit c) (rc_byteLimit c) (contents c).
Proof.
  induction fuel as [|fuel IH]; intros c Hwf Hf Hl Hb; [lia|]. simpl.
  pose proof (wf_used c Hwf) as Hu. rewrite sum_with_weight in Hu. fold (contents c) in Hu.
  assert (Hlen : length (contents c) = length (rc_order c)) by apply length_fmap.
  destruct (_ || _) eqn:Hover.
  2: { bool_prop. exists c. split_and!; try done. symmetry. apply lru_fit_all; [|lia|lia].
       intros e (p & -> & Hp)%list_elem_of_fmap. by apply (wf_weight c Hwf). }
  assert (Hov : rc_limit c < Z.of_nat (length (contents c)) \/ rc_byteLimit c < list_weight (contents c)).
  { apply orb_true_iff in Hover. rewrite !Z.ltb_lt in Hover. lia. }
  destruct (last (rc_order c)) as [[id e]|] eqn:Hlast.
  2: { apply last_None in Hlast. unfold contents in Hov. rewrite Hlast in Hov. simpl in Hov. lia. }
  apply last_Some in Hlast as [l Ho].
  assert (He : (id, e) ∈ rc_order c) by (rewrite Ho; apply elem_of_app; right; by left).
  pose proof (wf_snoc_remove c l id e Hwf Ho) as Hrem.
  pose proof (wf_remove c id e Hwf He) as Hwf'. rewrite Hrem in Hwf' |- *.
  destruct (IH _ Hwf') as (c' & -> & Hwf'' & (? & ? & ?) & Hc); simpl; try done.
  { rewrite Ho, length_app in Hf. simpl in Hf. lia. }
  exists c'. split_and!; try done. rewrite Hc. simpl. unfold contents. simpl.
  assert (Hcl : (rc_order c).*2 = l.*2 ++ [e]) by (rewrite Ho, fmap_app; done).
  rewrite Hcl. symmetry. apply lru_fit_snoc. rewrite <- Hcl. exact Hov.
Qed.

Lemma evict_spec c :
  cache_wf c -> 0 <= rc_limit c -> 0 <= rc_byteLimit c ->
  exists c', evict c = Ret c' /\ cache_wf c' /\ same_bounds c c' /\
    contents c' = lru_fit (rc_limit c) (rc_byteLimit c) (contents c).
Proof. intros. apply evict_loop_spec; auto. Qed.

(** The concrete counters are those of the list. *)
Lemma bounded_contents c : cache_wf c ->
  cache_bounded c <-> Z.of_nat (length (contents c)) <= Z.max 0 (rc_limit c) /\
    list_weight (contents c) <= Z.max 0 (rc_byteLimit c).
Proof.
  intros Hwf. unfold cache_bounded. rewrite (wf_used c Hwf), sum_with_weight.
  unfold contents. by rewrite length_fmap.
Qed.

(** *** The operations refine the list *)

Lemma contents_set_cache c u m o f : contents (set_cache c u m o f) = o.*2.
Proof. done. Qed.

Lemma moveToFront_spec c id e :
  cache_wf c -> (id, e) ∈ rc_order c ->
  let c' := set_cache c (rc_used c) (rc_entries c) (moveToFront (rc_order c) id) (rc_fresh c) in
  cache_wf c' /\ contents c' = e :: lru_drop (contents c) (ce_key e).
Proof.
  intros Hwf He c'. subst c'. unfold moveToFront.
  rewrite (proj2 (element_elem _ id e (wf_ids c Hwf)) He).
  pose proof (wf_weight c Hwf _ He) as Hw. simpl in Hw.
  pose proof (wf_replace c id e e Hwf He eq_refl Hw) as Hwf'.
  replace (rc_used c - ce_weight e + ce_weight e) with (rc_used c) in Hwf' by lia.
  split; [done|]. by rewrite contents_set_cache, fmap_cons, (contents_remove c id e).
Qed.

Lemma lru_find_elem l k e : lru_find l k = Some e -> e ∈ l /\ ce_key e = k.
Proof.
  intros (l' & Hl)%head_Some. assert (He : e ∈ filter (fun e => ce_key e = k) l) by (rewrite Hl; by left).
  apply list_elem_of_filter in He. tauto.
Qed.

Lemma lru_drop_smaller l k :
  (forall e, e ∈ l -> 0 < ce_weight e) ->
  (length (lru_drop l k) <= length l)%nat /\ list_weight (lru_drop l k) <= list_weight l.
Proof.
  intros Hpos. split; [apply filter_length_le|]. unfold lru_drop.
  induction l as [|x l IH]; [done|]. rewrite filter_cons.
  assert (0 < ce_weight x) by (apply Hpos; by left).
  specialize (IH ltac:(intros; apply Hpos; by right)). unfold list_weight in *.
  case_decide; simpl; lia.
Qed.

Lemma lru_touch_same c k e :
  cache_wf c -> lru_find (contents c) k = Some e ->
  e :: lru_drop (contents c) k ≡ₚ contents c.
Proof.
  intros Hwf [He Hk]%lru_find_elem. apply list_elem_of_fmap in He as ([id e'] & -> & He). simpl in *. subst k.
  rewrite <- (contents_remove c id e' Hwf He). unfold contents.
  rewrite (fmap_Permutation snd _ _ (listRemove_perm _ _ _ (wf_ids c Hwf) He)). done.
Qed.

Lemma contents_positive c : cache_wf c -> forall e, e ∈ contents c -> 0 < ce_weight e.
Proof. intros Hwf e (p & -> & Hp)%list_elem_of_fmap. by apply (wf_weight c Hwf). Qed.

(** What an operation that starts in [c] must deliver. *)
Definition refines {R} (c : responseCache) (m : outcome (R * responseCache))
    (spec : outcome R * list cacheEntry) : Prop :=
  exists r c', m = Ret (r, c') /\ spec = (Ret r, contents c') /\
    cache_wf c' /\ cache_bounded c' /\ same_bounds c c'.

Lemma bounded_perm c c' :
  cache_wf c -> cache_wf c' -> same_bounds c c' -> cache_bounded c ->
  (length (contents c') <= length (contents c))%nat -> list_weight (contents c') <= list_weight (contents c) ->
  cache_bounded c'.
Proof.
  intros Hwf Hwf' (E1 & E2 & _) Hb Hl Hw.
  rewrite bounded_contents in Hb |- * by done. rewrite E1, E2. lia.
Qed.

Lemma touch_refines c k id e queryID age override :
  cache_wf c -> cache_bounded c -> rc_entries c !! k = Some id -> element (rc_order c) id = Some e ->
  refines c
    (let! r := cachedResponse (ce_response e) queryID age override in
     Ret (Some r, set_cache c (rc_used c) (rc_entries c) (moveToFront (rc_order c) id) (rc_fresh c)))
    (let! r := cachedResponse (ce_response e) queryID age override in Ret (Some r),
     e :: lru_drop (contents c) k).
Proof.
  intros Hwf Hb Hk He. destruct (lru_find_element c k id e Hwf Hk He) as [Hf <-].
  pose proof (lru_touch_same c _ e Hwf Hf) as Hp.
  apply element_elem in He; [|apply Hwf].
  destruct (moveToFront_spec c id e Hwf He) as [Hwf' Hc'].
  destruct (cachedResponse_length (ce_response e) queryID age override) as (r & -> & _). cbn [obind].
  eexists _, _. split_and!; [done|by rewrite Hc'|done| |done].
  eapply bounded_perm; [exact Hwf|done|done|done| |]; rewrite Hc'.
  - by rewrite Hp.
  - unfold list_weight. by rewrite (sum_with_perm _ _ _ Hp).
Qed.

Lemma get_refines c key queryID now :
  cache_wf c -> cache_bounded c -> refines c (get c key queryID now) (lru_get (contents c) key queryID now).
Proof.
  intros Hwf Hb. unfold get, lru_get, before.
  destruct (rc_entries c !! key) as [id|] eqn:Hk.
  2: { destruct (lru_find_none c key Hwf Hk) as [-> _]. by exists None, c. }
  destruct (element_total c key id Hwf Hk) as [e He]. rewrite He.
  destruct (lru_find_element c key id e Hwf Hk He) as [-> <-].
  destruct (Z.ltb_spec now (ce_expires e)); cbn [negb].
  { by apply touch_refines. }
  destruct (Z.ltb_spec now (ce_staleAt e)); cbn [negb]; [by exists None, c|].
  apply element_elem in He; [|apply Hwf].
  pose proof (wf_remove c id e Hwf He) as Hwf'.
  eexists None, _. split_and!; [done| |done| |done].
  - by rewrite contents_set_cache, (contents_remove c id e).
  - eapply bounded_perm; [exact Hwf|done|done|done| |]; rewrite contents_set_cache, (contents_remove c id e) by done;
       apply lru_drop_smaller, contents_positive, Hwf.
Qed.

Lemma getStale_refines c key queryID now :
  cache_wf c -> cache_bounded c ->
  refines c (getStale c key queryID now) (lru_getStale (rc_staleTTL c) (contents c) key queryID now).
Proof.
  intros Hwf Hb. unfold getStale, lru_getStale, before.
  destruct (Z.leb_spec (rc_staleTTL c) 0).
  { exists None, c. split_and!; try done. case_tests. by destruct (lru_find _ _). }
  destruct (rc_entries c !! key) as [id|] eqn:Hk.
  2: { destruct (lru_find_none c key Hwf Hk) as [-> _]. by exists None, c. }
  destruct (element_total c key id Hwf Hk) as [e He]. rewrite He.
  destruct (lru_find_element c key id e Hwf Hk He) as [-> <-].
  case_tests; try (by exists None, c). by apply touch_refines.
Qed.

Lemma lru_put_elem limit bytes staleTTL l key response ttl now :
  0 < limit -> entryWeight key response <= bytes ->
  exists l', lru_fit limit bytes
      (CacheEntry key (zeroID response) (entryWeight key response) now (now + ttl) (now + (ttl +w staleTTL))
        :: lru_drop l key) =
    CacheEntry key (zeroID response) (entryWeight key response) now (now + ttl) (now + (ttl +w staleTTL)) :: l'.
Proof. intros. simpl. case_tests. eauto. Qed.

Lemma entryWeight_pos key response : 0 < entryWeight key response.
Proof. unfold entryWeight, approximateEntryOverhead. lia. Qed.

Lemma storeEntry_spec c key response ttl now :
  cache_wf c ->
  exists c', storeEntry c key response ttl now = Ret c' /\ cache_wf c' /\ same_bounds c c' /\
    contents c' =
      CacheEntry key (zeroID response) (entryWeight key response) now (now + ttl) (now + (ttl +w rc_staleTTL c))
        :: lru_drop (contents c) key.
Proof.
  intros Hwf. pose proof (entryWeight_pos key response) as Hw. unfold storeEntry.
  destruct (rc_entries c !! key) as [id|] eqn:Hk.
  - destruct (element_total c key id Hwf Hk) as [e He]. rewrite He.
    destruct (lru_find_element c key id e Hwf Hk He) as [_ Hke].
    apply element_elem in He; [|apply Hwf]. eexists. split_and!; [done| |done|].
    + by apply (wf_replace c id e (CacheEntry (ce_key e) (zeroID response) (entryWeight key response)
        now (now + ttl) (now + (ttl +w rc_staleTTL c)))).
    + by rewrite contents_set_cache, fmap_cons, (contents_remove c id e), Hke.
  - eexists. split_and!; [done| |done|].
    + by apply (wf_push c key (CacheEntry key (zeroID response) (entryWeight key response)
        now (now + ttl) (now + (ttl +w rc_staleTTL c)))).
    + rewrite contents_set_cache, fmap_cons. by destruct (lru_find_none c key Hwf Hk) as [_ ->].
Qed.

Lemma putOwned_refines c key response ttl now :
  cache_wf c -> cache_bounded c ->
  exists c', putOwned c key response ttl now = Ret c' /\ cache_wf c' /\ cache_bounded c' /\ same_bounds c c' /\
    contents c' = lru_put (rc_limit c) (rc_byteLimit c) (rc_staleTTL c) (contents c) key response ttl now.
Proof.
  intros Hwf Hb. unfold putOwned, lru_put.
  destruct (_ || (length response <? 2)%nat) eqn:Hg.
  { exists c. split_and!; try done. replace (_ && _) with false; [done|]. symmetry.
    apply not_true_is_false. intros Hx. bool_prop. apply orb_true_iff in Hg as [Hg|Hg]; bool_prop; [|lia].
    repeat (apply orb_true_iff in Hg as [Hg|Hg]; bool_prop; try lia). }
  bool_prop. replace (_ && _) with true by (symmetry; case_tests; done).
  destruct (storeEntry_spec c key response ttl now Hwf) as (c1 & -> & Hwf1 & Hs1 & Hc1). cbn [obind].
  destruct Hs1 as (E1 & E2 & E3).
  destruct (evict_spec c1 Hwf1) as (c' & -> & Hwf' & (E1' & E2' & E3') & Hc'); [lia|lia|].
  exists c'. rewrite Hc1, E1, E2 in Hc'. split_and!; try done; try congruence.
  - rewrite bounded_contents by done. rewrite E1', E2', E1, E2, Hc'.
    pose proof (lru_fit_bounds (rc_limit c) (rc_byteLimit c)
      (CacheEntry key (zeroID response) (entryWeight key response) now (now + ttl) (now + (ttl +w rc_staleTTL c))
        :: lru_drop (contents c) key)). lia.
  - split_and!; congruence.
Qed.

(** ** Properties *)

(** A client's history of calls. *)
Inductive cacheOp :=
| OpGet (key queryID : list byte) (now : Z)
| OpGetStale (key queryID : list byte) (now : Z)
| OpPut (key response : list byte) (ttl now : Z).

Definition run_op (c : responseCache) (op : cacheOp) : outcome (option (list byte) * responseCache) :=
  match op with
  | OpGet key queryID now => get c key queryID now
  | OpGetStale key queryID now => getStale c key queryID now
  | OpPut key response ttl now => let! c := putOwned c key response ttl now in Ret (None, c)
  end.

Fixpoint run_ops (c : responseCache) (ops : list cacheOp) :
    outcome (list (option (list byte)) * responseCache) :=
  match ops with
  | [] => Ret ([], c)
  | op :: ops =>
      let! (r, c) := run_op c op in
      let! (rs, c) := run_ops c ops in
      Ret (r :: rs, c)
  end.

Definition lru_op (limit bytes staleTTL : Z) (l : list cacheEntry) (op : cacheOp) :
    outcome (option (list byte)) * list cacheEntry :=
  match op with
  | OpGet key queryID now => lru_get l key queryID now
  | OpGetStale key queryID now => lru_getStale staleTTL l key queryID now
  | OpPut key response ttl now => (Ret None, lru_put limit bytes staleTTL l key response ttl now)
  end.

Fixpoint lru_ops (limit bytes staleTTL : Z) (l : list cacheEntry) (ops : list cacheOp) :
    outcome (list (option (list byte))) * list cacheEntry :=
  match ops with
  | [] => (Ret [], l)
  | op :: ops =>
      let (r, l) := lru_op limit bytes staleTTL l op in
      let (rs, l) := lru_ops limit bytes staleTTL l ops in
      (let! r := r in let! rs := rs in Ret (r :: rs), l)
  end.

Lemma run_op_refines c op :
  cache_wf c -> cache_bounded c ->
  refines c (run_op c op) (lru_op (rc_limit c) (rc_byteLimit c) (rc_staleTTL c) (contents c) op).
Proof.
  intros Hwf Hb. destruct op as [key queryID now|key queryID now|key response ttl now]; simpl.
  - by apply get_refines.
  - by apply getStale_refines.
  - destruct (putOwned_refines c key response ttl now Hwf Hb) as (c' & -> & ? & ? & ? & <-).
    by exists None, c'.
Qed.

Lemma run_ops_refines ops : forall c,
  cache_wf c -> cache_bounded c ->
  exists rs c', run_ops c ops = Ret (rs, c') /\
    lru_ops (rc_limit c) (rc_byteLimit c) (rc_staleTTL c) (contents c) ops = (Ret rs, contents c') /\
    cache_wf c' /\ cache_bounded c'.
Proof.
  induction ops as [|op ops IH]; intros c Hwf Hb; simpl; [by exists [], c|].
  destruct (run_op_refines c op Hwf Hb) as (r & c1 & -> & -> & Hwf1 & Hb1 & (E1 & E2 & E3)).
  cbn [obind]. destruct (IH c1 Hwf1 Hb1) as (rs & c' & -> & Hspec & Hwf' & Hb').
  rewrite <- E1, <- E2, <- E3, Hspec. by exists (r :: rs), c'.
Qed.

Lemma newResponseCache_wf limit byteLimit staleTTL :
  cache_wf (newResponseCache limit byteLimit staleTTL) /\ cache_bounded (newResponseCache limit byteLimit staleTTL).
Proof.
  split; [|unfold cache_bounded; simpl; lia]. constructor; simpl; try done.
  - constructor.
  - intros k id. rewrite lookup_empty. split; [done|]. by intros (e & He%elem_of_nil & _).
  - by intros p Hp%elem_of_nil.
  - by intros p Hp%elem_of_nil.
Qed.

(** C12: the cache refines a least-recently-used list.  From a new cache, every
    sequence of calls returns (the eviction loop terminates and never touches
    an empty list, the map and the list never disagree), gives exactly the
    answers of the abstract list, ends with the same entries in the same order,
    and keeps both the entry limit and the byte limit.  This holds for every
    lifetime and stale window: the end of the stale window is their [int64] sum
    after the time of storing, which for an overflowing sum is in the past. *)
Theorem cache_refines_lru (limit byteLimit staleTTL : Z) (ops : list cacheOp) :
  exists rs c', run_ops (newResponseCache limit byteLimit staleTTL) ops = Ret (rs, c') /\
    lru_ops limit byteLimit staleTTL [] ops = (Ret rs, contents c') /\
    cache_wf c' /\ cache_bounded c'.
Proof.
  destruct (newResponseCache_wf limit byteLimit staleTTL) as [Hwf Hb].
  apply (run_ops_refines ops _ Hwf Hb).
Qed.

Lemma lru_get_hit l e l' key queryID now :
  l = e :: l' -> ce_key e = key -> now < ce_expires e ->
  lru_get l key queryID now =
  (let! r := cachedResponse (ce_response e) queryID (time_sub now (ce_stored e)) 0 in Ret (Some r),
   e :: lru_drop l key).
Proof.
  intros -> Hk Hn. unfold lru_get, lru_find. rewrite filter_cons_True by done. simpl.
  by case_tests.
Qed.

(** what is stored is served.  A response that passes the admission guards
    of [putOwned] is in the cache afterwards whatever had to be evicted, and
    until its lifetime has passed a lookup of its key returns it, under the
    identifier of the new query and with its TTLs aged. *)
Theorem put_then_get (c : responseCache) (key response queryID : list byte) (ttl now d : Z) :
  cache_wf c -> cache_bounded c -> 0 < rc_limit c -> entryWeight key response <= rc_byteLimit c ->
  (2 <= length response)%nat -> 0 <= d < ttl ->
  exists c' r c'', putOwned c key response ttl now = Ret c' /\
    get c' key queryID (now + d) = Ret (Some r, c'') /\
    cachedResponse (zeroID response) queryID (time_sub (now + d) now) 0 = Ret r.
Proof.
  intros Hwf Hb Hl Hw Hr Hd. pose proof (entryWeight_pos key response).
  destruct (putOwned_refines c key response ttl now Hwf Hb) as (c' & Hput & Hwf' & Hb' & _ & Hc').
  unfold lru_put in Hc'. replace (_ && _) with true in Hc' by (symmetry; case_tests; done).
  destruct (lru_put_elem (rc_limit c) (rc_byteLimit c) (rc_staleTTL c) (contents c) key response ttl now)
    as [l' Hfit]; [done|done|]. rewrite Hfit in Hc'.
  destruct (get_refines c' key queryID (now + d) Hwf' Hb') as (r & c'' & Hget & Hspec & _).
  erewrite lru_get_hit in Hspec; [|exact Hc'|done|simpl; lia]. simpl in Hspec.
  destruct (cachedResponse_length (zeroID response) queryID (time_sub (now + d) now) 0) as (m & Hm & _).
  rewrite Hm in Hspec. simplify_eq/=. by exists c', m, c''.
Qed.

(** No answer outlives its entry.  A fresh hit comes from an entry stored
    under that very key whose expiry is still ahead; a stale answer comes only
    from such an entry between its expiry and its stale bound, and only when
    stale serving is enabled. *)
Theorem served_entries_valid (c c' : responseCache) (key queryID r : list byte) (now : Z) :
  cache_wf c -> cache_bounded c ->
  (get c key queryID now = Ret (Some r, c') ->
     exists e, e ∈ contents c /\ ce_key e = key /\ now < ce_expires e /\
       cachedResponse (ce_response e) queryID (time_sub now (ce_stored e)) 0 = Ret r) /\
  (getStale c key queryID now = Ret (Some r, c') ->
     exists e, e ∈ contents c /\ ce_key e = key /\ 0 < rc_staleTTL c /\
       ce_expires e <= now < ce_staleAt e /\ cachedResponse (ce_response e) queryID 0 30 = Ret r).
Proof.
  intros Hwf Hb. split; intros Hg.
  - destruct (get_refines c key queryID now Hwf Hb) as (r0 & c0 & Hg' & Hspec & _).
    rewrite Hg in Hg'. simplify_eq. unfold lru_get in Hspec.
    destruct (lru_find (contents c) key) as [e|] eqn:Hf; [|done]. apply lru_find_elem in Hf as [He Hk].
    case_tests_in Hspec; try done. exists e. split_and!; try done.
    destruct (cachedResponse _ _ _ _); by simplify_eq/=.
  - destruct (getStale_refines c key queryID now Hwf Hb) as (r0 & c0 & Hg' & Hspec & _).
    rewrite Hg in Hg'. simplify_eq. unfold lru_getStale in Hspec.
    destruct (lru_find (contents c) key) as [e|] eqn:Hf; [|done]. apply lru_find_elem in Hf as [He Hk].
    case_tests_in Hspec; try done. exists e. split_and!; try done.
    destruct (cachedResponse _ _ _ _); by simplify_eq/=.
Qed.

(** Storing one key never changes what another key finds, short of
    eviction: afterwards the other key finds the same entry or none, and the
    same entry when the new entry fits beside everything already there. *)
Theorem put_keeps_others (c c' : responseCache) (key other response : list byte) (ttl now : Z) :
  cache_wf c -> cache_bounded c -> putOwned c key response ttl now = Ret c' -> other <> key ->
  (lru_find (contents c') other = lru_find (contents c) other \/ lru_find (contents c') other = None) /\
  (Z.of_nat (length (contents c)) + 1 <= rc_limit c ->
   rc_used c + entryWeight key response <= rc_byteLimit c ->
   lru_find (contents c') other = lru_find (contents c) other).
Proof.
  intros Hwf Hb Hput Hne.
  destruct (putOwned_refines c key response ttl now Hwf Hb) as (c0 & Hput' & _ & _ & _ & Hc).
  rewrite Hput in Hput'. simplify_eq. rewrite Hc. clear Hc Hput.
  unfold lru_put. destruct (_ && _) eqn:Hg; [|auto]. bool_prop.
  set (e := CacheEntry key _ _ _ _ _).
  assert (Hdrop : lru_find (e :: lru_drop (contents c) key) other = lru_find (contents c) other).
  { unfold lru_find, lru_drop. rewrite filter_cons_False by (subst e; simpl; congruence).
    rewrite list_filter_filter_l; [done|]. intros x -> Hx. congruence. }
  split.
  - destruct (lru_fit_prefix (rc_limit c) (rc_byteLimit c) (e :: lru_drop (contents c) key)) as [k Hk].
    unfold lru_find in *. rewrite <- Hdrop. set (p := lru_fit _ _ _) in *. rewrite Hk, filter_app.
    destruct (filter _ p); [by right|by left].
  - intros Hl Hw. rewrite <- Hdrop. f_equal.
    assert (He : ce_weight e = entryWeight key response) by done. clearbody e.
    pose proof (lru_drop_smaller (contents c) key (contents_positive c Hwf)) as [Hd1 Hd2].
    rewrite (wf_used c Hwf), sum_with_weight in Hw. fold (contents c) in Hw.
    pose proof (entryWeight_pos key response).
    apply lru_fit_all; [|simpl; lia|rewrite list_weight_cons; lia].
    intros x [->|Hx]%elem_of_cons; [lia|].
    apply list_elem_of_filter in Hx as [_ Hx]. by apply (contents_positive c Hwf).
Qed.

(** Witnesses: a cache of one entry and 1000 bytes, an unrelated second key. *)
Definition tiny_cache : responseCache := newResponseCache 1 1000 (3600 * second).

Lemma tiny_cache_ok : cache_wf tiny_cache /\ cache_bounded tiny_cache.
Proof. apply newResponseCache_wf. Qed.

Lemma put_then_get_witness :
  exists c' r c'', putOwned tiny_cache [x61] sample_response (77 * second) 5 = Ret c' /\
    get c' [x61] [x07; x08] (5 + 30 * second) = Ret (Some r, c'') /\
    cachedResponse (zeroID sample_response) [x07; x08] (time_sub (5 + 30 * second) 5) 0 = Ret r.
Proof.
  apply (put_then_get tiny_cache [x61] sample_response [x07; x08] (77 * second) 5 (30 * second));
    [apply tiny_cache_ok|apply tiny_cache_ok|vm_compute; reflexivity|vm_compute; discriminate
    |vm_compute; lia|vm_compute; split; [discriminate|reflexivity]].
Defined.

Definition tiny_filled : responseCache :=
  match putOwned tiny_cache [x61] sample_response (77 * second) 5 with Ret c => c | _ => tiny_cache end.

Lemma tiny_filled_ok : cache_wf tiny_filled /\ cache_bounded tiny_filled.
Proof.
  destruct tiny_cache_ok as [Hwf Hb]. unfold tiny_filled.
  by destruct (putOwned_refines tiny_cache [x61] sample_response (77 * second) 5 Hwf Hb) as (c & -> & ? & ? & _).
Qed.

Definition tiny_hit : option (list byte) * responseCache :=
  match get tiny_filled [x61] [x07; x08] second with Ret p => p | _ => (None, tiny_filled) end.

Lemma served_entries_valid_witness :
  exists e, e ∈ contents tiny_filled /\ ce_key e = [x61] /\ second < ce_expires e /\
    cachedResponse (ce_response e) [x07; x08] (time_sub second (ce_stored e)) 0 = Ret (default [] tiny_hit.1).
Proof.
  apply (served_entries_valid tiny_filled tiny_hit.2 [x61] [x07; x08] (default [] tiny_hit.1) second
    (proj1 tiny_filled_ok) (proj2 tiny_filled_ok)).
  vm_compute. reflexivity.
Defined.

Lemma put_keeps_others_witness :
  lru_find (contents (match putOwned tiny_filled [x62] sample_response second 6 with Ret c => c | _ => tiny_filled end)) [x61]
    = lru_find (contents tiny_filled) [x61] \/
  lru_find (contents (match putOwned tiny_filled [x62] sample_response second 6 with Ret c => c | _ => tiny_filled end)) [x61]
    = None.
Proof.
  apply (put_keeps_others tiny_filled _ [x62] [x61] sample_response second 6
    (proj1 tiny_filled_ok) (proj2 tiny_filled_ok)); [vm_compute; reflexivity|discriminate].
Defined.
