(* ===== verification/DnsLane.v ===== *)
(** * Lanes of the policy resolver and shared domain sets

    Models [compileLaneWithSets] and [lane.target] of
    [internal/policydns/config.go], and [Compile] with the map matcher of
    [internal/domainset].  A Go string is its sequence of bytes.  The
    lower-casing of a non-ASCII string and the SHA-256 identity of a domain set
    are parameters; everything else is the source's code. *)

From Stdlib Require Import String.
From S2P Require Import Prelude GoBase GoSort DnsCache.
Open Scope Z_scope.

Set Default Proof Using "Type".

Definition dot : byte := x2e.

(** ** String functions *)

(** [strings.Trim(s, ".")]. *)
Fixpoint trim_left (s : gostr) : gostr :=
  match s with
  | b :: r => if decide (b = dot) then trim_left r else s
  | [] => []
  end.
Definition trim_dots (s : gostr) : gostr := reverse (trim_left (reverse (trim_left s))).

(** [strings.IndexByte(s, '.')], and the text behind the first dot. *)
Fixpoint after_dot (s : gostr) : option gostr :=
  match s with
  | [] => None
  | b :: r => if decide (b = dot) then Some r else after_dot r
  end.

(** The comparison of [sort.Strings]: lexicographic on bytes. *)
Fixpoint less_bytes (a b : gostr) : bool :=
  match a, b with
  | _, [] => false
  | [], _ :: _ => true
  | x :: a, y :: b => (bval x <? bval y) || ((bval x =? bval y) && less_bytes a b)
  end.

(** The loop [for suffix := name; suffix != ""; { ...; suffix = suffix[dot+1:] }]
    of [lane.target] and of [mapMembership.Match]; each round shortens the
    name, so [length name + 1] rounds are enough. *)
Fixpoint suffix_loop {A} (visit : A -> gostr -> A) (fuel : nat) (acc : A) (suffix : gostr) : outcome A :=
  match fuel with
  | O => Stuck
  | S fuel =>
      match suffix with
      | [] => Ret acc
      | _ :: _ =>
          let acc := visit acc suffix in
          match after_dot suffix with
          | None => Ret acc
          | Some rest => suffix_loop visit fuel acc rest
          end
      end
  end.

(** ** Data *)
Record domainSet := DomainSet { set_domain : list gostr; set_suffix : list gostr }.
Record membership := Membership { mb_name : gostr; mb_id : Z }.
Record mapMembership := MapMembership { mm_exact : gmap gostr (list Z); mm_suffix : gmap gostr (list Z) }.

Record ruleConfig := RuleConfig {
  rule_domainSet : gostr;
  rule_domain : list gostr;
  rule_suffix : list gostr;
  rule_action : gostr;
  rule_server : gostr;
}.
Record laneConfig := LaneConfig {
  raw_id : gostr;
  raw_host : gostr;
  raw_port : Z;
  raw_final : gostr;
  raw_rules : list ruleConfig;
}.
Record ruleDecision := RuleDecision { rd_order : Z; rd_reject : bool; rd_server : gostr }.
Record lane := Lane {
  ln_shared : option mapMembership;
  ln_setDecisions : gmap Z ruleDecision;
  ln_id : gostr;
  ln_host : gostr;
  ln_port : Z;
  ln_final : gostr;
  ln_exact : gmap gostr ruleDecision;
  ln_suffix : gmap gostr ruleDecision;
}.

(** The errors of the two compilers. *)
Inductive laneError := LaneNoID | LaneNotLoopback | LaneUnsafePort | LaneMissingSet | InvalidSharedSet.

(** ** The code *)

Section Code.
Context (unicodeToLower : gostr -> gostr) (set_ID : domainSet -> gostr).

(** [strings.ToLower]. *)
Definition ToLower (s : gostr) : gostr :=
  if forallb is_ascii s then lower_byte <$> s else unicodeToLower s.

(** *** [domainset.Compile] *)

Definition addMembership (m : gmap gostr (list Z)) (e : membership) : gmap gostr (list Z) :=
  <[mb_name e := default [] (m !! mb_name e) ++ [mb_id e]]> m.

Definition compileMapMembership (exact suffix : list membership) : mapMembership :=
  MapMembership (foldl addMembership ∅ exact) (foldl addMembership ∅ suffix).

Definition exactMembers (set : domainSet) (id : Z) : list membership :=
  (fun value => Membership (ToLower value) id) <$> filter (fun value => value <> []) (set_domain set).
Definition suffixMembers (set : domainSet) (id : Z) : list membership :=
  (fun key => Membership key id) <$> filter (fun key => key <> [])
    ((fun value => ToLower (trim_dots value)) <$> set_suffix set).

(** [ids[name] = uint32(n + 1)] over the sorted names. *)
Definition assignIDs (names : list gostr) : list (gostr * Z) :=
  imap (fun n name => (name, wrap_u32 (Z.of_nat n + 1))) names.

Definition validSet (name : gostr) (set : domainSet) : bool :=
  bool_decide (set_ID set = name) && negb (length (set_domain set) + length (set_suffix set) =? 0)%nat.

(** [compileWith(sets, compileMembership)] with the map matcher; the first
    result is the index and the identities, [None, ∅] for no sets at all. *)
Definition Compile (sets : gmap gostr domainSet) :
    (option mapMembership * gmap gostr Z) + laneError :=
  if (size sets =? 0)%nat then inl (None, ∅) else
  let names := sort_stable less_bytes (map_to_list sets).*1 in
  if negb (forallb (fun name => match sets !! name with Some set => validSet name set | None => false end) names)
  then inr InvalidSharedSet
  else
    let assigned := assignIDs names in
    let members (f : domainSet -> Z -> list membership) :=
      concat ((fun '(name, id) => match sets !! name with Some set => f set id | None => [] end) <$> assigned) in
    inl (Some (compileMapMembership (members exactMembers) (members suffixMembers)), list_to_map assigned).

(** [mapMembership.Match]: the identities in the order they are visited. *)
Definition matchMembers (i : mapMembership) (name : gostr) : outcome (list Z) :=
  suffix_loop (fun acc suffix => acc ++ default [] (mm_suffix i !! suffix)) (S (length name))
    (default [] (mm_exact i !! name)) name.

(** [Index.Match]: a nil index visits nothing. *)
Definition Match (i : option mapMembership) (name : gostr) : outcome (list Z) :=
  match i with None => Ret [] | Some i => matchMembers i name end.

(** *** [compileLaneWithSets] *)

Definition insertAbsent {K} `{Countable K} (d : ruleDecision) (m : gmap K ruleDecision) (k : K) : gmap K ruleDecision :=
  match m !! k with Some _ => m | None => <[k:=d]> m end.

Definition ruleDomains (rule : ruleConfig) : list gostr :=
  filter (fun name => name <> []) (ToLower <$> rule_domain rule).
Definition ruleSuffixes (rule : ruleConfig) : list gostr :=
  filter (fun name => name <> []) ((fun value => ToLower (trim_dots value)) <$> rule_suffix rule).

Definition decisionOf (index : Z) (rule : ruleConfig) : ruleDecision :=
  RuleDecision index (bool_decide (rule_action rule = bs "reject"))
    (if decide (rule_server rule = []) then bs "reject" else rule_server rule).

(** One round of the rule loop. *)
Definition addRule (ids : gmap gostr Z) (l : lane) (index : Z) (rule : ruleConfig) : lane + laneError :=
  let decision := decisionOf index rule in
  let exact := foldl (insertAbsent decision) (ln_exact l) (ruleDomains rule) in
  let suffix := foldl (insertAbsent decision) (ln_suffix l) (ruleSuffixes rule) in
  if decide (rule_domainSet rule = []) then
    inl (Lane (ln_shared l) (ln_setDecisions l) (ln_id l) (ln_host l) (ln_port l) (ln_final l) exact suffix)
  else
    match ids !! rule_domainSet rule with
    | None => inr LaneMissingSet
    | Some id =>
        inl (Lane (ln_shared l) (insertAbsent decision (ln_setDecisions l) id)
               (ln_id l) (ln_host l) (ln_port l) (ln_final l) exact suffix)
    end.

Fixpoint addRules (ids : gmap gostr Z) (l : lane) (index : Z) (rules : list ruleConfig) : lane + laneError :=
  match rules with
  | [] => inl l
  | rule :: rules =>
      match addRule ids l index rule with
      | inl l => addRules ids l (index + 1) rules
      | inr e => inr e
      end
  end.

Definition compileLaneWithSets (raw : laneConfig) (shared : option mapMembership) (ids : gmap gostr Z) :
    lane + laneError :=
  if decide (raw_id raw = []) then inr LaneNoID
  else if bool_decide (raw_host raw <> bs "127.0.0.1") && bool_decide (raw_host raw <> bs "::1")
  then inr LaneNotLoopback
  else if (raw_port raw <? 1024) || (65535 <? raw_port raw) then inr LaneUnsafePort
  else
    let final := if decide (raw_final raw = []) then bs "reject" else raw_final raw in
    addRules ids (Lane shared ∅ (raw_id raw) (raw_host raw) (raw_port raw) final ∅ ∅) 0 (raw_rules raw).

(** *** [lane.target] *)

(** [if exists && (!found || candidate.order < decision.order)]. *)
Definition prefer (current candidate : option ruleDecision) : option ruleDecision :=
  match candidate with
  | None => current
  | Some c =>
      match current with
      | None => Some c
      | Some d => if rd_order c <? rd_order d then Some c else current
      end
  end.

Definition target (l : lane) (name : gostr) : outcome (gostr * bool) :=
  let! decision := suffix_loop (fun acc suffix => prefer acc (ln_suffix l !! suffix))
                     (S (length name)) (ln_exact l !! name) name in
  let! ids := Match (ln_shared l) name in
  let decision := foldl (fun acc id => prefer acc (ln_setDecisions l !! id)) decision ids in
  Ret (match decision with
       | None => (ln_final l, bool_decide (ln_final l = bs "reject"))
       | Some d => (rd_server d, rd_reject d)
       end).
End Code.

(** ** Reference semantics: the first matching rule decides *)

(** [key] is the name itself or one of its parent domains. *)
Definition covers (key name : gostr) : Prop :=
  key <> [] /\ (name = key \/ (dot :: key) `suffix_of` name).

#[export] Instance covers_dec key name : Decision (covers key name).
Proof. unfold covers. apply _. Defined.
Fixpoint first_match (P : ruleConfig -> Prop) `{forall r, Decision (P r)} (index : Z)
    (rules : list ruleConfig) : option ruleDecision :=
  match rules with
  | [] => None
  | r :: rules => if decide (P r) then Some (decisionOf index r) else first_match P (index + 1) rules
  end.

(** *** The suffix loop visits exactly the covering keys *)

Fixpoint dot_suffixes (fuel : nat) (s : gostr) : list gostr :=
  match fuel with
  | O => []
  | S fuel =>
      match s with
      | [] => []
      | _ :: _ => s :: match after_dot s with None => [] | Some r => dot_suffixes fuel r end
      end
  end.

Lemma after_dot_length s r : after_dot s = Some r -> (length r < length s)%nat.
Proof.
  induction s as [|b s IH]; simpl; [done|]. case_decide; [intros [= ->]; lia|]. intros Hr%IH. lia.
Qed.

Lemma suffix_loop_eq {A} (visit : A -> gostr -> A) fuel : forall acc s,
  (length s < fuel)%nat -> suffix_loop visit fuel acc s = Ret (foldl visit acc (dot_suffixes fuel s)).
Proof.
  induction fuel as [|fuel IH]; intros acc s Hl; [lia|]. simpl.
  destruct s as [|b s]; [done|]. destruct (after_dot (b :: s)) as [r|] eqn:E; [|done].
  apply after_dot_length in E. rewrite IH; [done|]. simpl in *. lia.
Qed.

Lemma after_dot_suffix s k :
  (dot :: k) `suffix_of` s <-> match after_dot s with None => False | Some r => r = k \/ (dot :: k) `suffix_of` r end.
Proof.
  induction s as [|b s IH]; simpl.
  - split; [|done]. intros Hs%suffix_nil_inv. done.
  - case_decide as Hb.
    + subst. split; [intros [Heq|?]%suffix_cons_inv; [injection Heq as ->; auto|auto]|].
      intros [->|?]; [reflexivity|by apply suffix_cons_r].
    + rewrite <- IH. split; [intros [Heq|?]%suffix_cons_inv; [congruence|done]|]. apply suffix_cons_r.
Qed.

Lemma dot_suffixes_covers fuel : forall s k,
  (length s < fuel)%nat -> k ∈ dot_suffixes fuel s <-> covers k s.
Proof.
  unfold covers. induction fuel as [|fuel IH]; intros s k Hl; [lia|]. simpl.
  destruct s as [|b s].
  { split; [by intros ?%elem_of_nil|]. intros [Hk [Hs|Hs%suffix_nil_inv]]; [by subst|done]. }
  rewrite elem_of_cons, after_dot_suffix.
  destruct (after_dot (b :: s)) as [r|] eqn:E.
  - apply after_dot_length in E. rewrite IH by (simpl in *; lia). naive_solver.
  - rewrite elem_of_nil. naive_solver.
Qed.

(** *** Preferring the smaller order is matching a disjunction *)

Lemma first_match_ext P Q `{forall r, Decision (P r)} `{forall r, Decision (Q r)} index rules :
  (forall r, r ∈ rules -> P r <-> Q r) -> first_match P index rules = first_match Q index rules.
Proof.
  revert index. induction rules as [|r rules IH]; intros index HPQ; simpl; [done|].
  rewrite IH by (intros; apply HPQ; by right).
  pose proof (HPQ r ltac:(by left)). destruct (decide (P r)), (decide (Q r)); tauto.
Qed.

Lemma first_match_order P `{forall r, Decision (P r)} rules : forall index d,
  first_match P index rules = Some d -> index <= rd_order d.
Proof.
  induction rules as [|r rules IH]; intros index d Hd; simpl in Hd; [done|].
  case_decide; [by simplify_eq|]. apply IH in Hd. lia.
Qed.

Lemma prefer_first_match P Q `{forall r, Decision (P r)} `{forall r, Decision (Q r)} rules : forall index,
  prefer (first_match P index rules) (first_match Q index rules) =
  first_match (fun r => P r \/ Q r) index rules.
Proof.
  induction rules as [|r rules IH]; intros index; simpl; [done|].
  destruct (decide (P r)), (decide (Q r)); simpl;
    [rewrite decide_True by auto; by case_tests|rewrite decide_True by auto|rewrite decide_True by auto|
     rewrite decide_False by tauto; apply IH].
  - destruct (first_match Q _ _) eqn:E; simpl; [|done]. apply first_match_order in E. by case_tests.
  - destruct (first_match P _ _) eqn:E; simpl; [|done]. apply first_match_order in E. by case_tests.
Qed.

Lemma fold_prefer {K} `{EqDecision K} (P : K -> ruleConfig -> Prop) `{forall k r, Decision (P k r)}
    index rules (keys : list K) : forall P0 `{forall r, Decision (P0 r)},
  foldl (fun acc k => prefer acc (first_match (P k) index rules)) (first_match P0 index rules) keys =
  first_match (fun r => P0 r \/ Exists (fun k => P k r) keys) index rules.
Proof.
  induction keys as [|k keys IH]; intros P0 HP0; simpl.
  - apply first_match_ext. intros r _. rewrite Exists_nil. tauto.
  - rewrite prefer_first_match, IH. apply first_match_ext. intros r _. rewrite Exists_cons. tauto.
Qed.

Lemma foldl_ext_fun {A B} (f g : A -> B -> A) (l : list B) a :
  (forall a b, f a b = g a b) -> foldl f a l = foldl g a l.
Proof. intros E. revert a. induction l; intros a'; simpl; [done|]. by rewrite E. Qed.

(** *** Insertion of absent keys, and membership lists *)

Lemma insertAbsent_one {K} `{Countable K} d (m : gmap K ruleDecision) x k :
  insertAbsent d m x !! k =
  match m !! k with Some d' => Some d' | None => if decide (k = x) then Some d else None end.
Proof.
  unfold insertAbsent. destruct (decide (k = x)) as [->|Hne].
  - destruct (m !! x) as [d'|] eqn:E; [by rewrite E|]. apply lookup_insert_eq.
  - destruct (m !! x); [by destruct (m !! k)|]. rewrite lookup_insert_ne by done. by destruct (m !! k).
Qed.

Lemma insertAbsent_lookup {K} `{Countable K} d (ks : list K) (m : gmap K ruleDecision) k :
  foldl (insertAbsent d) m ks !! k =
  match m !! k with Some d' => Some d' | None => if decide (k ∈ ks) then Some d else None end.
Proof.
  revert m. induction ks as [|x ks IH]; intros m; cbn [foldl].
  { rewrite decide_False by (by intros ?%elem_of_nil). by destruct (m !! k). }
  rewrite IH, insertAbsent_one. destruct (m !! k); [done|].
  destruct (decide (k = x)) as [->|Hne].
  - rewrite decide_True; [done|by left].
  - apply decide_ext. rewrite elem_of_cons. tauto.
Qed.

Lemma addMembership_fold (l : list membership) : forall (m : gmap gostr (list Z)) k id,
  id ∈ default [] (foldl addMembership m l !! k) <-> id ∈ default [] (m !! k) \/ Membership k id ∈ l.
Proof.
  induction l as [|[n i] l IH]; intros m k id; simpl.
  { rewrite elem_of_nil. tauto. }
  rewrite IH, elem_of_cons. unfold addMembership. simpl. rewrite lookup_insert.
  case_decide as Hk.
  - subst. simpl. rewrite elem_of_app, list_elem_of_singleton. naive_solver.
  - naive_solver.
Qed.

Lemma foldl_concat {A B} (f : A -> list B) (l : list A) : forall acc,
  foldl (fun acc x => acc ++ f x) acc l = acc ++ concat (f <$> l).
Proof.
  induction l as [|x l IH]; intros acc; simpl; [by rewrite app_nil_r|]. by rewrite IH, app_assoc.
Qed.

Lemma matchMembers_spec i name :
  exists v, matchMembers i name = Ret v /\
    forall id, id ∈ v <-> id ∈ default [] (mm_exact i !! name) \/
      exists k, covers k name /\ id ∈ default [] (mm_suffix i !! k).
Proof.
  unfold matchMembers. rewrite suffix_loop_eq by lia. eexists. split; [done|]. intros id.
  rewrite (foldl_concat (fun suffix => default [] (mm_suffix i !! suffix))), elem_of_app.
  apply or_iff_compat_l. rewrite elem_of_concat_fmap.
  setoid_rewrite dot_suffixes_covers; [|lia]. done.
Qed.

Lemma assignIDs_elem names n id :
  (n, id) ∈ assignIDs names <-> exists j, names !! j = Some n /\ id = wrap_u32 (Z.of_nat j + 1).
Proof.
  unfold assignIDs. rewrite list_elem_of_lookup. setoid_rewrite list_lookup_imap.
  split.
  - intros (j & Hj). destruct (names !! j) as [m|] eqn:E; simplify_eq/=. by exists j.
  - intros (j & Hj & ->). exists j. by rewrite Hj.
Qed.

Lemma assignIDs_fst names : (assignIDs names).*1 = names.
Proof. unfold assignIDs. rewrite fmap_imap. simpl. apply list_eq. intros j. rewrite list_lookup_imap. by destruct (names !! j). Qed.

Lemma assignIDs_inj names n n' id :
  Z.of_nat (length names) < 2 ^ 32 -> (n, id) ∈ assignIDs names -> (n', id) ∈ assignIDs names -> n = n'.
Proof.
  intros Hl (j & Hj & Ej)%assignIDs_elem (k & Hk & Ek)%assignIDs_elem.
  pose proof (lookup_lt_Some _ _ _ Hj). pose proof (lookup_lt_Some _ _ _ Hk).
  assert (j = k) as ->; [|congruence]. subst id. unfold wrap_u32 in Ek.
  destruct (decide (Z.of_nat (length names) = 2 ^ 32)); [lia|].
  rewrite !Z.mod_small in Ek by lia. lia.
Qed.

Definition members (sets : gmap gostr domainSet) (assigned : list (gostr * Z))
    (f : domainSet -> Z -> list membership) : list membership :=
  concat ((fun '(name, id) => match sets !! name with Some set => f set id | None => [] end) <$> assigned).

Lemma members_elem sets assigned f e :
  e ∈ members sets assigned f <-> exists n id set, (n, id) ∈ assigned /\ sets !! n = Some set /\ e ∈ f set id.
Proof.
  unfold members. rewrite elem_of_concat_fmap. split.
  - intros ([n id] & Hin & He). destruct (sets !! n) as [set|] eqn:E; [|by apply elem_of_nil in He].
    naive_solver.
  - intros (n & id & set & Hin & E & He). exists (n, id). by rewrite E.
Qed.

Section Spec.
Context (unicodeToLower : gostr -> gostr).
Local Abbreviation ToLower := (ToLower unicodeToLower).

Definition set_matches (name : gostr) (set : domainSet) : Prop :=
  Exists (fun v => v <> [] /\ ToLower v = name) (set_domain set) \/
  Exists (fun v => covers (ToLower (trim_dots v)) name) (set_suffix set).

Definition rule_matches (sets : gmap gostr domainSet) (name : gostr) (r : ruleConfig) : Prop :=
  (name <> [] /\ name ∈ ToLower <$> rule_domain r) \/
  Exists (fun v => covers (ToLower (trim_dots v)) name) (rule_suffix r) \/
  (rule_domainSet r <> [] /\
   match sets !! rule_domainSet r with Some set => set_matches name set | None => False end).

#[global] Instance set_matches_dec name set : Decision (set_matches name set).
Proof. unfold set_matches. apply _. Defined.
#[global] Instance rule_matches_dec sets name r : Decision (rule_matches sets name r).
Proof. unfold rule_matches. destruct (sets !! rule_domainSet r); apply _. Defined.

Definition policy_target (sets : gmap gostr domainSet) (raw : laneConfig) (name : gostr) : gostr * bool :=
  match first_match (rule_matches sets name) 0 (raw_rules raw) with
  | Some d => (rd_server d, rd_reject d)
  | None => let final := if decide (raw_final raw = []) then bs "reject" else raw_final raw in
            (final, bool_decide (final = bs "reject"))
  end.

(** *** What the compiled maps hold *)

Local Abbreviation ruleDomains := (ruleDomains unicodeToLower).
Local Abbreviation ruleSuffixes := (ruleSuffixes unicodeToLower).

Definition set_rule (ids : gmap gostr Z) (id : Z) (r : ruleConfig) : Prop :=
  rule_domainSet r <> [] /\ ids !! rule_domainSet r = Some id.

(** The three maps after the rule loop, relative to the maps before it. *)
Lemma addRules_maps ids rules : forall l index l',
  addRules unicodeToLower ids l index rules = inl l' ->
  ln_shared l' = ln_shared l /\ ln_final l' = ln_final l /\
  Forall (fun r => rule_domainSet r = [] \/ is_Some (ids !! rule_domainSet r)) rules /\
  (forall k, ln_exact l' !! k =
     match ln_exact l !! k with Some d => Some d | None => first_match (fun r => k ∈ ruleDomains r) index rules end) /\
  (forall k, ln_suffix l' !! k =
     match ln_suffix l !! k with Some d => Some d | None => first_match (fun r => k ∈ ruleSuffixes r) index rules end) /\
  (forall id, ln_setDecisions l' !! id =
     match ln_setDecisions l !! id with Some d => Some d | None => first_match (set_rule ids id) index rules end).
Proof.
  induction rules as [|r rules IH]; intros l index l' Ha; simpl in Ha.
  { simplify_eq. split_and!; try done; try constructor; intros; simpl; by repeat case_match. }
  destruct (addRule unicodeToLower ids l index r) as [l1|] eqn:E; [|done].
  apply IH in Ha as (-> & -> & Hall & He & Hs & Hd).
  unfold addRule in E.
  assert (Hstep : ln_shared l1 = ln_shared l /\ ln_final l1 = ln_final l /\
    (rule_domainSet r = [] \/ is_Some (ids !! rule_domainSet r)) /\
    ln_exact l1 = foldl (insertAbsent (decisionOf index r)) (ln_exact l) (ruleDomains r) /\
    ln_suffix l1 = foldl (insertAbsent (decisionOf index r)) (ln_suffix l) (ruleSuffixes r) /\
    forall id, ln_setDecisions l1 !! id =
      match ln_setDecisions l !! id with Some d => Some d
      | None => if decide (set_rule ids id r) then Some (decisionOf index r) else None end).
  { unfold set_rule. case_decide as Hn.
    - simplify_eq/=. split_and!; auto. intros id. rewrite decide_False by tauto. by case_match.
    - destruct (ids !! rule_domainSet r) as [id0|] eqn:Hid; [|done]. simplify_eq/=.
      split_and!; eauto. intros id.
      rewrite (insertAbsent_one (decisionOf index r) (ln_setDecisions l) id0 id).
      destruct (ln_setDecisions l !! id); [done|]. apply decide_ext.
      split; [by intros ->|]. intros [_ Heq]. congruence. }
  destruct Hstep as (-> & -> & Hr & Hexact & Hsuffix & Hsets).
  split_and!; try done; [by constructor|..].
  - intros k. rewrite He, Hexact, insertAbsent_lookup. simpl. destruct (ln_exact l !! k); [done|]. by repeat case_decide.
  - intros k. rewrite Hs, Hsuffix, insertAbsent_lookup. simpl. destruct (ln_suffix l !! k); [done|]. by repeat case_decide.
  - intros id. rewrite Hd, Hsets. simpl. destruct (ln_setDecisions l !! id); [done|]. by repeat case_decide.
Qed.

(** The target of a compiled lane, before the shared sets are interpreted. *)
Lemma target_first_match ids l rules name visited :
  (forall k, ln_exact l !! k = first_match (fun r => k ∈ ruleDomains r) 0 rules) ->
  (forall k, ln_suffix l !! k = first_match (fun r => k ∈ ruleSuffixes r) 0 rules) ->
  (forall id, ln_setDecisions l !! id = first_match (set_rule ids id) 0 rules) ->
  Match (ln_shared l) name = Ret visited ->
  target l name = Ret (match first_match (fun r =>
      (name ∈ ruleDomains r \/ Exists (fun k => k ∈ ruleSuffixes r) (dot_suffixes (S (length name)) name)) \/
      Exists (fun id => set_rule ids id r) visited) 0 rules with
    | None => (ln_final l, bool_decide (ln_final l = bs "reject"))
    | Some d => (rd_server d, rd_reject d)
    end).
Proof.
  intros He Hs Hd Hm. unfold target. rewrite suffix_loop_eq by lia. cbn [obind]. rewrite Hm. cbn [obind].
  rewrite He.
  rewrite (foldl_ext_fun (fun acc suffix => prefer acc (ln_suffix l !! suffix))
    (fun acc (k : gostr) => prefer acc (first_match (fun r => k ∈ ruleSuffixes r) 0 rules)))
    by (intros; by rewrite Hs).
  rewrite fold_prefer.
  rewrite (foldl_ext_fun (fun acc id => prefer acc (ln_setDecisions l !! id))
    (fun acc id => prefer acc (first_match (set_rule ids id) 0 rules))) by (intros; by rewrite Hd).
  by rewrite fold_prefer.
Qed.

(** *** Shared sets: a visited identity is a set that holds the name *)

Local Abbreviation exactMembers := (exactMembers unicodeToLower).
Local Abbreviation suffixMembers := (suffixMembers unicodeToLower).

Lemma exactMembers_elem set i k id :
  Membership k id ∈ exactMembers set i <-> id = i /\ exists v, v ∈ set_domain set /\ v <> [] /\ ToLower v = k.
Proof.
  unfold DnsLane.exactMembers. rewrite list_elem_of_fmap. setoid_rewrite list_elem_of_filter. naive_solver.
Qed.

Lemma suffixMembers_elem set i k id :
  Membership k id ∈ suffixMembers set i <->
  id = i /\ k <> [] /\ exists v, v ∈ set_suffix set /\ ToLower (trim_dots v) = k.
Proof.
  unfold DnsLane.suffixMembers. rewrite list_elem_of_fmap. setoid_rewrite list_elem_of_filter.
  setoid_rewrite list_elem_of_fmap. naive_solver.
Qed.

Context (set_ID : domainSet -> gostr).

Lemma Compile_match sets i ids name :
  Compile unicodeToLower set_ID sets = inl (i, ids) -> Z.of_nat (size sets) < 2 ^ 32 ->
  exists v, Match i name = Ret v /\
    forall n id, ids !! n = Some id ->
      (id ∈ v <-> exists set, sets !! n = Some set /\ set_matches name set).
Proof.
  intros HC Hsize. unfold Compile in HC.
  destruct (Nat.eqb_spec (size sets) 0) as [|Hne]; simplify_eq/=; [by exists []|].
  set (names := sort_stable less_bytes (map_to_list sets).*1) in *.
  destruct (negb _); simplify_eq.
  fold (members sets (assignIDs names) exactMembers). fold (members sets (assignIDs names) suffixMembers).
  assert (Hlen : Z.of_nat (length names) < 2 ^ 32).
  { subst names. rewrite sort_stable_length, length_fmap, length_map_to_list. done. }
  assert (Hnd : NoDup (assignIDs names).*1).
  { rewrite assignIDs_fst. subst names. rewrite sort_stable_perm. apply NoDup_fst_map_to_list. }
  destruct (matchMembers_spec (compileMapMembership (members sets (assignIDs names) exactMembers)
    (members sets (assignIDs names) suffixMembers)) name) as (v & Hv & Hin).
  exists v. split; [done|]. intros n id Hid%elem_of_list_to_map_2.
  rewrite Hin. simpl. setoid_rewrite addMembership_fold. rewrite lookup_empty. simpl.
  setoid_rewrite lookup_empty. simpl. setoid_rewrite elem_of_nil. setoid_rewrite members_elem.
  setoid_rewrite exactMembers_elem. setoid_rewrite suffixMembers_elem.
  unfold set_matches. setoid_rewrite Exists_exists.
  assert (Hu : forall n', (n', id) ∈ assignIDs names -> n' = n) by (intros; by eapply assignIDs_inj).
  split.
  - intros [[[]|(n' & id' & set & Hn' & Hset & -> & Hx)]|(k & Hk & [[]|(n' & id' & set & Hn' & Hset & -> & Hx)])];
      (apply Hu in Hn' as ->); exists set; (split; [done|]); naive_solver.
  - intros (set & Hset & [(w & Hw & Hne' & Hlow)|(w & Hw & Hcov)]); [left; right|right].
    + exists n, id, set. naive_solver.
    + exists (ToLower (trim_dots w)). split; [done|]. right. exists n, id, set. pose proof (proj1 Hcov). naive_solver.
Qed.
End Spec.

(** ** Properties *)

Lemma rule_matches_compiled unicodeToLower sets ids name visited r :
  rule_domainSet r = [] \/ is_Some (ids !! rule_domainSet r) ->
  (forall n id, ids !! n = Some id ->
     id ∈ visited <-> exists set, sets !! n = Some set /\ set_matches unicodeToLower name set) ->
  ((name ∈ ruleDomains unicodeToLower r \/
    Exists (fun k => k ∈ ruleSuffixes unicodeToLower r) (dot_suffixes (S (length name)) name)) \/
   Exists (fun id => set_rule ids id r) visited) <->
  rule_matches unicodeToLower sets name r.
Proof.
  intros Hr Hv. unfold rule_matches, ruleDomains, ruleSuffixes, set_rule.
  rewrite !Exists_exists. setoid_rewrite list_elem_of_filter. setoid_rewrite list_elem_of_fmap.
  assert (Hcov : forall k, k ∈ dot_suffixes (S (length name)) name <-> covers k name)
    by (intros; apply dot_suffixes_covers; lia).
  setoid_rewrite Hcov.
  assert (Hset : (exists id, id ∈ visited /\ rule_domainSet r <> [] /\ ids !! rule_domainSet r = Some id) <->
    rule_domainSet r <> [] /\
    match sets !! rule_domainSet r with Some set => set_matches unicodeToLower name set | None => False end).
  { split.
    - intros (id & Hid & Hne & Hi). split; [done|]. apply (Hv _ _ Hi) in Hid as (set & -> & Hm). done.
    - intros [Hne Hm]. destruct Hr as [|[id Hi]]; [done|]. exists id. split_and!; try done.
      apply (Hv _ _ Hi). destruct (sets !! rule_domainSet r) as [set|]; [by exists set|done]. }
  rewrite Hset. split.
  - intros [[[Hne Hd]|(k & Hk & Hne & v & -> & Hv')]|Hs]; [by left|right; left; eauto|by right; right].
  - intros [Hd|[(v & Hv' & Hc)|Hs]]; [by left; left|left; right|by right].
    exists (ToLower unicodeToLower (trim_dots v)). split; [done|]. split; [apply Hc|]. eauto.
Qed.

(** C13: policy DNS routing is first-match.  For a lane that compiled against
    compiled shared sets, the server (or rejection) that the indexed lookup of
    [lane.target] picks for a name is the one of the first rule of the
    configuration that matches it by exact name, by parent domain or by shared
    set, and the lane's final server (rejection when empty) if none does. *)
Theorem lane_target_first_match (unicodeToLower : gostr -> gostr) (set_ID : domainSet -> gostr)
    (sets : gmap gostr domainSet) (shared : option mapMembership) (ids : gmap gostr Z)
    (raw : laneConfig) (l : lane) (name : gostr) :
  Compile unicodeToLower set_ID sets = inl (shared, ids) -> Z.of_nat (size sets) < 2 ^ 32 ->
  compileLaneWithSets unicodeToLower raw shared ids = inl l ->
  target l name = Ret (policy_target unicodeToLower sets raw name).
Proof.
  intros HC Hsize HL. unfold compileLaneWithSets in HL.
  case_decide; [done|]. destruct (_ && _); [done|]. destruct (_ || _); [done|].
  apply addRules_maps in HL as (Hsh & Hfin & Hall & He & Hs & Hd). simpl in *.
  setoid_rewrite lookup_empty in He. setoid_rewrite lookup_empty in Hs. setoid_rewrite lookup_empty in Hd.
  destruct (Compile_match unicodeToLower set_ID sets shared ids name HC Hsize) as (v & Hm & Hv).
  rewrite <- Hsh in Hm. rewrite (target_first_match unicodeToLower ids l (raw_rules raw) name v) by done.
  unfold policy_target. rewrite Hfin.
  rewrite (first_match_ext _ (rule_matches unicodeToLower sets name)); [done|].
  intros r Hr. apply rule_matches_compiled; [|done]. rewrite Forall_forall in Hall. by apply Hall.
Qed.

(** A lane that compiles is safe to expose: it has an identity, listens on a
    loopback address and on an unprivileged port, and every shared set one of
    its rules names exists. *)
Theorem compiled_lane_safe (unicodeToLower : gostr -> gostr) (raw : laneConfig)
    (shared : option mapMembership) (ids : gmap gostr Z) (l : lane) :
  compileLaneWithSets unicodeToLower raw shared ids = inl l ->
  raw_id raw <> [] /\ (raw_host raw = bs "127.0.0.1" \/ raw_host raw = bs "::1") /\
  1024 <= raw_port raw <= 65535 /\
  Forall (fun r => rule_domainSet r = [] \/ is_Some (ids !! rule_domainSet r)) (raw_rules raw).
Proof.
  intros HL. unfold compileLaneWithSets in HL. case_decide; [done|].
  destruct (_ && _) eqn:Hh; [done|]. destruct (_ || _) eqn:Hp; [done|]. bool_prop.
  apply addRules_maps in HL as (_ & _ & Hall & _). split_and!; try done; [|lia..].
  apply andb_false_iff in Hh as [Hh|Hh]; apply bool_decide_eq_false, dec_stable in Hh; auto.
Qed.

(** A lane with a shared set, a rejected suffix and an exact name. *)
Definition sample_set : domainSet := DomainSet [bs "ads.example"] [bs ".Tracker.example"].
Definition sample_sets : gmap gostr domainSet := {[ bs "set-1" := sample_set ]}.
Definition sample_lane : laneConfig :=
  LaneConfig (bs "lane-1") (bs "127.0.0.1") 5301 (bs "wan")
    [RuleConfig [] [bs "Allowed.tracker.example"] [] (bs "route") (bs "vpn");
     RuleConfig (bs "set-1") [] [] (bs "reject") [];
     RuleConfig [] [] [bs "example"] (bs "route") (bs "lan")].
Definition sample_compiled : option mapMembership * gmap gostr Z :=
  match Compile id (fun _ => bs "set-1") sample_sets with inl p => p | inr _ => (None, ∅) end.
Definition sample_lane_compiled : lane :=
  match compileLaneWithSets id sample_lane sample_compiled.1 sample_compiled.2 with
  | inl l => l | inr _ => Lane None ∅ [] [] 0 [] ∅ ∅ end.

Lemma sample_sets_compile :
  Compile id (fun _ => bs "set-1") sample_sets = inl (sample_compiled.1, sample_compiled.2).
Proof.
  assert (H : match Compile id (fun _ => bs "set-1") sample_sets with inl _ => true | inr _ => false end = true)
    by (vm_compute; reflexivity).
  unfold sample_compiled. destruct (Compile id (fun _ => bs "set-1") sample_sets) as [[i ids]|]; done.
Qed.

Lemma sample_lane_compiles :
  compileLaneWithSets id sample_lane sample_compiled.1 sample_compiled.2 = inl sample_lane_compiled.
Proof.
  assert (H : match compileLaneWithSets id sample_lane sample_compiled.1 sample_compiled.2 with
              inl _ => true | inr _ => false end = true) by (vm_compute; reflexivity).
  unfold sample_lane_compiled.
  destruct (compileLaneWithSets id sample_lane sample_compiled.1 sample_compiled.2); done.
Qed.

Lemma lane_target_first_match_witness :
  target sample_lane_compiled (bs "x.tracker.example") =
  Ret (policy_target id sample_sets sample_lane (bs "x.tracker.example")).
Proof.
  apply (lane_target_first_match id (fun _ => bs "set-1") sample_sets sample_compiled.1 sample_compiled.2
    sample_lane sample_lane_compiled _ sample_sets_compile); [vm_compute; reflexivity|].
  apply sample_lane_compiles.
Defined.

Lemma compiled_lane_safe_witness :
  raw_id sample_lane <> [] /\ (raw_host sample_lane = bs "127.0.0.1" \/ raw_host sample_lane = bs "::1") /\
  1024 <= raw_port sample_lane <= 65535 /\
  Forall (fun r => rule_domainSet r = [] \/ is_Some (sample_compiled.2 !! rule_domainSet r)) (raw_rules sample_lane).
Proof.
  apply (compiled_lane_safe id sample_lane sample_compiled.1 sample_compiled.2 sample_lane_compiled).
  apply sample_lane_compiles.
Defined.

Example sample_lane_order :
  (target sample_lane_compiled (bs "allowed.tracker.example"), target sample_lane_compiled (bs "a.b.example"),
   target sample_lane_compiled (bs "ads.example"), target sample_lane_compiled (bs "other")) =
  (Ret (bs "vpn", false), Ret (bs "lan", false), Ret (bs "reject", true), Ret (bs "wan", false)).
Proof. vm_compute. reflexivity. Qed.
