(* ===== verification/DnsQuestion.v ===== *)
(** * The question section: parsing, matching and refusal

    Models [parseQuestionName], [questionName], [questionIdentity],
    [matchingQuestion] and [refusal] of [internal/policydns/resolver.go].  The
    DNS library the refusal is packed with ([github.com/miekg/dns]) is a
    parameter: [Pack] turns a message into wire bytes and [UnpackDomainName]
    reads a name. *)

From S2P Require Import Prelude GoBase DnsWire DnsCache DnsLane.
Open Scope Z_scope.

(** ** The code *)

(** The loop of [parseQuestionName] with the string builder [name]; [Ret None]
    is [("", 0, false)].  At least one byte is consumed per round. *)
Fixpoint parseQuestionName_loop (fuel : nat) (message name : list byte) (offset : nat) :
    outcome (option (list byte * nat)) :=
  match fuel with
  | O => Stuck
  | S fuel =>
      if (length message <=? offset)%nat then Ret None else
      let! b := index message offset in
      let len := Z.to_nat (bval b) in
      let offset := S offset in
      if (len =? 0)%nat then Ret (Some (name, offset))
      else if (63 <? len)%nat || negb (Z.land (bval b) 0xC0 =? 0) || (length message <? offset + len)%nat
      then Ret None
      else
        let name := if (0 <? length name)%nat then name ++ [dot] else name in
        let! label := slice message offset (offset + len) in
        parseQuestionName_loop fuel message (name ++ (lower_byte <$> label)) (offset + len)
  end.

Definition parseQuestionName (message : list byte) : outcome (option (list byte * nat)) :=
  if (length message <? 12)%nat then Ret None
  else parseQuestionName_loop (S (length message)) message [] 12.

Definition questionName (message : list byte) : outcome (option (list byte)) :=
  let! r := parseQuestionName message in Ret (fst <$> r).

(** [questionIdentity]: name, type and class of the first question. *)
Definition questionIdentity (message : list byte) : outcome (option (list byte * Z * Z)) :=
  let! r := parseQuestionName message in
  match r with
  | None => Ret None
  | Some (name, end_) =>
      if (length message <? end_ + 4)%nat then Ret None else
      let! qtype := be16 message end_ in
      let! qclass := be16 message (end_ + 2) in
      Ret (Some (name, qtype, qclass))
  end.

(** Short-circuit [or] of tests that read the message. *)
Definition or_else (a b : outcome bool) : outcome bool :=
  let! x := a in if x then Ret true else b.

Definition matchingQuestion (query response : list byte) : outcome bool :=
  let! bad :=
    or_else (Ret (length query <? 12)%nat) (
    or_else (Ret (length response <? 12)%nat) (
    or_else (let! a := be16 query 0 in let! b := be16 response 0 in Ret (negb (a =? b))) (
    or_else (let! a := be16 query 2 in Ret (negb (Z.land a 0x8000 =? 0))) (
    or_else (let! a := be16 response 2 in Ret (Z.land a 0x8000 =? 0)) (
    or_else (let! a := be16 query 4 in Ret (negb (a =? 1)))
            (let! a := be16 response 4 in Ret (negb (a =? 1)))))))) in
  if bad then Ret false else
  let! q := questionIdentity query in
  let! r := questionIdentity response in
  Ret (match q, r with
       | Some (qn, qt, qc), Some (rn, rt, rc) => bool_decide (qn = rn) && (qt =? rt) && (qc =? rc)
       | _, _ => false
       end).

(** The fields of [dns.Msg] that [refusal] sets. *)
Record dnsQuestion := DnsQuestion { q_name : list byte; q_type : Z; q_class : Z }.
Record dnsMsg := DnsMsg {
  m_id : Z; m_response : bool; m_opcode : Z; m_rd : bool; m_ra : bool; m_cd : bool; m_rcode : Z;
  m_question : list dnsQuestion;
}.

Section Refusal.
Context (UnpackDomainName : list byte -> nat -> option (list byte * nat)) (Pack : dnsMsg -> option (list byte)).

(** The message [refusal] packs; RCODE 2 is a server failure, 5 a refusal. *)
Definition refusalMsg (query : list byte) (serverFailure : bool) : outcome dnsMsg :=
  let code := if serverFailure then 2 else 5 in
  let! flags := be16 query 2 in
  let! id := uint16 query in
  let! qd := be16 query 4 in
  let! question :=
    (if qd =? 1 then
       match UnpackDomainName query 12 with
       | Some (name, end_) =>
           if (end_ + 4 <=? length query)%nat then
             let! t := be16 query end_ in
             let! c := be16 query (end_ + 2) in
             Ret [DnsQuestion name t c]
           else Ret []
       | None => Ret []
       end
     else Ret []) in
  Ret (DnsMsg id true (Z.land (Z.shiftr flags 11) 15) (negb (Z.land flags 0x0100 =? 0)) true
         (negb (Z.land flags 0x0010 =? 0)) code question).

(** [nil] is the empty list, as for every caller ([len(answer) > 0]). *)
Definition refusal (query : list byte) (serverFailure : bool) : outcome (list byte) :=
  if (length query <? 12)%nat then Ret [] else
  let! m := refusalMsg query serverFailure in
  Ret (default [] (Pack m)).
End Refusal.

(** ** Reference semantics *)

(** Uncompressed labels from [off] up to the root label that ends at [e]. *)
Inductive labels_at (m : list byte) : nat -> list (list byte) -> nat -> Prop :=
| labels_root off :
    m !! off = Some x00 -> labels_at m off [] (S off)
| labels_next off b ls e :
    m !! off = Some b -> 0 < bval b <= 63 -> (S off + Z.to_nat (bval b) <= length m)%nat ->
    labels_at m (S off + Z.to_nat (bval b)) ls e ->
    labels_at m off (take (Z.to_nat (bval b)) (drop (S off) m) :: ls) e.

(** The text the builder holds after appending [ls] to [acc]. *)
Fixpoint join_labels (acc : list byte) (ls : list (list byte)) : list byte :=
  match ls with
  | [] => acc
  | l :: ls => join_labels ((if (0 <? length acc)%nat then acc ++ [dot] else acc) ++ (lower_byte <$> l)) ls
  end.

(** ** Lemmas *)

Lemma label_bits b : bval b <= 63 -> Z.land (bval b) 0xC0 = 0.
Proof. destruct b; vm_compute; intros Hx; try reflexivity; exfalso; by apply Hx. Qed.

Lemma labels_inv m off b ls e :
  m !! off = Some b -> 0 < bval b -> labels_at m off ls e ->
  bval b <= 63 /\ (S off + Z.to_nat (bval b) <= length m)%nat /\
  exists ls', ls = take (Z.to_nat (bval b)) (drop (S off) m) :: ls' /\
    labels_at m (S off + Z.to_nat (bval b)) ls' e.
Proof.
  intros Hb Hp Hls. inversion Hls; subst; simplify_eq/=.
  - by change (bval x00) with 0 in Hp.
  - split_and!; [lia|done|eauto].
Qed.

Lemma parse_loop_spec fuel : forall m name off,
  (length m - off < fuel)%nat ->
  (exists ls e, parseQuestionName_loop fuel m name off = Ret (Some (join_labels name ls, e)) /\ labels_at m off ls e) \/
  (parseQuestionName_loop fuel m name off = Ret None /\ forall ls e, ~ labels_at m off ls e).
Proof.
  induction fuel as [|fuel IH]; intros m name off Hf; [lia|]. simpl.
  destruct (Nat.leb_spec (length m) off) as [Hge|Hlt].
  { right. split; [done|]. intros ls e Hls. inversion Hls; subst;
      match goal with Hb : m !! off = Some _ |- _ => apply lookup_lt_Some in Hb; lia end. }
  destruct (index_lt m off) as (b & -> & Hb); [lia|]. cbn [obind].
  set (name' := if (0 <? length name)%nat then name ++ [dot] else name).
  destruct (decide (bval b = 0)) as [H0|H0].
  { left. exists [], (S off). rewrite H0. split; [done|]. constructor.
    by rewrite <- (byte_of_bval b), H0 in Hb. }
  assert (Hpos : 0 < bval b) by (pose proof (bval_range b); lia).
  pose proof (labels_inv m off b) as Hinv.
  destruct (decide (bval b <= 63 /\ (S off + Z.to_nat (bval b) <= length m)%nat)) as [[Hr Hl]|Hbad].
  2: { right. split; [|intros ls e Hls; apply Hinv in Hls; [tauto|done|done]].
       destruct (Nat.eqb_spec (Z.to_nat (bval b)) 0); [lia|].
       destruct (_ || _) eqn:E; [done|]. exfalso. apply Hbad.
       apply orb_false_iff in E as [[E1 _]%orb_false_iff E2].
       apply Nat.ltb_ge in E1, E2. lia. }
  rewrite label_bits by done. case_tests. rewrite slice_ok by lia. cbn [obind].
  replace (S (off + Z.to_nat (bval b)) - S off)%nat with (Z.to_nat (bval b)) by lia.
  destruct (IH m (name' ++ (lower_byte <$> take (Z.to_nat (bval b)) (drop (S off) m)))
    (S off + Z.to_nat (bval b))%nat) as [(ls & fin & Hp & Hls)|[Hp Hn]]; [simpl; lia|left|right].
  - eexists (_ :: ls), fin. split; [exact Hp|]. by apply (labels_next m off b).
  - split; [exact Hp|]. intros ls fin Hls. apply Hinv in Hls as (_ & _ & ls' & _ & Hls'); [|done..].
    by eapply Hn.
Qed.

Lemma labels_range m off ls e : labels_at m off ls e -> (off < e <= length m)%nat.
Proof.
  induction 1 as [off Hb|]; [apply lookup_lt_Some in Hb|]; lia.
Qed.

Lemma parseQuestionName_cases m : (12 <= length m)%nat ->
  (exists ls e, parseQuestionName m = Ret (Some (join_labels [] ls, e)) /\ labels_at m 12 ls e) \/
  (parseQuestionName m = Ret None /\ forall ls e, ~ labels_at m 12 ls e).
Proof. intros Hl. unfold parseQuestionName. case_tests. apply parse_loop_spec. lia. Qed.

(** The identity of the question that lies behind the header. *)
Definition question_is (m name : list byte) (qtype qclass : Z) : Prop :=
  exists ls e, labels_at m 12 ls e /\ (e + 4 <= length m)%nat /\ name = join_labels [] ls /\
    qtype = u16 m e /\ qclass = u16 m (e + 2).

Lemma labels_det m off ls e : labels_at m off ls e -> forall ls' e', labels_at m off ls' e' -> ls = ls' /\ e = e'.
Proof.
  induction 1 as [off Hb|off b ls e Hb Hr Hl Hls IH]; intros ls' e' H'.
  - inversion H'; subst; simplify_eq/=; [done|]. change (bval x00) with 0 in *. lia.
  - apply (labels_inv m off b) in H' as (_ & _ & ls'' & -> & H''); [|done|lia].
    apply IH in H'' as [-> ->]. done.
Qed.

Lemma questionIdentity_cases m : (12 <= length m)%nat ->
  (exists n t c, questionIdentity m = Ret (Some (n, t, c)) /\ question_is m n t c) \/
  (questionIdentity m = Ret None /\ forall n t c, ~ question_is m n t c).
Proof.
  intros Hl. unfold questionIdentity.
  destruct (parseQuestionName_cases m Hl) as [(ls & e & -> & Hls)|[-> Hn]]; cbn [obind].
  - destruct (Nat.ltb_spec (length m) (e + 4)).
    + right. split; [done|]. intros n t c (ls' & e' & Hls' & ? & _).
      destruct (labels_det _ _ _ _ Hls _ _ Hls') as [-> ->]. lia.
    + rewrite !be16_ok by lia. left. eexists _, _, _. split; [done|]. by exists ls, e.
  - right. split; [done|]. intros n t c (ls & e & Hls & _). by eapply Hn.
Qed.

Lemma question_is_det m n t c n' t' c' : question_is m n t c -> question_is m n' t' c' -> n = n' /\ t = t' /\ c = c'.
Proof.
  intros (ls & e & Hls & _ & -> & -> & ->) (ls' & e' & Hls' & _ & -> & -> & ->).
  by destruct (labels_det _ _ _ _ Hls _ _ Hls') as [-> ->].
Qed.

(** What it means that [response] answers [query]. *)
Definition answers (query response : list byte) : Prop :=
  (12 <= length query)%nat /\ (12 <= length response)%nat /\
  u16 query 0 = u16 response 0 /\
  Z.land (u16 query 2) 0x8000 = 0 /\ Z.land (u16 response 2) 0x8000 <> 0 /\
  u16 query 4 = 1 /\ u16 response 4 = 1 /\
  exists n t c, question_is query n t c /\ question_is response n t c.

Lemma matchingQuestion_spec query response :
  exists b, matchingQuestion query response = Ret b /\ (b = true <-> answers query response).
Proof.
  unfold matchingQuestion, or_else, answers. cbn [obind].
  destruct (Nat.ltb_spec (length query) 12); [exists false; split; [done|naive_solver lia]|].
  destruct (Nat.ltb_spec (length response) 12); [exists false; split; [done|naive_solver lia]|].
  rewrite !be16_ok by lia. cbn [obind].
  destruct (Z.eqb_spec (u16 query 0) (u16 response 0)) as [E1|E1]; cbn [negb obind];
    [|exists false; split; [done|split; [done|tauto]]].
  destruct (Z.eqb_spec (Z.land (u16 query 2) 0x8000) 0) as [E2|E2]; cbn [negb obind];
    [|exists false; split; [done|split; [done|tauto]]].
  destruct (Z.eqb_spec (Z.land (u16 response 2) 0x8000) 0) as [E3|E3]; cbn [negb obind];
    [exists false; split; [done|split; [done|tauto]]|].
  destruct (Z.eqb_spec (u16 query 4) 1) as [E4|E4]; cbn [negb obind]; [|exists false; split; [done|split; [done|tauto]]].
  destruct (Z.eqb_spec (u16 response 4) 1) as [E5|E5]; cbn [negb obind]; [|exists false; split; [done|split; [done|tauto]]].
  destruct (questionIdentity_cases query) as [(qn & qt & qc & -> & Hq)|[-> Hq]]; [done| |];
    destruct (questionIdentity_cases response) as [(rn & rt & rc & -> & Hr)|[-> Hr]]; try done; cbn [obind];
    eexists; (split; [reflexivity|]).
  - rewrite !andb_true_iff, bool_decide_eq_true, !Z.eqb_eq. split.
    + intros [[-> ->] ->]. split_and!; try done. by exists rn, rt, rc.
    + intros (_ & _ & _ & _ & _ & _ & _ & n & t & c & Hq' & Hr').
      destruct (question_is_det _ _ _ _ _ _ _ Hq Hq') as (-> & -> & ->).
      by destruct (question_is_det _ _ _ _ _ _ _ Hr Hr') as (-> & -> & ->).
  - split; [done|]. intros (_ & _ & _ & _ & _ & _ & _ & n & t & c & _ & Hr'). by apply Hr in Hr'.
  - split; [done|]. intros (_ & _ & _ & _ & _ & _ & _ & n & t & c & Hq' & _). by apply Hq in Hq'.
  - split; [done|]. intros (_ & _ & _ & _ & _ & _ & _ & n & t & c & Hq' & _). by apply Hq in Hq'.
Qed.

(** ** Properties *)

(** C40: [matchingQuestion] never panics and accepts exactly the responses that
    answer the query: both have a full header, the identifier is echoed, the QR
    bit is clear in the query and set in the response, both carry one question,
    and the two questions have the same type, class and (ASCII
    case-insensitively) the same uncompressed name. *)
Theorem matchingQuestion_correct (query response : list byte) :
  exists b, matchingQuestion query response = Ret b /\ (b = true <-> answers query response).
Proof. apply matchingQuestion_spec. Qed.

(** [parseQuestionName] returns on every message: the lower-cased, dotted
    form of the labels behind the header and the offset behind them when they
    are well formed (no compression, at most 63 bytes each, inside the
    message), and failure exactly otherwise. *)
Theorem parseQuestionName_correct (m : list byte) :
  (exists ls e, parseQuestionName m = Ret (Some (join_labels [] ls, e)) /\ labels_at m 12 ls e /\ (12 < e <= length m)%nat) \/
  (parseQuestionName m = Ret None /\ ((length m < 12)%nat \/ forall ls e, ~ labels_at m 12 ls e)).
Proof.
  destruct (Nat.lt_ge_cases (length m) 12) as [H|H].
  { right. unfold parseQuestionName. case_tests. auto. }
  destruct (parseQuestionName_cases m H) as [(ls & e & Hp & Hl)|[Hp Hn]]; [left|right; auto].
  pose proof (labels_range _ _ _ _ Hl). exists ls, e. split_and!; try done; lia.
Qed.

Lemma land_bit f k : 0 <= k -> negb (Z.land f (2 ^ k) =? 0) = Z.testbit f k.
Proof.
  intros Hk. rewrite (Z.land_comm f). destruct (Z.testbit f k) eqn:E.
  - apply negb_true_iff, Z.eqb_neq. intros Hz.
    assert (Z.testbit (Z.land (2 ^ k) f) k = false) by (rewrite Hz; apply Z.bits_0).
    rewrite Z.land_spec, Z.pow2_bits_true, E in H by done. done.
  - apply negb_false_iff, Z.eqb_eq, Z.bits_inj'. intros n Hn. rewrite Z.land_spec, Z.bits_0.
    destruct (Z.eq_dec n k) as [->|Hne]; [by rewrite E, andb_false_r|].
    by rewrite Z.pow2_bits_false by done.
Qed.

Lemma refusalMsg_spec (UnpackDomainName : list byte -> nat -> option (list byte * nat))
    (query : list byte) (serverFailure : bool) :
  (12 <= length query)%nat ->
  exists m, refusalMsg UnpackDomainName query serverFailure = Ret m /\
    m_id m = u16 query 0 /\ m_response m = true /\ m_rcode m = (if serverFailure then 2 else 5) /\
    m_opcode m = Z.land (Z.shiftr (u16 query 2) 11) 15 /\
    m_rd m = Z.testbit (u16 query 2) 8 /\ m_cd m = Z.testbit (u16 query 2) 4 /\
    (length (m_question m) <= 1)%nat /\ (m_question m <> [] -> u16 query 4 = 1).
Proof.
  intros Hl. unfold refusalMsg.
  assert (Hid : uint16 query = Ret (u16 query 0)).
  { rewrite <- be16_ok by lia. unfold be16. rewrite slice_ok by lia. cbn [obind].
    unfold uint16, index. rewrite !lookup_slice by lia. done. }
  rewrite Hid, !be16_ok by lia. cbn [obind].
  assert (Hq : exists qs, (if u16 query 4 =? 1 then
       match UnpackDomainName query 12%nat with
       | Some (name, end_) =>
           if (end_ + 4 <=? length query)%nat then
             let! t := be16 query end_ in let! c := be16 query (end_ + 2) in Ret [DnsQuestion name t c]
           else Ret []
       | None => Ret []
       end
     else Ret []) = Ret qs /\ (length qs <= 1)%nat /\ (qs <> [] -> u16 query 4 = 1)).
  { destruct (Z.eqb_spec (u16 query 4) 1); [|exists []; simpl; split_and!; (done || lia)].
    destruct (UnpackDomainName query 12%nat) as [[name e']|]; [|exists []; simpl; split_and!; (done || lia)].
    destruct (Nat.leb_spec (e' + 4) (length query)); [|exists []; simpl; split_and!; (done || lia)].
    rewrite !be16_ok by lia. cbn [obind]. eexists. split; [done|]. simpl. split; [lia|done]. }
  destruct Hq as (qs & -> & Hlen & Hone). cbn [obind]. eexists. split; [done|].
  cbn [m_id m_response m_rcode m_opcode m_rd m_cd m_question]. split_and!; try done.
  - apply (land_bit (u16 query 2) 8). lia.
  - apply (land_bit (u16 query 2) 4). lia.
Qed.

Lemma refusal_returns UnpackDomainName Pack query serverFailure :
  returns (refusal UnpackDomainName Pack query serverFailure).
Proof.
  unfold refusal. destruct (Nat.ltb_spec (length query) 12); [auto with go|].
  destruct (refusalMsg_spec UnpackDomainName query serverFailure) as (m & -> & _); [done|].
  cbn [obind]. auto with go.
Qed.

(** The question is read from the bytes between the header and its end. *)
Lemma labels_agree m m' off ls e : labels_at m off ls e -> agree m m' off e -> labels_at m' off ls e.
Proof.
  induction 1 as [off Hb|off b ls e Hb Hr Hl Hls IH]; intros Ha.
  - constructor. rewrite <- (proj2 Ha) by lia. done.
  - pose proof (labels_range _ _ _ _ Hls) as Hrg.
    replace (take (Z.to_nat (bval b)) (drop (S off) m)) with (take (Z.to_nat (bval b)) (drop (S off) m')).
    2: { apply list_eq. intros i. destruct (decide (i < Z.to_nat (bval b))%nat).
         - rewrite !lookup_take_lt, !lookup_drop by lia. symmetry. apply Ha. lia.
         - rewrite !lookup_take_ge by lia. done. }
    apply labels_next; [rewrite <- (proj2 Ha) by lia; done|done|rewrite <- (proj1 Ha); done|].
    apply IH. eapply agree_sub; [..|exact Ha]; lia.
Qed.

Lemma labels_name_ends m off ls e : labels_at m off ls e -> name_ends m off e.
Proof. induction 1; [by constructor|by eapply name_label]. Qed.

(** Where the question section of a message with one question ends. *)
Lemma question_ends m n t c : question_is m n t c ->
  exists o, (16 <= o <= length m)%nat /\ skipQuestions m 12 1 = Ret (Some o) /\
    forall m', agree m m' 12 o -> question_is m' n t c.
Proof.
  intros (ls & e & Hls & Hl & -> & -> & ->). pose proof (labels_range _ _ _ _ Hls).
  exists (e + 4)%nat. split_and!; [lia|lia| |].
  - simpl. rewrite (proj2 (skipName_iff m 12 e)) by (by eapply labels_name_ends).
    cbn [obind]. by case_tests.
  - intros m' Ha. exists ls, e. split_and!.
    + eapply labels_agree; [exact Hls|]. eapply agree_sub; [..|exact Ha]; lia.
    + rewrite <- (proj1 Ha). lia.
    + done.
    + eapply agree_u16; [exact Ha|lia..].
    + eapply agree_u16; [exact Ha|lia..].
Qed.

(** an error reply tells the client nothing it did not send: [refusal]
    returns for every query of at least a header, and the message it packs
    echoes the identifier, the opcode and the RD and CD flags, is marked as a
    response with RCODE 2 or 5, and carries at most the one question of the
    query. *)
Theorem refusal_correct (UnpackDomainName : list byte -> nat -> option (list byte * nat))
    (query : list byte) (serverFailure : bool) :
  (12 <= length query)%nat ->
  exists m, refusalMsg UnpackDomainName query serverFailure = Ret m /\
    m_id m = u16 query 0 /\ m_response m = true /\ m_rcode m = (if serverFailure then 2 else 5) /\
    m_opcode m = Z.land (Z.shiftr (u16 query 2) 11) 15 /\
    m_rd m = Z.testbit (u16 query 2) 8 /\ m_cd m = Z.testbit (u16 query 2) 4 /\
    (length (m_question m) <= 1)%nat /\ (m_question m <> [] -> u16 query 4 = 1).
Proof. apply refusalMsg_spec. Qed.

Definition sample_query : list byte :=
  byte_of <$> [18;52; 1;0; 0;1; 0;0; 0;0; 0;0; 1;65;0; 0;1; 0;1].

Example sample_match : matchingQuestion sample_query sample_response = Ret true.
Proof. vm_compute. reflexivity. Qed.

Lemma refusal_correct_witness :
  exists m, refusalMsg (fun _ _ => Some (bs "A.", 15%nat)) sample_query true = Ret m /\
    m_id m = u16 sample_query 0 /\ m_response m = true /\ m_rcode m = 2 /\
    m_opcode m = Z.land (Z.shiftr (u16 sample_query 2) 11) 15 /\
    m_rd m = Z.testbit (u16 sample_query 2) 8 /\ m_cd m = Z.testbit (u16 sample_query 2) 4 /\
    (length (m_question m) <= 1)%nat /\ (m_question m <> [] -> u16 sample_query 4 = 1).
Proof.
  apply (refusal_correct (fun _ _ => Some (bs "A.", 15%nat)) sample_query true).
  vm_compute. lia.
Defined.
