(* ===== verification/DnsResolve.v ===== *)
(** * Resolution: plan, shared flight, exchange, answer

    Models [queryPlan], [planQuery], [resolve], [exchangePlan] and
    [queryResult] of [internal/policydns/resolver.go] with [flightGroup.do] and
    the operations it calls in [internal/policydns/cache.go], as a concurrent
    system: any number of calls of [resolve] run at once and interleave at
    every mutex section and channel operation.  What the upstream server
    replies, when a context ends and what the clock says are chosen by the
    environment, so a theorem holds for every upstream, well behaved or not.
    The state keeps a history [rs_log] of the replies that upstream servers
    gave; the code never reads it.

    The slice that [exchangePlan] returns is the one the cache entry keeps, and
    every reader copies it first ([responseWithID]), so values stand for it. *)

From S2P Require Import Prelude GoBase DnsWire DnsCache DnsLane DnsQuestion.
Open Scope Z_scope.

(** ** State *)

(** [queryPlan]; its [server] is the upstream that [servers] has under [tag]. *)
Record queryPlan := QueryPlan {
  qp_tag : gostr;
  qp_key : list byte;
  qp_answer : list byte;
  qp_local : bool;
}.

(** [flight]: [None] until [done] is closed, then the response or an error. *)
Record flightData := FlightData { fd_waiters : Z; fd_result : option (option (list byte)) }.

(** Where a call of [resolve] stands, named after what comes next. *)
Inductive rpc :=
| TPlan                                                     (* planQuery *)
| TBegin (p : queryPlan)                                    (* flights.begin *)
| TExchange (p : queryPlan) (f : nat)                       (* owner: exchangePlan *)
| TFinish (p : queryPlan) (f : nat) (r : option (list byte))  (* owner: flights.finish *)
| TWait (p : queryPlan) (f : nat)                           (* active.wait *)
| TLeave (p : queryPlan) (f : nat) (r : option (list byte))   (* flights.leave *)
| TResult (p : queryPlan) (r : option (list byte))          (* queryResult *)
| TDone (a : option (list byte)) (now : Z).                 (* returned; [None] is an error *)

Record call := Call { cl_lane : gostr; cl_query : list byte; cl_pc : rpc }.

(** A reply of the upstream [ex_tag] to [ex_query], stored at [ex_at]. *)
Record exchanged := Exchanged { ex_tag : gostr; ex_query : list byte; ex_response : list byte; ex_at : Z }.

Record rstate := RState {
  rs_cache : responseCache;
  rs_flights : gmap (list byte) nat;
  rs_heap : gmap nat flightData;
  rs_next : nat;
  rs_calls : gmap nat call;
  rs_log : list exchanged;
}.

(** What the environment decides in one step. *)
Record choice := Choice { ch_now : Z; ch_expired : bool; ch_reply : option (list byte) }.

Inductive raction :=
| AArrive (t : nat) (laneID : gostr) (query : list byte)
| AStep (t : nat) (ch : choice).

(** ** The code *)

Section Code.
Context (UnpackDomainName : list byte -> nat -> option (list byte * nat)) (Pack : dnsMsg -> option (list byte)).
Context (lanes : gmap gostr lane) (servers : gset gostr).

(** [planQuery]; [None] is the error for an unknown lane. *)
Definition planQuery (c : responseCache) (laneID : gostr) (query : list byte) (now : Z) :
    outcome (option queryPlan * responseCache) :=
  match lanes !! laneID with
  | None => Ret (None, c)
  | Some lane =>
      let refused :=
        let! a := refusal UnpackDomainName Pack query false in
        Ret (Some (QueryPlan [] [] a true), c) in
      let! name := questionName query in
      match name with
      | None => refused
      | Some name =>
          let! decision := target lane name in
          let '(tag, rejected) := decision in
          if rejected : bool then refused
          else if negb (bool_decide (tag ∈ servers)) then refused
          else
            match normalizedQueryKey tag query with
            | None => refused
            | Some key =>
                let! id := slice query 0 2 in
                let! hit := get c key id now in
                match hit with
                | (Some response, c) => Ret (Some (QueryPlan [] [] response true), c)
                | (None, c) => Ret (Some (QueryPlan tag key [] false), c)
                end
            end
      end
  end.

(** [exchangePlan]; [expired] is [ctx.Err() != nil], [reply] what the upstream
    returns, [None] being its error. *)
Definition exchangePlan (c : responseCache) (plan : queryPlan) (query : list byte)
    (expired : bool) (reply : option (list byte)) (now : Z) :
    outcome (option (list byte) * responseCache) :=
  if expired then Ret (None, c) else
  match reply with
  | None => Ret (None, c)
  | Some response =>
      if (length response <? 12)%nat then Ret (None, c) else
      let! matching := matchingQuestion query response in
      if negb matching then Ret (None, c) else
      let! ttl := responseTTL response in
      let response := zeroID response in
      let! c := putOwned c (qp_key plan) response ttl now in
      Ret (Some response, c)
  end.

(** [queryResult]; [None] for the pair of a nil response and an error. *)
Definition queryResult (c : responseCache) (plan : queryPlan) (query : list byte)
    (normalized : option (list byte)) (now : Z) : outcome (list byte * responseCache) :=
  let! id := slice query 0 2 in
  match normalized with
  | None =>
      let! hit := getStale c (qp_key plan) id now in
      match hit with
      | (Some stale, c) => Ret (stale, c)
      | (None, c) =>
          let! a := refusal UnpackDomainName Pack query true in
          Ret (a, c)
      end
  | Some response => Ret (responseWithID response id, c)
  end.

(** *** [flightGroup], with the limit 0 that [do] passes to [begin] *)

Definition set_flights (s : rstate) (flights : gmap (list byte) nat) (heap : gmap nat flightData)
    (next : nat) : rstate :=
  RState (rs_cache s) flights heap next (rs_calls s) (rs_log s).

(** [begin]: the flight to wait for and whether the caller owns it. *)
Definition flightBegin (s : rstate) (key : list byte) : outcome (nat * bool * rstate) :=
  match rs_flights s !! key with
  | Some f =>
      match rs_heap s !! f with
      | None => Panic
      | Some a =>
          Ret (f, false, set_flights s (rs_flights s)
                 (<[f := FlightData (fd_waiters a + 1) (fd_result a)]> (rs_heap s)) (rs_next s))
      end
  | None =>
      let f := rs_next s in
      Ret (f, true, set_flights s (<[key := f]> (rs_flights s)) (<[f := FlightData 1 None]> (rs_heap s)) (S f))
  end.

Definition flightLeave (s : rstate) (f : nat) : outcome rstate :=
  match rs_heap s !! f with
  | None => Panic
  | Some a => Ret (set_flights s (rs_flights s) (<[f := FlightData (fd_waiters a - 1) (fd_result a)]> (rs_heap s)) (rs_next s))
  end.

(** [finish]: closing a closed channel panics. *)
Definition flightFinish (s : rstate) (key : list byte) (f : nat) (r : option (list byte)) : outcome rstate :=
  match rs_heap s !! f with
  | Some (FlightData w None) =>
      Ret (set_flights s (delete key (rs_flights s)) (<[f := FlightData w (Some r)]> (rs_heap s)) (rs_next s))
  | _ => Panic
  end.

(** [wait]: [Ret None] while neither channel is ready. *)
Definition flightWait (s : rstate) (f : nat) (expired : bool) : outcome (option (option (list byte))) :=
  if expired then Ret (Some None)
  else match rs_heap s !! f with None => Panic | Some a => Ret (fd_result a) end.

(** *** One step of one call of [resolve] *)

Definition set_call (s : rstate) (t : nat) (cl : call) : rstate :=
  RState (rs_cache s) (rs_flights s) (rs_heap s) (rs_next s) (<[t := cl]> (rs_calls s)) (rs_log s).
Definition goto (s : rstate) (t : nat) (cl : call) (pc : rpc) : rstate :=
  set_call s t (Call (cl_lane cl) (cl_query cl) pc).
Definition set_rcache (s : rstate) (c : responseCache) : rstate :=
  RState c (rs_flights s) (rs_heap s) (rs_next s) (rs_calls s) (rs_log s).
Definition logged (s : rstate) (x : list exchanged) : rstate :=
  RState (rs_cache s) (rs_flights s) (rs_heap s) (rs_next s) (rs_calls s) (x ++ rs_log s).

(** The history entry of an exchange that took place. *)
Definition exchange_log (plan : queryPlan) (query : list byte) (ch : choice) : list exchanged :=
  match ch_expired ch, ch_reply ch with
  | false, Some r => [Exchanged (qp_tag plan) query r (ch_now ch)]
  | _, _ => []
  end.

(** [resolve] with [flights.do] written out; [Ret None] is a call that blocks
    or has returned. *)
Definition resolve_step (s : rstate) (t : nat) (cl : call) (ch : choice) : outcome (option rstate) :=
  let query := cl_query cl in
  match cl_pc cl with
  | TPlan =>
      let! r := planQuery (rs_cache s) (cl_lane cl) query (ch_now ch) in
      let s := set_rcache s r.2 in
      Ret (Some (goto s t cl (match r.1 with
        | None => TDone None (ch_now ch)
        | Some plan => if qp_local plan then TDone (Some (qp_answer plan)) (ch_now ch) else TBegin plan
        end)))
  | TBegin plan =>
      let! r := flightBegin s (qp_key plan) in
      let '(f, owner, s) := r in
      Ret (Some (goto s t cl (if owner : bool then TExchange plan f else TWait plan f)))
  | TExchange plan f =>
      let! r := exchangePlan (rs_cache s) plan query (ch_expired ch) (ch_reply ch) (ch_now ch) in
      let s := logged (set_rcache s r.2) (exchange_log plan query ch) in
      Ret (Some (goto s t cl (TFinish plan f r.1)))
  | TFinish plan f r =>
      let! s := flightFinish s (qp_key plan) f r in
      Ret (Some (goto s t cl (TWait plan f)))
  | TWait plan f =>
      let! r := flightWait s f (ch_expired ch) in
      Ret (r ← r; Some (goto s t cl (TLeave plan f r)))
  | TLeave plan f r =>
      let! s := flightLeave s f in
      Ret (Some (goto s t cl (TResult plan r)))
  | TResult plan r =>
      let! a := queryResult (rs_cache s) plan query r (ch_now ch) in
      Ret (Some (goto (set_rcache s a.2) t cl (TDone (Some a.1) (ch_now ch))))
  | TDone _ _ => Ret None
  end.

Definition rexec (s : rstate) (a : raction) : outcome (option rstate) :=
  match a with
  | AArrive t laneID query =>
      match rs_calls s !! t with
      | Some _ => Ret None
      | None => Ret (Some (set_call s t (Call laneID query TPlan)))
      end
  | AStep t ch =>
      match rs_calls s !! t with
      | None => Ret None
      | Some cl => resolve_step s t cl ch
      end
  end.

Definition rstep (s s' : rstate) : Prop := exists a, rexec s a = Ret (Some s').

End Code.

Definition rinit (limit byteLimit staleTTL : Z) : rstate :=
  RState (newResponseCache limit byteLimit staleTTL) ∅ ∅ 0 ∅ [].
