(* ===== verification/DnsResolveSafety.v ===== *)
(** * What a client of the resolver is told

    The safety of [DnsResolve]: under every interleaving and every behaviour of
    the upstream servers, a call of [resolve] never panics, and what it returns
    is a refusal or a response that an upstream of the caller's own route gave
    to the same question, under the caller's identifier; and no call is left
    behind in a shared flight. *)

From S2P Require Import Prelude GoBase DnsWire DnsCache DnsLane DnsQuestion DnsResolve.
Open Scope Z_scope.

(** ** Reference semantics *)

(** The cache key of a query on a route. *)
Definition qkey (tag : gostr) (query : list byte) : list byte := tag ++ [x00] ++ zeroID query.

(** The lane's policy sends the query to the upstream [tag]. *)
Definition routed (lanes : gmap gostr lane) (servers : gset gostr) (laneID : gostr) (query : list byte)
    (tag : gostr) : Prop :=
  exists l name, lanes !! laneID = Some l /\ questionName query = Ret (Some name) /\
    target l name = Ret (tag, false) /\ tag ∈ servers.

(** [a] is the reply [x] as the resolver may hand it on at [now]: straight from
    a flight, from the cache inside its lifetime, or inside the stale window. *)
Inductive served (staleTTL : Z) (x : exchanged) (id : list byte) (now : Z) (a : list byte) : Prop :=
| served_flight :
    a = responseWithID (zeroID (ex_response x)) id -> served staleTTL x id now a
| served_cached :
    now < ex_at x + cacheableLifetime (ex_response x) ->
    cachedResponse (zeroID (ex_response x)) id (time_sub now (ex_at x)) 0 = Ret a ->
    served staleTTL x id now a
| served_stale :
    0 < staleTTL ->
    ex_at x + cacheableLifetime (ex_response x) <= now
      < ex_at x + cacheableLifetime (ex_response x) + staleTTL ->
    cachedResponse (zeroID (ex_response x)) id 0 30 = Ret a ->
    served staleTTL x id now a.

Section Reply.
Context (UnpackDomainName : list byte -> nat -> option (list byte * nat)) (Pack : dnsMsg -> option (list byte)).
Context (lanes : gmap gostr lane) (servers : gset gostr) (staleTTL : Z).

(** What a call may return, given the replies [log] that upstreams gave. *)
Inductive reply_ok (log : list exchanged) (laneID : gostr) (query : list byte) (now : Z) :
    option (list byte) -> Prop :=
| reply_unknown :
    lanes !! laneID = None -> reply_ok log laneID query now None
| reply_refused a :
    (forall tag, ~ routed lanes servers laneID query tag) ->
    refusal UnpackDomainName Pack query false = Ret a -> reply_ok log laneID query now (Some a)
| reply_failed a tag :
    routed lanes servers laneID query tag ->
    refusal UnpackDomainName Pack query true = Ret a -> reply_ok log laneID query now (Some a)
| reply_answer a tag x :
    routed lanes servers laneID query tag ->
    x ∈ log -> ex_tag x = tag -> drop 2 (ex_query x) = drop 2 query ->
    answers (ex_query x) (ex_response x) ->
    served staleTTL x (take 2 query) now a -> answers query a ->
    reply_ok log laneID query now (Some a).
End Reply.

(** ** Bytes *)

Lemma zeroID_idem r : zeroID (zeroID r) = zeroID r.
Proof. done. Qed.

Lemma length_zeroID r : (2 <= length r)%nat -> length (zeroID r) = length r.
Proof. intros. unfold zeroID. rewrite length_app, length_drop. simpl. lia. Qed.

Lemma zeroID_lookup r i : (2 <= length r)%nat -> (2 <= i)%nat -> zeroID r !! i = r !! i.
Proof.
  intros. unfold zeroID. rewrite lookup_app_r by (simpl; lia). rewrite lookup_drop. f_equal. simpl. lia.
Qed.

(** The key determines the route and the query up to its identifier. *)
Lemma qkey_inj tag tag' q q' :
  x00 ∉ tag -> x00 ∉ tag' -> qkey tag q = qkey tag' q' -> tag = tag' /\ drop 2 q = drop 2 q'.
Proof.
  unfold qkey. revert tag'. induction tag as [|b tag IH]; intros [|b' tag'] Hn Hn' E; simpl in E.
  - by injection E as E.
  - injection E as E1 E2. subst. set_solver.
  - injection E as E1 E2. subst. set_solver.
  - injection E as -> E2. destruct (IH tag') as [-> ?]; [set_solver..|done|done].
Qed.

(** A response under the identifier of [query]. *)
Lemma responseWithID_agree r query :
  (12 <= length r)%nat -> (12 <= length query)%nat ->
  let a := responseWithID (zeroID r) (take 2 query) in
  agree r a 2 (length r) /\ u16 a 0 = u16 query 0.
Proof.
  intros Hr Hq a. assert (Hz : length (zeroID r) = length r) by (apply length_zeroID; lia).
  assert (Ht : length (take 2 query) = 2%nat) by (rewrite length_take; lia).
  assert (Ha : a = copy_at (zeroID r) 0 (take 2 query)).
  { subst a. unfold responseWithID. rewrite Hz, Ht. case_tests. by rewrite take_ge by (rewrite Ht; lia). }
  split.
  - split; [by rewrite Ha, length_copy_at by lia|]. intros i Hi.
    rewrite Ha, lookup_copy_at_out, zeroID_lookup by lia. done.
  - unfold u16. rewrite !list_lookup_total_alt, Ha.
    pose proof (lookup_copy_at_in (zeroID r) 0 (take 2 query) 0 ltac:(lia) ltac:(lia)) as E0.
    pose proof (lookup_copy_at_in (zeroID r) 0 (take 2 query) 1 ltac:(lia) ltac:(lia)) as E1.
    cbn [Nat.add] in *. by rewrite E0, E1, !lookup_take_lt by lia.
Qed.

(** [m'] answers [query] when [m] answers a query that differs only in its
    identifier, and [m'] differs from [m] in the identifier and behind the
    question. *)
Lemma answers_agree q q' m m' o :
  answers q m -> drop 2 q = drop 2 q' -> (12 <= length q')%nat ->
  skipQuestions m 12 1 = Ret (Some o) -> agree m m' 2 o -> u16 m' 0 = u16 q' 0 ->
  answers q' m'.
Proof.
  intros (Hlq & Hlm & Hid & Hq2 & Hm2 & Hq4 & Hm4 & n & t & c & Hqi & Hmi) Hd Hl Ho Ha Hid'.
  assert (Hqq : agree q q' 2 (length q)).
  { split; [apply (f_equal length) in Hd; rewrite !length_drop in Hd; lia|]. intros i Hi.
    replace i with (2 + (i - 2))%nat by lia. rewrite <- !lookup_drop. by rewrite Hd. }
  destruct (question_ends m n t c Hmi) as (o' & Ho' & Hs & Hm').
  rewrite Ho in Hs. simplify_eq.
  destruct (question_ends q n t c Hqi) as (oq & Hoq & _ & Hq').
  split_and!; [done|rewrite <- (proj1 Ha); lia|done| | | | |].
  - by rewrite <- (agree_u16 q q' 2 (length q)) by (done || lia).
  - by rewrite <- (agree_u16 m m' 2 o') by (done || lia).
  - by rewrite <- (agree_u16 q q' 2 (length q)) by (done || lia).
  - by rewrite <- (agree_u16 m m' 2 o') by (done || lia).
  - exists n, t, c. split; [apply Hq'; eapply agree_sub; [..|exact Hqq]; lia|].
    apply Hm'. eapply agree_sub; [..|exact Ha]; lia.
Qed.

Lemma served_answers staleTTL x query now a :
  answers (ex_query x) (ex_response x) -> drop 2 (ex_query x) = drop 2 query ->
  (12 <= length query)%nat -> served staleTTL x (take 2 query) now a -> answers query a.
Proof.
  intros Han Hd Hl Hs. set (r := ex_response x) in *.
  pose proof Han as (_ & Hlr & _ & _ & _ & _ & Hr4 & n & t & c & _ & Hri).
  destruct (question_ends r n t c Hri) as (o & Ho & Hskip & _).
  destruct (responseWithID_agree r query Hlr Hl) as [Hag Hid].
  set (w := responseWithID (zeroID r) (take 2 query)) in *.
  assert (Hw : agree r w 2 o) by (eapply agree_sub; [..|exact Hag]; lia).
  assert (Haged : forall age ov, cachedResponse (zeroID r) (take 2 query) age ov = Ret a -> answers query a).
  { intros age ov Hc. unfold cachedResponse in Hc. fold w in Hc.
    assert (Hskip' : skipQuestions w 12 (Z.to_nat (u16 w 4)) = Ret (Some o)).
    { rewrite <- (agree_u16 r w 2 o), Hr4 by (done || lia).
      eapply skipQuestions_agree; [exact Hskip|]. eapply agree_sub; [..|exact Hw]; lia. }
    destruct (adjustResponseTTLs_low w o (wrap_u32 (Z.quot age second)) ov) as (a' & Ha' & Hlow);
      [rewrite <- (proj1 Hag); lia|done|]. rewrite Ha' in Hc. simplify_eq.
    eapply answers_agree; [exact Han|exact Hd|done|exact Hskip| |].
    - eapply agree_trans; [exact Hw|]. eapply agree_sub; [..|exact Hlow]; lia.
    - rewrite <- (agree_u16 w a 0 o) by (done || lia). done. }
  destruct Hs as [->|_ Hc|_ _ Hc]; [|by eapply Haged..].
  eapply answers_agree; [exact Han|exact Hd|done|exact Hskip|exact Hw|exact Hid].
Qed.

(** ** Routing *)

Lemma target_returns l name : returns (target l name).
Proof.
  unfold target. rewrite suffix_loop_eq by lia. cbn [obind].
  apply returns_bind; [|auto with go]. unfold Match. destruct (ln_shared l) as [i|]; [|auto with go].
  destruct (matchMembers_spec i name) as (v & Hv & _). by exists v.
Qed.

Lemma questionName_cases query :
  (exists name, questionName query = Ret (Some name) /\ (12 <= length query)%nat) \/ questionName query = Ret None.
Proof.
  unfold questionName. destruct (Nat.lt_ge_cases (length query) 12) as [H|H].
  - right. unfold parseQuestionName. by case_tests.
  - destruct (parseQuestionName_cases query H) as [(ls & e & -> & _)|[-> _]]; cbn [obind fmap]; [left|by right].
    by exists (join_labels [] ls).
Qed.

Lemma normalizedQueryKey_some tag query : (12 <= length query)%nat -> normalizedQueryKey tag query = Some (qkey tag query).
Proof. intros. unfold normalizedQueryKey, qkey, zeroID. by case_tests. Qed.

(** ** The invariant *)

(** [r] is the reply [x] gave, with the identifier erased, on the route and for
    the question of [key]. *)
Definition reply_to (log : list exchanged) (key r : list byte) (x : exchanged) : Prop :=
  x ∈ log /\ key = qkey (ex_tag x) (ex_query x) /\ x00 ∉ ex_tag x /\
  r = zeroID (ex_response x) /\ answers (ex_query x) (ex_response x).

Lemma reply_to_mono log l key r x : reply_to log key r x -> reply_to (l ++ log) key r x.
Proof. intros (? & ?). split; [set_solver|done]. Qed.

Definition stored_from (staleTTL : Z) (log : list exchanged) (e : cacheEntry) : Prop :=
  exists x, reply_to log (ce_key e) (ce_response e) x /\
    ce_stored e = ex_at x /\ ce_expires e = ex_at x + cacheableLifetime (ex_response x) /\
    ce_staleAt e = ex_at x + (cacheableLifetime (ex_response x) +w staleTTL).

Record cache_inv (staleTTL : Z) (log : list exchanged) (c : responseCache) : Prop := CacheInv {
  ci_wf : cache_wf c;
  ci_bounded : cache_bounded c;
  ci_stale : rc_staleTTL c = staleTTL;
  ci_from : forall e, e ∈ contents c -> stored_from staleTTL log e;
}.

Lemma cache_inv_mono staleTTL log l c : cache_inv staleTTL log c -> cache_inv staleTTL (l ++ log) c.
Proof.
  intros [Hwf Hb Hst Hf]. split; try done. intros e He. destruct (Hf e He) as (x & Hx & ?).
  exists x. split; [by apply reply_to_mono|done].
Qed.

Lemma lru_touch_elem l e k x : lru_find l k = Some e -> x ∈ e :: lru_drop l k -> x ∈ l.
Proof.
  intros [He _]%lru_find_elem [->|Hx]%elem_of_cons; [done|]. by apply list_elem_of_filter in Hx as [_ ?].
Qed.

Lemma lru_get_elem l key id now x : x ∈ (lru_get l key id now).2 -> x ∈ l.
Proof.
  unfold lru_get. destruct (lru_find l key) as [e|] eqn:Hf; [|done].
  repeat case_match; simpl; [by apply lru_touch_elem|done|].
  by intros [_ ?]%list_elem_of_filter.
Qed.

Lemma lru_getStale_elem st l key id now x : x ∈ (lru_getStale st l key id now).2 -> x ∈ l.
Proof.
  unfold lru_getStale. destruct (lru_find l key) as [e|] eqn:Hf; [|done].
  case_match; simpl; [by apply lru_touch_elem|done].
Qed.

Section Invariant.
Context (UnpackDomainName : list byte -> nat -> option (list byte * nat)) (Pack : dnsMsg -> option (list byte)).
Context (lanes : gmap gostr lane) (servers : gset gostr) (staleTTL : Z).
Context (Htags : forall tag, tag ∈ servers -> x00 ∉ tag).

Local Abbreviation planQuery := (planQuery UnpackDomainName Pack lanes servers).
Local Abbreviation queryResult := (queryResult UnpackDomainName Pack).
Local Abbreviation reply_ok := (reply_ok UnpackDomainName Pack lanes servers staleTTL).
Local Abbreviation routed := (routed lanes servers).
Local Abbreviation cache_inv := (cache_inv staleTTL).

(** A hit or a stale hit on the key of a routed query is an answer to it. *)
Lemma hit_answer log laneID query now tag e a :
  routed laneID query tag -> (12 <= length query)%nat ->
  stored_from staleTTL log e -> ce_key e = qkey tag query ->
  (now < ce_expires e /\ cachedResponse (ce_response e) (take 2 query) (time_sub now (ce_stored e)) 0 = Ret a) \/
  (0 < staleTTL /\ ce_expires e <= now < ce_staleAt e /\ cachedResponse (ce_response e) (take 2 query) 0 30 = Ret a) ->
  reply_ok log laneID query now (Some a).
Proof.
  intros Hr Hl (x & (Hx & Hk & Hn & Hresp & Han) & Hst & Hex & Hsa) Hke Hcase.
  rewrite Hke in Hk.
  destruct (qkey_inj tag (ex_tag x) query (ex_query x)) as [Ht Hd]; [|done|done|].
  { destruct Hr as (? & ? & _ & _ & _ & ?). by apply Htags. }
  assert (Hs : served staleTTL x (take 2 query) now a).
  { rewrite Hresp, Hst, Hex, Hsa in *.
    destruct Hcase as [[? ?]|(? & ? & ?)]; [by apply served_cached|]. apply served_stale; [done| |done].
    destruct (responseTTL_lifetime (ex_response x)) as [_ Hl0].
    pose proof (wrap_i64_le (cacheableLifetime (ex_response x) + staleTTL)). lia. }
  eapply reply_answer; try done. by eapply served_answers.
Qed.

(** A flight's result under the key of a routed query is an answer to it. *)
Lemma flight_answer log laneID query now tag r x :
  routed laneID query tag -> (12 <= length query)%nat -> reply_to log (qkey tag query) r x ->
  reply_ok log laneID query now (Some (responseWithID r (take 2 query))).
Proof.
  intros Hr Hl (Hx & Hk & Hn & -> & Han).
  destruct (qkey_inj tag (ex_tag x) query (ex_query x)) as [Ht Hd]; [|done|done|].
  { destruct Hr as (? & ? & _ & _ & _ & ?). by apply Htags. }
  assert (Hs : served staleTTL x (take 2 query) now (responseWithID (zeroID (ex_response x)) (take 2 query)))
    by by apply served_flight.
  eapply reply_answer; try done. by eapply served_answers.
Qed.

(** What a plan that needs an upstream is worth. *)
Definition plan_ok (laneID : gostr) (query : list byte) (plan : queryPlan) : Prop :=
  routed laneID query (qp_tag plan) /\ (12 <= length query)%nat /\ qp_key plan = qkey (qp_tag plan) query.

Definition planned (log : list exchanged) (laneID : gostr) (query : list byte) (now : Z)
    (p : option queryPlan) : Prop :=
  match p with
  | None => reply_ok log laneID query now None
  | Some plan =>
      if qp_local plan then reply_ok log laneID query now (Some (qp_answer plan))
      else plan_ok laneID query plan
  end.

Lemma refused_spec log c laneID query now :
  cache_inv log c -> (forall tag, ~ routed laneID query tag) ->
  exists p c', (let! a := refusal UnpackDomainName Pack query false in Ret (Some (QueryPlan [] [] a true), c)) = Ret (p, c') /\
    cache_inv log c' /\ planned log laneID query now p.
Proof.
  intros Hc Hn. destruct (refusal_returns UnpackDomainName Pack query false) as [a Ha]. rewrite Ha. cbn [obind].
  eexists _, _. split_and!; [done|done|]. by apply reply_refused.
Qed.

Lemma planQuery_spec log c laneID query now :
  cache_inv log c ->
  exists p c', planQuery c laneID query now = Ret (p, c') /\ cache_inv log c' /\ planned log laneID query now p.
Proof.
  intros Hc. unfold DnsResolve.planQuery.
  destruct (lanes !! laneID) as [l|] eqn:Hlane; [|exists None, c; split_and!; [done|done|by constructor]].
  destruct (questionName_cases query) as [(name & Hname & Hl)|Hname]; rewrite Hname; cbn [obind].
  2: { apply refused_spec; [done|]. intros tag (l' & n & _ & E & _). congruence. }
  destruct (target_returns l name) as [[tag rejected] Htg]. rewrite Htg. cbn [obind].
  assert (Hr : forall tag', routed laneID query tag' -> tag' = tag /\ rejected = false /\ tag ∈ servers).
  { intros tag' (l' & n & E1 & E2 & E3 & E4). rewrite Hname in E2. simplify_eq. rewrite E3 in Htg. by simplify_eq. }
  destruct rejected; [apply refused_spec; [done|naive_solver]|].
  case_bool_decide as Hin; cbn [negb]; [|apply refused_spec; [done|naive_solver]].
  rewrite normalizedQueryKey_some by done. rewrite slice_ok by lia. cbn [obind]. rewrite drop_0.
  change (2 - 0)%nat with 2%nat.
  assert (Hrt : routed laneID query tag) by by exists l, name.
  destruct Hc as [Hwf Hb Hst Hf].
  destruct (get_refines c (qkey tag query) (take 2 query) now Hwf Hb) as (r & c' & -> & Hspec & Hwf' & Hb' & Hs').
  cbn [obind].
  assert (Hc' : cache_inv log c').
  { split; [done|done|by destruct Hs' as (_ & _ & ->)|]. intros e He. apply Hf.
    apply (lru_get_elem (contents c) (qkey tag query) (take 2 query) now). by rewrite Hspec. }
  destruct r as [a|]; [|by eexists _, c'].
  eexists _, c'. split_and!; [done|done|]. simpl.
  unfold lru_get in Hspec. destruct (lru_find (contents c) (qkey tag query)) as [e|] eqn:He; [|done].
  apply lru_find_elem in He as [He Hk]. case_tests_in Hspec; try done.
  eapply (hit_answer log laneID query now tag e); [done|done|by apply Hf|done|left].
  split; [done|]. destruct (cachedResponse _ _ _ _); by simplify_eq/=.
Qed.

Lemma exchangePlan_spec log c laneID plan query ch :
  cache_inv log c -> plan_ok laneID query plan ->
  let log' := exchange_log plan query ch ++ log in
  exists r c', exchangePlan c plan query (ch_expired ch) (ch_reply ch) (ch_now ch) = Ret (r, c') /\
    cache_inv log' c' /\ (forall v, r = Some v -> exists x, reply_to log' (qp_key plan) v x).
Proof.
  intros Hc (Hr & Hl & Hk) log'. unfold exchangePlan.
  assert (Hno : exists r c', Ret (None, c) = Ret (r, c') /\ cache_inv log' c' /\
    (forall v, r = Some v -> exists x, reply_to log' (qp_key plan) v x)).
  { exists None, c. split_and!; [done|by apply cache_inv_mono|done]. }
  destruct (ch_expired ch) eqn:Hex; [done|].
  destruct (ch_reply ch) as [resp|] eqn:Hre; [|done].
  destruct (Nat.ltb_spec (length resp) 12); [done|].
  destruct (matchingQuestion_spec query resp) as (b & -> & Hb). cbn [obind].
  destruct b; cbn [negb]; [|done]. clear Hno.
  destruct (responseTTL_lifetime resp) as [-> _]. cbn [obind].
  set (x := Exchanged (qp_tag plan) query resp (ch_now ch)).
  assert (Hlog : log' = x :: log) by (subst log'; unfold exchange_log; by rewrite Hex, Hre).
  assert (Hto : reply_to log' (qp_key plan) (zeroID resp) x).
  { rewrite Hlog. split_and!; [set_solver|done| |done|by apply Hb].
    destruct Hr as (? & ? & _ & _ & _ & ?). by apply Htags. }
  pose proof (cache_inv_mono staleTTL log (exchange_log plan query ch) c Hc) as [_ _ _ Hf].
  destruct Hc as [Hwf Hbd Hst _].
  destruct (putOwned_refines c (qp_key plan) (zeroID resp) (cacheableLifetime resp) (ch_now ch) Hwf Hbd)
    as (c' & -> & Hwf' & Hb' & Hs' & Hc'). cbn [obind].
  eexists _, c'. split_and!; [done| |intros v [= <-]; by exists x].
  split; [done|done|by destruct Hs' as (_ & _ & ->)|]. rewrite Hc'. unfold lru_put. intros e He.
  destruct (_ && _); [|by apply Hf].
  eapply elem_of_prefix in He; [|apply lru_fit_prefix].
  apply elem_of_cons in He as [->|He]; [|apply Hf; by apply list_elem_of_filter in He as [_ ?]].
  exists x. simpl. rewrite zeroID_idem, Hst. done.
Qed.

Lemma queryResult_spec log c laneID plan query r now :
  cache_inv log c -> plan_ok laneID query plan ->
  (forall v, r = Some v -> exists x, reply_to log (qp_key plan) v x) ->
  exists a c', queryResult c plan query r now = Ret (a, c') /\ cache_inv log c' /\
    reply_ok log laneID query now (Some a).
Proof.
  intros Hc (Hr & Hl & Hk) Hv. unfold DnsResolve.queryResult. rewrite slice_ok by lia. cbn [obind].
  rewrite drop_0. change (2 - 0)%nat with 2%nat. destruct r as [v|].
  { destruct (Hv v eq_refl) as [x Hx]. rewrite Hk in Hx.
    eexists _, c. split_and!; [done|done|]. by eapply flight_answer. }
  destruct Hc as [Hwf Hb Hst Hf].
  destruct (getStale_refines c (qp_key plan) (take 2 query) now Hwf Hb) as (r & c' & -> & Hspec & Hwf' & Hb' & Hs').
  cbn [obind].
  assert (Hc' : cache_inv log c').
  { split; [done|done|by destruct Hs' as (_ & _ & ->)|]. intros e He. apply Hf.
    apply (lru_getStale_elem (rc_staleTTL c) (contents c) (qp_key plan) (take 2 query) now). by rewrite Hspec. }
  destruct r as [a|].
  2: { destruct (refusal_returns UnpackDomainName Pack query true) as [a Ha]. rewrite Ha. cbn [obind].
       eexists _, _. split_and!; [done|done|]. by eapply reply_failed. }
  eexists _, c'. split_and!; [done|done|].
  unfold lru_getStale in Hspec. destruct (lru_find (contents c) (qp_key plan)) as [e|] eqn:He; [|done].
  apply lru_find_elem in He as [He Hke]. case_tests_in Hspec; try done.
  eapply (hit_answer log laneID query now _ e); [done|done|by apply Hf|congruence|right].
  rewrite <- Hst. split_and!; [done|done|done|]. destruct (cachedResponse _ _ _ _); by simplify_eq/=.
Qed.

(** The calls that hold the duty to finish flight [f]. *)
Definition owns (cl : call) (f : nat) : Prop :=
  match cl_pc cl with TExchange _ g | TFinish _ g _ => g = f | _ => False end.

Definition waits (cl : call) : option (nat * queryPlan) :=
  match cl_pc cl with
  | TExchange p f | TFinish p f _ | TWait p f | TLeave p f _ => Some (f, p)
  | _ => None
  end.

(** What the program counter of a call says. *)
Definition call_ok (log : list exchanged) (cl : call) : Prop :=
  match cl_pc cl with
  | TPlan => True
  | TBegin p | TExchange p _ | TWait p _ => plan_ok (cl_lane cl) (cl_query cl) p
  | TFinish p _ r | TLeave p _ r | TResult p r =>
      plan_ok (cl_lane cl) (cl_query cl) p /\
      forall v, r = Some v -> exists x, reply_to log (qp_key p) v x
  | TDone a now => reply_ok log (cl_lane cl) (cl_query cl) now a
  end.

(** [None]: not allocated; [Some None]: in the air; [Some (Some r)]: done. *)
Definition fres (s : rstate) (f : nat) : option (option (option (list byte))) := fd_result <$> rs_heap s !! f.

(** [K] gives every flight the key it was begun under. *)
Record rinv (K : nat -> list byte) (s : rstate) : Prop := RInv {
  ri_cache : cache_inv (rs_log s) (rs_cache s);
  ri_fresh : forall f, is_Some (fres s f) -> (f < rs_next s)%nat;
  ri_map : forall key f, rs_flights s !! key = Some f -> K f = key /\ fres s f = Some None;
  ri_done : forall f v, fres s f = Some (Some (Some v)) -> exists x, reply_to (rs_log s) (K f) v x;
  ri_call : forall t cl, rs_calls s !! t = Some cl -> call_ok (rs_log s) cl;
  ri_key : forall t cl f p, rs_calls s !! t = Some cl -> waits cl = Some (f, p) ->
    K f = qp_key p /\ is_Some (fres s f);
  ri_own : forall t cl f, rs_calls s !! t = Some cl -> owns cl f -> rs_flights s !! K f = Some f;
  ri_one : forall t t' cl cl' f, rs_calls s !! t = Some cl -> rs_calls s !! t' = Some cl' ->
    owns cl f -> owns cl' f -> t = t';
  ri_open : forall f, fres s f = Some None -> exists t cl, rs_calls s !! t = Some cl /\ owns cl f;
}.

Lemma reply_ok_mono log l laneID query now a :
  reply_ok log laneID query now a -> reply_ok (l ++ log) laneID query now a.
Proof. destruct 1; [by constructor|by constructor|by eapply reply_failed|eapply reply_answer; try done; set_solver]. Qed.

Lemma call_ok_mono log l cl : call_ok log cl -> call_ok (l ++ log) cl.
Proof.
  unfold call_ok. destruct (cl_pc cl); try done; try apply reply_ok_mono;
    intros [Hp Hv]; (split; [done|]); intros v Hr; destruct (Hv v Hr) as [x Hx]; exists x; by apply reply_to_mono.
Qed.

(** A step that moves one call and leaves the duties of the owners as they are. *)
Lemma rinv_move K s s' t cl l :
  rinv K s -> rs_calls s' = <[t := cl]> (rs_calls s) -> rs_log s' = l ++ rs_log s ->
  rs_flights s' = rs_flights s -> (forall f, fres s' f = fres s f) -> rs_next s' = rs_next s ->
  cache_inv (rs_log s') (rs_cache s') -> call_ok (rs_log s') cl ->
  (forall f p, waits cl = Some (f, p) -> K f = qp_key p /\ is_Some (fres s f)) ->
  (forall f, owns cl f <-> exists old, rs_calls s !! t = Some old /\ owns old f) ->
  rinv K s'.
Proof.
  intros [H1 H2 H3 H4 H5 H6 H7 H8 H9] Hcalls Hlog Hfl Hres Hnext Hc Hok Hw Ho.
  assert (Howner : forall t' cl' f, rs_calls s' !! t' = Some cl' -> owns cl' f ->
    exists old, rs_calls s !! t' = Some old /\ owns old f).
  { intros t' cl' f Ht' Hof. rewrite Hcalls in Ht'.
    apply lookup_insert_Some in Ht' as [[<- <-]|[? Ht']]; [by apply Ho|eauto]. }
  split; try done.
  - intros f. rewrite Hres, Hnext. apply H2.
  - intros key f. rewrite Hfl, Hres. apply H3.
  - intros f v. rewrite Hres, Hlog. intros Hf. destruct (H4 f v Hf) as [x Hx]. exists x. by apply reply_to_mono.
  - intros t' cl'. rewrite Hcalls. intros [[<- <-]|[? Ht']]%lookup_insert_Some; [done|].
    rewrite Hlog. apply call_ok_mono. by eapply H5.
  - intros t' cl' f p. rewrite Hcalls, Hres. intros [[<- <-]|[? Ht']]%lookup_insert_Some; [apply Hw|by eapply H6].
  - intros t' cl' f Ht' Hof. rewrite Hfl. destruct (Howner t' cl' f Ht' Hof) as (old & ? & ?). by eapply H7.
  - intros t1 t2 cl1 cl2 f Ht1 Ht2 Ho1 Ho2.
    destruct (Howner t1 cl1 f Ht1 Ho1) as (old1 & ? & ?), (Howner t2 cl2 f Ht2 Ho2) as (old2 & ? & ?).
    by eapply H8.
  - intros f. rewrite Hres. intros Hf. destruct (H9 f Hf) as (t' & old & Ht' & Hof).
    rewrite Hcalls. destruct (decide (t = t')) as [<-|Hne].
    + exists t, cl. rewrite lookup_insert_eq. split; [done|]. apply Ho. eauto.
    + exists t', old. by rewrite lookup_insert_ne.
Qed.

Lemma fres_heap s f r : fres s f = Some r -> exists w, rs_heap s !! f = Some (FlightData w r).
Proof.
  unfold fres. destruct (rs_heap s !! f) as [[w r']|]; [|done]. intros [= <-]. by exists w.
Qed.

(** [fres] after an update of the heap at [f]. *)
Lemma fres_insert s flights heap next calls log cache f d g :
  heap = <[f := d]> (rs_heap s) ->
  fres (RState cache flights heap next calls log) g = if decide (f = g) then Some (fd_result d) else fres s g.
Proof.
  intros ->. unfold fres. simpl. case_decide; subst; [by rewrite lookup_insert_eq|by rewrite lookup_insert_ne].
Qed.

Lemma rinv_begin K s t cl p cl' :
  rinv K s -> rs_calls s !! t = Some cl -> (forall f, ~ owns cl f) -> rs_flights s !! qp_key p = None ->
  cl' = Call (cl_lane cl) (cl_query cl) (TExchange p (rs_next s)) -> plan_ok (cl_lane cl) (cl_query cl) p ->
  rinv (fun g => if decide (g = rs_next s) then qp_key p else K g)
    (RState (rs_cache s) (<[qp_key p := rs_next s]> (rs_flights s))
      (<[rs_next s := FlightData 1 None]> (rs_heap s)) (S (rs_next s)) (<[t := cl']> (rs_calls s)) (rs_log s)).
Proof.
  intros [H1 H2 H3 H4 H5 H6 H7 H8 H9] Ht Hno Hk -> Hp. set (n := rs_next s) in *.
  assert (Hold : forall f, is_Some (fres s f) -> f <> n) by (intros f Hf ->; apply H2 in Hf; lia).
  assert (Hown : forall t' cl', rs_calls s !! t' = Some cl' -> forall f, owns cl' f -> f <> n).
  { intros t' cl' Ht' f Hof. apply Hold. apply (H7 _ _ _ Ht'), H3 in Hof as [_ ->]. done. }
  split; cbn [rs_cache rs_flights rs_next rs_calls rs_log rs_heap]; try setoid_rewrite (fres_insert s _ _ _ _ _ _ n); try done.
  - intros f. case_decide; [subst; lia|]. intros Hf%H2. lia.
  - intros key f [[<- <-]|[Hne Hf]]%lookup_insert_Some; [by rewrite !decide_True|].
    destruct (H3 _ _ Hf) as [<- Hr]. assert (f <> n) by (apply Hold; by rewrite Hr). by rewrite !decide_False.
  - intros f v. case_decide as E; [done|]. intros Hf. destruct (H4 f v Hf) as [x Hx]. exists x.
    by rewrite decide_False by done.
  - intros t' cl' [[<- <-]|[? Ht']]%lookup_insert_Some; [done|by eapply H5].
  - intros t' cl' f q [[<- <-]|[? Ht']]%lookup_insert_Some Hw.
    + injection Hw as <- <-. rewrite !decide_True by done. split; [done|by eexists].
    + destruct (H6 _ _ _ _ Ht' Hw) as [HK Hf]. pose proof (Hold f Hf). by rewrite !decide_False.
  - intros t' cl' f [[<- <-]|[? Ht']]%lookup_insert_Some Hof.
    + change (n = f) in Hof. rewrite <- Hof, decide_True by done. apply lookup_insert_eq.
    + rewrite decide_False by (by eapply Hown). rewrite lookup_insert_ne; [by eapply H7|].
      intros E. apply (H7 _ _ _ Ht') in Hof. congruence.
  - intros t1 t2 cl1 cl2 f [[<- <-]|[? Ht1]]%lookup_insert_Some [[<- <-]|[? Ht2]]%lookup_insert_Some Ho1 Ho2; try done.
    + change (n = f) in Ho1. exfalso. by eapply (Hown _ _ Ht2).
    + change (n = f) in Ho2. exfalso. by eapply (Hown _ _ Ht1).
    + by eapply H8.
  - intros f. case_decide as E; intros Hf.
    + eexists t, _. rewrite lookup_insert_eq. split; [done|exact E].
    + destruct (H9 f Hf) as (t' & cl' & Ht' & Hof). exists t', cl'. split; [|done].
      rewrite lookup_insert_ne; [done|]. intros <-. simplify_eq. by eapply Hno.
Qed.

Lemma rinv_finish K s t cl p f r w cl' :
  rinv K s -> rs_calls s !! t = Some cl -> cl_pc cl = TFinish p f r ->
  cl' = Call (cl_lane cl) (cl_query cl) (TWait p f) ->
  rinv K (RState (rs_cache s) (delete (qp_key p) (rs_flights s))
      (<[f := FlightData w (Some r)]> (rs_heap s)) (rs_next s) (<[t := cl']> (rs_calls s)) (rs_log s)).
Proof.
  intros [H1 H2 H3 H4 H5 H6 H7 H8 H9] Ht Hpc ->.
  assert (Hof : owns cl f) by (unfold owns; by rewrite Hpc).
  destruct (H6 t cl f p Ht) as [HK Hf]; [unfold waits; by rewrite Hpc|].
  pose proof (H5 t cl Ht) as Hok. unfold call_ok in Hok. rewrite Hpc in Hok. destruct Hok as [Hp Hv].
  pose proof (H7 t cl f Ht Hof) as Hmap. rewrite HK in Hmap.
  assert (Hne : forall t' c', rs_calls s !! t' = Some c' -> t' <> t -> forall g, owns c' g -> g <> f).
  { intros t' c' Ht' Hn g Hg ->. apply Hn. by eapply (H8 t' t). }
  split; cbn [rs_cache rs_flights rs_next rs_calls rs_log rs_heap]; try setoid_rewrite (fres_insert s _ _ _ _ _ _ f); try done.
  - intros g. case_decide; [subst|]; intros Hg; by apply H2.
  - intros key g [Hk Hg]%lookup_delete_Some. destruct (H3 _ _ Hg) as [HKg Hr].
    rewrite decide_False; [done|]. intros <-. congruence.
  - intros g v. case_decide as E; [|by apply H4]. subst g. simpl. intros [= ->]. rewrite HK. by apply Hv.
  - intros t' c' [[<- <-]|[? Ht']]%lookup_insert_Some; [done|by eapply H5].
  - intros t' c' g q [[<- <-]|[? Ht']]%lookup_insert_Some Hw.
    + injection Hw as <- <-. rewrite decide_True by done. split; [done|by eexists].
    + destruct (H6 _ _ _ _ Ht' Hw) as [HKg Hg]. split; [done|]. by case_decide.
  - intros t' c' g [[<- <-]|[? Ht']]%lookup_insert_Some Hog; [done|].
    pose proof (H7 _ _ _ Ht' Hog) as Hm. rewrite lookup_delete_ne; [done|].
    intros E. rewrite <- E in Hm. simplify_eq. by eapply (Hne t').
  - intros t1 t2 c1 c2 g [[<- <-]|[? Ht1]]%lookup_insert_Some [[<- <-]|[? Ht2]]%lookup_insert_Some Ho1 Ho2; try done.
    by eapply H8.
  - intros g. case_decide as E; [done|]. intros Hg. destruct (H9 g Hg) as (t' & c' & Ht' & Hog).
    exists t', c'. split; [|done]. rewrite lookup_insert_ne; [done|]. intros <-. simplify_eq.
    unfold owns in Hog. rewrite Hpc in Hog. done.
Qed.

Local Abbreviation rexec := (rexec UnpackDomainName Pack lanes servers).
Local Abbreviation resolve_step := (resolve_step UnpackDomainName Pack lanes servers).

(** The outcome of a step from a good state: it returns, and leads to a good
    state. *)
Definition good (o : outcome (option rstate)) : Prop :=
  exists r, o = Ret r /\ forall s', r = Some s' -> exists K, rinv K s'.

Lemma good_some s' K : rinv K s' -> good (Ret (Some s')).
Proof. intros H. eexists. split; [done|]. intros ? [= <-]. by exists K. Qed.

Lemma pc_owner (s : rstate) t cl f : rs_calls s !! t = Some cl ->
  (owns cl f <-> exists old, rs_calls s !! t = Some old /\ owns old f).
Proof. intros Ht. split; [eauto|]. intros (old & Ho & ?). by simplify_eq. Qed.

Section Step.
Context (K : nat -> list byte) (s : rstate) (t : nat) (lane_ : gostr) (query : list byte) (Hinv : rinv K s).
Local Abbreviation at_pc pc := (rs_calls s !! t = Some (Call lane_ query pc)).

(** The side conditions of [rinv_move] that hold by computation. *)
Ltac move_call l Ht :=
  eapply (rinv_move K s _ t _ l); [exact Hinv|reflexivity..| | | |]; cbn [rs_log rs_cache app];
  [| | |let g := fresh "g" in intros g; rewrite <- (pc_owner s t _ g Ht); done].

Lemma step_plan ch : at_pc TPlan -> good (resolve_step s t (Call lane_ query TPlan) ch).
Proof.
  intros Ht. unfold DnsResolve.resolve_step. cbn [cl_pc cl_lane cl_query].
  destruct (planQuery_spec (rs_log s) (rs_cache s) lane_ query (ch_now ch)) as (p & c' & -> & Hc & Hp);
    [apply Hinv|]. cbn [obind fst snd]. apply (good_some _ K).
  destruct p as [plan|]; [destruct (qp_local plan) eqn:El|]; unfold planned in Hp; try rewrite El in Hp;
    move_call (@nil exchanged) Ht; done.
Qed.

Lemma step_begin ch plan : at_pc (TBegin plan) -> good (resolve_step s t (Call lane_ query (TBegin plan)) ch).
Proof.
  intros Ht. unfold DnsResolve.resolve_step, flightBegin. cbn [cl_pc cl_lane cl_query].
  pose proof (ri_call K s Hinv t _ Ht) as Hp.
  destruct (rs_flights s !! qp_key plan) as [f|] eqn:Hf.
  - destruct (ri_map K s Hinv _ _ Hf) as [HK Hr]. destruct (fres_heap s f _ Hr) as [w Hw].
    rewrite Hw. cbn [obind]. apply (good_some _ K).
    eapply (rinv_move K s _ t _ []); [exact Hinv|reflexivity..| |reflexivity|apply Hinv|exact Hp| |].
    + intros g. unfold goto, set_call, set_flights. cbn [rs_cache rs_flights rs_heap rs_next rs_calls rs_log].
      rewrite (fres_insert s _ _ _ _ _ _ f (FlightData (w + 1) None)) by done.
      case_decide; [by subst|done].
    + intros g q [= <- <-]. by rewrite Hr.
    + intros g. by rewrite <- (pc_owner s t _ g Ht).
  - exact (good_some _ _ (rinv_begin K s t _ plan _ Hinv Ht (fun _ H => H) Hf eq_refl Hp)).
Qed.

Lemma step_exchange ch plan f : at_pc (TExchange plan f) ->
  good (resolve_step s t (Call lane_ query (TExchange plan f)) ch).
Proof.
  intros Ht. unfold DnsResolve.resolve_step. cbn [cl_pc cl_lane cl_query].
  pose proof (ri_call K s Hinv t _ Ht) as Hp.
  destruct (exchangePlan_spec (rs_log s) (rs_cache s) lane_ plan query ch) as (r & c' & -> & Hc & Hr);
    [apply Hinv|exact Hp|]. cbn [obind fst snd]. apply (good_some _ K).
  move_call (exchange_log plan query ch) Ht; [done|by split|].
  intros g q [= <- <-]. by apply (ri_key K s Hinv t _ f plan Ht).
Qed.

Lemma step_finish ch plan f r : at_pc (TFinish plan f r) ->
  good (resolve_step s t (Call lane_ query (TFinish plan f r)) ch).
Proof.
  intros Ht. unfold DnsResolve.resolve_step, flightFinish. cbn [cl_pc cl_lane cl_query].
  pose proof (ri_own K s Hinv t _ f Ht eq_refl) as Hf.
  destruct (ri_map K s Hinv _ _ Hf) as [_ Hr]. destruct (fres_heap s f _ Hr) as [w ->].
  exact (good_some _ _ (rinv_finish K s t _ plan f r w _ Hinv Ht eq_refl eq_refl)).
Qed.

Lemma step_wait ch plan f : at_pc (TWait plan f) -> good (resolve_step s t (Call lane_ query (TWait plan f)) ch).
Proof.
  intros Ht. unfold DnsResolve.resolve_step, flightWait. cbn [cl_pc cl_lane cl_query].
  pose proof (ri_call K s Hinv t _ Ht) as Hp.
  destruct (ri_key K s Hinv t _ f plan Ht eq_refl) as [HK [fr Hfr]].
  assert (Hgo : forall r, (forall v, r = Some v -> exists x, reply_to (rs_log s) (qp_key plan) v x) ->
    good (Ret (Some (goto s t (Call lane_ query (TWait plan f)) (TLeave plan f r))))).
  { intros r Hr. apply (good_some _ K). move_call (@nil exchanged) Ht; [apply Hinv|by split|].
    intros g q [= <- <-]. by rewrite Hfr. }
  destruct (ch_expired ch); [by apply Hgo|].
  destruct (fres_heap s f _ Hfr) as [w ->]. cbn [obind fd_result].
  destruct fr as [r|]; [|by eexists]. apply Hgo. intros v ->. rewrite <- HK. by apply (ri_done K s Hinv).
Qed.

Lemma step_leave ch plan f r : at_pc (TLeave plan f r) ->
  good (resolve_step s t (Call lane_ query (TLeave plan f r)) ch).
Proof.
  intros Ht. unfold DnsResolve.resolve_step, flightLeave. cbn [cl_pc cl_lane cl_query].
  pose proof (ri_call K s Hinv t _ Ht) as Hp.
  destruct (ri_key K s Hinv t _ f plan Ht eq_refl) as [HK [fr Hfr]].
  destruct (fres_heap s f _ Hfr) as [w ->]. cbn [obind]. apply (good_some _ K).
  eapply (rinv_move K s _ t _ []); [exact Hinv|reflexivity..| |reflexivity|apply Hinv|exact Hp|done|].
  - intros g. unfold goto, set_call, set_flights. cbn [rs_cache rs_flights rs_heap rs_next rs_calls rs_log].
    rewrite (fres_insert s _ _ _ _ _ _ f (FlightData (w - 1) fr)) by done.
    case_decide; [by subst|done].
  - intros g. by rewrite <- (pc_owner s t _ g Ht).
Qed.

Lemma step_result ch plan r : at_pc (TResult plan r) -> good (resolve_step s t (Call lane_ query (TResult plan r)) ch).
Proof.
  intros Ht. unfold DnsResolve.resolve_step. cbn [cl_pc cl_lane cl_query].
  destruct (ri_call K s Hinv t _ Ht) as [Hp Hv].
  destruct (queryResult_spec (rs_log s) (rs_cache s) lane_ plan query r (ch_now ch)) as (a & c' & -> & Hc & Ha);
    [apply Hinv|done|done|]. cbn [obind fst snd]. apply (good_some _ K).
  move_call (@nil exchanged) Ht; done.
Qed.
End Step.

Lemma rexec_good K s a : rinv K s -> good (rexec s a).
Proof.
  intros Hinv. destruct a as [t laneID query|t ch]; simpl; destruct (rs_calls s !! t) as [[la q pc]|] eqn:Ht;
    try by eexists.
  - apply (good_some _ K). eapply (rinv_move K s _ t _ []); try done; [apply Hinv|].
    intros f. split; [done|]. intros (old & ? & _). congruence.
  - destruct pc; eauto using step_plan, step_begin, step_exchange, step_finish, step_wait, step_leave, step_result.
    by eexists.
Qed.

Lemma rinit_inv limit byteLimit : rinv (fun _ => []) (rinit limit byteLimit staleTTL).
Proof.
  destruct (newResponseCache_wf limit byteLimit staleTTL) as [Hwf Hb].
  split; try done; [|by intros ? [? ?]].
  split; [done|done|done|]. intros e He. by apply elem_of_nil in He.
Qed.
End Invariant.

(** ** Progress *)

(** How many steps a call has left. *)
Definition remaining (pc : rpc) : Z :=
  match pc with
  | TPlan => 7 | TBegin _ => 6 | TExchange _ _ => 5 | TFinish _ _ _ => 4
  | TWait _ _ => 3 | TLeave _ _ _ => 2 | TResult _ _ => 1 | TDone _ _ => 0
  end.
Definition work (s : rstate) : Z := total (fun cl => remaining (cl_pc cl)) (rs_calls s).

Lemma step_moves UnpackDomainName Pack lanes servers s t cl ch s' :
  resolve_step UnpackDomainName Pack lanes servers s t cl ch = Ret (Some s') ->
  exists cl', rs_calls s' = <[t := cl']> (rs_calls s) /\ remaining (cl_pc cl') < remaining (cl_pc cl).
Proof.
  unfold resolve_step. intros H. destruct (cl_pc cl) eqn:Hpc; try done;
    apply obind_ret_inv in H as (x & Hx & H).
  - simplify_eq/=. eexists. split; [reflexivity|]. simpl. repeat case_match; simpl; lia.
  - destruct x as [[f owner] s1]. simplify_eq/=.
    assert (rs_calls s1 = rs_calls s) as -> by (unfold flightBegin in Hx; repeat split_if Hx; done).
    eexists. split; [reflexivity|]. destruct owner; simpl; lia.
  - simplify_eq/=. eexists. split; [reflexivity|]. simpl. lia.
  - simplify_eq/=. assert (rs_calls x = rs_calls s) as -> by (unfold flightFinish in Hx; repeat split_if Hx; done).
    eexists. split; [reflexivity|]. simpl. lia.
  - destruct x as [x|]; simplify_eq/=. eexists. split; [reflexivity|]. simpl. lia.
  - simplify_eq/=. assert (rs_calls x = rs_calls s) as -> by (unfold flightLeave in Hx; repeat split_if Hx; done).
    eexists. split; [reflexivity|]. simpl. lia.
  - simplify_eq/=. eexists. split; [reflexivity|]. simpl. lia.
Qed.

(** A call that is not waiting for somebody else moves whatever the
    environment does. *)
Definition ready (s : rstate) (cl : call) : Prop :=
  match cl_pc cl with
  | TDone _ _ => False
  | TWait _ f => fres s f <> Some None
  | _ => True
  end.

Lemma ready_steps UnpackDomainName Pack lanes servers s t cl ch r :
  ready s cl -> resolve_step UnpackDomainName Pack lanes servers s t cl ch = Ret r -> is_Some r.
Proof.
  unfold ready, resolve_step. intros Hr H. destruct (cl_pc cl) eqn:Hpc; try done;
    apply obind_ret_inv in H as (x & Hx & H); simplify_eq/=; try done.
  - destruct x as [[f owner] s1]. by simplify_eq/=.
  - unfold flightWait in Hx. destruct (ch_expired ch); simplify_eq/=; [done|].
    unfold fres in Hr. destruct (rs_heap s !! f) as [[w [fr|]]|]; simplify_eq/=; done.
Qed.

(** ** Properties *)

Section Properties.
Context (UnpackDomainName : list byte -> nat -> option (list byte * nat)) (Pack : dnsMsg -> option (list byte)).
Context (lanes : gmap gostr lane) (servers : gset gostr) (limit byteLimit staleTTL : Z).

Lemma resolve_reachable_inv s :
  (forall tag, tag ∈ servers -> x00 ∉ tag) ->
  steps (rstep UnpackDomainName Pack lanes servers) (rinit limit byteLimit staleTTL) s ->
  exists K, rinv UnpackDomainName Pack lanes servers staleTTL K s.
Proof.
  intros Ht Hs. eapply (steps_invariant _ (fun s => exists K, rinv UnpackDomainName Pack lanes servers staleTTL K s));
    [|exact Hs|eexists; apply rinit_inv].
  intros s1 s2 [K HK] [a Ha]. destruct (rexec_good _ _ _ _ _ Ht K s1 a HK) as (r & Hr & Hs2).
  rewrite Ha in Hr. simplify_eq. by apply Hs2.
Qed.

(** C15: a client is never told anything but its own answer.  Whatever calls of
    [resolve] run at once, in whatever order their steps interleave and
    whatever the upstream servers send, no step panics (so no flight is closed
    twice and no entry is read after it was dropped), and a call that returned
    gave back: an error only for an unknown lane; the policy refusal only when
    the lane's policy does not route the query; the server failure only when it
    does; and otherwise a response that answers that very query (its
    identifier, its question), which an upstream with the tag that this lane
    selects sent for the same query up to the identifier, taken from a shared
    flight, or from the cache inside its lifetime or its stale window. *)
Theorem resolve_sound (s : rstate) :
  (forall tag, tag ∈ servers -> x00 ∉ tag) ->
  steps (rstep UnpackDomainName Pack lanes servers) (rinit limit byteLimit staleTTL) s ->
  (forall a, returns (rexec UnpackDomainName Pack lanes servers s a)) /\
  (forall t laneID query now a, rs_calls s !! t = Some (Call laneID query (TDone a now)) ->
     reply_ok UnpackDomainName Pack lanes servers staleTTL (rs_log s) laneID query now a).
Proof.
  intros Ht Hs. destruct (resolve_reachable_inv s Ht Hs) as [K HK]. split.
  - intros a. destruct (rexec_good _ _ _ _ _ Ht K s a HK) as (r & -> & _). auto with go.
  - intros t laneID query now a Hc. apply (ri_call _ _ _ _ _ K s HK t _ Hc).
Qed.

(** C16: nobody is left behind in a shared flight.  In every reachable state,
    every step of a call reduces the work left (at most seven steps a call), and
    a call that has not returned either moves whatever the environment chooses,
    or waits for a flight whose owner is another call that does; so the calls
    at hand all return, deadlines or not, once they are scheduled. *)
Theorem resolve_live (s : rstate) :
  (forall tag, tag ∈ servers -> x00 ∉ tag) ->
  steps (rstep UnpackDomainName Pack lanes servers) (rinit limit byteLimit staleTTL) s ->
  (forall t ch s', rexec UnpackDomainName Pack lanes servers s (AStep t ch) = Ret (Some s') ->
     0 <= work s' < work s) /\
  (forall t cl, rs_calls s !! t = Some cl -> 0 < remaining (cl_pc cl) ->
     exists t' cl', rs_calls s !! t' = Some cl' /\
       (t' = t \/ exists p f, cl_pc cl = TWait p f /\ owns cl' f) /\
       forall ch, exists s', rexec UnpackDomainName Pack lanes servers s (AStep t' ch) = Ret (Some s')).
Proof.
  intros Ht Hs. destruct (resolve_reachable_inv s Ht Hs) as [K HK]. split.
  - intros t ch s' Hx. simpl in Hx. destruct (rs_calls s !! t) as [cl|] eqn:Hc; [|done].
    apply step_moves in Hx as (cl' & Hcalls & Hlt). unfold work. rewrite Hcalls.
    rewrite (total_update _ _ _ _ _ Hc). split; [|lia].
    rewrite <- (total_update (fun cl => remaining (cl_pc cl)) _ _ _ cl' Hc).
    apply total_nonneg. intros i x _. destruct (cl_pc x); simpl; lia.
  - assert (Hready : forall t' cl', rs_calls s !! t' = Some cl' -> ready s cl' ->
      forall ch, exists s', rexec UnpackDomainName Pack lanes servers s (AStep t' ch) = Ret (Some s')).
    { intros t' cl' Hc Hr ch. destruct (rexec_good _ _ _ _ _ Ht K s (AStep t' ch) HK) as (r & Hx & _).
      pose proof Hx as Hx'. simpl in Hx. rewrite Hc in Hx. apply ready_steps in Hx as [s' ->]; [|done]. eauto. }
    intros t cl Hc Hrem. destruct (cl_pc cl) as [| | | |p f| | |] eqn:Hpc; simpl in Hrem; try lia;
      try (exists t, cl; split_and!; [done|by left|]; eapply Hready; [done|unfold ready; by rewrite Hpc]).
    destruct (decide (fres s f = Some None)) as [Hf|Hf].
    + destruct (ri_open _ _ _ _ _ K s HK f Hf) as (t' & cl' & Hc' & Ho). exists t', cl'.
      split_and!; [done|right; eauto|]. eapply Hready; [done|].
      unfold ready. unfold owns in Ho. by destruct (cl_pc cl').
    + exists t, cl. split_and!; [done|by left|]. eapply Hready; [done|]. unfold ready. by rewrite Hpc.
Qed.
End Properties.

(** ** Witnesses: two clients share a flight, a third hits the cache *)

Definition demo_lanes : gmap gostr lane :=
  {[ bs "home" := Lane None ∅ (bs "home") (bs "127.0.0.1") 5300 (bs "up") ∅ ∅ ]}.
Definition demo_servers : gset gostr := {[ bs "up" ]}.
Definition demo_unpack : list byte -> nat -> option (list byte * nat) := fun _ _ => Some (bs "a.", 15%nat).
Definition demo_pack : dnsMsg -> option (list byte) := fun _ => Some [x01].

Definition other_id (q : list byte) : list byte := [x07; x08] ++ drop 2 q.

Definition demo_script : list raction :=
  let go t := AStep t (Choice second false (Some sample_response)) in
  [AArrive 0 (bs "home") sample_query; AArrive 1 (bs "home") (other_id sample_query);
   go 0; go 1; go 0; go 1;                  (* both plan; call 0 owns the flight *)
   go 0; go 0; go 1; go 1; go 1;            (* exchange, finish; call 1 gets the result *)
   go 0; go 0; go 0;
   AArrive 2 (bs "home") (other_id sample_query);
   AStep 2 (Choice (31 * second) false None);            (* a cache hit *)
   AArrive 3 (bs "home") sample_query; AStep 3 (Choice (100 * second) false None)]%nat.

Fixpoint rplay (s : rstate) (l : list raction) : option rstate :=
  match l with
  | [] => Some s
  | a :: l =>
      match rexec demo_unpack demo_pack demo_lanes demo_servers s a with
      | Ret (Some s') => rplay s' l
      | _ => None
      end
  end.

Lemma rplay_steps l : forall s s', rplay s l = Some s' ->
  steps (rstep demo_unpack demo_pack demo_lanes demo_servers) s s'.
Proof.
  induction l as [|a l IH]; intros s s' H; simpl in H; [simplify_eq; constructor|].
  destruct (rexec _ _ _ _ s a) as [[s1|]| |] eqn:Ha; try done.
  econstructor; [by exists a|by apply IH].
Qed.

Definition demo_rinit : rstate := rinit 10 100000 (3600 * second).
Definition demo_rfinal : rstate := default demo_rinit (rplay demo_rinit demo_script).

Lemma demo_rfinal_steps : steps (rstep demo_unpack demo_pack demo_lanes demo_servers) demo_rinit demo_rfinal.
Proof.
  unfold demo_rfinal. destruct (rplay demo_rinit demo_script) as [s|] eqn:E; [by apply (rplay_steps demo_script)|].
  constructor.
Qed.

Lemma demo_tags tag : tag ∈ demo_servers -> x00 ∉ tag.
Proof. intros ->%elem_of_singleton. apply (bool_decide_unpack _). vm_compute. exact I. Qed.

(** What call [t] returned, and the identifier of the answer. *)
Definition demo_answer (t : nat) : list byte :=
  match rs_calls demo_rfinal !! t with
  | Some (Call _ _ (TDone (Some a) _)) => a
  | _ => []
  end.

Example demo_answers :
  (take 2 <$> [demo_answer 0; demo_answer 1; demo_answer 2]) = [take 2 sample_query; [x07; x08]; [x07; x08]] /\
  (flip u32 25%nat <$> [demo_answer 0; demo_answer 1; demo_answer 2]) = [77; 77; 47].
Proof. vm_compute. done. Qed.

Lemma resolve_sound_witness :
  (forall a, returns (rexec demo_unpack demo_pack demo_lanes demo_servers demo_rfinal a)) /\
  rs_calls demo_rfinal !! 2%nat = Some (Call (bs "home") (other_id sample_query) (TDone (Some (demo_answer 2)) (31 * second))) /\
  reply_ok demo_unpack demo_pack demo_lanes demo_servers (3600 * second) (rs_log demo_rfinal)
    (bs "home") (other_id sample_query) (31 * second) (Some (demo_answer 2)).
Proof.
  destruct (resolve_sound demo_unpack demo_pack demo_lanes demo_servers 10 100000 (3600 * second) demo_rfinal
    demo_tags demo_rfinal_steps) as [Hret Hok].
  split; [exact Hret|]. split; [vm_compute; reflexivity|].
  refine (Hok 2%nat _ _ _ _ _). vm_compute. reflexivity.
Defined.

Lemma resolve_live_witness :
  exists t' cl', rs_calls demo_rfinal !! t' = Some cl' /\
    (t' = 3%nat \/ exists p f, cl_pc (Call (bs "home") sample_query (TBegin (QueryPlan (bs "up") (qkey (bs "up") sample_query) [] false))) = TWait p f /\ owns cl' f) /\
    forall ch, exists s', rexec demo_unpack demo_pack demo_lanes demo_servers demo_rfinal (AStep t' ch) = Ret (Some s').
Proof.
  refine (proj2 (resolve_live demo_unpack demo_pack demo_lanes demo_servers 10 100000 (3600 * second) demo_rfinal
    demo_tags demo_rfinal_steps) 3%nat _ _ _).
  - vm_compute. reflexivity.
  - vm_compute. reflexivity.
Defined.
