(* ===== verification/DnsAdmission.v ===== *)
(** * Query admission and request coalescing of the policy resolver

    Models [admitQuery], [resolveAdmitted], [routeLimit], [waitWork] of
    [internal/policydns/admission.go] together with the [flightGroup] of
    [internal/policydns/cache.go] as a concurrent system: any number of queries
    (UDP packets and TCP messages) run the code at once and interleave at every
    mutex section and every channel operation.  A channel used as a semaphore
    is its length and capacity; a query is a thread with a program counter.
    [exec] is one atomic action of one thread; the nondeterminism of the
    environment (the plan of a query, an expired deadline, a finished exchange)
    is the [choice] argument.  [None] means that the action is not enabled in
    that state: the thread blocks. *)

From S2P Require Import Prelude GoBase DnsCache DnsLane.
Open Scope Z_scope.

Definition maxDNSMessage : Z := 65535.

(** ** State *)

Record routeBudget := RouteBudget {
  rb_activeCap : Z; rb_pendingCap : Z;   (* capacities of the two channels *)
  rb_active : Z; rb_pending : Z;         (* their lengths *)
  rb_shared : Z; rb_bytes : Z;
}.

Record flight := Flight { fl_waiters : Z; fl_done : bool }.

Record service := Service {
  sv_cap : Z; sv_pendingCap : Z; sv_profiles : Z;
  sv_limit : Z; sv_pending : Z;          (* lengths of [limit] and [pending] *)
  sv_queryBytes : Z; sv_sharedQueries : Z;
  sv_routes : gmap gostr routeBudget;
  sv_flights : gmap gostr nat;           (* [flightGroup.flights] *)
  sv_heap : gmap nat flight;             (* the flights that were allocated *)
  sv_next : nat;
}.

Definition newService (workers profiles : Z) : service :=
  Service workers (workers * 4) profiles 0 0 0 0 ∅ ∅ ∅ 0.

(** Program counters, each named after the action that comes next. *)
Inductive pc :=
| PStart                              (* planQuery, then routeLimit *)
| PBytes                              (* take the wire bytes *)
| PBegin                              (* flights.begin *)
| PJoin (f : nat)                     (* not the owner: take a shared slot *)
| PJoinLeave (f : nat)                (* no shared slot: flights.leave *)
| PTryRoute (f : nat)                 (* owner: tryRoute(route.active) *)
| PTryLimit (f : nat)                 (* acquire *)
| PDropRoute (f : nat)                (* releaseRoute(route.active) *)
| PTryPendingRoute (f : nat)          (* tryRoute(route.pending) *)
| PTryPending (f : nat)               (* send on pending *)
| PDropPendingRoute (f : nat)         (* releaseRoute(route.pending) *)
| PShared (f : nat)                   (* admitted, waiting for the owner *)
| PUnshare (f : nat)                  (* give the shared slot back *)
| PQueued (f : nat)                   (* admitted to the queue: waitWork, route *)
| PWaitLimit (f : nat)                (* waitWork, limit *)
| PGiveRoute (f : nat)                (* waitWork: deadline, releaseRoute(route.active) *)
| PDequeue (f : nat) (acquired : bool)       (* receive from pending *)
| PDequeueRoute (f : nat) (acquired : bool)  (* releaseRoute(route.pending) *)
| PWork (f : nat)                     (* exchangePlan, then release *)
| PReleaseRoute (f : nat)             (* releaseRoute(route.active) *)
| PFinish (f : nat)                   (* flights.finish *)
| PLeave (f : nat)                    (* flights.leave *)
| PReturn                             (* returnBytes *)
| PDone.

Record thread := Thread {
  th_bytes : Z;        (* len(query) *)
  th_tag : gostr;
  th_key : gostr;
  th_routed : bool;    (* a.route != nil *)
  th_pc : pc;
}.

Inductive choice :=
| Go                                (* the only action of this program point *)
| PlanLocal                         (* planQuery answered or failed *)
| PlanRemote (tag key : gostr)      (* planQuery chose a server and a key *)
| Deadline.                         (* ctx.Done() fires *)

(** ** The code *)

Definition set_pc (t : thread) (p : pc) : thread :=
  Thread (th_bytes t) (th_tag t) (th_key t) (th_routed t) p.

Definition with_limit (s : service) (v : Z) : service :=
  Service (sv_cap s) (sv_pendingCap s) (sv_profiles s) v (sv_pending s) (sv_queryBytes s)
    (sv_sharedQueries s) (sv_routes s) (sv_flights s) (sv_heap s) (sv_next s).
Definition with_pending (s : service) (v : Z) : service :=
  Service (sv_cap s) (sv_pendingCap s) (sv_profiles s) (sv_limit s) v (sv_queryBytes s)
    (sv_sharedQueries s) (sv_routes s) (sv_flights s) (sv_heap s) (sv_next s).
Definition with_admission (s : service) (bytes shared : Z) (routes : gmap gostr routeBudget) : service :=
  Service (sv_cap s) (sv_pendingCap s) (sv_profiles s) (sv_limit s) (sv_pending s) bytes shared routes
    (sv_flights s) (sv_heap s) (sv_next s).
Definition with_flights (s : service) (fl : gmap gostr nat) (heap : gmap nat flight) (next : nat) : service :=
  Service (sv_cap s) (sv_pendingCap s) (sv_profiles s) (sv_limit s) (sv_pending s) (sv_queryBytes s)
    (sv_sharedQueries s) (sv_routes s) fl heap next.

Definition set_active (r : routeBudget) (v : Z) : routeBudget :=
  RouteBudget (rb_activeCap r) (rb_pendingCap r) v (rb_pending r) (rb_shared r) (rb_bytes r).
Definition set_pending (r : routeBudget) (v : Z) : routeBudget :=
  RouteBudget (rb_activeCap r) (rb_pendingCap r) (rb_active r) v (rb_shared r) (rb_bytes r).
Definition set_counts (r : routeBudget) (shared bytes : Z) : routeBudget :=
  RouteBudget (rb_activeCap r) (rb_pendingCap r) (rb_active r) (rb_pending r) shared bytes.

Definition put_route (s : service) (tag : gostr) (r : routeBudget) : service :=
  with_admission s (sv_queryBytes s) (sv_sharedQueries s) (<[tag:=r]> (sv_routes s)).

(** [routeLimit]: whether the query has a route budget, which is created on
    first use. *)
Definition routeLimit (s : service) (tag : gostr) : service * bool :=
  if (sv_profiles s <? 2) || (sv_cap s <? 2) then (s, false)
  else
    match sv_routes s !! tag with
    | Some _ => (s, true)
    | None =>
        (put_route s tag (RouteBudget (Z.max 1 (sv_cap s / 2)) (Z.max 1 (sv_pendingCap s / 2)) 0 0 0 0), true)
    end.

(** [flightGroup.begin]: [None] is the refusal for too many waiters, the flag
    tells the owner. *)
Definition begin (s : service) (key : gostr) (maximum : Z) : option (service * nat * bool) :=
  match sv_flights s !! key with
  | Some f =>
      match sv_heap s !! f with
      | Some fl =>
          if (0 <? maximum) && (maximum <=? fl_waiters fl) then None
          else Some (with_flights s (sv_flights s) (<[f:=Flight (fl_waiters fl + 1) (fl_done fl)]> (sv_heap s))
                       (sv_next s), f, false)
      | None => None
      end
  | None =>
      let f := sv_next s in
      Some (with_flights s (<[key:=f]> (sv_flights s)) (<[f:=Flight 1 false]> (sv_heap s)) (S f), f, true)
  end.

(** [flightGroup.leave]. *)
Definition leave (s : service) (f : nat) : option service :=
  fl ← sv_heap s !! f;
  Some (with_flights s (sv_flights s) (<[f:=Flight (fl_waiters fl - 1) (fl_done fl)]> (sv_heap s)) (sv_next s)).

(** [flightGroup.finish]; closing a closed channel would panic ([None]). *)
Definition finish (s : service) (key : gostr) (f : nat) : option service :=
  fl ← sv_heap s !! f;
  if fl_done fl then None
  else Some (with_flights s (delete key (sv_flights s)) (<[f:=Flight (fl_waiters fl) true]> (sv_heap s)) (sv_next s)).

(** A send that is possible only below the capacity, and a receive that blocks
    on an empty channel, for the route channels. *)
Definition send_active (s : service) (t : thread) : option service :=
  r ← sv_routes s !! th_tag t;
  if rb_active r <? rb_activeCap r then Some (put_route s (th_tag t) (set_active r (rb_active r + 1))) else None.
Definition send_pending (s : service) (t : thread) : option service :=
  r ← sv_routes s !! th_tag t;
  if rb_pending r <? rb_pendingCap r then Some (put_route s (th_tag t) (set_pending r (rb_pending r + 1))) else None.
Definition recv_active (s : service) (t : thread) : option service :=
  r ← sv_routes s !! th_tag t;
  if 0 <? rb_active r then Some (put_route s (th_tag t) (set_active r (rb_active r - 1))) else None.
Definition recv_pending (s : service) (t : thread) : option service :=
  r ← sv_routes s !! th_tag t;
  if 0 <? rb_pending r then Some (put_route s (th_tag t) (set_pending r (rb_pending r - 1))) else None.

(** Add to [queryBytes] and [sharedQueries] and to the route's counters. *)
Definition account (s : service) (t : thread) (bytes shared : Z) : option service :=
  if th_routed t then
    r ← sv_routes s !! th_tag t;
    Some (with_admission s (sv_queryBytes s + bytes) (sv_sharedQueries s + shared)
            (<[th_tag t := set_counts r (rb_shared r + shared) (rb_bytes r + bytes)]> (sv_routes s)))
  else Some (with_admission s (sv_queryBytes s + bytes) (sv_sharedQueries s + shared) (sv_routes s)).

(** The admission tests of [admitQuery]. *)
Definition bytes_fit (s : service) (t : thread) : bool :=
  negb ((Z.max 1 (sv_cap s) * maxDNSMessage <? sv_queryBytes s + th_bytes t) ||
        (th_routed t && match sv_routes s !! th_tag t with
                        | Some r => Z.max 1 (sv_cap s / 2) * maxDNSMessage <? rb_bytes r + th_bytes t
                        | None => false end)).
Definition shared_fit (s : service) (t : thread) : bool :=
  (sv_sharedQueries s <? Z.max 1 (sv_cap s) * 4) &&
  (negb (th_routed t) || match sv_routes s !! th_tag t with
                         | Some r => rb_shared r <? sv_cap s * 3
                         | None => false end).

(** One action of a thread. *)
Definition exec (s : service) (t : thread) (c : choice) : option (service * thread) :=
  let to s p := Some (s, set_pc t p) in
  match th_pc t, c with
  | PStart, PlanLocal => to s PDone
  | PStart, PlanRemote tag key =>
      let (s, routed) := routeLimit s tag in Some (s, Thread (th_bytes t) tag key routed PBytes)
  | PBytes, Go =>
      if bytes_fit s t then s ← account s t (th_bytes t) 0; to s PBegin else to s PDone
  | PBegin, Go =>
      match begin s (th_key t) (Z.max 2 (sv_cap s * 4)) with
      | None => to s PReturn
      | Some (s, f, owner) => to s (if owner : bool then PTryRoute f else PJoin f)
      end
  | PJoin f, Go =>
      if shared_fit s t then s ← account s t 0 1; to s (PShared f) else to s (PJoinLeave f)
  | PJoinLeave f, Go => s ← leave s f; to s PReturn
  | PTryRoute f, Go =>
      if th_routed t then
        match send_active s t with Some s => to s (PTryLimit f) | None => to s (PTryPendingRoute f) end
      else to s (PTryLimit f)
  | PTryLimit f, Go =>
      if sv_limit s <? sv_cap s then to (with_limit s (sv_limit s + 1)) (PWork f)
      else to s (if th_routed t then PDropRoute f else PTryPendingRoute f)
  | PDropRoute f, Go => s ← recv_active s t; to s (PTryPendingRoute f)
  | PTryPendingRoute f, Go =>
      if th_routed t then
        match send_pending s t with Some s => to s (PTryPending f) | None => to s (PFinish f) end
      else to s (PTryPending f)
  | PTryPending f, Go =>
      if sv_pending s <? sv_pendingCap s then to (with_pending s (sv_pending s + 1)) (PQueued f)
      else to s (if th_routed t then PDropPendingRoute f else PFinish f)
  | PDropPendingRoute f, Go => s ← recv_pending s t; to s (PFinish f)
  | PShared f, Deadline => to s (PUnshare f)
  | PShared f, Go => fl ← sv_heap s !! f; if fl_done fl then to s (PUnshare f) else None
  | PUnshare f, Go => s ← account s t 0 (-1); to s (PLeave f)
  | PQueued f, Go =>
      if th_routed t then s ← send_active s t; to s (PWaitLimit f) else to s (PWaitLimit f)
  | PQueued f, Deadline => if th_routed t then to s (PDequeue f false) else None
  | PWaitLimit f, Go =>
      if sv_limit s <? sv_cap s then to (with_limit s (sv_limit s + 1)) (PDequeue f true) else None
  | PWaitLimit f, Deadline => to s (if th_routed t then PGiveRoute f else PDequeue f false)
  | PGiveRoute f, Go => s ← recv_active s t; to s (PDequeue f false)
  | PDequeue f acquired, Go =>
      if 0 <? sv_pending s then
        to (with_pending s (sv_pending s - 1))
          (if th_routed t then PDequeueRoute f acquired else if acquired then PWork f else PFinish f)
      else None
  | PDequeueRoute f acquired, Go =>
      s ← recv_pending s t; to s (if acquired then PWork f else PFinish f)
  | PWork f, Go =>
      if 0 <? sv_limit s then
        to (with_limit s (sv_limit s - 1)) (if th_routed t then PReleaseRoute f else PFinish f)
      else None
  | PReleaseRoute f, Go => s ← recv_active s t; to s (PFinish f)
  | PFinish f, Go => s ← finish s (th_key t) f; to s (PLeave f)
  | PLeave f, Go => s ← leave s f; to s PReturn
  | PReturn, Go => s ← account s t (- th_bytes t) 0; to s PDone
  | _, _ => None
  end.

(** The whole system: a query arrives, or one running query acts. *)
Record system := System { sys_service : service; sys_threads : gmap nat thread }.

Inductive sys_step : system -> system -> Prop :=
| step_arrive s ts tid size :
    ts !! tid = None -> 0 <= size <= maxDNSMessage ->
    sys_step (System s ts) (System s (<[tid := Thread size [] [] false PStart]> ts))
| step_thread s ts tid t c s' t' :
    ts !! tid = Some t -> exec s t c = Some (s', t') ->
    sys_step (System s ts) (System s' (<[tid := t']> ts)).

Definition reachable (workers profiles : Z) : system -> Prop :=
  steps sys_step (System (newService workers profiles) ∅).

(** ** Accounting: what each counter should be *)

(** The counters and semaphores of the service. *)
Inductive ctr :=
| CLimit | CPending | CBytes | CShared
| CActive (tag : gostr) | CPendingRoute (tag : gostr) | CSharedRoute (tag : gostr) | CBytesRoute (tag : gostr)
| CWaiters (f : nat)
| CLive (f : nat).   (* 1 while the flight is not finished *)

#[export] Instance ctr_eq_dec : EqDecision ctr.
Proof. solve_decision. Defined.

Definition route_field (g : routeBudget -> Z) (s : service) (tag : gostr) : Z :=
  match sv_routes s !! tag with Some r => g r | None => 0 end.
Definition flight_field (g : flight -> Z) (s : service) (f : nat) : Z :=
  match sv_heap s !! f with Some fl => g fl | None => 0 end.

Definition counter (c : ctr) (s : service) : Z :=
  match c with
  | CLimit => sv_limit s
  | CPending => sv_pending s
  | CBytes => sv_queryBytes s
  | CShared => sv_sharedQueries s
  | CActive tag => route_field rb_active s tag
  | CPendingRoute tag => route_field rb_pending s tag
  | CSharedRoute tag => route_field rb_shared s tag
  | CBytesRoute tag => route_field rb_bytes s tag
  | CWaiters f => flight_field fl_waiters s f
  | CLive f => flight_field (fun fl => if fl_done fl then 0 else 1) s f
  end.

(** What a thread at a program point holds. *)
Definition zb (b : bool) : Z := if b then 1 else 0.
Definition holds_limit (p : pc) : bool :=
  match p with PDequeue _ true | PDequeueRoute _ true | PWork _ => true | _ => false end.
Definition holds_pending (p : pc) : bool :=
  match p with PQueued _ | PWaitLimit _ | PGiveRoute _ | PDequeue _ _ => true | _ => false end.
Definition holds_bytes (p : pc) : bool :=
  match p with PStart | PBytes | PDone => false | _ => true end.
Definition holds_shared (p : pc) : bool :=
  match p with PShared _ | PUnshare _ => true | _ => false end.
Definition holds_active (p : pc) : bool :=
  match p with
  | PTryLimit _ | PDropRoute _ | PWaitLimit _ | PGiveRoute _ | PDequeue _ true | PDequeueRoute _ true
  | PWork _ | PReleaseRoute _ => true
  | _ => false
  end.
Definition holds_pendingRoute (p : pc) : bool :=
  match p with
  | PTryPending _ | PDropPendingRoute _ | PQueued _ | PWaitLimit _ | PGiveRoute _ | PDequeue _ _
  | PDequeueRoute _ _ => true
  | _ => false
  end.
(** The flight a thread waits on, and the flight it has to finish. *)
Definition waits_on (p : pc) : option nat :=
  match p with
  | PStart | PBytes | PBegin | PReturn | PDone => None
  | PJoin f | PJoinLeave f | PTryRoute f | PTryLimit f | PDropRoute f | PTryPendingRoute f | PTryPending f
  | PDropPendingRoute f | PShared f | PUnshare f | PQueued f | PWaitLimit f | PGiveRoute f | PDequeue f _
  | PDequeueRoute f _ | PWork f | PReleaseRoute f | PFinish f | PLeave f => Some f
  end.
Definition owns (p : pc) : option nat :=
  match p with
  | PTryRoute f | PTryLimit f | PDropRoute f | PTryPendingRoute f | PTryPending f | PDropPendingRoute f
  | PQueued f | PWaitLimit f | PGiveRoute f | PDequeue f _ | PDequeueRoute f _ | PWork f | PReleaseRoute f
  | PFinish f => Some f
  | _ => None
  end.

Definition ind (c c0 : ctr) : Z := if decide (c = c0) then 1 else 0.
Definition ind_opt (c : ctr) (mk : nat -> ctr) (o : option nat) : Z :=
  match o with Some f => ind c (mk f) | None => 0 end.

Definition hold (c : ctr) (t : thread) : Z :=
  let p := th_pc t in let r := zb (th_routed t) in
  ind c CLimit * zb (holds_limit p) + ind c CPending * zb (holds_pending p) +
  ind c CBytes * (zb (holds_bytes p) * th_bytes t) + ind c CShared * zb (holds_shared p) +
  ind c (CActive (th_tag t)) * (r * zb (holds_active p)) +
  ind c (CPendingRoute (th_tag t)) * (r * zb (holds_pendingRoute p)) +
  ind c (CSharedRoute (th_tag t)) * (r * zb (holds_shared p)) +
  ind c (CBytesRoute (th_tag t)) * (r * (zb (holds_bytes p) * th_bytes t)) +
  ind_opt c CWaiters (waits_on p) + ind_opt c CLive (owns p).

(** *** The effect of every primitive on every counter *)

Ltac counter_cases c :=
  destruct c; unfold route_field, flight_field, ind; repeat case_decide; simplify_eq/=;
  unfold route_field, flight_field; simpl; try lia.

Lemma counter_with_limit c s v : counter c (with_limit s v) = counter c s + ind c CLimit * (v - sv_limit s).
Proof. counter_cases c. Qed.

Lemma counter_with_pending c s v : counter c (with_pending s v) = counter c s + ind c CPending * (v - sv_pending s).
Proof. counter_cases c. Qed.

Lemma route_field_put g s bytes shared tag r tag' :
  route_field g (with_admission s bytes shared (<[tag:=r]> (sv_routes s))) tag' =
  if decide (tag' = tag) then g r else route_field g s tag'.
Proof.
  unfold route_field. simpl. case_decide as E; [subst; by rewrite lookup_insert_eq|].
  by rewrite lookup_insert_ne by congruence.
Qed.

Lemma counter_put_route c s bytes shared tag r0 r :
  sv_routes s !! tag = Some r0 ->
  counter c (with_admission s bytes shared (<[tag:=r]> (sv_routes s))) =
  counter c s + ind c CBytes * (bytes - sv_queryBytes s) + ind c CShared * (shared - sv_sharedQueries s)
    + ind c (CActive tag) * (rb_active r - rb_active r0) + ind c (CPendingRoute tag) * (rb_pending r - rb_pending r0)
    + ind c (CSharedRoute tag) * (rb_shared r - rb_shared r0) + ind c (CBytesRoute tag) * (rb_bytes r - rb_bytes r0).
Proof.
  intros Hr.
  assert (Hf : forall g, route_field g s tag = g r0) by (intros; unfold route_field; by rewrite Hr).
  destruct c; simpl; rewrite ?route_field_put; unfold flight_field, ind; repeat case_decide; simplify_eq/=;
    rewrite ?Hf; first [lia|congruence].
Qed.

Lemma counter_send_active c s t s' :
  send_active s t = Some s' -> counter c s' = counter c s + ind c (CActive (th_tag t)).
Proof.
  unfold send_active. destruct (sv_routes s !! th_tag t) as [r|] eqn:E; simpl; [|done].
  intros Hs. split_if Hs. unfold put_route. erewrite counter_put_route by done. simpl. lia.
Qed.

Lemma counter_send_pending c s t s' :
  send_pending s t = Some s' -> counter c s' = counter c s + ind c (CPendingRoute (th_tag t)).
Proof.
  unfold send_pending. destruct (sv_routes s !! th_tag t) as [r|] eqn:E; simpl; [|done].
  intros Hs. split_if Hs. unfold put_route. erewrite counter_put_route by done. simpl. lia.
Qed.

Lemma counter_recv_active c s t s' :
  recv_active s t = Some s' -> counter c s' = counter c s - ind c (CActive (th_tag t)).
Proof.
  unfold recv_active. destruct (sv_routes s !! th_tag t) as [r|] eqn:E; simpl; [|done].
  intros Hs. split_if Hs. unfold put_route. erewrite counter_put_route by done. simpl. lia.
Qed.

Lemma counter_recv_pending c s t s' :
  recv_pending s t = Some s' -> counter c s' = counter c s - ind c (CPendingRoute (th_tag t)).
Proof.
  unfold recv_pending. destruct (sv_routes s !! th_tag t) as [r|] eqn:E; simpl; [|done].
  intros Hs. split_if Hs. unfold put_route. erewrite counter_put_route by done. simpl. lia.
Qed.

Lemma counter_account c s t bytes shared s' :
  account s t bytes shared = Some s' ->
  counter c s' = counter c s + ind c CBytes * bytes + ind c CShared * shared
    + zb (th_routed t) * (ind c (CSharedRoute (th_tag t)) * shared + ind c (CBytesRoute (th_tag t)) * bytes).
Proof.
  unfold account. intros Hs. destruct (th_routed t).
  - destruct (sv_routes s !! th_tag t) as [r|] eqn:E; simplify_eq/=.
    erewrite counter_put_route by done. simpl. lia.
  - simplify_eq. counter_cases c.
Qed.

Lemma counter_routeLimit c s tag : counter c (routeLimit s tag).1 = counter c s.
Proof.
  unfold routeLimit. destruct (_ || _); [done|]. destruct (sv_routes s !! tag) as [r|] eqn:E; [done|].
  unfold put_route. simpl. destruct c; simpl; rewrite ?route_field_put; try done; case_decide as Et; try done;
    subst; unfold route_field; by rewrite E.
Qed.

Lemma flight_field_put g s fl heap next f f' v :
  heap = <[f:=v]> (sv_heap s) ->
  flight_field g (with_flights s fl heap next) f' = if decide (f' = f) then g v else flight_field g s f'.
Proof.
  intros ->. unfold flight_field. simpl. case_decide as E; [subst; by rewrite lookup_insert_eq|].
  by rewrite lookup_insert_ne by congruence.
Qed.

Lemma counter_flight c s fl next f v :
  counter c (with_flights s fl (<[f:=v]> (sv_heap s)) next) =
  counter c s + ind c (CWaiters f) * (fl_waiters v - flight_field fl_waiters s f)
    + ind c (CLive f) * ((if fl_done v then 0 else 1) - flight_field (fun x => if fl_done x then 0 else 1) s f).
Proof.
  destruct c; simpl; rewrite ?(flight_field_put _ s fl _ next f _ v) by done;
    unfold route_field, ind; repeat case_decide; simplify_eq/=; first [lia|congruence].
Qed.

Lemma counter_leave c s f s' :
  leave s f = Some s' -> counter c s' = counter c s - ind c (CWaiters f).
Proof.
  unfold leave. destruct (sv_heap s !! f) as [v|] eqn:E; simpl; [|done]. intros [= <-].
  rewrite counter_flight. unfold flight_field. rewrite E. simpl. lia.
Qed.

Lemma counter_finish c s key f s' :
  finish s key f = Some s' -> counter c s' = counter c s - ind c (CLive f).
Proof.
  unfold finish. destruct (sv_heap s !! f) as [v|] eqn:E; simpl; [|done]. intros Hs. split_if Hs.
  rewrite counter_flight. unfold flight_field. rewrite E. simpl. rewrite Heqb. lia.
Qed.

Lemma counter_begin c s key maximum s' f owner :
  (forall f, (sv_next s <= f)%nat -> sv_heap s !! f = None) ->
  begin s key maximum = Some (s', f, owner) ->
  counter c s' = counter c s + ind c (CWaiters f) + zb owner * ind c (CLive f).
Proof.
  intros Hfresh. unfold begin. destruct (sv_flights s !! key) as [g|].
  - destruct (sv_heap s !! g) as [v|] eqn:E; [|done]. intros Hs. split_if Hs.
    rewrite counter_flight. unfold flight_field. rewrite E. simpl. lia.
  - intros [= <- <- <-]. rewrite counter_flight. unfold flight_field. rewrite Hfresh by lia. simpl. lia.
Qed.

(** *** Every action moves exactly the resources its thread holds *)

Lemma ind_bool c c0 : ind c c0 = 0 \/ ind c c0 = 1.
Proof. unfold ind. case_decide; auto. Qed.

(** Split a hypothesis [exec s t c = Some (s', t')] into the cases of the code. *)
Ltac exec_cases H :=
  unfold exec in H;
  match type of H with context [th_pc ?t] => destruct (th_pc t) eqn:?Hpc end;
  match goal with c : choice |- _ => destruct c; try discriminate H end;
  repeat match type of H with
  | context [routeLimit ?s ?tag] => destruct (routeLimit s tag) as [? ?] eqn:?
  | context [account ?s ?t ?a ?b] => destruct (account s t a b) eqn:?; simpl in H
  | context [begin ?s ?k ?m] => destruct (begin s k m) as [[[? ?] ?]|] eqn:?
  | context [leave ?s ?f] => destruct (leave s f) eqn:?; simpl in H
  | context [finish ?s ?k ?f] => destruct (finish s k f) eqn:?; simpl in H
  | context [send_active ?s ?t] => destruct (send_active s t) eqn:?; simpl in H
  | context [recv_active ?s ?t] => destruct (recv_active s t) eqn:?; simpl in H
  | context [send_pending ?s ?t] => destruct (send_pending s t) eqn:?; simpl in H
  | context [recv_pending ?s ?t] => destruct (recv_pending s t) eqn:?; simpl in H
  | context [sv_heap ?s !! ?f] => destruct (sv_heap s !! f) eqn:?; simpl in H
  | context [if ?b then _ else _] => destruct b eqn:?
  end; simplify_eq/=.

(** The program points that only a query with a route budget reaches. *)
Definition route_only (p : pc) : bool :=
  match p with
  | PDropRoute _ | PDropPendingRoute _ | PGiveRoute _ | PDequeueRoute _ _ | PReleaseRoute _ => true
  | _ => false
  end.
Definition route_ok (t : thread) : Prop := route_only (th_pc t) = true -> th_routed t = true.

Lemma exec_balanced s t c s' t' :
  (forall f, (sv_next s <= f)%nat -> sv_heap s !! f = None) -> route_ok t ->
  exec s t c = Some (s', t') ->
  forall k, counter k s' - counter k s = hold k t' - hold k t.
Proof.
  intros Hfresh Hrt H k. unfold route_ok in Hrt. exec_cases H; specialize (Hrt ltac:(done)) || clear Hrt;
    rewrite ?counter_with_limit, ?counter_with_pending;
    repeat match goal with
    | E : routeLimit ?s ?tag = (?s', _) |- _ =>
        pose proof (counter_routeLimit k s tag); rewrite E in *; clear E
    | E : account _ _ _ _ = Some _ |- _ => rewrite (counter_account _ _ _ _ _ _ E); clear E
    | E : begin _ _ _ = Some _ |- _ => rewrite (counter_begin _ _ _ _ _ _ _ Hfresh E); clear E
    | E : leave _ _ = Some _ |- _ => rewrite (counter_leave _ _ _ _ E); clear E
    | E : finish _ _ _ = Some _ |- _ => rewrite (counter_finish _ _ _ _ _ E); clear E
    | E : send_active _ _ = Some _ |- _ => rewrite (counter_send_active _ _ _ _ E); clear E
    | E : recv_active _ _ = Some _ |- _ => rewrite (counter_recv_active _ _ _ _ E); clear E
    | E : send_pending _ _ = Some _ |- _ => rewrite (counter_send_pending _ _ _ _ E); clear E
    | E : recv_pending _ _ = Some _ |- _ => rewrite (counter_recv_pending _ _ _ _ E); clear E
    end;
    unfold hold; rewrite ?Hpc; simpl in *;
    repeat match goal with E : th_routed _ = _ |- _ => rewrite ?E in *; clear E end; simpl;
    try lia; destruct (th_routed t); simpl; lia.
Qed.

(** *** What no action undoes *)

(** Capacities are constant, a route budget and a flight record stay where they
    are once they exist. *)
Record frame (s s' : service) : Prop := {
  fr_cap : sv_cap s' = sv_cap s;
  fr_pendingCap : sv_pendingCap s' = sv_pendingCap s;
  fr_profiles : sv_profiles s' = sv_profiles s;
  fr_routes tag : is_Some (sv_routes s !! tag) -> is_Some (sv_routes s' !! tag);
  fr_heap f : is_Some (sv_heap s !! f) -> is_Some (sv_heap s' !! f);
}.

#[export] Instance frame_preorder : PreOrder frame.
Proof. split; [by split|]. intros a b c [] []; split; try congruence; eauto. Qed.

Lemma frame_put_route s bytes shared tag r :
  frame s (with_admission s bytes shared (<[tag:=r]> (sv_routes s))).
Proof. split; simpl; try done. intros tag' ?. rewrite lookup_insert_is_Some'. auto. Qed.

Lemma frame_flights s fl heap next f v :
  heap = <[f:=v]> (sv_heap s) -> frame s (with_flights s fl heap next).
Proof. intros ->. split; simpl; try done. intros f' ?. rewrite lookup_insert_is_Some'. auto. Qed.

Lemma frame_refl s : frame s s.
Proof. by split. Qed.
Lemma frame_limit s v : frame s (with_limit s v).
Proof. by split. Qed.
Lemma frame_pending s v : frame s (with_pending s v).
Proof. by split. Qed.
Lemma frame_counts s bytes shared : frame s (with_admission s bytes shared (sv_routes s)).
Proof. by split. Qed.

Create HintDb frames discriminated.
#[export] Hint Resolve frame_refl frame_limit frame_pending frame_counts frame_put_route : frames.

(** Unfold the primitive of a hypothesis down to the states it returns. *)
Ltac prim_cases H :=
  unfold send_active, send_pending, recv_active, recv_pending, account, leave, finish, begin, routeLimit,
    put_route in H;
  repeat match type of H with
  | context [?m !! ?k] => destruct (m !! k) eqn:?; simpl in H
  | context [if ?b then _ else _] => destruct b eqn:?
  end; simplify_eq/=.

Lemma exec_frame s t c s' t' : exec s t c = Some (s', t') -> frame s s'.
Proof.
  intros H. exec_cases H; auto with frames;
    match goal with
    | E : routeLimit _ _ = _ |- _ => prim_cases E
    | E : account _ _ _ _ = Some _ |- _ => prim_cases E
    | E : begin _ _ _ = Some _ |- _ => prim_cases E
    | E : leave _ _ = Some _ |- _ => prim_cases E
    | E : finish _ _ _ = Some _ |- _ => prim_cases E
    | E : send_active _ _ = Some _ |- _ => prim_cases E
    | E : recv_active _ _ = Some _ |- _ => prim_cases E
    | E : send_pending _ _ = Some _ |- _ => prim_cases E
    | E : recv_pending _ _ = Some _ |- _ => prim_cases E
    end; auto with frames; by eapply frame_flights.
Qed.

(** The flight table: only [begin] adds to it and only the owner's [finish]
    removes from it. *)
Lemma exec_table s t c s' t' :
  exec s t c = Some (s', t') ->
  (sv_flights s' = sv_flights s /\ sv_next s' = sv_next s /\ (forall f, (sv_next s <= f)%nat ->
     sv_heap s !! f = None -> sv_heap s' !! f = None) /\
   owns (th_pc t') = owns (th_pc t) /\ (owns (th_pc t) = None \/ th_key t' = th_key t)) \/
  (th_pc t = PBegin /\ sv_flights s !! th_key t = None /\ t' = set_pc t (PTryRoute (sv_next s)) /\
   s' = with_flights s (<[th_key t := sv_next s]> (sv_flights s)) (<[sv_next s := Flight 1 false]> (sv_heap s))
          (S (sv_next s))) \/
  (exists f fl, th_pc t = PFinish f /\ t' = set_pc t (PLeave f) /\ sv_heap s !! f = Some fl /\
   s' = with_flights s (delete (th_key t) (sv_flights s)) (<[f := Flight (fl_waiters fl) true]> (sv_heap s))
          (sv_next s)).
Proof.
  intros H. exec_cases H;
    try match goal with
    | E : routeLimit _ _ = _ |- _ => prim_cases E
    | E : account _ _ _ _ = Some _ |- _ => prim_cases E
    | E : begin _ _ _ = Some _ |- _ => prim_cases E
    | E : leave _ _ = Some _ |- _ => prim_cases E
    | E : finish _ _ _ = Some _ |- _ => prim_cases E
    | E : send_active _ _ = Some _ |- _ => prim_cases E
    | E : recv_active _ _ = Some _ |- _ => prim_cases E
    | E : send_pending _ _ = Some _ |- _ => prim_cases E
    | E : recv_pending _ _ = Some _ |- _ => prim_cases E
    end;
    first [ left; repeat split; simpl; rewrite ?Hpc; auto; intros; rewrite lookup_insert_None; naive_solver
          | left; repeat split; simpl; rewrite ?Hpc; auto; done
          | right; left; repeat split; done
          | right; right; eauto 10 ].
Qed.

(** *** Limits *)

Record route_bounded (s : service) (r : routeBudget) : Prop := {
  rbd_split : 2 <= sv_cap s;
  rbd_activeCap : rb_activeCap r = Z.max 1 (sv_cap s / 2);
  rbd_pendingCap : rb_pendingCap r = Z.max 1 (sv_pendingCap s / 2);
  rbd_active : rb_active r <= rb_activeCap r;
  rbd_pending : rb_pending r <= rb_pendingCap r;
  rbd_shared : rb_shared r <= sv_cap s * 3;
  rbd_bytes : rb_bytes r <= Z.max 1 (sv_cap s / 2) * maxDNSMessage;
}.

Record bounded (s : service) : Prop := {
  bd_limit : sv_limit s <= Z.max 0 (sv_cap s);
  bd_pending : sv_pending s <= Z.max 0 (sv_pendingCap s);
  bd_bytes : sv_queryBytes s <= Z.max 1 (sv_cap s) * maxDNSMessage;
  bd_shared : sv_sharedQueries s <= Z.max 1 (sv_cap s) * 4;
  bd_routes tag r : sv_routes s !! tag = Some r -> route_bounded s r;
  bd_waiters f fl : sv_heap s !! f = Some fl -> fl_waiters fl <= Z.max 2 (sv_cap s * 4);
}.

Lemma bounded_limit s v : bounded s -> v <= Z.max 0 (sv_cap s) -> bounded (with_limit s v).
Proof. intros [] ?. split; simpl; try done. intros tag r Hr. destruct (bd_routes0 tag r Hr). by split. Qed.

Lemma bounded_pending s v : bounded s -> v <= Z.max 0 (sv_pendingCap s) -> bounded (with_pending s v).
Proof. intros [] ?. split; simpl; try done. intros tag r Hr. destruct (bd_routes0 tag r Hr). by split. Qed.

Lemma bounded_counts s bytes shared routes :
  bounded s -> bytes <= Z.max 1 (sv_cap s) * maxDNSMessage -> shared <= Z.max 1 (sv_cap s) * 4 ->
  (forall tag r, routes !! tag = Some r -> route_bounded s r) ->
  bounded (with_admission s bytes shared routes).
Proof. intros [] ? ? Hr. split; simpl; try done. intros tag r Hin. destruct (Hr tag r Hin). by split. Qed.

Lemma bounded_route s bytes shared tag r :
  bounded s -> bytes <= Z.max 1 (sv_cap s) * maxDNSMessage -> shared <= Z.max 1 (sv_cap s) * 4 ->
  route_bounded s r -> bounded (with_admission s bytes shared (<[tag:=r]> (sv_routes s))).
Proof.
  intros Hb ? ? Hr. apply bounded_counts; try done. intros tag' r'. rewrite lookup_insert_Some.
  intros [[_ <-]|[_ ?]]; [done|by eapply bd_routes].
Qed.

Lemma bounded_flight s fl next f v :
  bounded s -> fl_waiters v <= Z.max 2 (sv_cap s * 4) ->
  bounded (with_flights s fl (<[f:=v]> (sv_heap s)) next).
Proof.
  intros [] ?. split; simpl; try done.
  - intros tag r Hr. destruct (bd_routes0 tag r Hr). by split.
  - intros f' v'. rewrite lookup_insert_Some. intros [[_ <-]|[_ ?]]; eauto.
Qed.

Lemma bounded_routeLimit s tag : bounded s -> bounded (routeLimit s tag).1.
Proof.
  intros Hb. unfold routeLimit. destruct (_ || _) eqn:Hs; [done|]. bool_prop.
  destruct (sv_routes s !! tag); [done|]. simpl.
  apply bounded_route; try done; try by apply Hb.
  split; simpl; unfold maxDNSMessage; lia.
Qed.

(** Open every limit that the context offers on the state [s]. *)
Ltac open_bounds Hb :=
  pose proof (bd_limit _ Hb); pose proof (bd_pending _ Hb); pose proof (bd_bytes _ Hb); pose proof (bd_shared _ Hb);
  repeat match goal with
  | E : sv_routes ?s !! ?tag = Some ?r |- _ =>
      lazymatch goal with _ : route_bounded s r |- _ => fail | _ => pose proof (bd_routes _ Hb _ _ E) end
  | E : sv_heap ?s !! ?f = Some ?v |- _ =>
      lazymatch goal with
      | _ : fl_waiters v <= Z.max 2 (sv_cap s * 4) |- _ => fail
      | _ => pose proof (bd_waiters _ Hb _ _ E) end
  end.

Ltac bounds_step Hb :=
  open_bounds Hb;
  first
  [ exact Hb
  | apply bounded_limit; [exact Hb|lia]
  | apply bounded_pending; [exact Hb|lia]
  | apply bounded_flight; [exact Hb|simpl; lia]
  | apply bounded_route; [exact Hb|lia|lia|];
    match goal with R : route_bounded _ _ |- _ => destruct R; split; simpl; lia end
  | apply bounded_counts; [exact Hb|lia|lia|by apply bd_routes] ].

Lemma exec_bounded s t c s' t' :
  0 <= th_bytes t -> bounded s -> exec s t c = Some (s', t') -> bounded s'.
Proof.
  intros Hsize Hb H. exec_cases H;
    try match goal with
    | E : bytes_fit _ _ = true |- _ => unfold bytes_fit in E
    | E : shared_fit _ _ = true |- _ => unfold shared_fit in E
    end;
    try match goal with
    | E : account _ _ _ _ = Some _ |- _ => prim_cases E
    | E : begin _ _ _ = Some _ |- _ => prim_cases E
    | E : leave _ _ = Some _ |- _ => prim_cases E
    | E : finish _ _ _ = Some _ |- _ => prim_cases E
    | E : send_active _ _ = Some _ |- _ => prim_cases E
    | E : recv_active _ _ = Some _ |- _ => prim_cases E
    | E : send_pending _ _ = Some _ |- _ => prim_cases E
    | E : recv_pending _ _ = Some _ |- _ => prim_cases E
    end;
    bool_prop;
    repeat match goal with
    | E : th_routed _ = _, H : context [th_routed _] |- _ => rewrite E in H; simpl in H
    | E : sv_routes ?s !! ?k = _, H : context [sv_routes ?s !! ?k] |- _ =>
        lazymatch H with E => fail | _ => rewrite E in H; simpl in H end
    end; bool_prop;
    try (match goal with E : routeLimit ?s ?tag = _ |- _ => pose proof (bounded_routeLimit s tag Hb) as Hs; by rewrite E in Hs end);
    bounds_step Hb.
Qed.

(** ** The invariant of the whole system *)

(** Whether queries get a route budget at all, and when that is decided. *)
Definition split_routes (s : service) : bool := negb ((sv_profiles s <? 2) || (sv_cap s <? 2)).
Definition planned (p : pc) : bool := match p with PStart | PDone => false | _ => true end.

Record thread_ok (s : service) (t : thread) : Prop := {
  tok_route : route_ok t;
  tok_size : 0 <= th_bytes t <= maxDNSMessage;
  tok_split : planned (th_pc t) = true -> th_routed t = split_routes s;
  tok_budget : th_routed t = true -> is_Some (sv_routes s !! th_tag t);
  tok_flight f : waits_on (th_pc t) = Some f -> is_Some (sv_heap s !! f);
  tok_owner f : owns (th_pc t) = Some f -> sv_flights s !! th_key t = Some f;
}.

Record sys_inv (σ : system) : Prop := {
  inv_count c : counter c (sys_service σ) = total (hold c) (sys_threads σ);
  inv_fresh f : (sv_next (sys_service σ) <= f)%nat -> sv_heap (sys_service σ) !! f = None;
  inv_threads tid t : sys_threads σ !! tid = Some t -> thread_ok (sys_service σ) t;
  inv_table key f : sv_flights (sys_service σ) !! key = Some f ->
    exists fl, sv_heap (sys_service σ) !! f = Some fl /\ fl_done fl = false;
  inv_inj key1 key2 f : sv_flights (sys_service σ) !! key1 = Some f ->
    sv_flights (sys_service σ) !! key2 = Some f -> key1 = key2;
  inv_bounded : bounded (sys_service σ);
}.

Lemma ind_nonneg c c0 : 0 <= ind c c0.
Proof. destruct (ind_bool c c0); lia. Qed.

Lemma hold_nonneg c t : 0 <= th_bytes t -> 0 <= hold c t.
Proof.
  intros. unfold hold.
  assert (Hz : forall b, 0 <= zb b) by (intros []; simpl; lia).
  assert (Ho : forall mk o, 0 <= ind_opt c mk o) by (intros mk [f|]; simpl; [apply ind_nonneg|lia]).
  repeat apply Z.add_nonneg_nonneg; auto;
    repeat first [apply Z.mul_nonneg_nonneg | apply Hz | apply ind_nonneg | done].
Qed.

(** What one thread holds is at most what the counter says. *)
Lemma hold_le_counter σ c tid t :
  sys_inv σ -> sys_threads σ !! tid = Some t -> hold c t <= counter c (sys_service σ).
Proof.
  intros Hi Ht. rewrite (inv_count _ Hi c), (total_delete _ _ _ _ Ht).
  assert (0 <= total (hold c) (delete tid (sys_threads σ))); [|lia].
  apply total_nonneg. intros i x [_ Hx]%lookup_delete_Some. apply hold_nonneg.
  by apply (tok_size _ _ (inv_threads _ Hi _ _ Hx)).
Qed.

Lemma hold_two σ c i j t u :
  sys_inv σ -> i <> j -> sys_threads σ !! i = Some t -> sys_threads σ !! j = Some u ->
  hold c t + hold c u <= counter c (sys_service σ).
Proof.
  intros Hi Hij Ht Hu. rewrite (inv_count _ Hi c), (total_delete _ _ _ _ Ht).
  rewrite (total_delete _ (delete i _) j u) by (by rewrite lookup_delete_ne).
  assert (0 <= total (hold c) (delete j (delete i (sys_threads σ)))); [|lia].
  apply total_nonneg. intros k x [_ [_ Hx]%lookup_delete_Some]%lookup_delete_Some. apply hold_nonneg.
  by apply (tok_size _ _ (inv_threads _ Hi _ _ Hx)).
Qed.

Lemma hold_CLive f t : hold (CLive f) t = match owns (th_pc t) with Some g => zb (bool_decide (f = g)) | None => 0 end.
Proof.
  unfold hold, ind_opt. destruct (owns (th_pc t)), (waits_on (th_pc t)); unfold ind;
    repeat case_decide; simplify_eq/=; rewrite ?bool_decide_eq_true_2, ?bool_decide_eq_false_2 by congruence;
    simpl; lia.
Qed.

Lemma hold_live f t : owns (th_pc t) = Some f -> hold (CLive f) t = 1.
Proof. intros Ho. rewrite hold_CLive, Ho. by rewrite bool_decide_eq_true_2. Qed.

Lemma live_iff s f : counter (CLive f) s = 1 <-> exists fl, sv_heap s !! f = Some fl /\ fl_done fl = false.
Proof.
  simpl. unfold flight_field. destruct (sv_heap s !! f) as [fl|]; [|split; [done|naive_solver]].
  destruct (fl_done fl) eqn:E; (split; [intros; simplify_eq; eauto|intros (? & ? & ?); simplify_eq; congruence]).
Qed.

Lemma live_le_one s f : counter (CLive f) s <= 1.
Proof. simpl. unfold flight_field. destruct (sv_heap s !! f) as [fl|]; [destruct (fl_done fl)|]; lia. Qed.

(** A flight has one owner. *)
Lemma owner_unique σ f i j t u :
  sys_inv σ -> sys_threads σ !! i = Some t -> sys_threads σ !! j = Some u ->
  owns (th_pc t) = Some f -> owns (th_pc u) = Some f -> i = j.
Proof.
  intros Hi Ht Hu Ho Ho'. destruct (decide (i = j)) as [|Hij]; [done|].
  pose proof (hold_two _ (CLive f) _ _ _ _ Hi Hij Ht Hu) as Hh.
  rewrite !hold_live in Hh by done. pose proof (live_le_one (sys_service σ) f). lia.
Qed.

Lemma sys_inv_init workers profiles : sys_inv (System (newService workers profiles) ∅).
Proof.
  split; simpl; try done.
  - intros c. rewrite total_empty. by destruct c.
  - split; simpl; try done; unfold maxDNSMessage; lia.
Qed.

Lemma sys_inv_arrive s ts tid size :
  sys_inv (System s ts) -> ts !! tid = None -> 0 <= size <= maxDNSMessage ->
  sys_inv (System s (<[tid := Thread size [] [] false PStart]> ts)).
Proof.
  intros Hi Hn Hs. destruct Hi as [Hc Hf Ht Htab Hinj Hb]. split; simpl in *; try done.
  - intros c. rewrite total_insert_new by done. rewrite <- Hc. unfold hold. simpl. lia.
  - intros i t. rewrite lookup_insert_Some. intros [[_ <-]|[_ Hu]]; [|by eapply Ht]. by split.
Qed.

Lemma exec_thread_ok s t c s' t' :
  (forall key f, sv_flights s !! key = Some f -> is_Some (sv_heap s !! f)) ->
  thread_ok s t -> exec s t c = Some (s', t') -> thread_ok s' t'.
Proof.
  intros Htab [Hr Hs Hsp Hbud Hfl Ho] H. pose proof (exec_frame _ _ _ _ _ H) as F.
  pose proof (exec_table _ _ _ _ _ H) as T. split.
  - unfold route_ok in *. clear T F. exec_cases H; rewrite ?Hpc; simpl; intros; congruence || auto.
  - clear T F. exec_cases H; done.
  - clear T. intros Hpl. unfold split_routes. rewrite (fr_cap _ _ F), (fr_profiles _ _ F).
    fold (split_routes s). clear F. exec_cases H; try (first [by apply Hsp | etransitivity; [eassumption|by apply Hsp]]).
    unfold routeLimit, split_routes in *. destruct (_ || _); [by simplify_eq|].
    by destruct (sv_routes s !! tag); simplify_eq.
  - intros Hrt. clear T. exec_cases H; try congruence; try (by apply (fr_routes _ _ F); apply Hbud).
    unfold routeLimit in *. split_if Heqp. destruct (sv_routes s !! tag) eqn:E; simplify_eq/=; [done|].
    by rewrite lookup_insert_eq.
  - intros f Hw. clear T. exec_cases H; try (by apply (fr_heap _ _ F); apply Hfl).
    all: unfold begin in *; destruct (sv_flights s !! th_key t) as [g|] eqn:Eg;
      [destruct (sv_heap s !! g) eqn:?|]; repeat split_if Heqo; simplify_eq/=;
      apply lookup_insert_is_Some'; auto.
  - intros f Hown. destruct T as [(-> & _ & _ & HO & [?| ->])|[(Hp & Hn & -> & ->)|(g & fl & Hp & -> & _ & ->)]].
    + congruence.
    + apply Ho. congruence.
    + simpl in *. simplify_eq. by rewrite lookup_insert_eq.
    + done.
Qed.

Lemma exec_fresh s t c s' t' :
  (forall f, (sv_next s <= f)%nat -> sv_heap s !! f = None) -> thread_ok s t -> exec s t c = Some (s', t') ->
  forall f, (sv_next s' <= f)%nat -> sv_heap s' !! f = None.
Proof.
  intros Hf Hok H f. destruct (exec_table _ _ _ _ _ H) as [(_ & -> & Hh & _)|[(_ & _ & _ & ->)|(g & fl & Hp & _ & Hg & ->)]]; simpl.
  - intros. by auto.
  - intros. rewrite lookup_insert_ne by lia. apply Hf. lia.
  - intros. rewrite lookup_insert_ne; [by apply Hf|]. intros <-. rewrite Hf in Hg; done.
Qed.

(** Another thread keeps what it relies on. *)
Lemma exec_other_ok s ts i j t u c s' t' :
  sys_inv (System s ts) -> i <> j -> ts !! i = Some t -> ts !! j = Some u ->
  exec s t c = Some (s', t') -> thread_ok s' u.
Proof.
  intros Hi Hij Ht Hu H. pose proof (exec_frame _ _ _ _ _ H) as F.
  pose proof (inv_threads _ Hi _ _ Hu) as [Hr Hs Hsp Hbud Hfl Ho]; simpl in *. split; try done.
  - unfold split_routes. by rewrite (fr_cap _ _ F), (fr_profiles _ _ F).
  - intros. apply (fr_routes _ _ F). auto.
  - intros. apply (fr_heap _ _ F). auto.
  - intros f Hown. specialize (Ho f Hown).
    destruct (exec_table _ _ _ _ _ H) as [(-> & _)|[(Hp & Hn & _ & ->)|(g & fl & Hp & _ & Hg & ->)]]; simpl.
    + done.
    + rewrite lookup_insert_ne; [done|]. intros E. rewrite <- E in Ho. congruence.
    + rewrite lookup_delete_ne; [done|]. intros E. rewrite <- E in Ho.
      assert (Hg' : owns (th_pc t) = Some g) by (by rewrite Hp).
      pose proof (tok_owner _ _ (inv_threads _ Hi _ _ Ht) _ Hg') as Ho'. simpl in Ho'. simplify_eq.
      destruct Hij. by apply (owner_unique _ f _ _ _ _ Hi Ht Hu).
Qed.

Lemma exec_flight_table s ts tid t c s' t' :
  sys_inv (System s ts) -> ts !! tid = Some t -> exec s t c = Some (s', t') ->
  (forall key f, sv_flights s' !! key = Some f -> exists fl, sv_heap s' !! f = Some fl /\ fl_done fl = false) /\
  (forall key1 key2 f, sv_flights s' !! key1 = Some f -> sv_flights s' !! key2 = Some f -> key1 = key2).
Proof.
  intros Hi Ht H. pose proof (inv_table _ Hi) as Htab. pose proof (inv_inj _ Hi) as Hinj. simpl in *.
  pose proof (inv_threads _ Hi _ _ Ht) as Hok. simpl in Hok.
  assert (Hnew : forall key, sv_flights s !! key <> Some (sv_next s)).
  { intros key E. destruct (Htab _ _ E) as (fl & E' & _). by rewrite (inv_fresh _ Hi) in E'. }
  destruct (exec_table _ _ _ _ _ H) as [(Efl & _ & _ & HO & _)|[(Hp & Hn & _ & ->)|(g & fl & Hp & _ & Hg & ->)]]; simpl.
  - rewrite Efl. split; [|done]. intros key f E. apply live_iff.
    apply Htab in E. apply live_iff in E.
    pose proof (exec_balanced _ _ _ _ _ (inv_fresh _ Hi) (tok_route _ _ Hok) H (CLive f)) as Hbal.
    rewrite !hold_CLive, HO in Hbal. change (sys_service _) with s in Hbal. lia.
  - split.
    + intros key f. rewrite lookup_insert_Some. intros [[_ <-]|[_ E]].
      * rewrite lookup_insert_eq. eauto.
      * rewrite lookup_insert_ne; [by eapply Htab|]. naive_solver.
    + intros k1 k2 f. rewrite !lookup_insert_Some. intros [[<- <-]|[Hk1 E1]] [[<- E2]|[Hk2 E2]]; try done.
      * by apply Hnew in E2.
      * rewrite <- E2 in E1. by apply Hnew in E1.
      * by eapply Hinj.
  - pose proof (tok_owner _ _ Hok g ltac:(by rewrite Hp)) as Hkey. split.
    + intros key f [Hne E]%lookup_delete_Some. rewrite lookup_insert_ne; [by eapply Htab|].
      intros <-. apply Hne. by eapply Hinj.
    + intros k1 k2 f [_ E1]%lookup_delete_Some [_ E2]%lookup_delete_Some. by eapply Hinj.
Qed.

Lemma sys_inv_step σ σ' : sys_inv σ -> sys_step σ σ' -> sys_inv σ'.
Proof.
  intros Hi Hstep. destruct Hstep as [s ts tid size Hn Hs|s ts tid t c s' t' Ht H].
  { by apply sys_inv_arrive. }
  pose proof (inv_threads _ Hi _ _ Ht) as Hok. pose proof (inv_fresh _ Hi) as Hf. simpl in *.
  destruct (exec_flight_table _ _ _ _ _ _ _ Hi Ht H) as [Htab Hinj].
  split; simpl; try done.
  - intros k. rewrite (total_update _ _ _ _ _ Ht). pose proof (inv_count _ Hi k) as Hk. simpl in Hk.
    pose proof (exec_balanced _ _ _ _ _ Hf (tok_route _ _ Hok) H k). lia.
  - by eapply exec_fresh.
  - intros j u. rewrite lookup_insert_Some. intros [[_ <-]|[Hj Hu]].
    + eapply exec_thread_ok; [|done|done]. intros key f E. destruct (inv_table _ Hi _ _ E) as (? & ? & _). eauto.
    + by eapply exec_other_ok.
  - eapply exec_bounded; [|by apply (inv_bounded _ Hi)|done]. apply Hok.
Qed.

Lemma reachable_inv workers profiles σ : reachable workers profiles σ -> sys_inv σ.
Proof. intros H. eapply steps_invariant; [apply sys_inv_step|done|apply sys_inv_init]. Qed.
