(* ===== verification/DnsAdmissionSafety.v ===== *)
(** * Safety and liveness of query admission

    Consequences of the invariant of [DnsAdmission]: the configured limits hold
    in every interleaving, every identical query in flight shares one exchange,
    no path leaks a slot, a byte count or a flight, a release never blocks, and
    every query terminates. *)

From S2P Require Import Prelude GoBase DnsCache DnsLane DnsAdmission.
Open Scope Z_scope.

(** ** Limits *)

Lemma counter_nonneg σ c : sys_inv σ -> 0 <= counter c (sys_service σ).
Proof.
  intros Hi. rewrite (inv_count _ Hi c). apply total_nonneg. intros i t Ht. apply hold_nonneg.
  apply (tok_size _ _ (inv_threads _ Hi _ _ Ht)).
Qed.

Lemma frame_reachable workers profiles σ :
  reachable workers profiles σ -> frame (newService workers profiles) (sys_service σ).
Proof.
  intros H. refine (steps_invariant sys_step (fun σ => frame (newService workers profiles) (sys_service σ)) _ _ _ H _).
  - intros a b Ha Hstep. destruct Hstep as [s ts tid size _ _|s ts tid t c s' t' _ Hx]; simpl in *; [done|].
    etransitivity; [done|by eapply exec_frame].
  - apply frame_refl.
Qed.

(** The limits of the service and of one route budget for a number of workers. *)
Record within_limits (workers : Z) (s : service) : Prop := {
  wl_limit : 0 <= sv_limit s <= workers;
  wl_pending : 0 <= sv_pending s <= workers * 4;
  wl_bytes : 0 <= sv_queryBytes s <= workers * maxDNSMessage;
  wl_shared : 0 <= sv_sharedQueries s <= workers * 4;
  wl_active tag r : sv_routes s !! tag = Some r -> 0 <= rb_active r <= Z.max 1 (workers / 2);
  wl_pendingRoute tag r : sv_routes s !! tag = Some r -> 0 <= rb_pending r <= Z.max 1 (workers * 4 / 2);
  wl_sharedRoute tag r : sv_routes s !! tag = Some r -> 0 <= rb_shared r <= workers * 3;
  wl_bytesRoute tag r : sv_routes s !! tag = Some r -> 0 <= rb_bytes r <= Z.max 1 (workers / 2) * maxDNSMessage;
  wl_waiters f fl : sv_heap s !! f = Some fl -> 0 <= fl_waiters fl <= Z.max 2 (workers * 4);
}.

Lemma route_counter g s tag r : sv_routes s !! tag = Some r -> route_field g s tag = g r.
Proof. unfold route_field. by intros ->. Qed.

Lemma reachable_within_limits workers profiles σ :
  0 < workers -> reachable workers profiles σ -> within_limits workers (sys_service σ).
Proof.
  intros Hw H. pose proof (reachable_inv _ _ _ H) as Hi. destruct (frame_reachable _ _ _ H) as [Hcap Hpc _ _ _].
  pose proof (counter_nonneg σ) as Hn. pose proof (inv_bounded _ Hi) as Hb. simpl in Hcap, Hpc.
  split; intros.
  - pose proof (bd_limit _ Hb). pose proof (Hn CLimit Hi) as ?. simpl in *. lia.
  - pose proof (bd_pending _ Hb). pose proof (Hn CPending Hi) as ?. simpl in *. lia.
  - pose proof (bd_bytes _ Hb). pose proof (Hn CBytes Hi) as ?. simpl in *. unfold maxDNSMessage in *. rewrite Hcap in *. lia.
  - pose proof (bd_shared _ Hb). pose proof (Hn CShared Hi) as ?. simpl in *. lia.
  - destruct (bd_routes _ Hb _ _ H0). pose proof (Hn (CActive tag) Hi) as Hc. simpl in Hc.
    rewrite (route_counter _ _ _ _ H0) in Hc. rewrite Hcap in *. lia.
  - destruct (bd_routes _ Hb _ _ H0). pose proof (Hn (CPendingRoute tag) Hi) as Hc. simpl in Hc.
    rewrite (route_counter _ _ _ _ H0) in Hc. rewrite Hpc in *. lia.
  - destruct (bd_routes _ Hb _ _ H0). pose proof (Hn (CSharedRoute tag) Hi) as Hc. simpl in Hc.
    rewrite (route_counter _ _ _ _ H0) in Hc. rewrite Hcap in *. lia.
  - destruct (bd_routes _ Hb _ _ H0). pose proof (Hn (CBytesRoute tag) Hi) as Hc. simpl in Hc.
    rewrite (route_counter _ _ _ _ H0) in Hc. unfold maxDNSMessage in *. rewrite Hcap in *. lia.
  - pose proof (bd_waiters _ Hb _ _ H0). pose proof (Hn (CWaiters f) Hi) as Hc. simpl in Hc.
    unfold flight_field in Hc. rewrite H0 in Hc. rewrite Hcap in *. lia.
Qed.

(** A query is being resolved upstream. *)
Definition exchanging (t : thread) : bool := match th_pc t with PWork _ => true | _ => false end.
Definition exchanging_via (tag : gostr) (t : thread) : bool := exchanging t && bool_decide (th_tag t = tag).

Lemma exchanging_total σ : sys_inv σ -> total (fun t => zb (exchanging t)) (sys_threads σ) <= sv_limit (sys_service σ).
Proof.
  intros Hi. change (sv_limit _) with (counter CLimit (sys_service σ)). rewrite (inv_count _ Hi).
  apply total_mono. intros i t Ht. pose proof (tok_size _ _ (inv_threads _ Hi _ _ Ht)) as [Hs _].
  pose proof (hold_nonneg CLimit t Hs). unfold exchanging. destruct (th_pc t) eqn:E; simpl in *; try lia.
  unfold hold. rewrite E. simpl. unfold ind. repeat case_decide; simplify_eq; simpl; lia.
Qed.

Lemma exchanging_via_total σ tag :
  sys_inv σ -> split_routes (sys_service σ) = true ->
  total (fun t => zb (exchanging_via tag t)) (sys_threads σ) <= counter (CActive tag) (sys_service σ).
Proof.
  intros Hi Hsplit. rewrite (inv_count _ Hi).
  apply total_mono. intros i t Ht. pose proof (inv_threads _ Hi _ _ Ht) as Hok.
  destruct (tok_size _ _ Hok) as [Hs _]. pose proof (tok_split _ _ Hok) as Hr. rewrite Hsplit in Hr.
  pose proof (hold_nonneg (CActive tag) t Hs) as Hn. unfold exchanging_via, exchanging.
  destruct (th_pc t) eqn:E; simpl in *; try lia.
  case_bool_decide as Et; simpl; [|lia]. clear Hn. unfold hold. rewrite E, Hr by done. simpl.
  unfold ind. repeat case_decide; simplify_eq; simpl; lia.
Qed.

(** ** No action of a query that holds a resource blocks *)

Ltac hold_simpl := unfold hold, ind_opt; destruct (waits_on _), (owns _); unfold ind; repeat case_decide; simplify_eq; lia.
Lemma hold_CLimit t : hold CLimit t = zb (holds_limit (th_pc t)).
Proof. hold_simpl. Qed.
Lemma hold_CPending t : hold CPending t = zb (holds_pending (th_pc t)).
Proof. hold_simpl. Qed.
Lemma hold_CActive t : hold (CActive (th_tag t)) t = zb (th_routed t) * zb (holds_active (th_pc t)).
Proof. hold_simpl. Qed.
Lemma hold_CPendingRoute t : hold (CPendingRoute (th_tag t)) t = zb (th_routed t) * zb (holds_pendingRoute (th_pc t)).
Proof. hold_simpl. Qed.

Section Enabled.
Context (σ : system) (tid : nat) (t : thread).
Hypothesis Hinv : sys_inv σ.
Hypothesis Hin : sys_threads σ !! tid = Some t.
Let s := sys_service σ.

Lemma account_enabled bytes shared : is_Some (account s t bytes shared).
Proof using Hinv Hin.
  unfold account. destruct (th_routed t) eqn:E; [|done].
  destruct (tok_budget _ _ (inv_threads _ Hinv _ _ Hin) E) as [r Hr]. subst s. by rewrite Hr.
Qed.

Lemma leave_enabled f : waits_on (th_pc t) = Some f -> is_Some (leave s f).
Proof using Hinv Hin.
  intros Hw. unfold leave. destruct (tok_flight _ _ (inv_threads _ Hinv _ _ Hin) f Hw) as [fl Hf].
  subst s. by rewrite Hf.
Qed.

Lemma finish_enabled f : owns (th_pc t) = Some f -> is_Some (finish s (th_key t) f).
Proof using Hinv Hin.
  intros Ho. pose proof (hold_le_counter _ (CLive f) _ _ Hinv Hin) as Hc. rewrite hold_live in Hc by done.
  assert (Hl : counter (CLive f) s = 1) by (pose proof (live_le_one s f); subst s; lia).
  apply live_iff in Hl. destruct Hl as (fl & Hf & Hd). unfold finish. rewrite Hf. simpl. by rewrite Hd.
Qed.

Lemma recv_active_enabled :
  th_routed t = true -> holds_active (th_pc t) = true -> is_Some (recv_active s t).
Proof using Hinv Hin.
  intros Hr Ha. pose proof (hold_le_counter _ (CActive (th_tag t)) _ _ Hinv Hin) as Hc.
  rewrite hold_CActive, Hr, Ha in Hc. simpl in Hc. unfold route_field in Hc. unfold recv_active.
  destruct (tok_budget _ _ (inv_threads _ Hinv _ _ Hin) Hr) as [r Hb]. subst s.
  rewrite Hb in *. simpl. case_tests. done.
Qed.

Lemma recv_pending_enabled :
  th_routed t = true -> holds_pendingRoute (th_pc t) = true -> is_Some (recv_pending s t).
Proof using Hinv Hin.
  intros Hr Ha. pose proof (hold_le_counter _ (CPendingRoute (th_tag t)) _ _ Hinv Hin) as Hc.
  rewrite hold_CPendingRoute, Hr, Ha in Hc. simpl in Hc. unfold route_field in Hc. unfold recv_pending.
  destruct (tok_budget _ _ (inv_threads _ Hinv _ _ Hin) Hr) as [r Hb]. subst s.
  rewrite Hb in *. simpl. case_tests. done.
Qed.

Lemma limit_positive : holds_limit (th_pc t) = true -> (0 <? sv_limit s) = true.
Proof using Hinv Hin.
  intros Hl. pose proof (hold_le_counter _ CLimit _ _ Hinv Hin) as Hc. rewrite hold_CLimit, Hl in Hc.
  simpl in Hc. apply Z.ltb_lt. subst s. lia.
Qed.

Lemma pending_positive : holds_pending (th_pc t) = true -> (0 <? sv_pending s) = true.
Proof using Hinv Hin.
  intros Hl. pose proof (hold_le_counter _ CPending _ _ Hinv Hin) as Hc. rewrite hold_CPending, Hl in Hc.
  simpl in Hc. apply Z.ltb_lt. subst s. lia.
Qed.

(** The choice that a program point can always take. *)
Definition default_choice (t : thread) : choice :=
  match th_pc t with
  | PStart => PlanLocal
  | PShared _ | PWaitLimit _ => Deadline
  | PQueued _ => if th_routed t then Deadline else Go
  | _ => Go
  end.

Lemma exec_enabled : th_pc t <> PDone -> is_Some (exec s t (default_choice t)).
Proof using Hinv Hin.
  intros Hd. pose proof (tok_route _ _ (inv_threads _ Hinv _ _ Hin)) as Hro. unfold route_ok in Hro.
  unfold exec, default_choice. pose proof account_enabled as Hacc. pose proof leave_enabled as Hlv.
  pose proof finish_enabled as Hfin. pose proof recv_active_enabled as Hra. pose proof recv_pending_enabled as Hrp.
  pose proof limit_positive as Hlim. pose proof pending_positive as Hpen.
  destruct (th_pc t) eqn:Hpc; simpl in *; try done; try specialize (Hro eq_refl);
    try (destruct (Hra Hro eq_refl) as [? ->]); try (destruct (Hrp Hro eq_refl) as [? ->]);
    try (rewrite (Hlim eq_refl)); try (rewrite (Hpen eq_refl));
    repeat match goal with
    | |- context [account s t ?a ?b] => destruct (Hacc a b) as [? ->]
    | |- context [leave s ?f] => destruct (Hlv f eq_refl) as [? ->]
    | |- context [finish s _ ?f] => destruct (Hfin f eq_refl) as [? ->]
    | |- context [routeLimit s ?tag] => destruct (routeLimit s tag)
    | |- context [begin s ?k ?m] => destruct (begin s k m) as [[[? ?] ?]|]
    | |- context [send_active s t] => destruct (send_active s t)
    | |- context [send_pending s t] => destruct (send_pending s t)
    | |- context [if ?b then _ else _] => destruct b
    end; done.
Qed.
End Enabled.

(** ** Every query terminates *)

(** The most actions a query at a program point still takes. *)
Definition rank (p : pc) : nat :=
  match p with
  | PStart => 18 | PBytes => 17 | PBegin => 16
  | PTryRoute _ | PJoin _ => 15 | PTryLimit _ => 14 | PDropRoute _ => 13 | PTryPendingRoute _ => 12
  | PTryPending _ => 11 | PQueued _ | PDropPendingRoute _ => 10 | PWaitLimit _ => 9 | PGiveRoute _ => 8
  | PDequeue _ _ => 7 | PDequeueRoute _ _ => 6 | PWork _ => 5 | PReleaseRoute _ | PShared _ => 4
  | PFinish _ | PUnshare _ => 3 | PLeave _ | PJoinLeave _ => 2 | PReturn => 1 | PDone => 0
  end.

Lemma exec_rank s t c s' t' : exec s t c = Some (s', t') -> (rank (th_pc t') < rank (th_pc t))%nat.
Proof. intros H. exec_cases H; repeat case_match; simpl; lia. Qed.

Definition pending_actions (σ : system) : Z := total (fun t => Z.of_nat (rank (th_pc t))) (sys_threads σ).

Lemma pending_actions_step σ σ' tid t c s' t' :
  sys_threads σ !! tid = Some t -> exec (sys_service σ) t c = Some (s', t') ->
  σ' = System s' (<[tid:=t']> (sys_threads σ)) -> 0 <= pending_actions σ' < pending_actions σ.
Proof.
  intros Ht H ->. unfold pending_actions. simpl. split; [apply total_nonneg; lia|].
  rewrite (total_update _ _ _ _ _ Ht). pose proof (exec_rank _ _ _ _ _ H). lia.
Qed.

Definition all_done (σ : system) : Prop := forall tid t, sys_threads σ !! tid = Some t -> th_pc t = PDone.

Lemma rank_zero p : rank p = 0%nat <-> p = PDone.
Proof. destruct p; simpl; split; congruence || lia. Qed.

Lemma drain_from n σ :
  sys_inv σ -> pending_actions σ <= Z.of_nat n ->
  exists σ', steps sys_step σ σ' /\ all_done σ' /\ dom (sys_threads σ') = dom (sys_threads σ).
Proof.
  revert σ. induction n as [|n IH]; intros σ Hi Hn.
  all: destruct (decide (pending_actions σ = 0)) as [E|E].
  1,3: exists σ; split; [constructor|]; split; [|done]; intros tid t Ht; apply rank_zero;
    pose proof (total_ge_one (fun t => Z.of_nat (rank (th_pc t))) _ _ _ ltac:(simpl; lia) Ht) as Hr;
    unfold pending_actions in E; simpl in Hr; lia.
  - pose proof (total_nonneg (fun t => Z.of_nat (rank (th_pc t))) (sys_threads σ) ltac:(simpl; lia)).
    unfold pending_actions in *. lia.
  - destruct (total_witness _ _ E) as (tid & t & Ht & Hr). simpl in Hr.
    assert (Hd : th_pc t <> PDone) by (intros Hd; rewrite Hd in Hr; done).
    destruct (exec_enabled σ tid t Hi Ht Hd) as [[s' t'] Hx].
    assert (Hst : sys_step σ (System s' (<[tid:=t']> (sys_threads σ)))).
    { destruct σ as [s ts]. by eapply step_thread. }
    pose proof (pending_actions_step _ _ _ _ _ _ _ Ht Hx eq_refl).
    destruct (IH _ (sys_inv_step _ _ Hi Hst)) as (σ' & Hs & Ha & Hdom); [lia|].
    exists σ'. split; [by econstructor|]. split; [done|]. rewrite Hdom. simpl.
    apply dom_insert_lookup_L. eauto.
Qed.

(** Nothing is held once every query has returned. *)
Record idle (s : service) : Prop := {
  idle_limit : sv_limit s = 0;
  idle_pending : sv_pending s = 0;
  idle_bytes : sv_queryBytes s = 0;
  idle_shared : sv_sharedQueries s = 0;
  idle_routes tag r : sv_routes s !! tag = Some r -> rb_active r = 0 /\ rb_pending r = 0 /\ rb_shared r = 0 /\ rb_bytes r = 0;
  idle_flights : sv_flights s = ∅;
  idle_waiters f fl : sv_heap s !! f = Some fl -> fl_waiters fl = 0 /\ fl_done fl = true;
}.

Lemma idle_when_done σ : sys_inv σ -> all_done σ -> idle (sys_service σ).
Proof.
  intros Hi Hd.
  assert (Hz : forall c, counter c (sys_service σ) = 0).
  { intros c. rewrite (inv_count _ Hi). apply total_zero. intros i t Ht. unfold hold. rewrite (Hd _ _ Ht). simpl. lia. }
  split.
  - apply (Hz CLimit).
  - apply (Hz CPending).
  - apply (Hz CBytes).
  - apply (Hz CShared).
  - intros tag r Hr. rewrite <- !(fun g => route_counter g _ _ _ Hr).
    split; [|split; [|split]]; [apply (Hz (CActive tag))|apply (Hz (CPendingRoute tag))
      |apply (Hz (CSharedRoute tag))|apply (Hz (CBytesRoute tag))].
  - apply map_empty. intros key. destruct (sv_flights (sys_service σ) !! key) as [f|] eqn:E; [|done].
    apply (inv_table _ Hi), live_iff in E. by rewrite Hz in E.
  - intros f fl Hf. pose proof (Hz (CWaiters f)) as Hw. pose proof (Hz (CLive f)) as Hl. simpl in Hw, Hl.
    unfold flight_field in Hw, Hl. rewrite Hf in Hw, Hl. by destruct (fl_done fl).
Qed.

(** ** Executable schedules *)

Inductive event := Arrive (tid : nat) (size : Z) | Act (tid : nat) (c : choice).

Definition play1 (σ : system) (e : event) : option system :=
  match e with
  | Arrive tid size =>
      match sys_threads σ !! tid with
      | None => if (0 <=? size) && (size <=? maxDNSMessage)
                then Some (System (sys_service σ) (<[tid := Thread size [] [] false PStart]> (sys_threads σ)))
                else None
      | Some _ => None
      end
  | Act tid c =>
      t ← sys_threads σ !! tid;
      '(s', t') ← exec (sys_service σ) t c;
      Some (System s' (<[tid := t']> (sys_threads σ)))
  end.

Fixpoint play (σ : system) (es : list event) : option system :=
  match es with
  | [] => Some σ
  | e :: es => σ ← play1 σ e; play σ es
  end.

Lemma play1_step σ e σ' : play1 σ e = Some σ' -> sys_step σ σ'.
Proof.
  destruct σ as [s ts], e as [tid size|tid c]; simpl.
  - destruct (ts !! tid) eqn:E; [done|]. intros H. split_if H. constructor; [done|lia].
  - destruct (ts !! tid) as [t|] eqn:E; simpl; [|done].
    destruct (exec s t c) as [[s' t']|] eqn:Hx; simpl; [|done]. intros [= <-]. by eapply step_thread.
Qed.

Lemma play_steps es σ σ' : play σ es = Some σ' -> steps sys_step σ σ'.
Proof.
  revert σ. induction es as [|e es IH]; simpl; intros σ; [intros [= <-]; constructor|].
  destruct (play1 σ e) as [σ1|] eqn:E; simpl; [|done]. intros. econstructor; [by eapply play1_step|auto].
Qed.

(** Two workers and two profiles; query 0 exchanges, query 1 asks the same and
    shares its flight, query 2 uses the other profile, query 3 waits for its
    route behind query 0. *)
Definition tagA : gostr := bs "a".
Definition tagB : gostr := bs "b".
Definition demo : list event :=
  [Arrive 0 40; Act 0 (PlanRemote tagA (bs "a/x")); Act 0 Go; Act 0 Go; Act 0 Go; Act 0 Go;
   Arrive 1 41; Act 1 (PlanRemote tagA (bs "a/x")); Act 1 Go; Act 1 Go; Act 1 Go;
   Arrive 2 42; Act 2 (PlanRemote tagB (bs "b/x")); Act 2 Go; Act 2 Go; Act 2 Go; Act 2 Go;
   Arrive 3 43; Act 3 (PlanRemote tagA (bs "a/y")); Act 3 Go; Act 3 Go; Act 3 Go; Act 3 Go; Act 3 Go].
Definition demo_state : system :=
  default (System (newService 2 2) ∅) (play (System (newService 2 2) ∅) demo).
Definition pc_at (σ : system) (tid : nat) : option pc := th_pc <$> sys_threads σ !! tid.

Lemma demo_reachable : reachable 2 2 demo_state.
Proof.
  unfold reachable, demo_state. apply (play_steps demo).
  destruct (play (System (newService 2 2) ∅) demo) eqn:E; [done|]. exfalso.
  assert (H : bool_decide (is_Some (play (System (newService 2 2) ∅) demo)) = true) by (vm_compute; reflexivity).
  rewrite E in H. done.
Qed.

Example demo_points :
  pc_at demo_state <$> [0; 1; 2; 3]%nat = [Some (PWork 0); Some (PShared 0); Some (PWork 1); Some (PQueued 2)].
Proof. vm_compute. reflexivity. Qed.

(** The demo finished by the queries' own actions. *)
Definition demo_end : list event :=
  demo ++ [Act 3 Deadline; Act 3 Go; Act 3 Go; Act 3 Go; Act 3 Go; Act 3 Go;
           Act 0 Go; Act 0 Go; Act 0 Go; Act 0 Go; Act 0 Go;
           Act 1 Go; Act 1 Go; Act 1 Go; Act 1 Go;
           Act 2 Go; Act 2 Go; Act 2 Go; Act 2 Go; Act 2 Go].
Definition demo_final : system :=
  default (System (newService 2 2) ∅) (play (System (newService 2 2) ∅) demo_end).

Lemma demo_final_reachable : reachable 2 2 demo_final.
Proof.
  unfold reachable, demo_final. apply (play_steps demo_end).
  destruct (play (System (newService 2 2) ∅) demo_end) eqn:E; [done|]. exfalso.
  assert (H : bool_decide (is_Some (play (System (newService 2 2) ∅) demo_end)) = true) by (vm_compute; reflexivity).
  rewrite E in H. done.
Qed.

Lemma demo_final_done : all_done demo_final.
Proof.
  assert (H : bool_decide (map_Forall (fun _ t => rank (th_pc t) = 0%nat) (sys_threads demo_final)) = true)
    by (vm_compute; reflexivity).
  apply bool_decide_eq_true in H. intros tid t Ht. apply rank_zero. exact (H tid t Ht).
Qed.

(** ** The claims *)

(** C21: in every interleaving of any number of queries the semaphores and the
    byte and waiter counters of the service and of every profile's route budget
    stay between zero and the limits derived from the worker count. *)
Theorem admission_limits (workers profiles : Z) (σ : system) :
  0 < workers -> reachable workers profiles σ -> within_limits workers (sys_service σ).
Proof. apply reachable_within_limits. Qed.

Example admission_limits_witness : within_limits 2 (sys_service demo_state).
Proof. apply (admission_limits 2 2); [lia|apply demo_reachable]. Defined.

(** At most [workers] upstream exchanges run at once, and with several
    profiles one profile runs at most half of them. *)
Theorem exchange_bounds (workers profiles : Z) (σ : system) (tag : gostr) :
  0 < workers -> reachable workers profiles σ ->
  total (fun t => zb (exchanging t)) (sys_threads σ) <= workers /\
  (2 <= profiles -> 2 <= workers ->
   total (fun t => zb (exchanging_via tag t)) (sys_threads σ) <= workers / 2).
Proof.
  intros Hw H. pose proof (reachable_inv _ _ _ H) as Hi. pose proof (reachable_within_limits _ _ _ Hw H) as L.
  destruct (frame_reachable _ _ _ H) as [Hcap _ Hprof _ _]. split.
  - pose proof (exchanging_total _ Hi). destruct (wl_limit _ _ L). lia.
  - intros Hp Hw2. assert (1 <= workers / 2) by (apply Z.div_le_lower_bound; lia). etransitivity; [apply exchanging_via_total; [done|]|].
    + unfold split_routes. rewrite Hcap, Hprof. simpl. case_tests.
    + simpl. unfold route_field. destruct (sv_routes (sys_service σ) !! tag) as [r|] eqn:E; [|lia].
      pose proof (wl_active _ _ L _ _ E). lia.
Qed.

Example exchange_bounds_witness :
  total (fun t => zb (exchanging t)) (sys_threads demo_state) = 2 /\
  total (fun t => zb (exchanging_via tagA t)) (sys_threads demo_state) <= 1.
Proof.
  split; [vm_compute; reflexivity|].
  apply (exchange_bounds 2 2 demo_state tagA); [lia|apply demo_reachable|lia|lia].
Defined.

(** C20: identical queries are coalesced: two queries that own a flight for the
    same key, in particular two that are exchanging it upstream, are one. *)
Theorem one_exchange_per_key (workers profiles : Z) (σ : system) (i j : nat) (t u : thread) (f g : nat) :
  reachable workers profiles σ -> sys_threads σ !! i = Some t -> sys_threads σ !! j = Some u ->
  owns (th_pc t) = Some f -> owns (th_pc u) = Some g -> th_key t = th_key u -> i = j.
Proof.
  intros H Ht Hu Hf Hg Hk. pose proof (reachable_inv _ _ _ H) as Hi.
  pose proof (tok_owner _ _ (inv_threads _ Hi _ _ Ht) _ Hf) as E.
  pose proof (tok_owner _ _ (inv_threads _ Hi _ _ Hu) _ Hg) as E'. rewrite Hk in E. simplify_eq.
  by eapply owner_unique.
Qed.

Example one_exchange_per_key_witness :
  exists t, sys_threads demo_state !! 0%nat = Some t /\
  forall j u g, sys_threads demo_state !! j = Some u -> owns (th_pc u) = Some g -> th_key t = th_key u -> 0%nat = j.
Proof.
  destruct (sys_threads demo_state !! 0%nat) as [t|] eqn:E.
  - exists t. split; [reflexivity|]. intros j u g Hu Hg Hk.
    refine (one_exchange_per_key 2 2 demo_state 0 j t u 0 g demo_reachable E Hu _ Hg Hk).
    assert (P : pc_at demo_state 0 = Some (PWork 0)) by (vm_compute; reflexivity).
    unfold pc_at in P. rewrite E in P. simpl in P. injection P as ->. reflexivity.
  - assert (P : pc_at demo_state 0 = Some (PWork 0)) by (vm_compute; reflexivity).
    unfold pc_at in P. rewrite E in P. discriminate P.
Defined.

(** a query that waits on a flight is never orphaned: while the flight is
    not finished a live query owns it, under the flight's own key, and that
    query can act. *)
Theorem waiter_has_owner (workers profiles : Z) (σ : system) (i : nat) (t : thread) (f : nat) :
  reachable workers profiles σ -> sys_threads σ !! i = Some t -> th_pc t = PShared f ->
  (exists fl, sv_heap (sys_service σ) !! f = Some fl /\ fl_done fl = true) \/
  exists j u, j <> i /\ sys_threads σ !! j = Some u /\ owns (th_pc u) = Some f /\
    sv_flights (sys_service σ) !! th_key u = Some f /\ is_Some (exec (sys_service σ) u (default_choice u)).
Proof.
  intros H Ht Hpc. pose proof (reachable_inv _ _ _ H) as Hi.
  destruct (tok_flight _ _ (inv_threads _ Hi _ _ Ht) f ltac:(by rewrite Hpc)) as [fl Hf].
  destruct (fl_done fl) eqn:Hd; [by eauto|right].
  assert (Hl : counter (CLive f) (sys_service σ) = 1) by (apply live_iff; eauto).
  rewrite (inv_count _ Hi) in Hl. destruct (total_witness (hold (CLive f)) (sys_threads σ)) as (j & u & Hu & Hh); [lia|].
  rewrite hold_CLive in Hh. destruct (owns (th_pc u)) as [g|] eqn:Ho; [|done].
  case_bool_decide; [subst g|done]. exists j, u. repeat split; try done.
  - intros ->. simplify_eq. rewrite Hpc in Ho. done.
  - by apply (tok_owner _ _ (inv_threads _ Hi _ _ Hu)).
  - apply (exec_enabled σ j u Hi Hu). intros E. by rewrite E in Ho.
Qed.

Example waiter_has_owner_witness :
  exists t, sys_threads demo_state !! 1%nat = Some t /\
  ((exists fl, sv_heap (sys_service demo_state) !! 0%nat = Some fl /\ fl_done fl = true) \/
   exists j u, j <> 1%nat /\ sys_threads demo_state !! j = Some u /\ owns (th_pc u) = Some 0%nat /\
     sv_flights (sys_service demo_state) !! th_key u = Some 0%nat /\
     is_Some (exec (sys_service demo_state) u (default_choice u))).
Proof.
  assert (P : pc_at demo_state 1 = Some (PShared 0)) by (vm_compute; reflexivity). unfold pc_at in P.
  destruct (sys_threads demo_state !! 1%nat) as [t|] eqn:E; [|discriminate P].
  exists t. split; [reflexivity|]. refine (waiter_has_owner 2 2 demo_state 1 t 0 demo_reachable E _).
  simpl in P. injection P as Hpc. exact Hpc.
Defined.

(** C19: no slot, byte count, waiter or flight is leaked: when every query has
    returned, in any order and through any refusal, deadline or success path,
    every semaphore and counter of the service and of its route budgets is zero,
    no key is in flight, and every flight that was ever begun is finished with a
    waiter count of zero. *)
Theorem admission_no_leak (workers profiles : Z) (σ : system) :
  reachable workers profiles σ -> all_done σ -> idle (sys_service σ).
Proof. intros H. apply idle_when_done. by eapply reachable_inv. Qed.

Example admission_no_leak_witness : idle (sys_service demo_final).
Proof. apply (admission_no_leak 2 2); [apply demo_final_reachable|apply demo_final_done]. Defined.

(** A query that is not at one of its three waiting points acts without
    any other query: a release never blocks, [finish] never closes a closed
    channel, and no counter it returns is missing. *)
Theorem release_never_blocks (workers profiles : Z) (σ : system) (tid : nat) (t : thread) :
  reachable workers profiles σ -> sys_threads σ !! tid = Some t ->
  match th_pc t with PStart | PShared _ | PQueued _ | PWaitLimit _ | PDone => True
  | _ => is_Some (exec (sys_service σ) t Go) end.
Proof.
  intros H Ht. pose proof (exec_enabled σ tid t (reachable_inv _ _ _ H) Ht) as He.
  unfold default_choice in He. destruct (th_pc t); try done; by apply He.
Qed.

Example release_never_blocks_witness :
  exists t, sys_threads demo_state !! 0%nat = Some t /\ is_Some (exec (sys_service demo_state) t Go).
Proof.
  assert (P : pc_at demo_state 0 = Some (PWork 0)) by (vm_compute; reflexivity). unfold pc_at in P.
  destruct (sys_threads demo_state !! 0%nat) as [t|] eqn:E; [|discriminate P].
  exists t. split; [reflexivity|]. pose proof (release_never_blocks 2 2 demo_state 0 t demo_reachable E) as R.
  simpl in P. injection P as Hpc. rewrite Hpc in R. exact R.
Defined.

(** C18: every query terminates: each action of a query lowers its rank, which
    is at most 18, and from every reachable state the running queries can all
    be driven to their return by their own actions, leaving the service idle. *)
Theorem admission_terminates (workers profiles : Z) (σ : system) :
  reachable workers profiles σ ->
  (forall tid t c s' t', sys_threads σ !! tid = Some t -> exec (sys_service σ) t c = Some (s', t') ->
     (rank (th_pc t') < rank (th_pc t) <= 18)%nat) /\
  exists σ', steps sys_step σ σ' /\ all_done σ' /\ dom (sys_threads σ') = dom (sys_threads σ) /\
    idle (sys_service σ').
Proof.
  intros H. pose proof (reachable_inv _ _ _ H) as Hi. split.
  - intros tid t c s' t' _ Hx. split; [by eapply exec_rank|]. destruct (th_pc t); simpl; lia.
  - destruct (drain_from (Z.to_nat (pending_actions σ)) σ Hi) as (σ' & Hs & Hd & Hdom).
    { lia. }
    exists σ'. do 3 (split; [done|]). apply (idle_when_done σ'); [|done].
    exact (steps_invariant sys_step sys_inv sys_inv_step _ _ Hs Hi).
Qed.

Example admission_terminates_witness :
  exists σ', steps sys_step demo_state σ' /\ all_done σ' /\ idle (sys_service σ').
Proof.
  destruct (admission_terminates 2 2 demo_state demo_reachable) as [_ (σ' & Hs & Hd & _ & Hidle)].
  exists σ'. split; [exact Hs|split; assumption].
Defined.
