(* ===== verification/MemoryBudget.v ===== *)
(** * Memory budgets of the appliance

    Models [internal/memorybudget/budget.go] and the pure part of
    [internal/memorybudget/pressure.go]: how the cgroup limits are read and
    divided between the gateway, Xray and two helper processes, how an explicit
    limit lowers a budget, and the clean file cache a loan may count on.  Files
    and environment variables are arguments; [json.Unmarshal] is a parameter. *)

From Stdlib Require Import String.
From S2P Require Import Prelude GoBase GoText.
Open Scope Z_scope.

Set Default Proof Using "Type".

Definition MiB : Z := 2 ^ 20.

Record Limits := MkLimits { High : Z; Max : Z }.
Record Plan := MkPlan { Ceiling : Z; Gateway : Z; Xray : Z; Worker : Z; Reserve : Z }.
Inductive Role := RGateway | RXray | RWorker.

Definition Derive (limits : Limits) : Plan :=
  let ceiling := High limits in
  let ceiling :=
    if 0 <? Max limits then
      let hardBudget := Max limits -w Z.quot (Max limits) 8 in
      if (ceiling <=? 0) || (hardBudget <? ceiling) then hardBudget else ceiling
    else ceiling in
  let ceiling := if ceiling <=? 0 then 224 *w MiB else ceiling in
  let reserve := Z.min (40 *w MiB) (Z.quot ceiling 4) in
  let worker := Z.min (32 *w MiB) (Z.quot ceiling 8) in
  let regular := (ceiling -w reserve) -w (2 *w worker) in
  let xray := (Z.quot regular 100 *w 65) +w Z.quot (Z.rem regular 100 *w 65) 100 in
  MkPlan ceiling (regular -w xray) xray worker reserve.

Definition For (p : Plan) (role : Role) : Z :=
  match role with RGateway => Gateway p | RXray => Xray p | RWorker => Worker p end.

Definition tighter (a b : Z) : Z :=
  if a <=? 0 then b else if b <=? 0 then a else Z.min a b.

(** The value of a limit file; [None] is a file that cannot be read, and
    [readBounded] reads at most 64 bytes. *)
Definition finiteLimit (body : option gostr) : Z :=
  match body with
  | None => 0
  | Some body =>
      match ParseInt (TrimSpace (take 64 body)) 64 with
      | None => 0
      | Some value => if (value <=? 0) || (2 ^ 60 <=? value) then 0 else value
      end
  end.

(** [ReadV2]: the cgroup path is the list of its elements, [readFile dir name]
    the contents of a file of that directory under the mount; the loop walks
    from the process's own cgroup up to the root. *)
Section ReadV2.
Context (readFile : list gostr -> gostr -> option gostr).

Definition read_dir (result : Limits) (dir : list gostr) : Limits :=
  MkLimits (tighter (High result) (finiteLimit (readFile dir (bs "memory.high"))))
           (tighter (Max result) (finiteLimit (readFile dir (bs "memory.max")))).

(** [path.Dir] of a rooted clean path drops its last element. *)
Fixpoint ReadV2_loop (rev_path : list gostr) (result : Limits) : Limits :=
  let result := read_dir result (rev rev_path) in
  match rev_path with
  | [] => result
  | _ :: parent => ReadV2_loop parent result
  end.
Definition ReadV2 (path : list gostr) : Limits := ReadV2_loop (rev path) (MkLimits 0 0).
End ReadV2.

(** [path.Clean("/" + relative)] as the list of its elements. *)
Definition clean_step (acc : list gostr) (e : gostr) : list gostr :=
  if bool_decide (e = [] \/ e = bs ".") then acc
  else if bool_decide (e = bs "..") then tail acc else e :: acc.
Definition Clean (relative : gostr) : list gostr := rev (foldl clean_step [] (Split relative x2f)).

(** [currentCgroupRelative]: the path of the line [0::path]. *)
Definition cut_prefix (line prefix : gostr) : option gostr :=
  if bool_decide (take (length prefix) line = prefix) then Some (drop (length prefix) line) else None.
Fixpoint first_cgroup (lines : list gostr) : gostr :=
  match lines with
  | [] => bs "/"
  | line :: lines => match cut_prefix line (bs "0::") with Some path => path | None => first_cgroup lines end
  end.
Definition currentCgroupRelative (body : option gostr) : gostr :=
  match body with None => bs "/" | Some body => first_cgroup (Split (take 4096 body) x0a) end.

Section Hint.
(** [json.Unmarshal] into [Limits]. *)
Context (Unmarshal : gostr -> option Limits).

Definition readHint (body : option gostr) : Limits :=
  match body with
  | None => MkLimits 0 0
  | Some body =>
      match Unmarshal (take 4096 body) with
      | Some known =>
          if (16 *w MiB <=? High known) && (High known <=? Max known) && (Max known <=? 8192 *w MiB)
          then known else MkLimits 0 0
      | None => MkLimits 0 0
      end
  end.

(** [Current] with what it reads from the system: the mounted cgroup files,
    [/proc/self/cgroup] and the hint file. *)
Definition detectedLimits (readFile : list gostr -> gostr -> option gostr) (procSelf : option gostr) : Limits :=
  ReadV2 readFile (Clean (currentCgroupRelative procSelf)).
Definition Current (readFile : list gostr -> gostr -> option gostr) (procSelf hint : option gostr) : Plan :=
  let limits := detectedLimits readFile procSelf in
  let limits := if (High limits <=? 0) && (Max limits <=? 0) then readHint hint else limits in
  Derive limits.
End Hint.

(** [Cap]: the table of suffixes in the order of the source. *)
Definition suffixes : list (gostr * Z) :=
  [(bs "KiB", 2 ^ 10); (bs "MiB", MiB); (bs "GiB", 2 ^ 30); (bs "TiB", 2 ^ 40); (bs "B", 1)].

Fixpoint cap_suffix (budget : Z) (requested : gostr) (table : list (gostr * Z)) : option Z :=
  match table with
  | [] => None
  | (text, scale) :: table =>
      match CutSuffix requested text with
      | Some value =>
          Some match ParseInt value 64 with
               | Some n => if (0 <? n) && (n <=? Z.quot budget scale) then n *w scale else budget
               | None => budget
               end
      | None => cap_suffix budget requested table
      end
  end.

Definition Cap (budget : Z) (requested : gostr) : Z :=
  let requested := TrimSpace requested in
  if bool_decide (requested = [] \/ requested = bs "off") then budget
  else
    match cap_suffix budget requested suffixes with
    | Some limit => limit
    | None =>
        match ParseInt requested 64 with
        | Some n => if 0 <? n then Z.min n budget else budget
        | None => budget
        end
    end.

(** [pressureFileCache]: the clean, unmapped part of the page cache. *)
Definition stat_keys : list gostr := [bs "file"; bs "file_mapped"; bs "file_dirty"; bs "file_writeback"].
Fixpoint stat_loop (lines : list gostr) (values : list (gostr * Z)) : option (list (gostr * Z)) :=
  match lines with
  | [] => Some values
  | line :: lines =>
      match Cut line x20 with
      | None => stat_loop lines values
      | Some (key, value) =>
          if bool_decide (key ∈ stat_keys) then
            match ParseInt (TrimSpace value) 64 with
            | None => None
            | Some n =>
                if (n <? 0) || (2 ^ 60 <=? n) then None
                else if bool_decide (key ∈ values.*1) then None
                else stat_loop lines ((key, n) :: values)
            end
          else stat_loop lines values
      end
  end.
Definition stat_value (values : list (gostr * Z)) (key : gostr) : Z :=
  match list_find (fun kv => kv.1 = key) values with Some (_, (_, n)) => n | None => 0 end.
Definition pressureFileCache (body : gostr) : option Z :=
  match stat_loop (Split body x0a) [] with
  | None => None
  | Some values =>
      if bool_decide (length values = 4%nat) then
        let protected := ((stat_value values (bs "file_mapped") +w stat_value values (bs "file_dirty"))
                            +w stat_value values (bs "file_writeback")) +w (4 *w MiB) in
        Some (Z.max 0 (stat_value values (bs "file") -w protected))
      else None
  end.

(** ** The division of a ceiling *)

Definition limits_i64 (l : Limits) : Prop := i64 (High l) /\ i64 (Max l).

(** The same ceiling without machine arithmetic. *)
Definition ceiling_of (l : Limits) : Z :=
  if (High l <=? 0) && (Max l <=? 0) then 224 * MiB
  else if Max l <=? 0 then High l
  else if High l <=? 0 then Max l - Max l / 8
  else Z.min (High l) (Max l - Max l / 8).

(** A plan that divides its ceiling without remainder. *)
Record plan_ok (p : Plan) : Prop := {
  po_ceiling : 0 < Ceiling p <= max_i64;
  po_reserve : Reserve p = Z.min (40 * MiB) (Ceiling p / 4);
  po_worker : Worker p = Z.min (32 * MiB) (Ceiling p / 8);
  po_xray : Xray p = (Gateway p + Xray p) * 65 / 100;
  po_gateway : 0 < Gateway p;
  po_parts : 0 <= Xray p /\ 0 <= Worker p /\ 0 <= Reserve p;
  po_sum : Gateway p + Xray p + 2 * Worker p + Reserve p = Ceiling p;
}.

Lemma split_65 r : 0 <= r -> Z.quot r 100 * 65 + Z.quot (Z.rem r 100 * 65) 100 = r * 65 / 100.
Proof.
  intros Hr. rewrite Z.quot_div_nonneg, Z.rem_mod_nonneg by lia.
  pose proof (Z.mod_pos_bound r 100 ltac:(lia)). rewrite Z.quot_div_nonneg by lia.
  pose proof (Z.div_mod r 100 ltac:(lia)) as E. rewrite E at 3.
  replace ((100 * (r / 100) + r mod 100) * 65) with (r mod 100 * 65 + (r / 100 * 65) * 100) by lia.
  rewrite Z.div_add by lia. lia.
Qed.

Lemma Derive_eq l : limits_i64 l ->
  let c := ceiling_of l in
  let r := c - Z.min (40 * MiB) (c / 4) - 2 * Z.min (32 * MiB) (c / 8) in
  0 < c <= max_i64 /\
  Derive l = MkPlan c (r - r * 65 / 100) (r * 65 / 100) (Z.min (32 * MiB) (c / 8)) (Z.min (40 * MiB) (c / 4)).
Proof.
  intros [HH HM] c r. unfold i64 in *. destruct l as [high mx]. simpl in *.
  assert (Hq : 0 < mx -> Z.quot mx 8 = mx / 8 /\ 0 <= mx / 8 /\ 8 * (mx / 8) <= mx).
  { intros. rewrite Z.quot_div_nonneg by lia. split; [done|]. split; [apply Z.div_pos; lia|]. apply Z.mul_div_le. lia. }
  assert (Hc : (let ceiling := if 0 <? mx then
       if (high <=? 0) || (mx -w Z.quot mx 8 <? high) then mx -w Z.quot mx 8 else high else high in
     if ceiling <=? 0 then 224 *w MiB else ceiling) = c).
  { unfold c, ceiling_of, MiB. simpl. destruct (Z.ltb_spec 0 mx) as [Hm|Hm].
    - destruct (Hq Hm) as (-> & Hp & Hle). rewrite wrap_i64_id by (unfold min_i64, max_i64 in *; lia).
      destruct (Z.leb_spec high 0), (Z.ltb_spec (mx - mx / 8) high); simpl; case_tests.
    - nowrap. case_tests. }
  assert (Hpos : 0 < c <= max_i64).
  { unfold c, ceiling_of, MiB, max_i64 in *. simpl. case_tests; try (specialize (Hq ltac:(lia))); lia. }
  split; [done|]. unfold Derive. cbv zeta in Hc |- *. simpl High. simpl Max. rewrite Hc. clear Hc.
  assert (E4 : Z.quot c 4 = c / 4) by (apply Z.quot_div_nonneg; lia).
  assert (E8 : Z.quot c 8 = c / 8) by (apply Z.quot_div_nonneg; lia).
  pose proof (Z.mul_div_le c 4 ltac:(lia)). pose proof (Z.mul_div_le c 8 ltac:(lia)).
  pose proof (Z.div_pos c 4 ltac:(lia) ltac:(lia)). pose proof (Z.div_pos c 8 ltac:(lia) ltac:(lia)).
  rewrite E4, E8. unfold MiB in *. unfold max_i64 in Hpos.
  rewrite (wrap_i64_id (40 * _)), (wrap_i64_id (32 * _)) by (unfold min_i64, max_i64; lia).
  rewrite (wrap_i64_id (2 * _)) by (unfold min_i64, max_i64; lia).
  rewrite (wrap_i64_id (c - _)) by (unfold min_i64, max_i64; lia).
  rewrite (wrap_i64_id (c - _ - _)) by (unfold min_i64, max_i64; lia). fold r.
  assert (Hr : 0 <= r <= c) by (unfold r; lia).
  pose proof (split_65 r ltac:(lia)) as Hs.
  assert (Hq1 : 0 <= Z.quot r 100 /\ Z.quot r 100 * 100 <= r).
  { rewrite Z.quot_div_nonneg by lia. pose proof (Z.mul_div_le r 100 ltac:(lia)). split; [apply Z.div_pos|]; lia. }
  assert (Hq2 : 0 <= Z.rem r 100 < 100) by (apply Z.rem_bound_pos; lia).
  rewrite (wrap_i64_id (Z.quot r 100 * 65)), (wrap_i64_id (Z.rem r 100 * 65)) by (unfold min_i64, max_i64; lia).
  assert (0 <= r * 65 / 100 <= r).
  { split; [apply Z.div_pos; lia|]. apply Z.div_le_upper_bound; lia. }
  rewrite Hs, (wrap_i64_id (r * 65 / 100)) by (unfold min_i64, max_i64; lia).
  rewrite wrap_i64_id by (unfold min_i64, max_i64; lia). done.
Qed.

Lemma Derive_plan_ok l : limits_i64 l -> plan_ok (Derive l).
Proof.
  intros Hl. destruct (Derive_eq l Hl) as [Hc ->]. set (c := ceiling_of l) in *.
  set (r := c - _ - _).
  pose proof (Z.mul_div_le c 4 ltac:(lia)). pose proof (Z.mul_div_le c 8 ltac:(lia)).
  pose proof (Z.div_pos c 4 ltac:(lia) ltac:(lia)). pose proof (Z.div_pos c 8 ltac:(lia) ltac:(lia)).
  assert (Hr : 0 < r) by (unfold r; lia).
  assert (0 <= r * 65 / 100 < r).
  { split; [apply Z.div_pos; lia|]. apply Z.div_lt_upper_bound; lia. }
  split; simpl; try lia; try done.
  f_equal. lia. unfold MiB. repeat split; lia.
Qed.

(** ** The limits that are read *)

Lemma finiteLimit_range body : 0 <= finiteLimit body < 2 ^ 60.
Proof.
  unfold finiteLimit. destruct body as [body|]; [|lia]. destruct (ParseInt _ _) as [v|]; [|lia].
  destruct (_ || _) eqn:E; [lia|]. bool_prop. lia.
Qed.

(** [r] is the smallest positive value of [P], or zero when there is none. *)
Definition tightest (P : Z -> Prop) (r : Z) : Prop :=
  (forall v, P v -> 0 < v -> 0 < r <= v) /\ (r = 0 \/ (0 < r /\ P r)).

Lemma tighter_tightest (P Q : Z -> Prop) r v :
  0 <= v -> tightest P r -> (forall x, Q x <-> P x \/ x = v) -> tightest Q (tighter r v).
Proof.
  intros Hv [Hmin Hin] HQ. unfold tighter. split.
  - intros x [Hx| ->]%HQ Hp; [destruct (Hmin x Hx Hp)|]; case_tests.
  - rewrite !HQ. case_tests; destruct Hin as [Hin|[Hp Hin]]; try lia; auto;
      destruct (Z.min_spec r v) as [[? ->]|[? ->]]; auto.
Qed.

Lemma suffix_cons_cases {A} (q : list A) e p : suffix q (e :: p) -> q = e :: p \/ suffix q p.
Proof. intros [[|x k] Hk]; simplify_eq/=; [by left|right; by exists k]. Qed.

Section ReadV2Facts.
Context (readFile : list gostr -> gostr -> option gostr).
Definition limit_at (name : gostr) (dir : list gostr) : Z := finiteLimit (readFile dir name).

Lemma ReadV2_loop_tightest rev_path acc (Ph Pm : Z -> Prop) :
  tightest Ph (High acc) -> tightest Pm (Max acc) ->
  let r := ReadV2_loop readFile rev_path acc in
  tightest (fun v => Ph v \/ exists p, suffix p rev_path /\ v = limit_at (bs "memory.high") (rev p)) (High r) /\
  tightest (fun v => Pm v \/ exists p, suffix p rev_path /\ v = limit_at (bs "memory.max") (rev p)) (Max r).
Proof.
  revert acc Ph Pm. induction rev_path as [|e p IH]; intros acc Ph Pm Hh Hm; cbv zeta.
  - simpl. split; (eapply tighter_tightest; [apply finiteLimit_range|eassumption|]); intros x;
      (split; [intros [?|(p & Hp%suffix_nil_inv & ->)]; subst; auto
      |intros [?| ->]; [by left|right; exists []; done]]).
  - cbn [ReadV2_loop].
    destruct (IH (read_dir readFile acc (rev (e :: p)))
      (fun v => Ph v \/ v = limit_at (bs "memory.high") (rev (e :: p)))
      (fun v => Pm v \/ v = limit_at (bs "memory.max") (rev (e :: p)))) as [IHh IHm].
    1,2: (eapply tighter_tightest; [apply finiteLimit_range|eassumption|done]).
    split; [destruct IHh as [H1 H2]|destruct IHm as [H1 H2]]; split.
    1,3: intros v [Hv|(q & [->|Hq]%suffix_cons_cases & ->)]; apply H1; eauto.
    all: destruct H2 as [H2|[Hp [[H2|H2]|(q & Hq & H2)]]]; [by left|right; split; [done|]..];
      [by left|right; by exists (e :: p)|right; exists q; split; [by apply suffix_cons_r|done]].
Qed.

Lemma ReadV2_tightest path :
  let r := ReadV2 readFile path in
  tightest (fun v => exists dir, prefix dir path /\ v = limit_at (bs "memory.high") dir) (High r) /\
  tightest (fun v => exists dir, prefix dir path /\ v = limit_at (bs "memory.max") dir) (Max r).
Proof.
  assert (H0 : tightest (fun _ => False) 0) by (split; [done|by left]).
  destruct (ReadV2_loop_tightest (rev path) (MkLimits 0 0) _ _ H0 H0) as [[A1 A2] [B1 B2]].
  assert (Hd : forall dir, prefix dir path <-> suffix (rev dir) (rev path)).
  { intros dir. unfold prefix, suffix. split; intros [k Hk].
    - exists (rev k). by rewrite Hk, rev_app_distr.
    - exists (rev k). rewrite <- (rev_involutive path), Hk, rev_app_distr. by rewrite rev_involutive. }
  split; split.
  1,3: intros v (dir & Hp%Hd & ->); first [apply A1|apply B1]; right; exists (rev dir); by rewrite rev_involutive.
  - destruct A2 as [|[? [[]|(p & Hp & Hv)]]]; [by left|right; split; [done|]].
    exists (rev p). rewrite Hd, rev_involutive. done.
  - destruct B2 as [|[? [[]|(p & Hp & Hv)]]]; [by left|right; split; [done|]].
    exists (rev p). rewrite Hd, rev_involutive. done.
Qed.
End ReadV2Facts.

(** ** Explicit limits *)

(** What a request asks for, in bytes and without a bound. *)
Fixpoint request_suffix (requested : gostr) (table : list (gostr * Z)) : option (option Z) :=
  match table with
  | [] => None
  | (text, scale) :: table =>
      match CutSuffix requested text with
      | Some value => Some (match ParseInt value 64 with Some n => Some (n * scale) | None => None end)
      | None => request_suffix requested table
      end
  end.
Definition requestedBytes (requested : gostr) : option Z :=
  let requested := TrimSpace requested in
  let v := match request_suffix requested suffixes with Some v => v | None => ParseInt requested 64 end in
  match v with Some n => if 0 <? n then Some n else None | None => None end.

Lemma cap_suffix_eq budget requested table :
  i64 budget -> 0 < budget -> Forall (fun ts => 0 < ts.2) table ->
  cap_suffix budget requested table =
  match request_suffix requested table with
  | Some v => Some (match v with Some n => if 0 <? n then Z.min n budget else budget | None => budget end)
  | None => None
  end.
Proof.
  intros Hi Hb. unfold i64, min_i64, max_i64 in Hi.
  induction 1 as [|[text scale] table Hs _ IH]; simpl in *; [done|].
  destruct (CutSuffix requested text) as [value|]; [|done]. f_equal.
  destruct (ParseInt value 64) as [n|] eqn:E; [|done].
  rewrite Z.quot_div_nonneg by lia.
  pose proof (Z.div_le_lower_bound budget scale n Hs).
  pose proof (Z.mul_div_le budget scale Hs) as Hdiv.
  destruct (Z.ltb_spec 0 n) as [Hn|Hn]; simpl.
  - destruct (Z.leb_spec n (budget / scale)).
    + assert (n * scale <= budget) by nia. rewrite wrap_i64_id by (unfold min_i64, max_i64; nia). case_tests; nia.
    + case_tests; nia.
  - case_tests; nia.
Qed.

Lemma requestedBytes_off requested :
  TrimSpace requested = [] \/ TrimSpace requested = bs "off" -> requestedBytes requested = None.
Proof. unfold requestedBytes. intros [-> | ->]; vm_compute; done. Qed.

Lemma Cap_eq budget requested :
  i64 budget -> 0 < budget ->
  Cap budget requested = match requestedBytes requested with Some n => Z.min n budget | None => budget end.
Proof.
  intros Hi Hb. unfold Cap. case_bool_decide as E; [by rewrite requestedBytes_off|].
  rewrite cap_suffix_eq by (done || (unfold suffixes, MiB; repeat constructor)). unfold requestedBytes.
  destruct (request_suffix _ _) as [[n|]|]; [case_tests|done|].
  destruct (ParseInt _ _) as [n|]; [case_tests|done].
Qed.

(** ** The claims *)

Lemma detected_i64 readFile procSelf : limits_i64 (detectedLimits readFile procSelf).
Proof.
  unfold detectedLimits. destruct (ReadV2_tightest readFile (Clean (currentCgroupRelative procSelf))) as [[_ A] [_ B]].
  assert (R : forall name dir, 0 <= limit_at readFile name dir < 2 ^ 60) by (intros; apply finiteLimit_range).
  split; unfold i64, min_i64, max_i64.
  - destruct A as [-> |[? (dir & _ & E)]]; [lia|]. rewrite E. pose proof (R (bs "memory.high") dir). lia.
  - destruct B as [-> |[? (dir & _ & E)]]; [lia|]. rewrite E. pose proof (R (bs "memory.max") dir). lia.
Qed.

Lemma readHint_i64 Unmarshal hint : limits_i64 (readHint Unmarshal hint).
Proof.
  assert (H0 : limits_i64 (MkLimits 0 0)) by (split; unfold i64, min_i64, max_i64; simpl; lia).
  unfold readHint. destruct hint as [body|]; [|done]. destruct (Unmarshal _) as [k|]; [|done].
  destruct (_ && _) eqn:E; [|done]. bool_prop. unfold MiB in *. rewrite !wrap_i64_id in * by (unfold min_i64, max_i64; lia).
  split; unfold i64, min_i64, max_i64; lia.
Qed.

Lemma ceiling_below l :
  limits_i64 l -> (0 < High l -> ceiling_of l <= High l) /\ (0 < Max l -> ceiling_of l <= Max l - Max l / 8).
Proof. intros _. unfold ceiling_of. split; intros; case_tests. Qed.

Lemma Current_ceiling Unmarshal readFile procSelf hint :
  Ceiling (Current Unmarshal readFile procSelf hint) < 2 ^ 60.
Proof.
  unfold Current. pose proof (detected_i64 readFile procSelf) as Hd.
  destruct (ReadV2_tightest readFile (Clean (currentCgroupRelative procSelf))) as [[_ A] [_ B]].
  fold (detectedLimits readFile procSelf) in A, B. set (d := detectedLimits readFile procSelf) in *.
  assert (R : forall name dir, 0 <= limit_at readFile name dir < 2 ^ 60) by (intros; apply finiteLimit_range).
  assert (HA : 0 <= High d < 2 ^ 60) by (destruct A as [-> |[? (dir & _ & ->)]]; [lia|apply R]).
  assert (HB : 0 <= Max d < 2 ^ 60) by (destruct B as [-> |[? (dir & _ & ->)]]; [lia|apply R]).
  destruct (_ && _).
  - destruct (Derive_eq _ (readHint_i64 Unmarshal hint)) as [_ ->]. simpl.
    assert (Hh : High (readHint Unmarshal hint) <= 8192 * MiB /\ Max (readHint Unmarshal hint) <= 8192 * MiB).
    { unfold readHint. destruct hint as [body|]; [|unfold MiB; simpl; lia].
      destruct (Unmarshal _) as [k|]; [|unfold MiB; simpl; lia].
      destruct (_ && _) eqn:E; [|unfold MiB; simpl; lia]. bool_prop. unfold MiB in *.
      rewrite !wrap_i64_id in * by (unfold min_i64, max_i64; lia). lia. }
    unfold ceiling_of, MiB in *. Z.div_mod_to_equations. case_tests.
  - destruct (Derive_eq _ Hd) as [_ ->]. simpl. unfold ceiling_of, MiB. Z.div_mod_to_equations. case_tests.
Qed.

(** whatever the cgroup files, [/proc/self/cgroup] and the hint file hold,
    [Current] yields a plan that divides its ceiling exactly into non-negative
    parts (the gateway's positive, Xray 65% of the regular part, two helper
    budgets and a reserve), without overflow; and the ceiling stays below every
    finite [memory.high] and below 7/8 of every finite [memory.max] on the path
    from the process's cgroup to the root. *)
Theorem memory_plan_sound (Unmarshal : gostr -> option Limits) (readFile : list gostr -> gostr -> option gostr)
    (procSelf hint : option gostr) :
  let p := Current Unmarshal readFile procSelf hint in
  let path := Clean (currentCgroupRelative procSelf) in
  plan_ok p /\
  forall dir, prefix dir path ->
    (0 < limit_at readFile (bs "memory.high") dir -> Ceiling p <= limit_at readFile (bs "memory.high") dir) /\
    (0 < limit_at readFile (bs "memory.max") dir ->
     Ceiling p <= limit_at readFile (bs "memory.max") dir - limit_at readFile (bs "memory.max") dir / 8).
Proof.
  cbv zeta. unfold Current. pose proof (detected_i64 readFile procSelf) as Hd.
  destruct (ReadV2_tightest readFile (Clean (currentCgroupRelative procSelf))) as [[Ah _] [Bm _]].
  fold (detectedLimits readFile procSelf) in Ah, Bm. set (d := detectedLimits readFile procSelf) in *.
  split.
  { destruct (_ && _); apply Derive_plan_ok; [apply readHint_i64|done]. }
  intros dir Hdir. destruct (Derive_eq d Hd) as [_ Ed]. destruct (ceiling_below d Hd) as [Ch Cm].
  split; intros Hp.
  - destruct (Ah _ (ex_intro _ dir (conj Hdir eq_refl)) Hp). rewrite (proj2 (Z.leb_gt (High d) 0)) by lia.
    rewrite andb_false_l. rewrite Ed. simpl. lia.
  - destruct (Bm _ (ex_intro _ dir (conj Hdir eq_refl)) Hp). rewrite (proj2 (Z.leb_gt (Max d) 0)) by lia.
    rewrite andb_false_r. rewrite Ed. simpl. specialize (Cm ltac:(lia)).
    set (v := limit_at _ _ _) in *. Z.div_mod_to_equations. lia.
Qed.

(** An explicit limit can lower a role's budget but never raise it: [Cap]
    is the minimum of the budget and the requested number of bytes, or the
    budget when the request is absent, malformed, non-positive or too large for
    an [int64], and the product with the unit never overflows. *)
Theorem Cap_correct (budget : Z) (requested : gostr) :
  i64 budget -> 0 < budget ->
  Cap budget requested = match requestedBytes requested with Some n => Z.min n budget | None => budget end /\
  0 < Cap budget requested <= budget.
Proof.
  intros Hi Hb. rewrite Cap_eq by done. split; [done|]. unfold requestedBytes.
  destruct (match _ with Some v => v | None => _ end) as [n|]; [case_tests|lia].
Qed.

Example Cap_correct_witness :
  Cap (100 * MiB) (bs " 64MiB ") = 64 * MiB /\ Cap (100 * MiB) (bs "9TiB") = 100 * MiB /\
  0 < Cap (100 * MiB) (bs "64MiB") <= 100 * MiB.
Proof.
  split; [vm_compute; reflexivity|]. split; [vm_compute; reflexivity|].
  apply (Cap_correct (100 * MiB) (bs "64MiB")); [unfold i64, min_i64, max_i64, MiB; lia|unfold MiB; lia].
Defined.
