(* ===== verification/MemoryLoan.v ===== *)
(** * The ACME memory loan

    Models [internal/memorybudget/acme_loan.go] ([configureACMELoan],
    [canLendACME], [acmeLoan.acquire] with its release) and the monitor of
    [internal/memorybudget/pressure.go] ([idleLimit], [applyLimit],
    [adjustPressure]).  The controller lends the memory budget of the idle ACME
    helper to itself and takes it back before a helper starts.  Any number of
    [acquire] calls and monitor ticks interleave: the slot channel is its length,
    the mutex its holder; usage and pressure samples, deadlines and timers are
    the [choice] of a step. *)

From S2P Require Import Prelude GoBase GoText MemoryBudget.
Open Scope Z_scope.

Record loanPressure := LoanPressure { lp_used : Z; lp_managed : Z; lp_live : Z; lp_nonHeap : Z; lp_cleanFile : Z }.

(** The constant fields of a loan. *)
Record loanConfig := LoanConfig { lc_base : Z; lc_idle : Z; lc_worker : Z; lc_limit : Z; lc_pressure : bool }.

Definition canLendACME (plan : Plan) (limits : Limits) (readable : bool) : bool :=
  readable && ((0 <? High limits) || (0 <? Max limits)) && (Ceiling (Derive limits) =? Ceiling plan).

(** [configureACMELoan]: the limit to set and the loan, if one is made.
    [enabled] and [monitored] are the two environment switches, [readable] and
    [sampled] whether the usage counter and the first pressure sample exist. *)
Definition configureACMELoan (plan : Plan) (requested : gostr) (enabled monitored : bool)
    (limits : Limits) (readable sampled : bool) : Z * option loanConfig :=
  let base := Cap (Gateway plan) requested in
  if negb enabled then (base, None)
  else if negb (canLendACME plan limits readable) then (base, None)
  else
    let idle := Cap (Gateway plan +w Worker plan) requested in
    if idle <=? base then (base, None)
    else if monitored && negb sampled then (base, None)
    else (idle, Some (LoanConfig base idle (Worker plan) (Ceiling plan) monitored)).

(** The mutable part: the slot's length, the mutex, the soft limit the runtime
    has, and [loan.current]. *)
Record loanState := LoanState { ls_slot : bool; ls_mu : option nat; ls_runtime : Z; ls_current : Z }.

Definition idleLimit (cfg : loanConfig) (slot : bool) (sample : option loanPressure) : Z :=
  if slot then lc_base cfg
  else if negb (lc_pressure cfg) then lc_idle cfg
  else
    match sample with
    | None => lc_base cfg
    | Some p =>
        let other := Z.max 0 ((lp_used p -w lp_managed p) -w lp_cleanFile p) in
        let available := (lc_limit cfg -w Z.min (24 *w MiB) (Z.quot (lc_limit cfg) 8)) -w other in
        let floor := Z.min (lc_idle cfg) (Z.max (lc_base cfg) ((lp_live p +w lp_nonHeap p) +w (8 *w MiB))) in
        Z.max floor (Z.min (lc_idle cfg) available)
    end.

Definition applyLimit (s : loanState) (limit : Z) : loanState := LoanState (ls_slot s) (ls_mu s) limit limit.

(** [adjustPressure] after its [idleLimit]. *)
Definition adjustPressure (cfg : loanConfig) (s : loanState) (target : Z) : loanState :=
  let s := if ls_current s =? 0 then LoanState (ls_slot s) (ls_mu s) (ls_runtime s) (lc_idle cfg) else s in
  let target := if ls_current s <? target then Z.min target (ls_current s +w (4 *w MiB)) else target in
  let difference := Z.max target (ls_current s) -w Z.min target (ls_current s) in
  if negb (target =? ls_current s) && ((target =? lc_base cfg) || (target =? lc_idle cfg) || (MiB <=? difference))
  then applyLimit s target else s.

(** [ready]: a sample of the usage counter leaves room for a worker. *)
Definition fits (cfg : loanConfig) (used : Z) : bool :=
  used <=? (lc_limit cfg -w lc_worker cfg) -w Z.min (16 *w MiB) (Z.quot (lc_worker cfg) 2).

(** Program points of [acquire], of the release closure and of a monitor tick. *)
Inductive pc :=
| AStart                      (* the first ctx.Err() *)
| ASlot                       (* select on the slot *)
| ABase                       (* lock, applyLimit(base), unlock *)
| AChecked                    (* ctx.Err() *)
| AReady                      (* first ready() *)
| AReclaimed                  (* ready() inside the loop *)
| AWait                       (* select of the loop *)
| AFinal (used : Z)           (* ctx.Err() before the grant *)
| AGranted (used : Z)         (* acquire returned release; the worker runs *)
| RLock                       (* release: loan.mu.Lock() *)
| RSlot                       (* <-loan.slot *)
| RRead                       (* idleLimit() *)
| RApply (limit : Z)          (* applyLimit, unlock *)
| MLock | MRead | MApply (limit : Z)
| End.

Inductive choice :=
| Go                                     (* the only continuation, or ctx not done *)
| CtxDone | Timer                        (* a cancelled context, the two-second timer *)
| Usage (used : option Z)
| Pressure (sample : option loanPressure).

Definition lock (s : loanState) (tid : nat) : option loanState :=
  match ls_mu s with None => Some (LoanState (ls_slot s) (Some tid) (ls_runtime s) (ls_current s)) | Some _ => None end.
Definition unlock (s : loanState) : loanState := LoanState (ls_slot s) None (ls_runtime s) (ls_current s).
Definition set_slot (s : loanState) (b : bool) : loanState := LoanState b (ls_mu s) (ls_runtime s) (ls_current s).

Definition exec (cfg : loanConfig) (tid : nat) (s : loanState) (p : pc) (c : choice) : option (loanState * pc) :=
  match p, c with
  | AStart, Go => Some (s, ASlot)
  | AStart, CtxDone => Some (s, End)
  | ASlot, Go => if ls_slot s then None else Some (set_slot s true, ABase)
  | ASlot, CtxDone => Some (s, End)
  | ABase, Go => s ← lock s tid; Some (unlock (applyLimit s (lc_base cfg)), AChecked)
  | AChecked, Go => Some (s, AReady)
  | AChecked, CtxDone => Some (s, RLock)
  | AReady, Usage None => Some (s, RLock)
  | AReady, Usage (Some used) => Some (s, if fits cfg used then AFinal used else AReclaimed)
  | AReclaimed, Usage None => Some (s, RLock)
  | AReclaimed, Usage (Some used) => Some (s, if fits cfg used then AFinal used else AWait)
  | AWait, CtxDone | AWait, Timer => Some (s, RLock)
  | AWait, Go => Some (s, AReclaimed)
  | AFinal used, Go => Some (s, AGranted used)
  | AFinal used, CtxDone => Some (s, RLock)
  | AGranted used, Go => Some (s, RLock)
  | RLock, Go => s ← lock s tid; Some (s, RSlot)
  | RSlot, Go => if ls_slot s then Some (set_slot s false, RRead) else None
  | RRead, Pressure sample => Some (s, RApply (idleLimit cfg (ls_slot s) sample))
  | RApply limit, Go => Some (unlock (applyLimit s limit), End)
  | MLock, Go => s ← lock s tid; Some (s, MRead)
  | MRead, Pressure sample => Some (s, MApply (idleLimit cfg (ls_slot s) sample))
  | MApply limit, Go => Some (unlock (adjustPressure cfg s limit), End)
  | _, _ => None
  end.

(** A usable sample: what [controllerPressure] and [currentUsage] can return. *)
Definition sample_ok (p : loanPressure) : Prop :=
  0 <= lp_used p <= max_i64 /\ 0 <= lp_managed p < 2 ^ 60 /\ 0 <= lp_live p < 2 ^ 60 /\
  0 <= lp_nonHeap p < 2 ^ 60 /\ 0 <= lp_cleanFile p < 2 ^ 60.
Definition choice_ok (c : choice) : Prop :=
  match c with
  | Pressure (Some p) => sample_ok p
  | Usage (Some used) => 0 <= used <= max_i64
  | _ => True
  end.

Record system := System { sy_loan : loanState; sy_threads : gmap nat pc }.

Inductive step (cfg : loanConfig) : system -> system -> Prop :=
| step_acquire s ts tid : ts !! tid = None -> step cfg (System s ts) (System s (<[tid:=AStart]> ts))
| step_tick s ts tid : ts !! tid = None -> step cfg (System s ts) (System s (<[tid:=MLock]> ts))
| step_exec s ts tid p c s' p' :
    ts !! tid = Some p -> choice_ok c -> exec cfg tid s p c = Some (s', p') ->
    step cfg (System s ts) (System s' (<[tid:=p']> ts)).

Definition init (cfg : loanConfig) : system := System (LoanState false None (lc_idle cfg) (lc_idle cfg)) ∅.

(** ** The limit that is computed *)

Record config_ok (cfg : loanConfig) : Prop := {
  co_base : 0 < lc_base cfg < lc_idle cfg;
  co_idle : lc_idle cfg <= lc_limit cfg < 2 ^ 60;
  co_worker : 0 <= lc_worker cfg <= lc_limit cfg;
}.

(** A loan that is configured has its base below its idle limit and both within
    the ceiling. *)
Lemma configured_ok plan requested enabled monitored limits readable sampled limit cfg :
  plan_ok plan -> Ceiling plan < 2 ^ 60 ->
  configureACMELoan plan requested enabled monitored limits readable sampled = (limit, Some cfg) ->
  config_ok cfg /\ limit = lc_idle cfg.
Proof.
  intros [[Hc0 Hc1] Hres Hw Hx Hg [Hp1 [Hp2 Hp3]] Hsum] Hc2 H. unfold configureACMELoan in H.
  rewrite (wrap_i64_id (Gateway plan + Worker plan)) in H by (unfold min_i64, max_i64 in *; lia).
  repeat split_if H. split; [|done].
  rewrite (Cap_eq (Gateway plan)), (Cap_eq (Gateway plan + Worker plan)) in *
    by (unfold i64, min_i64, max_i64 in *; lia).
  assert (forall n, requestedBytes requested = Some n -> 0 < n).
  { unfold requestedBytes. intros n. destruct (match _ with Some v => v | None => _ end); [|done].
    case_tests; intros; simplify_eq. done. }
  split; simpl; destruct (requestedBytes requested) as [n|] eqn:E; try specialize (H n eq_refl); lia.
Qed.

Lemma idleLimit_range cfg slot sample :
  config_ok cfg -> (forall p, sample = Some p -> sample_ok p) ->
  lc_base cfg <= idleLimit cfg slot sample <= lc_idle cfg.
Proof.
  intros [Hb Hi Hw] Hs. unfold idleLimit. destruct slot; [lia|]. destruct (negb _); [lia|].
  destruct sample as [p|]; [|lia]. lia.
Qed.

(** ** The invariant *)

(** Threads that hold the slot, that have also lowered the limit, and that hold
    the mutex. *)
Definition based (p : pc) : bool :=
  match p with
  | AChecked | AReady | AReclaimed | AWait | AFinal _ | AGranted _ | RLock | RSlot => true
  | _ => false
  end.
Definition holds_slot (p : pc) : bool := match p with ABase => true | _ => based p end.
Definition holds_mu (p : pc) : bool :=
  match p with RSlot | RRead | RApply _ | MRead | MApply _ => true | _ => false end.
Definition zb (b : bool) : Z := if b then 1 else 0.

Record loan_inv (cfg : loanConfig) (σ : system) : Prop := {
  li_slot : total (fun p => zb (holds_slot p)) (sy_threads σ) = zb (ls_slot (sy_loan σ));
  li_mu tid p : sy_threads σ !! tid = Some p -> holds_mu p = true -> ls_mu (sy_loan σ) = Some tid;
  li_holder tid : ls_mu (sy_loan σ) = Some tid -> exists p, sy_threads σ !! tid = Some p /\ holds_mu p = true;
  li_based tid p : sy_threads σ !! tid = Some p -> based p = true -> ls_current (sy_loan σ) = lc_base cfg;
  li_apply tid l : sy_threads σ !! tid = Some (RApply l) \/ sy_threads σ !! tid = Some (MApply l) ->
    lc_base cfg <= l <= lc_idle cfg /\
    (forall tid' p, sy_threads σ !! tid' = Some p -> based p = true -> l = lc_base cfg);
  li_range : lc_base cfg <= ls_current (sy_loan σ) <= lc_idle cfg;
  li_runtime : ls_runtime (sy_loan σ) = ls_current (sy_loan σ);
  li_fits tid p : sy_threads σ !! tid = Some p ->
    match p with AFinal used | AGranted used => fits cfg used = true | _ => True end;
}.

Lemma slot_holder cfg σ tid p :
  loan_inv cfg σ -> sy_threads σ !! tid = Some p -> holds_slot p = true -> ls_slot (sy_loan σ) = true.
Proof.
  intros Hi Ht Hp. pose proof (li_slot _ _ Hi) as Hs.
  pose proof (total_ge_one (fun p => zb (holds_slot p)) _ _ _ ltac:(intros []; simpl; lia) Ht) as Hge.
  simpl in Hge. rewrite Hp in Hge. destruct (ls_slot (sy_loan σ)); simpl in *; [done|lia].
Qed.

Lemma slot_unique cfg σ i j p q :
  loan_inv cfg σ -> sy_threads σ !! i = Some p -> sy_threads σ !! j = Some q ->
  holds_slot p = true -> holds_slot q = true -> i = j.
Proof.
  intros Hi Hp Hq Sp Sq. destruct (decide (i = j)) as [|Hij]; [done|].
  pose proof (li_slot _ _ Hi) as Hs. rewrite (total_delete _ _ _ _ Hp) in Hs.
  pose proof (total_ge_one (fun p => zb (holds_slot p)) (delete i (sy_threads σ)) j q
    ltac:(intros []; simpl; lia) ltac:(by rewrite lookup_delete_ne)) as Hge.
  simpl in Hs, Hge. rewrite Sp in Hs. rewrite Sq in Hge. destruct (ls_slot (sy_loan σ)); simpl in *; lia.
Qed.

Lemma based_slot p : based p = true -> holds_slot p = true.
Proof. by destruct p. Qed.

Lemma adjustPressure_spec cfg s target :
  config_ok cfg -> lc_base cfg <= ls_current s <= lc_idle cfg -> ls_runtime s = ls_current s ->
  lc_base cfg <= target <= lc_idle cfg ->
  let s' := adjustPressure cfg s target in
  ls_slot s' = ls_slot s /\ ls_mu s' = ls_mu s /\ ls_runtime s' = ls_current s' /\
  lc_base cfg <= ls_current s' <= lc_idle cfg /\ ls_current s' <= Z.max (ls_current s) target /\
  ls_current s' <= ls_current s + 4 * MiB /\
  (target < ls_current s - MiB -> ls_current s' = target) /\
  (target = lc_base cfg -> ls_current s' = lc_base cfg).
Proof.
  intros [Hb Hi Hw] Hr Hrt Ht. unfold adjustPressure. rewrite (proj2 (Z.eqb_neq (ls_current s) 0)) by lia.
  unfold MiB in *. rewrite (wrap_i64_id (4 * 2 ^ 20)) by (unfold min_i64, max_i64; lia).
  rewrite (wrap_i64_id (ls_current s + _)) by (unfold min_i64, max_i64; lia).
  destruct (Z.ltb_spec (ls_current s) target);
    rewrite wrap_i64_id by (unfold min_i64, max_i64; lia);
    destruct (negb _ && _) eqn:E; simpl; repeat split; try done; try lia;
    apply andb_false_iff in E as [E|E]; bool_prop; try lia; apply orb_false_iff in E as [E1 E2];
    bool_prop; lia.
Qed.

(** A step of one thread re-establishes the invariant when it accounts for the
    slot, moves the mutex properly, and respects the limit of lowered threads. *)
Lemma loan_inv_update cfg s ts tid p s' p' :
  loan_inv cfg (System s ts) -> ts !! tid = Some p ->
  zb (ls_slot s') - zb (ls_slot s) = zb (holds_slot p') - zb (holds_slot p) ->
  ls_mu s' = (if holds_mu p' then Some tid else if holds_mu p then None else ls_mu s) ->
  (holds_mu p' = true -> holds_mu p = true \/ ls_mu s = None) ->
  lc_base cfg <= ls_current s' <= lc_idle cfg -> ls_runtime s' = ls_current s' ->
  (based p' = true -> ls_current s' = lc_base cfg /\ (based p = true \/ ls_mu s = None)) ->
  (forall j q, j <> tid -> ts !! j = Some q -> based q = true -> ls_current s' = lc_base cfg) ->
  (forall l, p' = RApply l \/ p' = MApply l -> lc_base cfg <= l <= lc_idle cfg /\
     (ls_slot s = true -> l = lc_base cfg)) ->
  match p' with AFinal used | AGranted used => fits cfg used = true | _ => True end ->
  loan_inv cfg (System s' (<[tid:=p']> ts)).
Proof.
  intros Hi Ht Hslot Hmu Hmu' Hrange Hrt Hbased Hothers Happly Hfits.
  assert (Hno : ls_mu s = None -> forall j q, ts !! j = Some q -> holds_mu q = false).
  { intros Hn j q Hq. destruct (holds_mu q) eqn:E; [|done]. pose proof (li_mu _ _ Hi j q Hq E). simpl in *. congruence. }
  split; simpl; try done.
  - rewrite (total_update _ _ _ _ _ Ht). pose proof (li_slot _ _ Hi) as Hs. simpl in Hs. lia.
  - intros j q. rewrite lookup_insert_Some. intros [[<- <-]|[Hj Hq]] Hh; rewrite Hmu; [by rewrite Hh|].
    pose proof (li_mu _ _ Hi j q Hq Hh) as Hm. simpl in Hm.
    destruct (holds_mu p') eqn:E'; [|destruct (holds_mu p) eqn:E; [|done]].
    + destruct (Hmu' eq_refl) as [E|E]; [|congruence]. pose proof (li_mu _ _ Hi tid p Ht E). simpl in *. congruence.
    + pose proof (li_mu _ _ Hi tid p Ht E). simpl in *. congruence.
  - intros j Hj. rewrite Hmu in Hj. destruct (holds_mu p') eqn:E'; simplify_eq.
    + exists p'. by rewrite lookup_insert_eq.
    + destruct (holds_mu p) eqn:E; [done|]. destruct (li_holder _ _ Hi j Hj) as (q & Hq & Hh). simpl in Hq.
      exists q. rewrite lookup_insert_ne by congruence. done.
  - intros j q. rewrite lookup_insert_Some. intros [[<- <-]|[Hj Hq]] Hb; [by apply Hbased|by eapply Hothers].
  - intros j l. rewrite !lookup_insert_Some. intros Hj.
    assert (Hc : (j = tid /\ (p' = RApply l \/ p' = MApply l)) \/
                 (j <> tid /\ (ts !! j = Some (RApply l) \/ ts !! j = Some (MApply l)))) by naive_solver.
    destruct Hc as [[-> Hp']|[Hne Hl]].
    + destruct (Happly l Hp') as [Hr Hs]. split; [done|]. intros k q. rewrite lookup_insert_Some.
      intros [[<- <-]|[Hk Hq]] Hb; [by destruct Hp' as [-> | ->]|].
      apply Hs. exact (slot_holder _ _ _ _ Hi Hq (based_slot _ Hb)).
    + destruct (li_apply _ _ Hi j l Hl) as [Hr Hs]. split; [done|]. intros k q. rewrite lookup_insert_Some.
      intros [[<- <-]|[Hk Hq]] Hb; [|by eapply Hs].
      destruct (Hbased Hb) as [_ [Hbp|Hn]]; [by eapply Hs|].
      destruct Hl as [Hl|Hl]; by specialize (Hno Hn _ _ Hl).
  - intros j q. rewrite lookup_insert_Some. intros [[<- <-]|[Hj Hq]]; [done|by eapply (li_fits _ _ Hi)].
Qed.

(** A step that changes no shared state. *)
Lemma loan_inv_quiet cfg s ts tid p p' :
  loan_inv cfg (System s ts) -> ts !! tid = Some p ->
  holds_slot p' = holds_slot p -> holds_mu p' = holds_mu p -> based p' = based p ->
  (forall l, p' = RApply l \/ p' = MApply l -> lc_base cfg <= l <= lc_idle cfg /\ (ls_slot s = true -> l = lc_base cfg)) ->
  match p' with AFinal used | AGranted used => fits cfg used = true | _ => True end ->
  loan_inv cfg (System s (<[tid:=p']> ts)).
Proof.
  intros Hi Ht Hs Hm Hb Ha Hf. pose proof (li_based _ _ Hi) as Hbase. simpl in Hbase.
  eapply loan_inv_update; try done; try apply Hi; rewrite ?Hs, ?Hm, ?Hb; try lia.
  - destruct (holds_mu p) eqn:E; [|done]. apply (li_mu _ _ Hi _ _ Ht E).
  - auto.
  - intros E. split; [by eapply Hbase|auto].
  - intros. by eapply Hbase.
Qed.

(** Without a lowered thread, or with the limit lowered, other threads agree. *)
Lemma slot_free_based cfg s ts j q :
  loan_inv cfg (System s ts) -> ls_slot s = false -> ts !! j = Some q -> based q = true -> False.
Proof. intros Hi Hs Hq Hb. pose proof (slot_holder _ _ _ _ Hi Hq (based_slot _ Hb)). simpl in *. congruence. Qed.

Ltac loan_step := eapply loan_inv_update; try done; simpl; auto; try lia; try (intros ? [[=]|[=]]).

Lemma loan_inv_exec cfg s ts tid p c s' p' :
  config_ok cfg -> loan_inv cfg (System s ts) -> ts !! tid = Some p -> choice_ok c ->
  exec cfg tid s p c = Some (s', p') -> loan_inv cfg (System s' (<[tid:=p']> ts)).
Proof.
  intros Hcfg Hi Ht Hc H.
  pose proof (li_range _ _ Hi) as Hr. pose proof (li_runtime _ _ Hi) as Hrt.
  pose proof (li_fits _ _ Hi tid p Ht) as Hf. pose proof (li_based _ _ Hi) as Hbase. simpl in *.
  destruct (co_base _ Hcfg) as [Hb0 Hb1].
  assert (Hsample : forall sample slot, c = Pressure sample -> lc_base cfg <= idleLimit cfg slot sample <= lc_idle cfg).
  { intros sample slot ->. apply idleLimit_range; [done|]. intros q ->. exact Hc. }
  destruct p, c; simpl in H; try discriminate H;
    try (try match type of H with context [match ?u with _ => _ end] => is_var u; destruct u end;
         repeat match type of H with
         | context [if ?b then _ else _] => destruct b eqn:?
         end; injection H as <- <-;
         apply (loan_inv_quiet cfg s ts tid _ _ Hi Ht); solve [done | intros l [E|E]; done]).
  - (* take the slot *) destruct (ls_slot s) eqn:E; [done|]. injection H as <- <-.
    loan_step; rewrite ?E; try done. intros j q _ Hq Hb. by eapply Hbase.
  - (* lower the limit *) destruct (ls_mu s) eqn:E; simpl in H; unfold lock in H; rewrite E in H; [done|].
    injection H as <- <-. loan_step.
  - (* lock for the release *) unfold lock in H. destruct (ls_mu s) eqn:E; simpl in H; [done|]. injection H as <- <-.
    loan_step.
    + intros _. split; [by eapply Hbase|auto].
    + intros j q _ Hq Hb. by eapply Hbase.
  - (* give the slot back *) destruct (ls_slot s) eqn:E; [|done]. injection H as <- <-.
    pose proof (li_mu _ _ Hi _ _ Ht eq_refl) as Hm. simpl in Hm.
    loan_step; rewrite ?E; auto.
    intros j q _ Hq Hb. by eapply Hbase.
  - (* the limit after a release *) injection H as <- <-.
    apply (loan_inv_quiet cfg s ts tid _ _ Hi Ht); try done. intros l [[= <-]|[=]].
    split; [by apply Hsample|]. intros Hs. unfold idleLimit. by rewrite Hs.
  - (* apply it *) injection H as <- <-.
    destruct (li_apply _ _ Hi tid limit (or_introl Ht)) as [Hl Hlb]. simpl in Hlb.
    loan_step.
    + intros j q _ Hq Hb. by eapply Hlb.
  - (* lock for a tick *) unfold lock in H. destruct (ls_mu s) eqn:E; simpl in H; [done|]. injection H as <- <-.
    loan_step. intros j q _ Hq Hb. by eapply Hbase.
  - (* the limit of a tick *) injection H as <- <-.
    apply (loan_inv_quiet cfg s ts tid _ _ Hi Ht); try done. intros l [[=]|[= <-]].
    split; [by apply Hsample|]. intros Hs. unfold idleLimit. by rewrite Hs.
  - (* apply it *) injection H as <- <-.
    destruct (li_apply _ _ Hi tid limit (or_intror Ht)) as [Hl Hlb]. simpl in Hlb.
    destruct (adjustPressure_spec cfg s limit Hcfg Hr Hrt Hl) as (E1 & E2 & E3 & E4 & _ & _ & _ & E5).
    loan_step; rewrite ?E1, ?E3; try lia; auto.
    + intros j q _ Hq Hb. apply E5. by eapply Hlb.
Qed.

Lemma loan_inv_init cfg : config_ok cfg -> loan_inv cfg (init cfg).
Proof.
  intros [Hb _ _]. split; simpl; try done; try lia; try (intros; by rewrite lookup_empty in *).
  intros tid l [H|H]; by rewrite lookup_empty in H.
Qed.

Lemma loan_inv_arrive cfg s ts tid p :
  loan_inv cfg (System s ts) -> ts !! tid = None -> p = AStart \/ p = MLock ->
  loan_inv cfg (System s (<[tid:=p]> ts)).
Proof.
  intros Hi Hn Hp. assert (Hq : holds_slot p = false /\ holds_mu p = false /\ based p = false)
    by (by destruct Hp as [-> | ->]). destruct Hq as (Q1 & Q2 & Q3).
  split; simpl; try apply Hi.
  - rewrite total_insert_new, Q1 by done. apply Hi.
  - intros j q. rewrite lookup_insert_Some. intros [[<- <-]|[_ Hj]] Hh; [congruence|by apply (li_mu _ _ Hi _ _ Hj)].
  - intros j Hj. destruct (li_holder _ _ Hi j Hj) as (q & Hq & Hh). exists q. split; [|done].
    rewrite lookup_insert_ne; [done|]. intros <-. simpl in Hq. congruence.
  - intros j q. rewrite lookup_insert_Some. intros [[<- <-]|[_ Hj]] Hh; [congruence|by apply (li_based _ _ Hi _ _ Hj)].
  - intros j l. rewrite !lookup_insert_Some. intros Hj.
    destruct (li_apply _ _ Hi j l) as [H1 H2]; [destruct Hp as [-> | ->]; naive_solver|]. split; [done|].
    intros k q. rewrite lookup_insert_Some. intros [[<- <-]|[_ Hk]] Hh; [congruence|by eapply H2].
  - intros j q. rewrite lookup_insert_Some. intros [[<- <-]|[_ Hj]]; [by destruct Hp as [-> | ->]|].
    by apply (li_fits _ _ Hi _ _ Hj).
Qed.

Lemma loan_reachable_inv cfg σ : config_ok cfg -> steps (step cfg) (init cfg) σ -> loan_inv cfg σ.
Proof.
  intros Hc H. eapply steps_invariant; [|done|by apply loan_inv_init].
  intros a b Ha Hst. destruct Hst; [eapply loan_inv_arrive; eauto..|by eapply loan_inv_exec].
Qed.

Lemma fits_headroom cfg used :
  config_ok cfg -> fits cfg used = true ->
  used + lc_worker cfg + Z.min (16 * MiB) (lc_worker cfg / 2) <= lc_limit cfg.
Proof.
  intros [Hb Hi Hw] H. unfold fits, MiB in *. rewrite Z.quot_div_nonneg in H by lia.
  pose proof (Z.div_pos (lc_worker cfg) 2 ltac:(lia) ltac:(lia)).
  rewrite (wrap_i64_id (16 * _)) in H by (unfold min_i64, max_i64; lia).
  rewrite (wrap_i64_id (lc_limit cfg - _)) in H by (unfold min_i64, max_i64; lia).
  rewrite wrap_i64_id in H by (unfold min_i64, max_i64; lia). bool_prop. lia.
Qed.

(** *** An executable schedule *)

Inductive event := Acquire (tid : nat) | Tick (tid : nat) | Act (tid : nat) (c : choice).
Definition valid_choice (c : choice) : bool :=
  match c with
  | Pressure (Some p) =>
      (0 <=? lp_used p) && (lp_used p <=? max_i64) && (0 <=? lp_managed p) && (lp_managed p <? 2 ^ 60) &&
      (0 <=? lp_live p) && (lp_live p <? 2 ^ 60) && (0 <=? lp_nonHeap p) && (lp_nonHeap p <? 2 ^ 60) &&
      (0 <=? lp_cleanFile p) && (lp_cleanFile p <? 2 ^ 60)
  | Usage (Some used) => (0 <=? used) && (used <=? max_i64)
  | _ => true
  end.

Definition play1 (cfg : loanConfig) (σ : system) (e : event) : option system :=
  match e with
  | Acquire tid => match sy_threads σ !! tid with None => Some (System (sy_loan σ) (<[tid:=AStart]> (sy_threads σ))) | _ => None end
  | Tick tid => match sy_threads σ !! tid with None => Some (System (sy_loan σ) (<[tid:=MLock]> (sy_threads σ))) | _ => None end
  | Act tid c =>
      if valid_choice c then
        p ← sy_threads σ !! tid; '(s', p') ← exec cfg tid (sy_loan σ) p c; Some (System s' (<[tid:=p']> (sy_threads σ)))
      else None
  end.
Fixpoint play (cfg : loanConfig) (σ : system) (es : list event) : option system :=
  match es with [] => Some σ | e :: es => σ ← play1 cfg σ e; play cfg σ es end.

Lemma valid_choice_ok c : valid_choice c = true -> choice_ok c.
Proof.
  unfold choice_ok, sample_ok. destruct c as [| | |[u|]|[p|]]; simpl; try done; intros H; bool_prop; repeat split; lia.
Qed.

Lemma loan_play_steps cfg es σ σ' : play cfg σ es = Some σ' -> steps (step cfg) σ σ'.
Proof.
  revert σ. induction es as [|e es IH]; simpl; intros σ; [intros [= <-]; constructor|].
  destruct (play1 cfg σ e) as [σ1|] eqn:E; simpl; [|done]. intros H. econstructor; [|by apply IH].
  destruct σ as [s ts], e as [tid|tid|tid c]; simpl in E.
  - destruct (ts !! tid) eqn:Et; simplify_eq. by constructor.
  - destruct (ts !! tid) eqn:Et; simplify_eq. by constructor.
  - destruct (valid_choice c) eqn:Ev; [|done]. destruct (ts !! tid) as [p|] eqn:Et; simpl in E; [|done].
    destruct (exec cfg tid s p c) as [[s' p']|] eqn:Ex; simpl in E; [|done]. simplify_eq.
    eapply step_exec; [done|by apply valid_choice_ok|done].
Qed.

Definition demo_cfg : loanConfig := LoanConfig (60 * MiB) (90 * MiB) (30 * MiB) (220 * MiB) true.
Lemma demo_cfg_ok : config_ok demo_cfg.
Proof. split; unfold demo_cfg, MiB; simpl; lia. Qed.

(** A helper is granted the slot while a monitor tick is in flight. *)
Definition demo : list event :=
  [Tick 0; Act 0 Go; Acquire 1; Act 1 Go; Act 1 Go; Act 0 (Pressure None); Act 0 Go; Act 1 Go; Act 1 Go;
   Act 1 (Usage (Some (190 * MiB))); Act 1 (Usage (Some (120 * MiB))); Act 1 Go; Tick 2; Act 2 Go;
   Act 2 (Pressure (Some (LoanPressure (150 * MiB) (40 * MiB) (20 * MiB) (5 * MiB) (10 * MiB)))); Act 2 Go].
Definition demo_state : system := default (init demo_cfg) (play demo_cfg (init demo_cfg) demo).
Definition demo_end : list event := demo ++ [Act 1 Go; Act 1 Go; Act 1 Go;
   Act 1 (Pressure (Some (LoanPressure (150 * MiB) (40 * MiB) (20 * MiB) (5 * MiB) (10 * MiB)))); Act 1 Go].
Definition demo_final : system := default (init demo_cfg) (play demo_cfg (init demo_cfg) demo_end).

Lemma loan_demo_reachable : steps (step demo_cfg) (init demo_cfg) demo_state.
Proof. apply (loan_play_steps _ demo). vm_compute. reflexivity. Qed.
Lemma loan_demo_final_reachable : steps (step demo_cfg) (init demo_cfg) demo_final.
Proof. apply (loan_play_steps _ demo_end). vm_compute. reflexivity. Qed.

(** ** The claims *)

(** C36: while a helper owns the loaned slot (from the moment the limit was
    lowered until its release returns the slot), the controller's memory limit
    is its base limit, no other helper owns the slot, and a granted helper was
    admitted with a usage sample that leaves its budget and a margin free; at
    all times the limit lies between the base and the idle limit and the
    runtime's limit is the recorded one. *)
Theorem loan_safe (cfg : loanConfig) (σ : system) :
  config_ok cfg -> steps (step cfg) (init cfg) σ ->
  lc_base cfg <= ls_runtime (sy_loan σ) <= lc_idle cfg /\
  ls_runtime (sy_loan σ) = ls_current (sy_loan σ) /\
  (forall tid p, sy_threads σ !! tid = Some p -> based p = true ->
     ls_runtime (sy_loan σ) = lc_base cfg /\
     forall tid' p', sy_threads σ !! tid' = Some p' -> based p' = true -> tid' = tid) /\
  (forall tid used, sy_threads σ !! tid = Some (AGranted used) ->
     used + lc_worker cfg + Z.min (16 * MiB) (lc_worker cfg / 2) <= lc_limit cfg).
Proof.
  intros Hc H. pose proof (loan_reachable_inv _ _ Hc H) as Hi. rewrite (li_runtime _ _ Hi).
  split; [apply Hi|]. split; [done|]. split.
  - intros tid p Hp Hb. split; [by eapply li_based|]. intros tid' p' Hp' Hb'.
    eapply slot_unique; eauto using based_slot.
  - intros tid used Ht. apply fits_headroom; [done|]. exact (li_fits _ _ Hi _ _ Ht).
Qed.

Example loan_safe_witness :
  ls_runtime (sy_loan demo_state) = 60 * MiB /\ 120 * MiB + 30 * MiB + 15 * MiB <= 220 * MiB.
Proof.
  destruct (loan_safe demo_cfg demo_state demo_cfg_ok loan_demo_reachable) as (_ & _ & H1 & H2).
  assert (E : sy_threads demo_state !! 1%nat = Some (AGranted (120 * MiB))) by (vm_compute; reflexivity).
  split; [exact (proj1 (H1 _ _ E eq_refl))|exact (H2 _ _ E)].
Defined.

(** The slot and the mutex are never leaked: whatever way each acquisition
    ends, once no call is running the slot is free and the mutex unlocked. *)
Theorem loan_no_leak (cfg : loanConfig) (σ : system) :
  config_ok cfg -> steps (step cfg) (init cfg) σ ->
  (forall tid p, sy_threads σ !! tid = Some p -> p = End) ->
  ls_slot (sy_loan σ) = false /\ ls_mu (sy_loan σ) = None.
Proof.
  intros Hc H Hend. pose proof (loan_reachable_inv _ _ Hc H) as Hi. split.
  - pose proof (li_slot _ _ Hi) as Hs. rewrite total_zero in Hs.
    + destruct (ls_slot (sy_loan σ)); [done|done].
    + intros i p Hp. by rewrite (Hend _ _ Hp).
  - destruct (ls_mu (sy_loan σ)) as [tid|] eqn:E; [|done]. destruct (li_holder _ _ Hi tid E) as (p & Hp & Hh).
    by rewrite (Hend _ _ Hp) in Hh.
Qed.

Example loan_no_leak_witness : ls_slot (sy_loan demo_final) = false /\ ls_mu (sy_loan demo_final) = None.
Proof.
  apply (loan_no_leak demo_cfg demo_final demo_cfg_ok loan_demo_final_reachable).
  assert (H : bool_decide (map_Forall (fun _ p => match p with End => true | _ => false end = true)
    (sy_threads demo_final)) = true) by (vm_compute; reflexivity).
  apply bool_decide_eq_true in H. intros tid p Hp. specialize (H tid p Hp). simpl in H. clear Hp.
  destruct p; (reflexivity || discriminate H).
Defined.

(** A monitor tick moves the limit by at most 4 MiB upwards, follows a lower
    target (more than 1 MiB below) at once, always reaches the base limit when
    asked to, and stays between base and idle limit. *)
Theorem adjustPressure_correct (cfg : loanConfig) (s : loanState) (sample : option loanPressure) :
  config_ok cfg -> lc_base cfg <= ls_current s <= lc_idle cfg -> ls_runtime s = ls_current s ->
  choice_ok (Pressure sample) ->
  let target := idleLimit cfg (ls_slot s) sample in
  let s' := adjustPressure cfg s target in
  lc_base cfg <= ls_runtime s' <= lc_idle cfg /\ ls_runtime s' <= ls_runtime s + 4 * MiB /\
  ls_runtime s' <= Z.max (ls_runtime s) target /\
  (target < ls_runtime s - MiB -> ls_runtime s' = target) /\
  (ls_slot s = true \/ (lc_pressure cfg = true /\ sample = None) -> ls_runtime s' = lc_base cfg).
Proof.
  intros Hc Hr Hrt Hs target s'. rewrite Hrt.
  assert (Ht : lc_base cfg <= target <= lc_idle cfg) by (apply idleLimit_range; [done|by intros p ->]).
  destruct (adjustPressure_spec cfg s target Hc Hr Hrt Ht) as (_ & _ & E3 & E4 & E5 & E6 & E7 & E8).
  fold s' in E3, E4, E5, E6, E7, E8. rewrite E3. do 4 (split; [done|]). intros Hor. apply E8.
  unfold target, idleLimit. destruct Hor as [-> |[-> ->]]; [done|]. by destruct (ls_slot s).
Qed.

Example adjustPressure_correct_witness :
  let s := LoanState false None (90 * MiB) (90 * MiB) in
  let p := LoanPressure (215 * MiB) (40 * MiB) (20 * MiB) (5 * MiB) (10 * MiB) in
  ls_runtime (adjustPressure demo_cfg s (idleLimit demo_cfg false (Some p))) = 60 * MiB.
Proof.
  intros s p. destruct (adjustPressure_correct demo_cfg (LoanState false None (90 * MiB) (90 * MiB))
    (Some (LoanPressure (215 * MiB) (40 * MiB) (20 * MiB) (5 * MiB) (10 * MiB))) demo_cfg_ok) as (_ & _ & _ & H & _);
    [unfold demo_cfg, MiB; simpl; lia|done|unfold choice_ok, sample_ok, max_i64, MiB; simpl; lia|].
  etransitivity; [apply H|]; vm_compute; reflexivity.
Defined.
