(* ===== verification/ApplyGuard.v ===== *)
(** * The runtime-restart guard file

    Models [internal/applyguard/guard.go]: a guard file names the process that
    restarts the runtime, when it started and when it last refreshed the file;
    the watchdog and the agent hold back while such a guard is active.  Whether
    a process exists is the parameter [alive]. *)

From Stdlib Require Import String.
From S2P Require Import Prelude GoBase GoText.
Open Scope Z_scope.

Definition active (data : gostr) (now : Z) (alive : Z -> bool) : bool :=
  let fields := Fields data in
  if (length fields <? 2)%nat || (3 <? length fields)%nat then false
  else
    let field n := default [] (fields !! n) in
    let pid := ParseInt (field 0%nat) 32 in
    let started := ParseInt (field 1%nat) 64 in
    let refreshed := if (length fields =? 3)%nat then ParseInt (field 2%nat) 64 else started in
    match pid, started, refreshed with
    | Some pid, Some started, Some refreshed =>
        if pid <? 1 then false
        else
          let age := unix now -w started in
          let heartbeat := unix now -w refreshed in
          (started <=? refreshed) && (0 <=? age) && (age <=? 1800) && (0 <=? heartbeat) && (heartbeat <=? 90) && alive pid
    | _, _, _ => false
    end.

(** [Active]: the path may be empty and the file unreadable. *)
Definition Active (path : gostr) (readFile : gostr -> option gostr) (now : Z) (alive : Z -> bool) : bool :=
  match path with
  | [] => false
  | _ => match readFile path with Some data => active data now alive | None => false end
  end.

(** What a guard file says. *)
Definition guard_of (data : gostr) (pid started refreshed : Z) : Prop :=
  exists p s, ParseInt p 32 = Some pid /\ ParseInt s 64 = Some started /\
    ((Fields data = [p; s] /\ refreshed = started) \/
     exists r, Fields data = [p; s; r] /\ ParseInt r 64 = Some refreshed).

Lemma age_window now t hi :
  0 <= now <= max_i64 -> i64 t -> 0 <= hi <= 1800 -> (0 <= now -w t <= hi <-> 0 <= now - t <= hi).
Proof.
  unfold i64, wrap_i64, min_i64, max_i64. intros Hn Ht Hh.
  destruct (Z.lt_ge_cases (now - t) (2 ^ 63)).
  - rewrite Z.mod_small by lia. lia.
  - replace (now - t + 2 ^ 63) with ((now - t - 2 ^ 63) + 1 * 2 ^ 64) by lia.
    rewrite Z.mod_add, Z.mod_small by lia. lia.
Qed.

Lemma active_fields data now alive :
  0 <= unix now <= max_i64 ->
  active data now alive = true <->
  exists pid started refreshed, guard_of data pid started refreshed /\ 1 <= pid /\ started <= refreshed /\
    0 <= unix now - started <= 1800 /\ 0 <= unix now - refreshed <= 90 /\ alive pid = true.
Proof.
  intros Hnow.
  assert (Hcore : forall pid started refreshed, i64 started -> i64 refreshed ->
    (if pid <? 1 then false else
      (started <=? refreshed) && (0 <=? unix now -w started) && (unix now -w started <=? 1800)
      && (0 <=? unix now -w refreshed) && (unix now -w refreshed <=? 90) && alive pid) = true <->
    1 <= pid /\ started <= refreshed /\ 0 <= unix now - started <= 1800 /\ 0 <= unix now - refreshed <= 90 /\ alive pid = true).
  { intros pid started refreshed Hs Hr.
    pose proof (age_window (unix now) started 1800 Hnow Hs ltac:(lia)).
    pose proof (age_window (unix now) refreshed 90 Hnow Hr ltac:(lia)).
    destruct (Z.ltb_spec pid 1); [split; [done|lia]|]. rewrite !andb_true_iff, !Z.leb_le. intuition lia. }
  assert (Hi : forall f v, ParseInt f 64 = Some v -> i64 v).
  { intros f v Hv. apply ParseInt_range in Hv; [|lia]. unfold i64, min_i64, max_i64. lia. }
  unfold active, guard_of. destruct (Fields data) as [|p [|s [|r [|x l]]]]; simpl.
  1,2,5: split; [done|]; naive_solver.
  - destruct (ParseInt p 32) as [pid|] eqn:Ep; [|split; [done|naive_solver]].
    destruct (ParseInt s 64) as [started|] eqn:Es; [|split; [done|naive_solver]].
    rewrite Hcore by eauto. split; [intros H; exists pid, started, started; naive_solver|].
    intros (pid' & s' & r' & (p0 & s0 & E1 & E2 & [[E ->]|(r0 & E & _)]) & H); simplify_eq. done.
  - destruct (ParseInt p 32) as [pid|] eqn:Ep; [|split; [done|naive_solver]].
    destruct (ParseInt s 64) as [started|] eqn:Es; [|split; [done|naive_solver]].
    destruct (ParseInt r 64) as [refreshed|] eqn:Er; [|split; [done|naive_solver]].
    rewrite Hcore by eauto. split; [intros H; exists pid, started, refreshed; naive_solver|].
    intros (pid' & s' & r' & (p0 & s0 & E1 & E2 & [[E ->]|(r0 & E & E3)]) & H); simplify_eq. done.
Qed.

(** A guard is active exactly when the file holds two or three integers, the
    process (a positive 32-bit identifier) is alive, it started at most 1800 s
    ago and was refreshed, not before its start, at most 90 s ago; times in the
    future are rejected and no file content can pass through an overflow of the
    subtraction. *)
Theorem active_correct (data : gostr) (now : Z) (alive : Z -> bool) :
  0 <= unix now <= max_i64 ->
  active data now alive = true <->
  exists pid started refreshed, guard_of data pid started refreshed /\ 1 <= pid /\ started <= refreshed /\
    0 <= unix now - started <= 1800 /\ 0 <= unix now - refreshed <= 90 /\ alive pid = true.
Proof. apply active_fields. Qed.

Example active_correct_witness :
  active (bs "42 1000 1060") (1100 * second) (fun pid => pid =? 42) = true /\
  active (bs "42 -9223372036854775808") (1100 * second) (fun _ => true) = false.
Proof.
  split.
  - apply (active_correct (bs "42 1000 1060") (1100 * second) (fun pid => pid =? 42)).
    + vm_compute. split; discriminate.
    + exists 42, 1000, 1060. split; [|vm_compute; intuition discriminate].
      exists (bs "42"), (bs "1000"). split; [vm_compute; reflexivity|]. split; [vm_compute; reflexivity|].
      right. exists (bs "1060"). split; vm_compute; reflexivity.
  - vm_compute. reflexivity.
Defined.
