(* ===== verification/Supervisor.v ===== *)
(** * The appliance supervisor

    Models [internal/appliance/supervisor.go] after [Run] has started its
    programs: one goroutine per program ([runProgram]), any number of callers of
    [Restart], and the environment, which lets children return, timers fire and
    contexts end at any time.  One action is one channel operation or one
    critical section; a caller hands its request to a program in one action, as
    the channel is unbuffered. *)

From Stdlib Require Import String.
From S2P Require Import Prelude GoBase.
Open Scope Z_scope.

(** ** State *)

Inductive stopError := Canceled | OtherStop | StoppedWithoutError.
#[export] Instance stopError_eq : EqDecision stopError.
Proof. solve_decision. Defined.

Definition expectedStopError (e : option stopError) : option stopError :=
  match e with Some Canceled | None => None | _ => e end.
Definition unexpectedStopError (e : option stopError) : option stopError :=
  match e with None => Some StoppedWithoutError | _ => e end.

(** A child: none, in its [Run], or returned with its result in the buffer. *)
Inductive child := NoChild | Alive | Returned (e : option stopError).

Inductive pc :=
| Top                    (* the condition of the loop *)
| Selecting              (* the select of a running generation *)
| Reloading (r : nat)    (* in Reload for a request *)
| Draining (r : nat)     (* cancelled for a request, waiting for the child *)
| Backoff                (* waiting for the restart delay *)
| Stopping               (* cancelled at shutdown, waiting for the child *)
| Exited.

(** [pg_starts] counts the started generations; it is only there to state
    properties. *)
Record programState := Program {
  pg_pc : pc; pg_generation : Z; pg_running : bool; pg_lastError : option stopError;
  pg_failures : Z; pg_restarted : option nat; pg_child : child; pg_reload : bool; pg_starts : nat }.

(** A request: its acknowledgement once sent, and the program and its number of
    starts when the request was taken. *)
Record restartRequest := Request { rq_ack : option (option stopError); rq_program : gostr; rq_starts : nat }.

(** A caller of [Restart]: the programs still to restart, the request it waits
    for, its result. *)
Record caller := Caller { ca_rest : list gostr; ca_wait : option nat; ca_result : option (option stopError) }.

Record Supervisor := Sup {
  su_cancelled : bool; su_programs : gmap gostr programState; su_requests : gmap nat restartRequest;
  su_next : nat; su_callers : gmap nat caller }.

(** ** Pure parts *)

Definition restartDelay (failures : Z) : Z :=
  if failures <? 1 then 0
  else let failures := if 5 <? failures then 5 else failures in Z.shiftl 1 (failures - 1) * second.

Fixpoint selected_loop (programs : gmap gostr programState) (seen : gset gostr) (names : list gostr) : option (list gostr) :=
  match names with
  | [] => Some []
  | name :: names =>
      if decide (name ∈ seen) then selected_loop programs seen names
      else match programs !! name with
           | None => None
           | Some _ => cons name <$> selected_loop programs ({[name]} ∪ seen) names
           end
  end.
Definition selected (s : Supervisor) (names : list gostr) : option (list gostr) := selected_loop (su_programs s) ∅ names.

Definition newProgram (reload : bool) : programState := Program Top 0 false None 0 None NoChild reload 0.
(** [NewSupervisor]: the names with their reload capability. *)
Fixpoint newStates (l : list (gostr * bool)) (states : gmap gostr programState) : option (gmap gostr programState) :=
  match l with
  | [] => Some states
  | (name, reload) :: l =>
      if bool_decide (name = []) then None
      else match states !! name with
           | Some _ => None
           | None => newStates l (<[name:=newProgram reload]> states)
           end
  end.
Definition NewSupervisor (l : list (gostr * bool)) : option Supervisor :=
  match newStates l ∅ with
  | Some states => if bool_decide (states = ∅) then None else Some (Sup false states ∅ 0 ∅)
  | None => None
  end.

(** ** Transitions *)

Definition setStarted (p : programState) : programState :=
  Program (pg_pc p) ((pg_generation p + 1) mod 2 ^ 64) true None (pg_failures p) (pg_restarted p) (pg_child p) (pg_reload p) (S (pg_starts p)).
Definition setStopped (p : programState) (e : option stopError) : programState :=
  Program (pg_pc p) (pg_generation p) false e (pg_failures p) (pg_restarted p) (pg_child p) (pg_reload p) (pg_starts p).
Definition goto (p : programState) (c : pc) : programState :=
  Program c (pg_generation p) (pg_running p) (pg_lastError p) (pg_failures p) (pg_restarted p) (pg_child p) (pg_reload p) (pg_starts p).
Definition with_child (p : programState) (c : child) : programState :=
  Program (pg_pc p) (pg_generation p) (pg_running p) (pg_lastError p) (pg_failures p) (pg_restarted p) c (pg_reload p) (pg_starts p).
Definition with_restarted (p : programState) (r : option nat) : programState :=
  Program (pg_pc p) (pg_generation p) (pg_running p) (pg_lastError p) (pg_failures p) r (pg_child p) (pg_reload p) (pg_starts p).
Definition with_failures (p : programState) (n : Z) : programState :=
  Program (pg_pc p) (pg_generation p) (pg_running p) (pg_lastError p) n (pg_restarted p) (pg_child p) (pg_reload p) (pg_starts p).

(** A send on an acknowledgement channel, which has one place: [None] when the
    place is taken, the sender would block for ever. *)
Definition sendAck (r : nat) (e : option stopError) (requests : gmap nat restartRequest) : option (gmap nat restartRequest) :=
  q ← requests !! r;
  match rq_ack q with
  | None => Some (<[r:=Request (Some e) (rq_program q) (rq_starts q)]> requests)
  | Some _ => None
  end.

Definition with_program (s : Supervisor) (name : gostr) (p : programState) : Supervisor :=
  Sup (su_cancelled s) (<[name:=p]> (su_programs s)) (su_requests s) (su_next s) (su_callers s).
Definition with_requests (s : Supervisor) (l : gmap nat restartRequest) : Supervisor :=
  Sup (su_cancelled s) (su_programs s) l (su_next s) (su_callers s).
Definition with_caller (s : Supervisor) (c : nat) (k : caller) : Supervisor :=
  Sup (su_cancelled s) (su_programs s) (su_requests s) (su_next s) (<[c:=k]> (su_callers s)).

Inductive action :=
| Cancel                                        (* the context of Run ends *)
| ChildReturns (name : gostr) (e : option stopError)
| Loop (name : gostr)                           (* the loop condition and the start of a generation *)
| TakeRequest (name : gostr) (c : nat)          (* case request := <-state.restart *)
| ReloadReturns (name : gostr) (e : option stopError)
| TakeResult (name : gostr)                     (* case err := <-result *)
| TakeDone (name : gostr)                       (* case <-ctx.Done() *)
| DrainResult (name : gostr)                    (* <-result after cancel *)
| BackoffEnds (name : gostr)                    (* the timer of waitContext *)
| BackoffDone (name : gostr)                    (* the context in waitContext *)
| CallRestart (c : nat) (names : list gostr)
| ReceiveAck (c : nat)
| CallerGivesUp (c : nat).                      (* the context of the caller *)

Definition startGeneration (s : Supervisor) (name : gostr) (p : programState) : option Supervisor :=
  let p := goto (with_child (setStarted p) Alive) Selecting in
  match pg_restarted p with
  | None => Some (with_program s name p)
  | Some r =>
      requests ← sendAck r None (su_requests s);
      Some (with_program (with_requests s requests) name (with_restarted p None))
  end.

Definition exec (s : Supervisor) (a : action) : option Supervisor :=
  match a with
  | Cancel => Some (Sup true (su_programs s) (su_requests s) (su_next s) (su_callers s))
  | ChildReturns name e =>
      p ← su_programs s !! name;
      match pg_child p with Alive => Some (with_program s name (with_child p (Returned e))) | _ => None end
  | Loop name =>
      p ← su_programs s !! name;
      match pg_pc p with
      | Top => if su_cancelled s then Some (with_program s name (goto p Exited)) else startGeneration s name p
      | _ => None
      end
  | TakeRequest name c =>
      p ← su_programs s !! name;
      k ← su_callers s !! c;
      match pg_pc p, ca_wait k, ca_result k, ca_rest k with
      | Selecting, None, None, next :: rest =>
          if bool_decide (next = name) then
            let r := su_next s in
            Some (Sup (su_cancelled s)
                    (<[name:=goto p (if pg_reload p then Reloading r else Draining r)]> (su_programs s))
                    (<[r:=Request None name (pg_starts p)]> (su_requests s)) (S r)
                    (<[c:=Caller rest (Some r) None]> (su_callers s)))
          else None
      | _, _, _, _ => None
      end
  | ReloadReturns name e =>
      p ← su_programs s !! name;
      match pg_pc p with
      | Reloading r => requests ← sendAck r e (su_requests s); Some (with_program (with_requests s requests) name (goto p Selecting))
      | _ => None
      end
  | TakeResult name =>
      p ← su_programs s !! name;
      match pg_pc p, pg_child p with
      | Selecting, Returned e =>
          let p := with_child p NoChild in
          if su_cancelled s then Some (with_program s name (goto (setStopped p None) Exited))
          else Some (with_program s name (goto (setStopped (with_failures p (pg_failures p +w 1)) (unexpectedStopError e)) Backoff))
      | _, _ => None
      end
  | TakeDone name =>
      p ← su_programs s !! name;
      match pg_pc p with
      | Selecting => if su_cancelled s then Some (with_program s name (goto p Stopping)) else None
      | _ => None
      end
  | DrainResult name =>
      p ← su_programs s !! name;
      match pg_pc p, pg_child p with
      | Draining r, Returned e =>
          let p := with_child p NoChild in
          if su_cancelled s then
            requests ← sendAck r (Some Canceled) (su_requests s);
            Some (with_program (with_requests s requests) name (goto p Exited))
          else
            Some (with_program s name (goto (with_restarted (with_failures (setStopped p (expectedStopError e)) 0) (Some r)) Top))
      | Stopping, Returned e =>
          let p := goto (setStopped (with_child p NoChild) None) Exited in
          match pg_restarted p with
          | None => Some (with_program s name p)
          | Some r => requests ← sendAck r (Some Canceled) (su_requests s); Some (with_program (with_requests s requests) name p)
          end
      | _, _ => None
      end
  | BackoffEnds name =>
      p ← su_programs s !! name;
      match pg_pc p with Backoff => Some (with_program s name (goto p Top)) | _ => None end
  | BackoffDone name =>
      p ← su_programs s !! name;
      match pg_pc p with
      | Backoff => if su_cancelled s then Some (with_program s name (goto p Exited)) else None
      | _ => None
      end
  | CallRestart c names =>
      match su_callers s !! c with
      | Some _ => None
      | None =>
          match selected s names with
          | Some [] => Some (with_caller s c (Caller [] None (Some None)))
          | Some l => Some (with_caller s c (Caller l None None))
          | None => Some (with_caller s c (Caller [] None (Some (Some OtherStop))))
          end
      end
  | ReceiveAck c =>
      k ← su_callers s !! c;
      r ← ca_wait k;
      q ← su_requests s !! r;
      match ca_result k, rq_ack q with
      | None, Some (Some e) => Some (with_caller s c (Caller (ca_rest k) None (Some (Some e))))
      | None, Some None =>
          Some (with_caller s c (Caller (ca_rest k) None (match ca_rest k with [] => Some None | _ => None end)))
      | _, _ => None
      end
  | CallerGivesUp c =>
      k ← su_callers s !! c;
      match ca_result k with
      | None => Some (with_caller s c (Caller (ca_rest k) None (Some (Some Canceled))))
      | Some _ => None
      end
  end.

Definition step (s s' : Supervisor) : Prop := exists a, exec s a = Some s'.

(** What [Run] reports when the shutdown takes too long. *)
Definition unresponsive (s : Supervisor) : gset gostr := dom (filter (fun x => pg_running x.2 = true) (su_programs s)).
