(* ===== verification/SupervisorSafety.v ===== *)
(** * The supervisor: single instances, truthful acknowledgements, shutdown

    An invariant of all interleavings of [Supervisor], and the measure by which a
    shutdown ends. *)

From Stdlib Require Import String.
From S2P Require Import Prelude GoBase Supervisor.
Open Scope Z_scope.

(** ** The invariant *)

(** What each point of [runProgram] says about the program. *)
Definition shape (cancelled : bool) (p : programState) : Prop :=
  pg_generation p = Z.of_nat (pg_starts p) mod 2 ^ 64 /\
  match pg_pc p with
  | Top => pg_child p = NoChild /\ pg_running p = false
  | Selecting | Draining _ => pg_child p <> NoChild /\ pg_running p = true /\ pg_restarted p = None
  | Reloading _ => pg_child p <> NoChild /\ pg_running p = true /\ pg_restarted p = None /\ pg_reload p = true
  | Backoff => pg_child p = NoChild /\ pg_running p = false /\ pg_restarted p = None
  | Stopping => pg_child p <> NoChild /\ pg_running p = true /\ pg_restarted p = None /\ cancelled = true
  | Exited => pg_child p = NoChild /\ cancelled = true
  end.

(** The request a program still has to acknowledge. *)
Definition owed (p : programState) : option nat :=
  match pg_pc p with Reloading r | Draining r => Some r | _ => pg_restarted p end.

Definition acked (q : restartRequest) (r : nat) (p : programState) : Prop :=
  match rq_ack q with
  | None => owed p = Some r
  | Some None => pg_reload p = true \/ (rq_starts q < pg_starts p)%nat
  | Some (Some _) => True
  end.

Record inv (s : Supervisor) : Prop := {
  i_shape name p : su_programs s !! name = Some p -> shape (su_cancelled s) p;
  i_owed name p r : su_programs s !! name = Some p -> owed p = Some r ->
    exists n, su_requests s !! r = Some (Request None name n) /\ (n <= pg_starts p)%nat;
  i_request r q : su_requests s !! r = Some q -> (r < su_next s)%nat /\
    exists p, su_programs s !! rq_program q = Some p /\ (rq_starts q <= pg_starts p)%nat /\ acked q r p;
  i_wait c k r : su_callers s !! c = Some k -> ca_wait k = Some r -> is_Some (su_requests s !! r) }.

(** A program moves on without an acknowledgement. *)
Lemma inv_program s name p p' :
  inv s -> su_programs s !! name = Some p -> shape (su_cancelled s) p' -> owed p' = owed p ->
  (pg_starts p <= pg_starts p')%nat -> pg_reload p' = pg_reload p -> inv (with_program s name p').
Proof.
  intros I Hp Hs Ho Hle Hr. constructor; simpl.
  - intros n q. rewrite lookup_insert_Some. intros [[<- <-]|[_ H]]; [done|by eapply i_shape].
  - intros n q r. rewrite lookup_insert_Some. intros [[<- <-]|[_ H]] H2; [|by eapply i_owed].
    rewrite Ho in H2. destruct (i_owed s I name p r Hp H2) as (m & ? & ?). exists m. split; [done|lia].
  - intros r q Hq. destruct (i_request s I r q Hq) as (Hn & p1 & H1 & H2 & H3). split; [done|].
    destruct (decide (rq_program q = name)) as [E|E].
    + rewrite E, Hp in H1. injection H1 as <-. exists p'. rewrite E, lookup_insert_eq. split_and!; [done|lia|].
      unfold acked in *. rewrite Ho, Hr. destruct (rq_ack q) as [[]|]; [done| |done]. destruct H3; [by left|right; lia].
    + exists p1. by rewrite lookup_insert_ne.
  - apply (i_wait s I).
Qed.

(** A program sends the acknowledgement it owes: the place is free. *)
Lemma inv_ack s name p p' r e :
  inv s -> su_programs s !! name = Some p -> owed p = Some r -> shape (su_cancelled s) p' -> owed p' = None ->
  (pg_starts p <= pg_starts p')%nat -> pg_reload p' = pg_reload p ->
  (e = None -> pg_reload p' = true \/ (pg_starts p < pg_starts p')%nat) ->
  exists requests, sendAck r e (su_requests s) = Some requests /\ inv (with_program (with_requests s requests) name p').
Proof.
  intros I Hp Ho Hs Ho' Hle Hr He. destruct (i_owed s I name p r Hp Ho) as (n & Hq & Hn).
  unfold sendAck. rewrite Hq. simpl. eexists. split; [done|]. constructor; simpl.
  - intros m q. rewrite lookup_insert_Some. intros [[<- <-]|[_ H]]; [done|by eapply i_shape].
  - intros m q r2. rewrite lookup_insert_Some. intros [[<- <-]|[Hne H]] H2; [congruence|].
    destruct (i_owed s I m q r2 H H2) as (k & Hk & Hle2). exists k. split; [|done].
    destruct (decide (r = r2)) as [->|]; [rewrite Hq in Hk; congruence|by rewrite lookup_insert_ne].
  - intros r2 q. rewrite lookup_insert_Some. intros [[<- <-]|[Hne H]]; simpl.
    + destruct (i_request s I r _ Hq) as (Hlt & _). split; [done|]. exists p'. rewrite lookup_insert_eq. split_and!; [done|lia|].
      unfold acked. simpl. destruct e; [done|]. destruct He; [done|by left|right; lia].
    + destruct (i_request s I r2 q H) as (Hlt & p1 & H1 & H2 & H3). split; [done|].
      destruct (decide (rq_program q = name)) as [E|E]; [|by exists p1; rewrite lookup_insert_ne].
      rewrite E, Hp in H1. injection H1 as <-. exists p'. rewrite E, lookup_insert_eq. split_and!; [done|lia|].
      unfold acked in *. rewrite Hr. destruct (rq_ack q) as [[]|]; [done| |congruence]. destruct H3; [by left|right; lia].
  - intros c k r2 Hk Hw. destruct (i_wait s I c k r2 Hk Hw) as [q H]. destruct (decide (r = r2)) as [->|].
    + rewrite lookup_insert_eq. by eexists.
    + rewrite lookup_insert_ne by done. by eexists.
Qed.

Lemma inv_caller s c k : inv s -> (forall r, ca_wait k = Some r -> is_Some (su_requests s !! r)) -> inv (with_caller s c k).
Proof.
  intros I Hk. constructor; simpl; [apply (i_shape s I)|apply (i_owed s I)|apply (i_request s I)|].
  intros c2 k2 r. rewrite lookup_insert_Some. intros [[<- <-]|[_ H]]; [apply Hk|by eapply i_wait].
Qed.

(** A program takes a request. *)
Lemma inv_take s name p p' c rest :
  inv s -> su_programs s !! name = Some p -> owed p = None -> shape (su_cancelled s) p' -> owed p' = Some (su_next s) ->
  pg_starts p' = pg_starts p -> pg_reload p' = pg_reload p ->
  inv (Sup (su_cancelled s) (<[name:=p']> (su_programs s)) (<[su_next s:=Request None name (pg_starts p)]> (su_requests s)) (S (su_next s))
         (<[c:=Caller rest (Some (su_next s)) None]> (su_callers s))).
Proof.
  intros I Hp Ho Hs Ho' Hst Hr.
  assert (Hfresh : forall r, is_Some (su_requests s !! r) -> su_next s <> r).
  { intros r [q H] E. destruct (i_request s I r q H) as [? _]. lia. }
  constructor; simpl.
  - intros m q. rewrite lookup_insert_Some. intros [[<- <-]|[_ H]]; [done|by eapply i_shape].
  - intros m q r. rewrite lookup_insert_Some. intros [[<- <-]|[Hne H]] H2.
    + rewrite Ho' in H2. injection H2 as <-. exists (pg_starts p). rewrite lookup_insert_eq. split; [done|lia].
    + destruct (i_owed s I m q r H H2) as (k & Hk & Hle). exists k. rewrite lookup_insert_ne; [done|]. apply Hfresh. by eexists.
  - intros r q. rewrite lookup_insert_Some. intros [[<- <-]|[Hne H]]; simpl.
    + split; [lia|]. exists p'. rewrite lookup_insert_eq. split_and!; [done|lia|done].
    + destruct (i_request s I r q H) as (Hlt & p1 & H1 & H2 & H3). split; [lia|].
      destruct (decide (rq_program q = name)) as [E|E]; [|by exists p1; rewrite lookup_insert_ne].
      rewrite E, Hp in H1. injection H1 as <-. exists p'. rewrite E, lookup_insert_eq. split_and!; [done|lia|].
      unfold acked in *. rewrite Hr, Hst. destruct (rq_ack q) as [[]|]; [done|done|congruence].
  - intros c2 k2 r. rewrite lookup_insert_Some. intros [[<- <-]|[_ H]] Hw.
    + simpl in Hw. injection Hw as <-. rewrite lookup_insert_eq. by eexists.
    + pose proof (i_wait s I c2 k2 r H Hw) as Hx. rewrite lookup_insert_ne by by apply Hfresh. done.
Qed.

Lemma setStarted_generation n : (Z.of_nat n mod 2 ^ 64 + 1) mod 2 ^ 64 = Z.of_nat (S n) mod 2 ^ 64.
Proof. rewrite Zplus_mod_idemp_l. f_equal. lia. Qed.

Lemma inv_start s name p : inv s -> su_programs s !! name = Some p -> pg_pc p = Top ->
  exists s', startGeneration s name p = Some s' /\ inv s'.
Proof.
  intros I Hp Hpc. pose proof (i_shape s I name p Hp) as (Hg & Hsh). rewrite Hpc in Hsh. destruct Hsh as [Hc Hr].
  unfold startGeneration. simpl.
  assert (Hs : shape (su_cancelled s) (with_restarted (goto (with_child (setStarted p) Alive) Selecting) None)).
  { split; [simpl; rewrite Hg; apply setStarted_generation|]. by repeat split. }
  destruct (pg_restarted p) as [r|] eqn:Er.
  - destruct (inv_ack s name p _ r None I Hp ltac:(unfold owed; by rewrite Hpc) Hs) as (l & -> & Hi); simpl; auto.
    eexists. split; [done|exact Hi].
  - eexists. split; [done|]. eapply inv_program; [done|done| | |simpl; lia|done].
    + destruct p. simpl in *. by subst.
    + unfold owed. by rewrite Hpc.
Qed.

(** Every action keeps the invariant. *)
Lemma inv_exec s a s' : inv s -> exec s a = Some s' -> inv s'.
Proof.
  intros I. destruct a as [|name e|name|name c|name e|name|name|name|name|name|c names|c|c]; simpl; try
    (destruct (su_programs s !! name) as [p|] eqn:Hp; [simpl|done]; pose proof (i_shape s I name p Hp) as (Hg & Hsh)).
  - intros [= <-]. constructor; simpl; [|apply (i_owed s I)|apply (i_request s I)|apply (i_wait s I)].
    intros n p Hp. destruct (i_shape s I n p Hp) as (Hg & Hsh). split; [done|]. destruct (pg_pc p); tauto.
  - destruct (pg_child p) eqn:Hc; try done. intros [= <-]. eapply inv_program; [done|done| |done|done|done].
    split; [done|]. simpl. destruct (pg_pc p); destruct Hsh as [Hch Hsh]; first [congruence|split; [discriminate|exact Hsh]].
  - destruct (pg_pc p) eqn:Hpc; try done. destruct (su_cancelled s) eqn:Hx.
    + intros [= <-]. eapply inv_program; [done|done| | |done|done]; [|unfold owed; by rewrite Hpc].
      split; [done|]. rewrite Hx. by destruct Hsh.
    + destruct (inv_start s name p I Hp Hpc) as (s1 & -> & Hi). by intros [= <-].
  - destruct (su_callers s !! c) as [k|] eqn:Hk; [simpl|done].
    destruct (pg_pc p) eqn:Hpc; try done. destruct (ca_wait k); try done. destruct (ca_result k); try done. destruct (ca_rest k) as [|next rest]; try done.
    destruct Hsh as (Hc & Hr & Hn). assert (Ho : owed p = None) by (unfold owed; by rewrite Hpc).
    case_bool_decide as E; [|done]. intros [= <-]. apply inv_take; auto.
    + split; [done|]. simpl. destruct (pg_reload p) eqn:El; simpl; auto.
    + unfold owed. simpl. by destruct (pg_reload p).
  - destruct (pg_pc p) eqn:Hpc; try done. destruct Hsh as (Hc & Hr & Hn & Hl).
    destruct (inv_ack s name p (goto p Selecting) r e I Hp) as (l & -> & Hi); simpl; auto.
    + unfold owed. by rewrite Hpc.
    + by split.
    + by intros [= <-].
  - destruct (pg_pc p) eqn:Hpc; try done. destruct (pg_child p) as [| |e] eqn:Hc; try done. destruct Hsh as (_ & Hr & Hn).
    destruct (su_cancelled s) eqn:Hx; intros [= <-]; (eapply inv_program; [done|done| |unfold owed; by rewrite Hpc|done|done]); split; simpl; auto.
  - destruct (pg_pc p) eqn:Hpc; try done. destruct (su_cancelled s) eqn:Hx; [|done]. intros [= <-].
    eapply inv_program; [done|done| |unfold owed; by rewrite Hpc|done|done]. split; [done|]. rewrite Hx. simpl. tauto.
  - destruct (pg_pc p) eqn:Hpc; try done; destruct (pg_child p) as [| |e] eqn:Hc; try done.
    + destruct Hsh as (_ & Hr & Hn). destruct (su_cancelled s) eqn:Hx.
      * destruct (inv_ack s name p (goto (with_child p NoChild) Exited) r (Some Canceled) I Hp) as (l & -> & Hi); simpl; auto.
        -- unfold owed. by rewrite Hpc.
        -- split; [done|]. by rewrite Hx.
        -- done.
        -- by intros [= <-].
      * intros [= <-]. eapply inv_program; [done|done| |unfold owed; by rewrite Hpc|done|done]. by repeat split.
    + destruct Hsh as (_ & Hr & Hn & Hx). rewrite Hn. intros [= <-].
      eapply inv_program; [done|done| |unfold owed; by rewrite Hpc|done|done]. by repeat split.
  - destruct (pg_pc p) eqn:Hpc; try done. intros [= <-]. destruct Hsh as (Hc & Hr & Hn).
    eapply inv_program; [done|done| |unfold owed; by rewrite Hpc|done|done]. by repeat split.
  - destruct (pg_pc p) eqn:Hpc; try done. destruct (su_cancelled s) eqn:Hx; [|done]. intros [= <-]. destruct Hsh as (Hc & Hr & Hn).
    eapply inv_program; [done|done| |unfold owed; by rewrite Hpc|done|done]. by repeat split; rewrite ?Hx.
  - destruct (su_callers s !! c); [done|]. destruct (selected s names) as [[|x l]|]; intros [= <-]; by apply inv_caller.
  - destruct (su_callers s !! c) as [k|] eqn:Hk; [simpl|done]. destruct (ca_wait k); [simpl|done]. destruct (su_requests s !! _); [simpl|done].
    destruct (ca_result k); [done|]. destruct (rq_ack _) as [[]|]; [| |done]; intros [= <-]; by apply inv_caller.
  - destruct (su_callers s !! c) as [k|] eqn:Hk; [simpl|done]. destruct (ca_result k); [done|]. intros [= <-]. by apply inv_caller.
Qed.

Lemma newStates_inv l states states' :
  newStates l states = Some states' -> (forall name p, states !! name = Some p -> exists b, p = newProgram b) ->
  forall name p, states' !! name = Some p -> exists b, p = newProgram b.
Proof.
  revert states. induction l as [|[n b] l IH]; intros states; simpl; [by intros [= <-]|].
  case_bool_decide; [done|]. destruct (states !! n) eqn:E; [done|]. intros H1 Hs. eapply IH; [exact H1|].
  intros name p. rewrite lookup_insert_Some. intros [[_ <-]|[_ Hp]]; eauto.
Qed.
Lemma inv_new l s : NewSupervisor l = Some s -> inv s.
Proof.
  unfold NewSupervisor. destruct (newStates l ∅) as [states|] eqn:E; [|done]. case_bool_decide; [done|]. intros [= <-].
  pose proof (newStates_inv l ∅ states E) as Hn.
  assert (Hs : forall name p, states !! name = Some p -> exists b, p = newProgram b) by (apply Hn; intros ? ? Hx; by rewrite lookup_empty in Hx).
  constructor; simpl.
  - intros name p Hp. destruct (Hs name p Hp) as [b ->]. by repeat split.
  - intros name p r Hp Ho. destruct (Hs name p Hp) as [b ->]. done.
  - intros r q Hq. by rewrite lookup_empty in Hq.
  - intros c k r Hk. by rewrite lookup_empty in Hk.
Qed.

Definition reachable (l : list (gostr * bool)) (s : Supervisor) : Prop := exists s0, NewSupervisor l = Some s0 /\ steps step s0 s.
Lemma inv_reachable l s : reachable l s -> inv s.
Proof.
  intros (s0 & H0 & Hs). pose proof (inv_new l s0 H0) as I. clear H0. induction Hs as [|a b c [x Hx] _ IH]; [done|]. apply IH. by eapply inv_exec.
Qed.

(** ** Generations *)

(** A generation starts only while no child lives and not after cancellation. *)
Lemma exec_starts s a s' name p p' :
  inv s -> exec s a = Some s' -> su_programs s !! name = Some p -> su_programs s' !! name = Some p' ->
  pg_starts p' = pg_starts p \/ (a = Loop name /\ pg_starts p' = S (pg_starts p) /\ pg_child p = NoChild /\ pg_child p' = Alive /\ su_cancelled s = false).
Proof.
  intros I H Hp Hp'.
  assert (Hsame : forall s1 n p1 p2, su_programs s !! n = Some p1 -> su_programs s1 = <[n:=p2]> (su_programs s) -> pg_starts p2 = pg_starts p1 ->
    Some s1 = Some s' -> pg_starts p' = pg_starts p).
  { intros s1 n p1 p2 H1 H2 H3 [= <-]. rewrite H2, lookup_insert_Some in Hp'. destruct Hp' as [[<- <-]|[_ Hq]]; congruence. }
  assert (Heq : forall s1, su_programs s1 = su_programs s -> Some s1 = Some s' -> pg_starts p' = pg_starts p).
  { intros s1 H1 [= <-]. rewrite H1 in Hp'. congruence. }
  destruct a as [|n e|n|n c|n e|n|n|n|n|n|c names|c|c]; simpl in H; try (left; (refine (Heq _ _ H); reflexivity));
    try (destruct (su_programs s !! n) as [q|] eqn:Hq; simpl in H; [|done]).
  - left. destruct (pg_child q); try done. (refine (Hsame _ n q _ Hq _ _ H); reflexivity).
  - destruct (pg_pc q) eqn:Hpc; try done. destruct (su_cancelled s) eqn:Hx; [left; (refine (Hsame _ n q _ Hq _ _ H); reflexivity)|].
    destruct (decide (n = name)) as [->|Hne].
    + right. pose proof (i_shape s I name q Hq) as (_ & Hsh). rewrite Hpc in Hsh. rewrite Hp in Hq. injection Hq as <-.
      unfold startGeneration in H. simpl in H. destruct (pg_restarted p) as [r|].
      * destruct (sendAck r None (su_requests s)); simpl in H; [|done]. injection H as <-. simpl in Hp'. rewrite lookup_insert_eq in Hp'. injection Hp' as <-.
        split_and!; auto. apply Hsh.
      * injection H as <-. simpl in Hp'. rewrite lookup_insert_eq in Hp'. injection Hp' as <-. split_and!; auto. apply Hsh.
    + left. unfold startGeneration in H. simpl in H. destruct (pg_restarted q) as [r|].
      * destruct (sendAck r None (su_requests s)); simpl in H; [|done]. injection H as <-. simpl in Hp'. rewrite lookup_insert_ne in Hp' by done. congruence.
      * injection H as <-. simpl in Hp'. rewrite lookup_insert_ne in Hp' by done. congruence.
  - left. destruct (su_callers s !! c) as [k|]; simpl in H; [|done]. destruct (pg_pc q); try done. destruct (ca_wait k); try done.
    destruct (ca_result k); try done. destruct (ca_rest k); try done. case_bool_decide; [|done]. (refine (Hsame _ n q _ Hq _ _ H); reflexivity).
  - left. destruct (pg_pc q); try done. destruct (sendAck _ _ _); simpl in H; [|done]. (refine (Hsame _ n q _ Hq _ _ H); reflexivity).
  - left. destruct (pg_pc q); try done. destruct (pg_child q); try done. destruct (su_cancelled s); (refine (Hsame _ n q _ Hq _ _ H); reflexivity).
  - left. destruct (pg_pc q); try done. destruct (su_cancelled s); [|done]. (refine (Hsame _ n q _ Hq _ _ H); reflexivity).
  - left. destruct (pg_pc q); try done; destruct (pg_child q); try done.
    + destruct (su_cancelled s); [destruct (sendAck _ _ _); simpl in H; [|done]|]; (refine (Hsame _ n q _ Hq _ _ H); reflexivity).
    + destruct (pg_restarted _); [destruct (sendAck _ _ _); simpl in H; [|done]|]; (refine (Hsame _ n q _ Hq _ _ H); reflexivity).
  - left. destruct (pg_pc q); try done. (refine (Hsame _ n q _ Hq _ _ H); reflexivity).
  - left. destruct (pg_pc q); try done. destruct (su_cancelled s); [|done]. (refine (Hsame _ n q _ Hq _ _ H); reflexivity).
  - left. destruct (su_callers s !! c); [done|]. destruct (selected s names) as [[|x l]|]; (refine (Heq _ _ H); reflexivity).
  - left. destruct (su_callers s !! c) as [k|]; simpl in H; [|done]. destruct (ca_wait k); simpl in H; [|done]. destruct (su_requests s !! _); simpl in H; [|done].
    destruct (ca_result k); [done|]. destruct (rq_ack _) as [[]|]; [| |done]; (refine (Heq _ _ H); reflexivity).
  - left. destruct (su_callers s !! c) as [k|]; simpl in H; [|done]. destruct (ca_result k); [done|]. (refine (Heq _ _ H); reflexivity).
Qed.

(** ** Shutdown *)

Definition pcWeight (c : pc) : Z :=
  match c with Exited => 0 | Top | Stopping | Draining _ => 1 | Backoff => 2 | Selecting => 3 | Reloading _ => 4 end.
Definition programWeight (p : programState) : Z := pcWeight (pg_pc p) + match pg_child p with Alive => 1 | _ => 0 end.
Definition callerWeight (k : caller) : Z :=
  match ca_result k with
  | Some _ => 0
  | None => 1 + 3 * Z.of_nat (length (ca_rest k)) + match ca_wait k with Some _ => 1 | None => 0 end
  end.
Definition weight (s : Supervisor) : Z := total programWeight (su_programs s) + total callerWeight (su_callers s).

Lemma weight_nonneg s : 0 <= weight s.
Proof.
  assert (0 <= total programWeight (su_programs s)).
  { apply total_nonneg. intros i p _. unfold programWeight, pcWeight. destruct (pg_pc p), (pg_child p); lia. }
  assert (0 <= total callerWeight (su_callers s)).
  { apply total_nonneg. intros i k _. unfold callerWeight. destruct (ca_result k); [lia|]. destruct (ca_wait k); lia. }
  unfold weight. lia.
Qed.

(** Actions other than a new call and the cancellation itself. *)
Definition internal (a : action) : Prop := match a with Cancel | CallRestart _ _ => False | _ => True end.

Lemma weight_program s name p p' requests :
  su_programs s !! name = Some p -> programWeight p' < programWeight p -> weight (with_program (with_requests s requests) name p') < weight s.
Proof. intros Hp Hw. unfold weight. simpl. rewrite (total_update _ _ _ _ _ Hp). lia. Qed.
Lemma weight_program' s name p p' :
  su_programs s !! name = Some p -> programWeight p' < programWeight p -> weight (with_program s name p') < weight s.
Proof. intros Hp Hw. unfold weight. simpl. rewrite (total_update _ _ _ _ _ Hp). lia. Qed.
Lemma weight_caller s c k k' :
  su_callers s !! c = Some k -> callerWeight k' < callerWeight k -> weight (with_caller s c k') < weight s.
Proof. intros Hp Hw. unfold weight. simpl. rewrite (total_update _ _ _ _ _ Hp). lia. Qed.

Lemma exec_lowers s a s' : su_cancelled s = true -> internal a -> exec s a = Some s' -> weight s' < weight s /\ su_cancelled s' = true.
Proof.
  intros Hx Ha H. destruct a as [|n e|n|n c|n e|n|n|n|n|n|c names|c|c]; try (by destruct Ha); simpl in H; rewrite ?Hx in H;
    try (destruct (su_programs s !! n) as [q|] eqn:Hq; simpl in H; [|done]).
  - destruct (pg_child q) eqn:Hc; try done. injection H as <-. split; [|done]. apply (weight_program' _ _ _ _ Hq). unfold programWeight. simpl. rewrite Hc. lia.
  - destruct (pg_pc q) eqn:Hpc; try done. injection H as <-. split; [|done]. apply (weight_program' _ _ _ _ Hq). unfold programWeight. rewrite Hpc. simpl. lia.
  - destruct (su_callers s !! c) as [k|] eqn:Hk; simpl in H; [|done]. destruct (pg_pc q) eqn:Hpc; try done. destruct (ca_wait k) eqn:Hw; try done.
    destruct (ca_result k) eqn:Hr; try done. destruct (ca_rest k) as [|x rest] eqn:Hl; try done. case_bool_decide; [|done]. injection H as <-. split; [|done].
    unfold weight. simpl. rewrite (total_update _ _ _ _ _ Hq), (total_update _ _ _ _ _ Hk). unfold callerWeight, programWeight. simpl. rewrite Hr, Hw, Hl, Hpc.
    destruct (pg_reload q); simpl; lia.
  - destruct (pg_pc q) eqn:Hpc; try done. destruct (sendAck _ _ _); simpl in H; [|done]. injection H as <-. split; [|done].
    apply (weight_program _ _ _ _ _ Hq). unfold programWeight. rewrite Hpc. simpl. lia.
  - destruct (pg_pc q) eqn:Hpc; try done. destruct (pg_child q) eqn:Hc; try done. injection H as <-. split; [|done].
    apply (weight_program' _ _ _ _ Hq). unfold programWeight. rewrite Hpc, Hc. simpl. lia.
  - destruct (pg_pc q) eqn:Hpc; try done. injection H as <-. split; [|done]. apply (weight_program' _ _ _ _ Hq). unfold programWeight. rewrite Hpc. simpl. lia.
  - destruct (pg_pc q) eqn:Hpc; try done; destruct (pg_child q) eqn:Hc; try done.
    + destruct (sendAck _ _ _); simpl in H; [|done]. injection H as <-. split; [|done]. apply (weight_program _ _ _ _ _ Hq). unfold programWeight. rewrite Hpc, Hc. simpl. lia.
    + destruct (pg_restarted _); [destruct (sendAck _ _ _); simpl in H; [|done]; injection H as <-; split; [|done]; apply (weight_program _ _ _ _ _ Hq)|
        injection H as <-; split; [|done]; apply (weight_program' _ _ _ _ Hq)]; unfold programWeight; rewrite Hpc, Hc; simpl; lia.
  - destruct (pg_pc q) eqn:Hpc; try done. injection H as <-. split; [|done]. apply (weight_program' _ _ _ _ Hq). unfold programWeight. rewrite Hpc. simpl. lia.
  - destruct (pg_pc q) eqn:Hpc; try done. injection H as <-. split; [|done]. apply (weight_program' _ _ _ _ Hq). unfold programWeight. rewrite Hpc. simpl. lia.
  - destruct (su_callers s !! c) as [k|] eqn:Hk; simpl in H; [|done]. destruct (ca_wait k) eqn:Hw; simpl in H; [|done]. destruct (su_requests s !! _); simpl in H; [|done].
    destruct (ca_result k) eqn:Hr; [done|]. destruct (rq_ack _) as [[]|]; [| |done]; injection H as <-; (split; [|done]); apply (weight_caller _ _ _ _ Hk); unfold callerWeight; rewrite Hr, Hw; simpl; [lia|].
    destruct (ca_rest k); simpl; lia.
  - destruct (su_callers s !! c) as [k|] eqn:Hk; simpl in H; [|done]. destruct (ca_result k) eqn:Hr; [done|]. injection H as <-. split; [|done].
    apply (weight_caller _ _ _ _ Hk). unfold callerWeight. rewrite Hr. simpl. destruct (ca_wait k); lia.
Qed.

(** A program that has not exited can act, or its child can return. *)
Lemma progress_cancelled s name p :
  inv s -> su_cancelled s = true -> su_programs s !! name = Some p -> pg_pc p <> Exited -> exists a s', internal a /\ exec s a = Some s'.
Proof.
  intros I Hx Hp Hpc. pose proof (i_shape s I name p Hp) as (_ & Hsh).
  assert (Hback : pg_child p = Alive -> exists a s', internal a /\ exec s a = Some s').
  { intros Hc. exists (ChildReturns name None). simpl. rewrite Hp. simpl. rewrite Hc. by eexists. }
  destruct (pg_pc p) as [| |r|r| | |] eqn:E; try done.
  - exists (Loop name). simpl. rewrite Hp. simpl. rewrite E, Hx. by eexists.
  - exists (TakeDone name). simpl. rewrite Hp. simpl. rewrite E, Hx. by eexists.
  - exists (ReloadReturns name (Some OtherStop)). simpl. rewrite Hp. simpl. rewrite E.
    destruct (i_owed s I name p r Hp) as (n & Hq & _); [unfold owed; by rewrite E|]. unfold sendAck. rewrite Hq. simpl. by eexists.
  - destruct (pg_child p) as [| |e] eqn:Hc; [by destruct Hsh as [[] _]|by apply Hback|].
    exists (DrainResult name). simpl. rewrite Hp. simpl. rewrite E, Hc, Hx.
    destruct (i_owed s I name p r Hp) as (n & Hq & _); [unfold owed; by rewrite E|]. unfold sendAck. rewrite Hq. simpl. by eexists.
  - exists (BackoffDone name). simpl. rewrite Hp. simpl. rewrite E, Hx. by eexists.
  - destruct (pg_child p) as [| |e] eqn:Hc; [by destruct Hsh as [[] _]|by apply Hback|].
    exists (DrainResult name). simpl. rewrite Hp. simpl. rewrite E, Hc. destruct Hsh as (_ & _ & Hn & _). rewrite Hn. by eexists.
Qed.

Lemma drained l s : reachable l s -> su_cancelled s = true ->
  exists s', steps step s s' /\ su_cancelled s' = true /\ forall name p, su_programs s' !! name = Some p -> pg_pc p = Exited.
Proof.
  intros R Hx. remember (Z.to_nat (weight s)) as n eqn:Hn. revert s Hn R Hx. induction (lt_wf n) as [n _ IH]. intros s -> R Hx.
  destruct (decide (map_Forall (fun _ p => pcWeight (pg_pc p) = 0) (su_programs s))) as [Hall|Hnot].
  - exists s. split_and!; [constructor|done|]. intros name p Hp. specialize (Hall name p Hp). simpl in Hall. by destruct (pg_pc p).
  - apply map_not_Forall in Hnot as (name & p & Hp & Hw); [|by intros; apply _].
    destruct (progress_cancelled s name p) as (a & s1 & Ha & H1); [by eapply inv_reachable|done|done|by intros E; rewrite E in Hw|].
    destruct (exec_lowers s a s1 Hx Ha H1) as [Hlt Hx1]. pose proof (weight_nonneg s1).
    assert (R1 : reachable l s1).
    { destruct R as (s0 & H0 & Hs). exists s0. split; [done|]. clear -Hs H1. induction Hs as [x|x y z Hxy _ IH]; [|by econstructor; eauto].
      econstructor; [by exists a|constructor]. }
    destruct (IH (Z.to_nat (weight s1)) ltac:(lia) s1 eq_refl R1 Hx1) as (s' & Hs & Hc & He).
    exists s'. split_and!; [|done|done]. econstructor; [by exists a|done].
Qed.

(** ** The properties *)

(** C26: In every interleaving, a program has at most one live child: a
    generation starts only in the loop of its goroutine while no child lives and
    the supervisor is not cancelled, and counts up by one; a child lives exactly
    while the goroutine is past the start and before it has taken the result. A
    restart request to a program without a reload command that is acknowledged
    without an error was followed by a new generation; a program with one may be
    reloaded in place and acknowledges without. Restart delays stay between zero
    and sixteen seconds. *)
Theorem supervisor_generations l s (R : reachable l s) :
  (forall name p, su_programs s !! name = Some p ->
     pg_generation p = Z.of_nat (pg_starts p) mod 2 ^ 64 /\
     (pg_child p = NoChild <-> pg_pc p = Top \/ pg_pc p = Backoff \/ pg_pc p = Exited)) /\
  (forall a s' name p p', exec s a = Some s' -> su_programs s !! name = Some p -> su_programs s' !! name = Some p' ->
     pg_starts p' <> pg_starts p ->
     a = Loop name /\ pg_starts p' = S (pg_starts p) /\ pg_child p = NoChild /\ pg_child p' = Alive /\ su_cancelled s = false) /\
  (forall r q p, su_requests s !! r = Some q -> su_programs s !! rq_program q = Some p -> rq_ack q = Some None ->
     pg_reload p = false -> (rq_starts q < pg_starts p)%nat) /\
  (forall failures, 0 <= restartDelay failures <= 16 * second).
Proof.
  pose proof (inv_reachable l s R) as I. split_and!.
  - intros name p Hp. destruct (i_shape s I name p Hp) as [Hg Hs]. split; [done|]. destruct (pg_pc p); split; intros; destruct_and?; destruct_or?; auto; try done.
  - intros a s' name p p' H Hp Hp' Hn. by destruct (exec_starts s a s' name p p' I H Hp Hp').
  - intros r q p Hq Hp Ha Hr. destruct (i_request s I r q Hq) as (_ & p1 & H1 & _ & Hk). rewrite Hp in H1. injection H1 as <-.
    unfold acked in Hk. rewrite Ha in Hk. destruct Hk; [congruence|done].
  - intros failures. unfold restartDelay. destruct (Z.ltb_spec failures 1); [unfold second; lia|].
    destruct (Z.ltb_spec 5 failures); [vm_compute; split; discriminate|].
    assert (failures = 1 \/ failures = 2 \/ failures = 3 \/ failures = 4 \/ failures = 5) as [->|[->|[->|[->| ->]]]] by lia; vm_compute; split; discriminate.
Qed.

(** C27: A shutdown ends. Once the supervisor is cancelled, every action of a
    program, of a child that returns or of a waiting caller lowers a weight, no
    goroutine is stuck (an acknowledgement always finds its place), and a run of
    such actions leads to a state in which every goroutine has exited and no
    child is left. *)
Theorem supervisor_stops l s (R : reachable l s) (Hx : su_cancelled s = true) :
  (forall a s', internal a -> exec s a = Some s' -> 0 <= weight s' < weight s /\ su_cancelled s' = true) /\
  (forall name p, su_programs s !! name = Some p -> pg_pc p <> Exited -> exists a s', internal a /\ exec s a = Some s') /\
  exists s', steps step s s' /\ forall name p, su_programs s' !! name = Some p -> pg_pc p = Exited /\ pg_child p = NoChild.
Proof.
  pose proof (inv_reachable l s R) as I. split_and!.
  - intros a s' Ha H. destruct (exec_lowers s a s' Hx Ha H). split; [|done]. split; [apply weight_nonneg|done].
  - intros name p Hp Hpc. by eapply progress_cancelled.
  - destruct (drained l s R Hx) as (s' & Hs & Hc & He). exists s'. split; [done|]. intros name p Hp. split; [by eapply He|].
    assert (I' : inv s') by (eapply (steps_invariant step inv); [intros x y Ix [a Ha]; by eapply inv_exec|exact Hs|exact I]).
    destruct (i_shape s' I' name p Hp) as [_ Hsh]. rewrite (He name p Hp) in Hsh. apply Hsh.
Qed.

(** ** Runs *)

Fixpoint play (s : Supervisor) (l : list action) : option Supervisor :=
  match l with [] => Some s | a :: l => s ← exec s a; play s l end.
Lemma supervisor_play_steps l s s' : play s l = Some s' -> steps step s s'.
Proof.
  revert s. induction l as [|a l IH]; intros s; simpl; [intros [= <-]; constructor|].
  destruct (exec s a) as [s1|] eqn:E; [simpl|done]. intros H. econstructor; [by exists a|by apply IH].
Qed.

Definition demoPrograms : list (gostr * bool) := [(bs "nginx", true); (bs "xray", false)].
Definition demoActions : list action :=
  [Loop (bs "nginx"); Loop (bs "xray"); CallRestart 0 [bs "xray"]; TakeRequest (bs "xray") 0; ChildReturns (bs "xray") (Some Canceled);
   DrainResult (bs "xray"); Loop (bs "xray"); ReceiveAck 0; Cancel].
Definition emptyState : Supervisor := Sup false ∅ ∅ 0 ∅.
Definition runFrom (l : list (gostr * bool)) (acts : list action) : Supervisor :=
  default emptyState (s ← NewSupervisor l; play s acts).
Definition runs (l : list (gostr * bool)) (acts : list action) : bool :=
  match (s ← NewSupervisor l; play s acts) with Some _ => true | None => false end.
Lemma runFrom_reachable l acts : runs l acts = true -> reachable l (runFrom l acts).
Proof.
  unfold runs, runFrom. destruct (NewSupervisor l) as [s0|] eqn:E; simpl; [|done].
  destruct (play s0 acts) as [s|] eqn:F; simpl; [|done]. intros _. exists s0. split; [done|]. by apply (supervisor_play_steps acts).
Qed.
Definition demoState : Supervisor := runFrom demoPrograms demoActions.
Lemma supervisor_demo_reachable : reachable demoPrograms demoState.
Proof. apply runFrom_reachable. vm_compute. reflexivity. Qed.

Lemma supervisor_generations_witness :
  (pg_starts <$> su_programs demoState !! bs "xray") = Some 2%nat /\
  forall r q p, su_requests demoState !! r = Some q -> su_programs demoState !! rq_program q = Some p -> rq_ack q = Some None ->
     pg_reload p = false -> (rq_starts q < pg_starts p)%nat.
Proof. split; [vm_compute; reflexivity|]. apply (supervisor_generations demoPrograms demoState supervisor_demo_reachable). Defined.

Lemma supervisor_stops_witness :
  exists s', steps step demoState s' /\ forall name p, su_programs s' !! name = Some p -> pg_pc p = Exited /\ pg_child p = NoChild.
Proof. apply (supervisor_stops demoPrograms demoState supervisor_demo_reachable). vm_compute. reflexivity. Defined.

(** When the shutdown begins while a restart waits for the old child, the
    goroutine exits without marking its program as stopped, so the report of an
    overlong shutdown names a program that has ended. *)
Definition shutdownInRestart : list action :=
  [Loop (bs "xray"); CallRestart 0 [bs "xray"]; TakeRequest (bs "xray") 0; Cancel; ChildReturns (bs "xray") None; DrainResult (bs "xray")].
Lemma stopped_reported_running :
  exists s, reachable [(bs "xray", false)] s /\
    (pg_pc <$> su_programs s !! bs "xray") = Some Exited /\ bs "xray" ∈ unresponsive s.
Proof.
  exists (runFrom [(bs "xray", false)] shutdownInRestart). split_and!.
  - apply runFrom_reachable. vm_compute. reflexivity.
  - vm_compute. reflexivity.
  - refine (bool_decide_eq_true_1 (bs "xray" ∈ unresponsive _) _). vm_compute. reflexivity.
Qed.

(** When the shutdown begins just after the old child returned for a restart, the
    goroutine exits without acknowledging the request: the caller waits until
    its own context ends. *)
Definition shutdownAfterRestart : list action :=
  [Loop (bs "xray"); CallRestart 0 [bs "xray"]; TakeRequest (bs "xray") 0; ChildReturns (bs "xray") None; DrainResult (bs "xray"); Cancel; Loop (bs "xray")].
Lemma restart_never_acknowledged :
  exists s, reachable [(bs "xray", false)] s /\
    (pg_pc <$> su_programs s !! bs "xray") = Some Exited /\ (ca_wait <$> su_callers s !! 0%nat) = Some (Some 0%nat) /\
    (rq_ack <$> su_requests s !! 0%nat) = Some None.
Proof.
  exists (runFrom [(bs "xray", false)] shutdownAfterRestart). split_and!; [apply runFrom_reachable|..]; vm_compute; reflexivity.
Qed.
