(* ===== verification/Recovery.v ===== *)
(** * Applying a pending recovery

    Models [internal/recovery/pending.go]: at start, the files of a staged archive
    are verified and copied into place, then the order to do so is removed.  The
    program works on a file tree ([GoPath]); every primitive operation can fail,
    and the history keeps every tree the program passed through, so a crash is
    the end of the program at any tree of the history.  Decoding of JSON and the
    digest are parameters. *)

From Stdlib Require Import String.
From S2P Require Import Prelude GoBase GoText GoRegexp GoPath.
Open Scope Z_scope.

Definition maxPendingBytes : Z := 2 ^ 20.
Definition maxFileBytes : Z := 2 ^ 24.

Definition is_path_byte (b : byte) : bool :=
  is_digit b || is_lower b || ((65 <=? bval b) && (bval b <=? 90)) || existsb (fun c => is_byte c b) (bs "._/-").
Definition operationPattern : re := full (rep 16 (Class is_hex)).
Definition digestPattern : re := full (rep 64 (Class is_hex)).
Definition pathPattern : re :=
  full (Cat (alts [lit (bs "config"); lit (bs "state"); lit (bs "data/last-known-good")]) (Cat (lit (bs "/")) (plus (Class is_path_byte)))).

Record Options := MkOpt { ConfigDir : gostr; StateDir : gostr; DataDir : gostr }.
Record pendingFile := PendingFile { pf_Path : gostr; pf_Size : Z; pf_SHA256 : gostr }.
Record pendingRestore := PendingRestore { pr_OperationID : gostr; pr_StagingPath : gostr; pr_Files : list pendingFile }.
Inductive operation := OpNone | OpRestored (files : Z).

(** ** The world and its primitive operations *)

(** The tree, the faults to come ([true] is a failing operation; none when they
    run out), the random parts of temporary names, the trees passed through and
    the working directory. *)
Record world := World {
  w_tree : tree; w_faults : list bool; w_names : list gostr; w_history : list tree; w_cwd : option path }.
Inductive ioerr := ErrNotExist | Err.

Definition M (A : Type) : Type := world -> world * (A + ioerr).
Definition ret {A} (a : A) : M A := fun w => (w, inl a).
Definition fail {A} (e : ioerr) : M A := fun w => (w, inr e).
Definition bind {A B} (m : M A) (k : A -> M B) : M B :=
  fun w => match m w with (w, inl a) => k a w | (w, inr e) => (w, inr e) end.

Declare Scope io_scope.
Delimit Scope io_scope with io.
Notation "'let*' x ':=' m 'in' k" := (bind m (fun x => k)) (at level 10, x pattern, m at level 100, k at level 200) : io_scope.
Notation "m ;; k" := (bind m (fun _ => k)) (at level 100, k at level 200, right associativity) : io_scope.
Open Scope io_scope.

Definition fault : M bool :=
  fun w => (World (w_tree w) (tail (w_faults w)) (w_names w) (w_history w) (w_cwd w), inl (default false (head (w_faults w)))).
(** An operation that only looks. *)
Definition look {A} (f : tree -> A + ioerr) : M A :=
  let* failed := fault in
  if failed then fail Err else fun w => (w, f (w_tree w)).
(** An operation that changes the tree. *)
Definition change (f : tree -> tree + ioerr) : M unit :=
  let* failed := fault in
  if failed then fail Err
  else fun w =>
    match f (w_tree w) with
    | inl t => (World t (w_faults w) (w_names w) (w_history w ++ [t]) (w_cwd w), inl tt)
    | inr e => (w, inr e)
    end.

Definition Lstat (l : list gostr) : M found :=
  let* failed := fault in
  if failed then ret OtherError else fun w => (w, inl (lstat (w_tree w) l)).

(** [Open], [Stat] and [Read] of a regular file. *)
Definition readRegular (p : path) : M gostr :=
  look (fun t => match lstat t p with Found (File _ body) _ => inl body | NotExist => inr ErrNotExist | _ => inr Err end).

Fixpoint mkdirs (p : path) (rest : list gostr) : M unit :=
  match rest with
  | [] => ret tt
  | c :: rest =>
      let p := p ++ [c] in
      change (fun t => match at_ t p with
                       | Some Dir => inl t
                       | None => inl (<[p:=Dir]> t)
                       | Some _ => inr Err
                       end) ;;
      mkdirs p rest
  end.
Definition mkdirAll (p : path) : M unit := mkdirs [] p.

Definition mode600 : Z := 384.
Definition tempName (base rnd : gostr) : gostr := bs "." ++ base ++ bs "." ++ rnd ++ bs ".tmp".
Fixpoint freshName (t : tree) (dir : path) (base : gostr) (names : list gostr) : option (gostr * list gostr) :=
  match names with
  | [] => None
  | rnd :: names =>
      match t !! (dir ++ [tempName base rnd]) with
      | None => Some (tempName base rnd, names)
      | Some _ => freshName t dir base names
      end
  end.
Definition createTemp (dir : path) (base : gostr) : M path :=
  let* failed := fault in
  if failed then fail Err
  else fun w =>
    match freshName (w_tree w) dir base (w_names w), at_ (w_tree w) dir with
    | Some (name, names), Some Dir =>
        let p := dir ++ [name] in
        let t := <[p:=File mode600 []]> (w_tree w) in
        (World t (w_faults w) names (w_history w ++ [t]) (w_cwd w), inl p)
    | _, _ => (w, inr Err)
    end.

Definition writeFile (p : path) (f : node -> node + ioerr) : M unit :=
  change (fun t => match t !! p with Some n => match f n with inl n => inl (<[p:=n]> t) | inr e => inr e end | None => inr Err end).
Definition chmod (p : path) (mode : Z) : M unit :=
  writeFile p (fun n => match n with File _ body => inl (File mode body) | _ => inr Err end).
Definition append (p : path) (chunk : gostr) : M unit :=
  writeFile p (fun n => match n with File mode body => inl (File mode (body ++ chunk)) | _ => inr Err end).
Definition syncFile (p : path) : M unit := look (fun _ => inl tt).
Definition closeFile (p : path) : M unit := look (fun _ => inl tt).
Definition syncDirectory (p : path) : M unit :=
  look (fun t => match at_ t p with Some _ => inl tt | None => inr ErrNotExist end) ;; look (fun _ => inl tt).

Definition rename (p q : path) : M unit :=
  change (fun t =>
    match t !! p, at_ t q with
    | Some n, Some Dir => inr Err
    | Some n, _ => inl (<[q:=n]> (delete p t))
    | None, _ => inr ErrNotExist
    end).
Definition removeFile (p : path) : M unit :=
  change (fun t => match t !! p with
                   | Some Dir => inr Err
                   | Some _ => inl (delete p t)
                   | None => inr ErrNotExist
                   end).
(** [os.RemoveAll]: one node at a time, in some order. *)
Fixpoint removeEach (l : list path) : M unit :=
  match l with
  | [] => ret tt
  | p :: l => change (fun t => inl (delete p t)) ;; removeEach l
  end.
Definition removeAll (p : path) : M unit :=
  fun w => removeEach (filter (fun q => p `prefix_of` q) (map_to_list (w_tree w)).*1) w.
(** [defer os.Remove]: its error is dropped. *)
Definition finally {A} (m : M A) (cleanup : M unit) : M A :=
  fun w => let '(w, r) := m w in let '(w, _) := cleanup w in (w, r).

(** ** Verified copies *)

Definition bufferSize : nat := Z.to_nat 32768.
Fixpoint chunks (fuel : nat) (l : gostr) : list gostr :=
  match fuel, l with
  | O, _ | _, [] => []
  | S fuel, _ => take bufferSize l :: chunks fuel (drop bufferSize l)
  end.
Fixpoint appendAll (p : path) (l : list gostr) : M unit :=
  match l with [] => ret tt | c :: l => append p c ;; appendAll p l end.

Definition dirOf (p : path) : path := take (length p - 1) p.
Definition baseOf (p : path) : gostr := default (bs "/") (last p).

Section Recovery.
Context (sha256 : gostr -> gostr) (decodePending : gostr -> option pendingRestore).

Definition copyVerifiedAtomic (source destination : path) (expectedSize : Z) (expectedDigest : gostr) : M unit :=
  let* body := readRegular source in
  if negb (Z.of_nat (length body) =? expectedSize) then fail Err
  else
    mkdirAll (dirOf destination) ;;
    let* temporary := createTemp (dirOf destination) (baseOf destination) in
    finally
      (chmod temporary mode600 ;;
       let copied := take (Z.to_nat (maxFileBytes + 1)) body in
       appendAll temporary (chunks (length copied) copied) ;;
       if negb (Z.of_nat (length copied) =? expectedSize) || negb (bool_decide (sha256 copied = expectedDigest)) then fail Err
       else
         syncFile temporary ;;
         closeFile temporary ;;
         rename temporary destination ;;
         syncDirectory (dirOf destination))
      (removeFile temporary).

(** ** Paths *)

Definition hasParentTraversal (p : gostr) : bool := existsb (fun c => bool_decide (c = dotdot)) (parts p).

Fixpoint secure_loop (current : path) (l : list gostr) (mustExist : bool) : M unit :=
  match l with
  | [] => ret tt
  | part :: l =>
      let current := cleanStep current part in
      let* info := Lstat current in
      match info with
      | NotExist => if mustExist then fail Err else ret tt
      | OtherError => fail Err
      | Found Symlink _ => fail Err
      | Found Dir _ => secure_loop current l mustExist
      | Found (File _ _) _ => match l with [] => ret tt | _ => fail Err end
      end
  end.
Definition secureDescendant (root : path) (relative : gostr) (mustExist : bool) : M path :=
  if isAbs relative || hasParentTraversal relative then fail Err
  else
    let candidate := joinClean root relative in
    match relTo root candidate with
    | None => fail Err
    | Some rel =>
        secure_loop root (match rel with [] => [dot] | _ => rel end) mustExist ;; ret candidate
    end.

Definition lastKnownGood (dataRoot : path) : path := dataRoot ++ [bs "last-known-good"].
Definition trimPrefix (p s : gostr) : option gostr := if bool_decide (p `prefix_of` s) then Some (drop (length p) s) else None.
(** The root and the rest of a path of the archive. *)
Definition rootOf (relative : gostr) (configRoot stateRoot dataRoot : path) : option (path * gostr) :=
  match trimPrefix (bs "config/") relative with
  | Some suffix => Some (configRoot, suffix)
  | None =>
      match trimPrefix (bs "state/") relative with
      | Some suffix => Some (stateRoot, suffix)
      | None => (fun suffix => (lastKnownGood dataRoot, suffix)) <$> trimPrefix (bs "data/last-known-good/") relative
      end
  end.
Definition restoreDestination (relative : gostr) (configRoot stateRoot dataRoot : path) : M path :=
  match rootOf relative configRoot stateRoot dataRoot with
  | Some (root, suffix) => secureDescendant root suffix false
  | None => fail Err
  end.

(** ** Applying *)

Definition readPending (p : path) : M pendingRestore :=
  let* body := readRegular p in
  if maxPendingBytes <? Z.of_nat (length body) then fail Err
  else match decodePending body with Some pending => ret pending | None => fail Err end.

Definition validEntry (e : pendingFile) : bool :=
  MatchString pathPattern (pf_Path e) && negb (hasParentTraversal (pf_Path e)) && MatchString digestPattern (pf_SHA256 e)
  && (0 <=? pf_Size e) && (pf_Size e <=? maxFileBytes).

Definition restoreEntry (stagingRoot configRoot stateRoot dataRoot : path) (e : pendingFile) : M unit :=
  if negb (validEntry e) then fail Err
  else
    let* source := secureDescendant stagingRoot (pf_Path e) true in
    let* destination := restoreDestination (pf_Path e) configRoot stateRoot dataRoot in
    copyVerifiedAtomic source destination (pf_Size e) (pf_SHA256 e).

Fixpoint restoreFiles (stagingRoot configRoot stateRoot dataRoot : path) (l : list pendingFile) (restored : Z) : M Z :=
  match l with
  | [] => ret restored
  | e :: l =>
      restoreEntry stagingRoot configRoot stateRoot dataRoot e ;;
      restoreFiles stagingRoot configRoot stateRoot dataRoot l (restored +w 1)
  end.

Definition cleanRoot (s : gostr) : M path :=
  if isAbs s then ret (cleanAbs s)
  else fun w => match w_cwd w with Some c => (w, inl (joinClean c s)) | None => (w, inr Err) end.

Definition pendingName : gostr := bs ".sb-gateway-recovery-pending.json".

(** What follows a decoded order. *)
Definition applyOrder (configRoot stateRoot dataRoot : path) (pending : pendingRestore) : M operation :=
  if negb (MatchString operationPattern (pr_OperationID pending)) then fail Err
  else if negb (isAbs (pr_StagingPath pending)
                && bool_decide (cleanAbs (pr_StagingPath pending) = dataRoot ++ [bs "recovery-staging"; pr_OperationID pending]))
  then fail Err
  else
    let* info := Lstat (parts (pr_StagingPath pending)) in
    match info with
    | Found Dir _ =>
        (* EvalSymlinks *)
        let* stagingRoot := look (fun t => match lstat t (parts (pr_StagingPath pending)) with Found _ p => inl p | _ => inr Err end) in
        if bool_decide (pr_Files pending = []) then fail Err
        else if 4096 <? Z.of_nat (length (pr_Files pending)) then fail Err
        else
          let* restored := restoreFiles stagingRoot configRoot stateRoot dataRoot (pr_Files pending) 0 in
          (fun w => match removeFile (configRoot ++ [pendingName]) w with
                    | (w, inr Err) => (w, inr Err)
                    | (w, _) => (w, inl tt)
                    end) ;;
          (fun w => ((syncDirectory configRoot w).1, inl tt)) ;;
          removeAll stagingRoot ;;
          ret (OpRestored restored)
    | _ => fail Err
    end.

Definition ApplyPending (options : Options) : M operation :=
  let* configRoot := cleanRoot (ConfigDir options) in
  let* stateRoot := cleanRoot (StateDir options) in
  let* dataRoot := cleanRoot (DataDir options) in
  fun w =>
    match readPending (configRoot ++ [pendingName]) w with
    | (w, inr ErrNotExist) => (w, inl OpNone)
    | (w, inr Err) => (w, inr Err)
    | (w, inl pending) => applyOrder configRoot stateRoot dataRoot pending w
    end.
End Recovery.
