(* ===== verification/RecoverySafety.v ===== *)
(** * Recovery: containment, integrity and crash safety

    A small program logic for [Recovery]: [safe I P m Q] says that from a tree
    with [P] every tree that [m] passes through satisfies the crash invariant [I],
    whatever operations fail, and that [m] ends with [Q] or fails with [I]. *)

From Stdlib Require Import String.
From S2P Require Import Prelude GoBase GoText GoRegexp GoPath Recovery.
Open Scope Z_scope.
Open Scope io_scope.

(** ** The logic *)

Definition safe {A : Type} (I P : tree -> Prop) (m : M A) (Q : A -> tree -> Prop) : Prop :=
  forall w w' r, m w = (w', r) -> P (w_tree w) ->
    (exists new, w_history w' = w_history w ++ new /\ Forall I new) /\
    match r with inl a => Q a (w_tree w') | inr _ => I (w_tree w') end.

Lemma safe_ret {A : Type} (I P : tree -> Prop) (a : A) (Q : A -> tree -> Prop) : (forall t, P t -> Q a t) -> safe I P (ret a) Q.
Proof. intros H w w' r [= <- <-] Hp. split; [exists []; by rewrite app_nil_r|auto]. Qed.
Lemma safe_fail {A : Type} (I P : tree -> Prop) e (Q : A -> tree -> Prop) : (forall t, P t -> I t) -> safe I P (fail e) Q.
Proof. intros H w w' r [= <- <-] Hp. split; [exists []; by rewrite app_nil_r|auto]. Qed.
Lemma safe_bind {A B : Type} (I P : tree -> Prop) (m : M A) (k : A -> M B) R Q :
  safe I P m R -> (forall a, safe I (R a) (k a) Q) -> safe I P (bind m k) Q.
Proof.
  intros Hm Hk w w' r H Hp. unfold bind in H. destruct (m w) as [w1 [a|e]] eqn:E.
  - destruct (Hm _ _ _ E Hp) as ((n1 & E1 & F1) & Ha). destruct (Hk a _ _ _ H Ha) as ((n2 & E2 & F2) & Hr).
    split; [|done]. exists (n1 ++ n2). rewrite E2, E1, app_assoc. split; [done|]. by apply Forall_app.
  - injection H as <- <-. by apply (Hm _ _ _ E).
Qed.
Lemma safe_weaken {A : Type} (I I' P P' : tree -> Prop) (m : M A) (Q Q' : A -> tree -> Prop) :
  safe I P m Q -> (forall t, I t -> I' t) -> (forall t, P' t -> P t) -> (forall a t, Q a t -> Q' a t) -> safe I' P' m Q'.
Proof.
  intros Hs Hi Hp Hq w w' r H Hw. destruct (Hs _ _ _ H (Hp _ Hw)) as ((new & E & F) & Hr). split.
  - exists new. split; [done|]. eapply Forall_impl; eauto.
  - destruct r; auto.
Qed.
Lemma safe_fault I P : safe I P fault (fun _ => P).
Proof. intros w w' r [= <- <-] Hp. split; [exists []; by rewrite app_nil_r|done]. Qed.
Lemma safe_pure {A : Type} (I P : tree -> Prop) (f : tree -> A + ioerr) (Q : A -> tree -> Prop) :
  (forall t, P t -> match f t with inl a => Q a t | inr _ => I t end) -> safe I P (fun w => (w, f (w_tree w))) Q.
Proof. intros H w w' r [= <- <-] Hp. split; [exists []; by rewrite app_nil_r|]. by apply H in Hp. Qed.
Lemma safe_look {A : Type} (I P : tree -> Prop) (f : tree -> A + ioerr) Q :
  (forall t, P t -> I t) -> (forall t a, P t -> f t = inl a -> Q a t) -> safe I P (look f) Q.
Proof.
  intros Hi H. eapply safe_bind; [apply safe_fault|]. intros []; [by apply safe_fail|]. apply safe_pure.
  intros t Ht. destruct (f t) eqn:E; eauto.
Qed.
Lemma safe_change (I P : tree -> Prop) f (Q : unit -> tree -> Prop) :
  (forall t, P t -> I t) -> (forall t t', P t -> f t = inl t' -> I t' /\ Q tt t') -> safe I P (change f) Q.
Proof.
  intros Hi H. eapply safe_bind; [apply safe_fault|]. intros []; [by apply safe_fail|].
  intros w w' r E Hp. destruct (f (w_tree w)) as [t|e] eqn:F; injection E as <- <-; simpl.
  - destruct (H _ _ Hp F). split; [exists [t]|]; auto.
  - split; [exists []; by rewrite app_nil_r|auto].
Qed.
Lemma safe_Lstat (I P : tree -> Prop) l (Q : found -> tree -> Prop) :
  (forall t, P t -> Q OtherError t /\ Q (lstat t l) t) -> safe I P (Lstat l) Q.
Proof.
  intros H. eapply safe_bind; [apply safe_fault|]. intros [].
  - apply safe_ret. intros t Ht. by apply H.
  - intros w w' r [= <- <-] Hp. split; [exists []; by rewrite app_nil_r|]. by apply H.
Qed.
Lemma safe_if {A : Type} (I P : tree -> Prop) (b : bool) (m k : M A) Q :
  (b = true -> safe I P m Q) -> (b = false -> safe I P k Q) -> safe I P (if b then m else k) Q.
Proof. destruct b; auto. Qed.

(** A fact about no tree can be assumed. *)
Lemma safe_assume {A : Type} (I P : tree -> Prop) (R : Prop) (m : M A) Q :
  (R -> safe I P m Q) -> safe I (fun t => P t /\ R) m Q.
Proof. intros H w w' r E [Hp Hr]. exact (H Hr w w' r E Hp). Qed.
Lemma safe_keep {A : Type} (I P : tree -> Prop) (R : Prop) (m : M A) Q :
  safe I P m Q -> safe I (fun t => P t /\ R) m (fun a t => Q a t /\ R).
Proof. intros H w w' r E [Hp Hr]. destruct (H w w' r E Hp). destruct r; auto. Qed.

(** A deferred removal of a file that only the program knows. *)
Lemma safe_finally_remove {A : Type} (K I P : tree -> Prop) (m : M A) p (Q Q' : A -> tree -> Prop) :
  safe K P m Q -> (forall t, K t -> I t) -> (forall t, K t -> t !! p <> Some Dir -> I (delete p t)) ->
  (forall a t, Q a t -> K t) ->
  (forall a t, Q a t -> Q' a t /\ Q' a (delete p t)) -> safe I P (finally m (removeFile p)) Q'.
Proof.
  intros Hm Hki Hd Hqi Hq w w' r H Hp. unfold finally in H. destruct (m w) as [w1 r1] eqn:E.
  destruct (Hm _ _ _ E Hp) as ((n1 & E1 & F1) & Hr). destruct (removeFile p w1) as [w2 r2] eqn:Er. injection H as <- <-.
  assert (Hi : K (w_tree w1)) by (destruct r1; eauto).
  set (L := fun t => t = w_tree w1 \/ (t = delete p (w_tree w1) /\ w_tree w1 !! p <> Some Dir)).
  assert (Hs : safe (fun t => I t /\ L t) (fun t => t = w_tree w1) (removeFile p) (fun _ t => L t)).
  { apply safe_change; [intros t ->; split; [by apply Hki|by left]|]. intros t t' -> Hf.
    assert (t' = delete p (w_tree w1) /\ w_tree w1 !! p <> Some Dir) as [-> Hn]
      by (destruct (w_tree w1 !! p) as [[]|]; simplify_eq; done).
    split; [split; [by apply Hd|]|]; right; done. }
  destruct (Hs _ _ _ Er eq_refl) as ((n2 & E2 & F2) & Hk). split.
  - exists (n1 ++ n2). rewrite E2, E1, app_assoc. split; [done|]. apply Forall_app; split.
    + eapply Forall_impl; [exact F1|exact Hki].
    + eapply Forall_impl; [exact F2|]. by intros t [? _].
  - assert (L (w_tree w2)) as [->|[-> Hn]] by (destruct r2; [exact Hk|exact (proj2 Hk)]).
    + destruct r1; [by apply Hq|by apply Hki].
    + destruct r1; [by apply Hq|by apply Hd].
Qed.

(** ** Copies *)

Lemma at_insert t p n : p <> [] -> at_ (<[p:=n]> t) p = Some n.
Proof. destruct p; [done|]. intros _. simpl. apply lookup_insert_eq. Qed.
Lemma at_insert_ne t p q n : p <> q -> at_ (<[p:=n]> t) q = at_ t q.
Proof. destruct q; [done|]. intros H. simpl. by apply lookup_insert_ne. Qed.
Lemma at_lookup t p : p <> [] -> at_ t p = t !! p.
Proof. by destruct p. Qed.
Lemma snoc_ne {A : Type} (p : list A) c : p ++ [c] <> [].
Proof. by destruct p. Qed.
Lemma app_self_ne {A : Type} (p : list A) c : p ++ [c] <> p.
Proof. intros H. apply (f_equal length) in H. rewrite length_app in H. simpl in H. lia. Qed.

(** Directories are made from the top down. *)
Lemma mkdirs_safe (I : tree -> Prop) p l :
  (forall k t, (k < length l)%nat -> I t -> at_ t (p ++ take k l) = Some Dir -> at_ t (p ++ take (S k) l) = None ->
     I (<[p ++ take (S k) l:=Dir]> t)) ->
  safe I (fun t => I t /\ at_ t p = Some Dir) (mkdirs p l) (fun _ t => I t /\ at_ t (p ++ l) = Some Dir).
Proof.
  revert p. induction l as [|c l IH]; intros p H; simpl.
  - apply safe_ret. by rewrite app_nil_r.
  - eapply safe_bind with (R := fun _ t => I t /\ at_ t (p ++ [c]) = Some Dir).
    + apply safe_change; [by intros t []|]. intros t t' [Hi Hp] Hf.
      destruct (at_ t (p ++ [c])) as [[]|] eqn:E; simplify_eq; [done|].
      pose proof (H 0%nat t ltac:(simpl; lia) Hi) as H0. simpl in H0. rewrite app_nil_r in H0.
      specialize (H0 Hp E). split; [done|]. split; [done|]. apply at_insert, snoc_ne.
    + intros _. eapply safe_weaken; [apply IH| | |]; auto.
      * intros k t Hk. specialize (H (S k) t ltac:(simpl; lia)). simpl in H. by rewrite <- !app_assoc.
      * intros ? t. by rewrite <- app_assoc.
Qed.
Lemma mkdirAll_safe (I : tree -> Prop) q :
  (forall k t, (k < length q)%nat -> I t -> at_ t (take k q) = Some Dir -> at_ t (take (S k) q) = None ->
     I (<[take (S k) q:=Dir]> t)) ->
  safe I I (mkdirAll q) (fun _ t => I t /\ at_ t q = Some Dir).
Proof. intros H. eapply safe_weaken; [apply (mkdirs_safe I [] q); exact H|auto| |auto]. by intros t Ht. Qed.

Lemma bufferSize_pos : (0 < bufferSize)%nat.
Proof. unfold bufferSize. lia. Qed.
#[local] Opaque bufferSize.
Lemma concat_chunks fuel l : (length l <= fuel)%nat -> concat (chunks fuel l) = l.
Proof.
  pose proof bufferSize_pos. revert l. induction fuel as [|fuel IH]; intros [|b l] Hl; cbn [chunks concat]; try done; [simpl in Hl; lia|].
  rewrite IH; [apply take_drop|]. rewrite length_drop. simpl in *. lia.
Qed.

Lemma freshName_spec t dir base names name rest :
  freshName t dir base names = Some (name, rest) -> t !! (dir ++ [name]) = None /\ exists rnd, name = tempName base rnd.
Proof.
  induction names as [|rnd names IH]; simpl; [done|]. destruct (t !! (dir ++ [tempName base rnd])) eqn:E; [exact IH|]. intros H. injection H as H _. subst name. eauto.
Qed.
Lemma tempName_longer base rnd : (length base < length (tempName base rnd))%nat.
Proof. unfold tempName. rewrite !length_app. simpl. lia. Qed.

Lemma dirOf_baseOf p : p <> [] -> p = dirOf p ++ [baseOf p].
Proof.
  destruct p as [|x p] using rev_ind; [done|]. intros _. unfold dirOf, baseOf.
  rewrite length_app, last_snoc. simpl. rewrite Nat.add_sub, take_app_length. done.
Qed.

Section Copy.
Context (sha256 : gostr -> gostr).

(** A temporary of this destination. *)
Definition temporaryOf (dst tmp : path) : Prop := exists rnd, tmp = dirOf dst ++ [tempName (baseOf dst) rnd].

Lemma temporaryOf_ne dst tmp : temporaryOf dst tmp -> tmp <> dst /\ tmp <> [].
Proof.
  intros [rnd ->]. split; [|apply snoc_ne]. intros E. destruct dst as [|c dst]; [by apply snoc_ne in E|].
  rewrite (dirOf_baseOf (c :: dst)) in E at 3 by done. apply app_inj_tail in E as [_ E].
  pose proof (tempName_longer (baseOf (c :: dst)) rnd) as L. rewrite E in L. lia.
Qed.

(** What an invariant must tolerate while a file is copied to [dst]. *)
Record tolerates (I : tree -> Prop) (dst : path) : Prop := {
  tol_dir k t : (k < length (dirOf dst))%nat -> I t -> at_ t (take k (dirOf dst)) = Some Dir ->
    at_ t (take (S k) (dirOf dst)) = None -> I (<[take (S k) (dirOf dst):=Dir]> t);
  tol_temp t tmp body : temporaryOf dst tmp -> I t -> at_ t (dirOf dst) = Some Dir -> t !! tmp = None ->
    I (<[tmp:=File mode600 body]> t) }.

(** While the copy runs the tree is [u] with the temporary added. *)
Definition copying (I : tree -> Prop) (dst tmp : path) (body : gostr) (t : tree) : Prop :=
  exists u, I u /\ at_ u (dirOf dst) = Some Dir /\ u !! tmp = None /\ t = <[tmp:=File mode600 body]> u.

Context (I : tree -> Prop) (dst : path) (Htol : tolerates I dst).

Lemma copying_inv tmp body t : temporaryOf dst tmp -> copying I dst tmp body t -> I t.
Proof using Htol. intros Ht (u & Hi & Hd & Hn & ->). by apply (tol_temp _ _ Htol). Qed.

Lemma createTemp_safe :
  safe I (fun t => I t /\ at_ t (dirOf dst) = Some Dir) (createTemp (dirOf dst) (baseOf dst))
    (fun tmp t => temporaryOf dst tmp /\ copying I dst tmp [] t).
Proof using Htol.
  eapply safe_bind; [apply safe_fault|]. intros []; [apply safe_fail; by intros t []|].
  intros w w' r H [Hi Hd]. destruct (freshName _ _ _ _) as [[name rest]|] eqn:E; simpl in H.
  - destruct (freshName_spec _ _ _ _ _ _ E) as [Hn [rnd ->]]. rewrite Hd in H. injection H as <- <-. simpl.
    assert (Ht : temporaryOf dst (dirOf dst ++ [tempName (baseOf dst) rnd])) by by exists rnd.
    split; [|split; [done|by exists (w_tree w)]]. eexists. split; [done|]. constructor; [|done]. by apply (tol_temp _ _ Htol).
  - injection H as <- <-. split; [exists []; by rewrite app_nil_r|done].
Qed.

(** The file in place. *)
Definition placed (J : gostr -> tree -> Prop) (tmp : path) (body : gostr) (t : tree) : Prop :=
  exists u, I u /\ at_ u (dirOf dst) = Some Dir /\ at_ u dst <> Some Dir /\ dst <> [] /\
    t = <[dst:=File mode600 body]> u /\ t !! tmp = None /\ I t /\ J body t.
(** From the creation of the temporary to its end. *)
Definition during (J : gostr -> tree -> Prop) (tmp : path) (t : tree) : Prop :=
  (exists body, copying I dst tmp body t) \/ (exists body, placed J tmp body t).

Context (J : gostr -> tree -> Prop).

Lemma copying_during tmp body t : copying I dst tmp body t -> during J tmp t.
Proof. left; eauto. Qed.
Lemma placed_during tmp body t : placed J tmp body t -> during J tmp t.
Proof. right; eauto. Qed.

Lemma writeFile_safe tmp body body' f :
  f (File mode600 body) = inl (File mode600 body') ->
  safe (during J tmp) (copying I dst tmp body) (writeFile tmp f) (fun _ => copying I dst tmp body').
Proof.
  intros Hf. apply safe_change; [apply copying_during|]. intros t t' (u & Hi & Hd & Hn & ->) E.
  rewrite lookup_insert_eq, Hf in E. injection E as <-. rewrite insert_insert_eq.
  assert (copying I dst tmp body' (<[tmp:=File mode600 body']> u)) by by exists u. split; [|done]. by eapply copying_during.
Qed.
Lemma appendAll_safe tmp l body :
  safe (during J tmp) (copying I dst tmp body) (appendAll tmp l) (fun _ => copying I dst tmp (body ++ concat l)).
Proof.
  revert body. induction l as [|c l IH]; intros body; simpl.
  - apply safe_ret. by rewrite app_nil_r.
  - eapply safe_bind; [by apply writeFile_safe with (body' := body ++ c)|]. intros ?.
    rewrite app_assoc. apply IH.
Qed.

(** What must hold for a body that is put in place. *)
Definition placeable (body : gostr) : Prop :=
  forall u, I u -> at_ u (dirOf dst) = Some Dir -> at_ u dst <> Some Dir -> dst <> [] ->
    I (<[dst:=File mode600 body]> u) /\ J body (<[dst:=File mode600 body]> u).

Lemma rename_safe tmp body :
  temporaryOf dst tmp -> placeable body ->
  safe (during J tmp) (copying I dst tmp body) (rename tmp dst) (fun _ => placed J tmp body).
Proof.
  intros Ht HJ. apply safe_change; [apply copying_during|]. intros t t' (u & Hi & Hd & Hn & ->) E.
  rewrite lookup_insert_eq in E. destruct (temporaryOf_ne _ _ Ht) as [Hne Hnil].
  rewrite at_insert_ne in E by done. rewrite delete_insert_id in E by done.
  assert (Hdst : at_ u dst <> Some Dir /\ dst <> []).
  { split; intros F; [rewrite F in E; done|]. rewrite F in E. done. }
  destruct Hdst as [Hx Hy]. assert (t' = <[dst:=File mode600 body]> u) as -> by (destruct (at_ u dst) as [[]|]; by simplify_eq).
  destruct (HJ u Hi Hd Hx Hy). assert (Hp : placed J tmp body (<[dst:=File mode600 body]> u)).
  { exists u. split_and!; auto. by rewrite lookup_insert_ne. }
  split; [by eapply placed_during|done].
Qed.

Lemma tail_safe tmp body size digest :
  temporaryOf dst tmp -> (Z.of_nat (length body) = size -> sha256 body = digest -> placeable body) ->
  Z.of_nat (length body) = size ->
  safe (during J tmp) (copying I dst tmp [])
    (chmod tmp mode600 ;; (let copied := take (Z.to_nat (maxFileBytes + 1)) body in
       appendAll tmp (chunks (length copied) copied) ;;
       (if negb (Z.of_nat (length copied) =? size) || negb (bool_decide (sha256 copied = digest)) then fail Err
       else syncFile tmp ;; closeFile tmp ;; rename tmp dst ;; syncDirectory (dirOf dst))))
    (fun _ t => sha256 body = digest /\ placed J tmp body t).
Proof.
  intros Ht Hpl Hl. eapply safe_bind; [by apply writeFile_safe with (body' := [])|]. intros ?. cbv zeta.
  set (copied := take _ body).
  eapply safe_bind; [apply appendAll_safe|]. intros ?. rewrite concat_chunks by lia. simpl.
  apply safe_if; intros Hv; [apply safe_fail, copying_during|].
  apply orb_false_iff in Hv as [Hv1 Hv2]. apply negb_false_iff in Hv1, Hv2. apply Z.eqb_eq in Hv1. apply bool_decide_eq_true in Hv2.
  assert (Hb : copied = body) by (unfold copied in *; apply take_ge; rewrite length_take in Hv1; lia).
  clearbody copied; subst copied.
  eapply safe_bind; [apply safe_look; [apply copying_during|intros ? ? H _; exact H]|]. intros ?.
  eapply safe_bind; [apply safe_look; [apply copying_during|intros ? ? H _; exact H]|]. intros ?.
  eapply safe_bind; [apply rename_safe; auto|]. intros ?. unfold syncDirectory.
  eapply safe_bind; [apply safe_look; [apply placed_during|intros ? ? H _; exact H]|]. intros ?.
  apply safe_look; [apply placed_during|]. done.
Qed.

(** A verified copy passes through tolerated trees and leaves the bytes of the
    source, which have the size and the digest that were asked for. *)
Lemma copy_safe src size digest :
  (forall body t m q, I t -> lstat t src = Found (File m body) q -> Z.of_nat (length body) = size -> sha256 body = digest -> placeable body) ->
  safe I I (copyVerifiedAtomic sha256 src dst size digest)
    (fun _ t => exists body tmp, sha256 body = digest /\ placed J tmp body t).
Proof using Htol.
  intros HJ. unfold copyVerifiedAtomic.
  eapply safe_bind with (R := fun body t => I t /\ exists t0 m q, I t0 /\ lstat t0 src = Found (File m body) q).
  { apply safe_look; [auto|]. intros t body Hi Hf. split; [done|]. destruct (lstat t src) as [[]| |] eqn:E; simplify_eq. eauto. }
  intros body. apply safe_if; intros Hl; [by apply safe_fail; intros ? []|].
  apply negb_false_iff, Z.eqb_eq in Hl. cbv zeta.
  eapply safe_bind; [apply safe_keep, mkdirAll_safe, (tol_dir _ _ Htol)|]. intros ?.
  eapply safe_bind; [apply safe_keep, createTemp_safe|]. intros tmp.
  apply safe_assume. intros (t0 & m & q & Hi0 & Hs0).
  eapply safe_weaken with (P := fun t => copying I dst tmp [] t /\ temporaryOf dst tmp)
    (Q := fun _ t => exists body tmp, sha256 body = digest /\ placed J tmp body t); [|intros t Ht; exact Ht|tauto|intros ? t Ht; exact Ht].
  apply safe_assume. intros Ht.
  eapply (safe_finally_remove (during J tmp)); [apply (tail_safe tmp body size digest Ht); [intros; by eapply HJ|done]| | | |].
  - intros t [[b Hb]|(b & u & Hu & Hd & Hx & Hy & -> & Hn & Hi & Hj)]; [by eapply copying_inv|done].
  - intros t [[b (u & Hu & Hd & Hn & ->)]|(b & u & Hu & Hd & Hx & Hy & -> & Hn & Hi & Hj)] _.
    + by rewrite delete_insert_id.
    + by rewrite delete_id.
  - intros ? t [_ Hp]. by eapply placed_during.
  - intros ? t [Hd Hp]. assert (Hn : t !! tmp = None) by (destruct Hp as (u & Hp); tauto). rewrite delete_id by done. split; exists body, tmp; auto.
Qed.
End Copy.

(** ** Paths that stay below their root *)

Definition names (rel : gostr) : path := filter (fun c => c <> [] /\ c <> dot) (parts rel).

Lemma cleanFrom_names l root : dotdot ∉ l -> cleanFrom root l = root ++ filter (fun c => c <> [] /\ c <> dot) l.
Proof.
  revert root. induction l as [|c l IH]; intros root Hl; [by rewrite app_nil_r|].
  apply not_elem_of_cons in Hl as [Hc Hl]. unfold cleanFrom in *. simpl. rewrite IH by done. unfold cleanStep.
  rewrite filter_cons. case_bool_decide as E1; [rewrite decide_False by tauto; done|].
  case_bool_decide as E2; [rewrite decide_False by tauto; done|]. rewrite (bool_decide_false _) by congruence.
  rewrite decide_True by tauto. by rewrite <- app_assoc.
Qed.
Lemma traversal_notin rel : hasParentTraversal rel = false -> dotdot ∉ parts rel.
Proof.
  unfold hasParentTraversal. intros H Hin. apply not_true_iff_false in H. apply H, existsb_exists.
  exists dotdot. split; [by apply list_elem_of_In|]. by apply bool_decide_eq_true.
Qed.
Lemma joinClean_names root rel : hasParentTraversal rel = false -> joinClean root rel = root ++ names rel.
Proof. intros H. apply cleanFrom_names, traversal_notin, H. Qed.
Lemma names_proper rel : hasParentTraversal rel = false -> Forall proper (names rel).
Proof.
  intros H. apply Forall_forall. intros c Hc. apply list_elem_of_filter in Hc as [[H1 H2] Hin].
  split_and!; auto. intros ->. by apply (traversal_notin rel).
Qed.

Lemma wf_none t p q : wellFormed t -> p `prefix_of` q -> at_ t p = None -> at_ t q = None.
Proof.
  intros Hw [s ->] Hn. destruct (at_ t (p ++ s)) as [n|] eqn:E; [|done].
  destruct s as [|c s]; [rewrite app_nil_r in E; congruence|].
  rewrite at_lookup in E by (by destruct p). pose proof (Hw _ _ E (length p)) as H.
  rewrite take_app_length, length_app in H. rewrite H in Hn by (simpl; lia). done.
Qed.
Lemma lstat_none t p : wellFormed t -> Forall proper p -> lstat t p = NotExist -> at_ t p = None.
Proof.
  intros Hw Hp Hn. destruct (at_ t p) eqn:E; [|done]. destruct (lstat_wf t p Hw Hp) as (m & H & _); congruence.
Qed.
Lemma lstat_found t p n q : Forall proper p -> lstat t p = Found n q -> at_ t p = Some n.
Proof. intros Hp H. by apply (lstatFrom_Some t [] p) in H as (_ & H & _). Qed.

Lemma secure_loop_safe (I P : tree -> Prop) mustExist l cur :
  Forall proper (cur ++ l) -> l <> [] -> (forall t, P t -> I t /\ wellFormed t) ->
  safe I P (secure_loop cur l mustExist) (fun _ t => P t /\ at_ t (cur ++ l) <> Some Symlink).
Proof.
  intros Hp Hl HP. assert (HI : forall t, P t -> I t) by (intros; by apply HP). revert cur Hp Hl. induction l as [|c l IH]; intros cur Hp Hl; [done|]. simpl.
  assert (Hc : proper c) by (apply Forall_app in Hp as [_ Hp]; by apply Forall_cons in Hp as [? _]).
  rewrite cleanStep_proper by done. assert (Hp' : Forall proper ((cur ++ [c]) ++ l)) by by rewrite <- app_assoc.
  assert (Hp1 : Forall proper (cur ++ [c])) by by apply Forall_app in Hp' as [? _].
  eapply safe_bind with (R := fun info t => P t /\ (info = lstat t (cur ++ [c]) \/ info = OtherError)).
  { apply safe_Lstat. intros t Ht. auto. }
  intros [[| |] q| |]; try (apply safe_fail; intros t [? _]; by apply HI).
  - destruct l as [|d l].
    + apply safe_ret. intros t [Ht [E|E]]; [|done]. split; [done|]. symmetry in E. apply lstat_found in E; [|done]. congruence.
    + eapply safe_weaken; [apply (IH (cur ++ [c]) Hp')|..]; [done|auto|by intros t []|]. intros ? t. by rewrite <- app_assoc.
  - destruct l as [|d l]; [|apply safe_fail; intros t [? _]; by apply HI].
    apply safe_ret. intros t [Ht [E|E]]; [|done]. split; [done|]. symmetry in E. apply lstat_found in E; [|done]. congruence.
  - destruct mustExist; [apply safe_fail; intros t [? _]; by apply HI|].
    apply safe_ret. intros t [Ht [E|E]]; [|done]. split; [done|]. symmetry in E. destruct (HP t Ht) as [_ Hw].
    apply lstat_none in E; [|done..]. rewrite (wf_none t (cur ++ [c]) (cur ++ c :: l)); [done|done| |done].
    exists l. by rewrite <- app_assoc.
Qed.

Lemma secure_root_safe (I P : tree -> Prop) mustExist root :
  Forall proper root -> (forall t, P t -> I t /\ wellFormed t) ->
  safe I P (secure_loop root [dot] mustExist) (fun _ t => P t /\ at_ t root <> Some Symlink).
Proof.
  intros Hp HP. assert (HI : forall t, P t -> I t) by (intros; by apply HP). simpl. change (cleanStep root dot) with root.
  eapply safe_bind with (R := fun info t => P t /\ (info = lstat t root \/ info = OtherError)).
  { apply safe_Lstat. intros t Ht. auto. }
  intros [[| |] q| |]; try (apply safe_fail; intros t [? _]; by apply HI).
  1,2: apply safe_ret; intros t [Ht [E|E]]; [|done]; split; [done|]; symmetry in E; apply lstat_found in E; [|done]; congruence.
  destruct mustExist; [apply safe_fail; intros t [? _]; by apply HI|]. apply safe_ret. intros t [Ht [E|E]]; [|done].
  split; [done|]. symmetry in E. destruct (HP t Ht) as [_ Hw]. apply lstat_none in E; [|done..]. by rewrite E.
Qed.

Lemma secureDescendant_safe (I P : tree -> Prop) mustExist root rel :
  Forall proper root -> (forall t, P t -> I t /\ wellFormed t) ->
  safe I P (secureDescendant root rel mustExist)
    (fun p t => (P t /\ at_ t (root ++ names rel) <> Some Symlink) /\ p = root ++ names rel /\ hasParentTraversal rel = false).
Proof.
  intros Hp HP. assert (HI : forall t, P t -> I t) by (intros; by apply HP). unfold secureDescendant.
  apply safe_if; intros Hb; [by apply safe_fail|]. apply orb_false_iff in Hb as [_ Hb].
  rewrite joinClean_names by done. unfold relTo. rewrite bool_decide_true by by exists (names rel).
  rewrite drop_app_length. pose proof (names_proper rel Hb) as Hn.
  eapply safe_bind with (R := fun _ t => P t /\ at_ t (root ++ names rel) <> Some Symlink).
  - destruct (names rel) as [|c l] eqn:E.
    + rewrite app_nil_r. by apply secure_root_safe.
    + apply secure_loop_safe; [by apply Forall_app|done|done].
  - intros ?. apply safe_ret. auto.
Qed.

(** ** Well-formed trees *)

Lemma dirOf_take k (l : path) : (k < length l)%nat -> dirOf (take (S k) l) = take k l.
Proof. intros H. unfold dirOf. rewrite length_take, take_take. f_equal. lia. Qed.
Lemma take_dirOf k (p : path) : (k < length p)%nat -> take k p = take k (dirOf p).
Proof. intros H. unfold dirOf. rewrite take_take. f_equal. lia. Qed.
Lemma length_dirOf (p : path) : length (dirOf p) = (length p - 1)%nat.
Proof. unfold dirOf. rewrite length_take. lia. Qed.

Lemma wf_prefix_dir t p k : wellFormed t -> at_ t p = Some Dir -> at_ t (take k p) = Some Dir.
Proof.
  intros Hw Hp. destruct (decide (k < length p)%nat) as [Hk|Hk]; [|by rewrite take_ge by lia].
  destruct p as [|c p]; [simpl in Hk; lia|]. by apply (Hw (c :: p) Dir).
Qed.

Lemma wf_insert t p n :
  wellFormed t -> p <> [] -> at_ t (dirOf p) = Some Dir -> at_ t p <> Some Dir \/ n = Dir -> wellFormed (<[p:=n]> t).
Proof.
  intros Hw Hnil Hd Hn q m Hq k Hk. destruct (decide (q = p)) as [->|Hne].
  - rewrite at_insert_ne; [|intros E; apply (f_equal length) in E; rewrite length_take in E; lia].
    rewrite take_dirOf by done. by apply wf_prefix_dir.
  - rewrite lookup_insert_ne in Hq by done. pose proof (Hw q m Hq k Hk) as H.
    destruct (decide (p = take k q)) as [->|Hp]; [|by rewrite at_insert_ne].
    destruct Hn as [Hn| ->]; [done|]. by apply at_insert.
Qed.

(** ** One entry *)

Section Entry.
Context (sha256 : gostr -> gostr) (stagingRoot configRoot stateRoot dataRoot : path).
Context (Hst : Forall proper stagingRoot) (Hc : Forall proper configRoot) (Hs : Forall proper stateRoot) (Hd : Forall proper dataRoot).

Lemma rootOf_proper rel root suffix : rootOf rel configRoot stateRoot dataRoot = Some (root, suffix) -> Forall proper root.
Proof using Hc Hs Hd.
  unfold rootOf. destruct (trimPrefix _ _); [by intros [= <- <-]|]. destruct (trimPrefix _ _); [by intros [= <- <-]|].
  destruct (trimPrefix _ _); [|done]. intros [= <- <-]. apply Forall_app; split; [done|]. by repeat constructor.
Qed.

(** What an invariant must tolerate for an entry to be restored. *)
Definition accepts (I : tree -> Prop) (J : path -> gostr -> tree -> Prop) (e : pendingFile) : Prop :=
  forall root suffix, validEntry e = true -> rootOf (pf_Path e) configRoot stateRoot dataRoot = Some (root, suffix) ->
    hasParentTraversal suffix = false ->
    let dst := root ++ names suffix in
    let I' t := I t /\ at_ t dst <> Some Symlink in
    tolerates I' dst /\
    (forall body t m q, I t -> lstat t (stagingRoot ++ names (pf_Path e)) = Found (File m body) q ->
       Z.of_nat (length body) = pf_Size e -> sha256 body = pf_SHA256 e -> placeable I' dst (J dst) body).

Lemma restoreEntry_safe (I : tree -> Prop) J e :
  (forall t, I t -> wellFormed t) -> accepts I J e ->
  safe I I (restoreEntry sha256 stagingRoot configRoot stateRoot dataRoot e)
    (fun _ t => I t /\ exists root suffix body, rootOf (pf_Path e) configRoot stateRoot dataRoot = Some (root, suffix) /\
       J (root ++ names suffix) body t).
Proof using Hst Hc Hs Hd.
  intros Hwf Hacc. unfold restoreEntry. apply safe_if; intros Hv; [by apply safe_fail|]. apply negb_false_iff in Hv.
  eapply safe_bind; [apply (secureDescendant_safe I I); [done|by auto]|]. intros source. cbv beta.
  eapply safe_weaken with (P := fun t => I t /\ (source = stagingRoot ++ names (pf_Path e))); [|intros t Ht; exact Ht|tauto|intros ? t Ht; exact Ht].
  apply safe_assume. intros ->. unfold restoreDestination.
  destruct (rootOf (pf_Path e) configRoot stateRoot dataRoot) as [[root suffix]|] eqn:Er.
  2:{ eapply safe_bind with (R := fun _ _ => False); [by apply safe_fail|]. intros ? w w' r _ []. }
  eapply safe_bind; [apply (secureDescendant_safe I I); [by eapply rootOf_proper|by auto]|]. intros dst. cbv beta.
  apply safe_assume. intros [-> Ht]. destruct (Hacc root suffix Hv Er Ht) as [Htol Hpl].
  eapply safe_weaken; [apply (copy_safe sha256 _ _ Htol (J (root ++ names suffix)))| | |].
  - intros body t m q [Hi _] Hl Hlen Hsha. by eapply Hpl.
  - by intros t [? _].
  - done.
  - intros ? t (body & tmp & Hsha & u & Hu & Hd' & Hx & Hy & -> & Hn & [Hi _] & Hj). split; [done|]. by exists root, suffix, body.
Qed.
End Entry.

Lemma restoreFiles_safe sha256 st c s d (I : tree -> Prop) l n :
  (forall e, e ∈ l -> safe I I (restoreEntry sha256 st c s d e) (fun _ => I)) ->
  safe I I (restoreFiles sha256 st c s d l n) (fun _ => I).
Proof.
  revert n. induction l as [|e l IH]; intros n H; simpl.
  - by apply safe_ret.
  - eapply safe_bind; [apply H; left|]. intros ?. apply IH. intros e' He. apply H. by right.
Qed.

(** ** Containment: whatever the manifest says and whatever fails *)

Section Containment.
Context (sha256 : gostr -> gostr) (f0 : tree) (pend stagingRoot configRoot stateRoot dataRoot : path) (files : list pendingFile).
Context (Hc : Forall proper configRoot) (Hs : Forall proper stateRoot) (Hd : Forall proper dataRoot) (Hst : Forall proper stagingRoot).

(** A path of one of the three areas. *)
Definition inArea (p : path) : Prop :=
  configRoot `prefix_of` p \/ stateRoot `prefix_of` p \/ lastKnownGood dataRoot `prefix_of` p.

(** How the node at a path can differ from the beginning. *)
Inductive touched (f : tree) (p : path) : Prop :=
| t_kept : f !! p = f0 !! p -> touched f p
| t_dir dst : f0 !! p = None -> f !! p = Some Dir -> inArea dst -> p `prefix_of` dst -> touched f p
| t_temp dst body : f0 !! p = None -> f !! p = Some (File mode600 body) -> inArea dst -> temporaryOf dst p -> touched f p
| t_restored e body : inArea p -> f0 !! p <> Some Dir -> f0 !! p <> Some Symlink -> e ∈ files ->
    f !! p = Some (File mode600 body) -> Z.of_nat (length body) = pf_Size e -> sha256 body = pf_SHA256 e -> touched f p.

Definition contained (f : tree) : Prop := wellFormed f /\ forall p, touched f p.

Lemma touched_same f g p : f !! p = g !! p -> touched f p -> touched g p.
Proof. intros E [H|dst H1 H2 H3 H4|dst body H1 H2 H3 H4|e body H1 H2 H3 H4 H5 H6 H7]; rewrite E in *; [by apply t_kept|by eapply t_dir|by eapply t_temp|by eapply t_restored]. Qed.
Lemma touched_none f p : touched f p -> f !! p = None -> f0 !! p = None.
Proof. intros [] E; congruence. Qed.

Lemma contained_insert f p n : contained f -> p <> [] -> at_ f (dirOf p) = Some Dir -> at_ f p <> Some Dir \/ n = Dir ->
  touched (<[p:=n]> f) p -> contained (<[p:=n]> f).
Proof.
  intros [Hw Ht] Hp Hdir Hn Hpt. split; [by apply wf_insert|]. intros q. destruct (decide (p = q)) as [->|Hne]; [done|].
  eapply touched_same; [|apply Ht]. by rewrite lookup_insert_ne.
Qed.

Lemma rootOf_area rel root suffix : rootOf rel configRoot stateRoot dataRoot = Some (root, suffix) -> inArea (root ++ names suffix).
Proof.
  unfold rootOf, inArea. intros H.
  assert (root = configRoot \/ root = stateRoot \/ root = lastKnownGood dataRoot) as [->|[->| ->]].
  { destruct (trimPrefix _ _); [by simplify_eq; auto|]. destruct (trimPrefix _ _); [by simplify_eq; auto|].
    destruct (trimPrefix _ _); simplify_eq/=; auto. }
  - left. by exists (names suffix).
  - right; left. by exists (names suffix).
  - right; right. by exists (names suffix).
Qed.

Lemma dirOf_prefix (p : path) k : take k (dirOf p) `prefix_of` p.
Proof. exists (drop (Nat.min k (length p - 1)) p). unfold dirOf. by rewrite take_take, take_drop. Qed.

Lemma temporary_dir dst tmp : temporaryOf dst tmp -> dirOf tmp = dirOf dst.
Proof. intros [rnd ->]. unfold dirOf at 1. rewrite length_app. simpl. by rewrite Nat.add_sub, take_app_length. Qed.

Lemma contained_accepts e : e ∈ files -> accepts sha256 stagingRoot configRoot stateRoot dataRoot contained (fun _ _ _ => True) e.
Proof.
  intros He root suffix Hv Hr Hp dst I'. apply rootOf_area in Hr. fold dst in Hr. split.
  - constructor.
    + intros k t Hk [Hi Hl] Hdir Hnone. assert (Hq : take (S k) (dirOf dst) <> []) by (destruct (dirOf dst); simpl in *; [lia|done]).
      rewrite at_lookup in Hnone by done. split.
      * apply contained_insert; [done|done|by rewrite dirOf_take|by right|].
        eapply t_dir; [|by rewrite lookup_insert_eq|exact Hr|apply dirOf_prefix]. apply (touched_none t); [apply Hi|done].
      * rewrite at_insert_ne; [done|]. intros E. apply (f_equal length) in E. rewrite length_take, length_dirOf in E.
        rewrite length_dirOf in Hk. lia.
    + intros t tmp body Htmp [Hi Hl] Hdir Hn. destruct (temporaryOf_ne _ _ Htmp) as [Hne Hnil]. split; [|by rewrite at_insert_ne].
      apply contained_insert; [done|done|by rewrite (temporary_dir _ _ Htmp)|left; rewrite at_lookup by done; congruence|].
      eapply t_temp; [|by rewrite lookup_insert_eq|exact Hr|exact Htmp]. apply (touched_none t); [apply Hi|done].
  - intros body t m q Hi Hl Hlen Hsha u [Hu Hul] Hdir Hx Hy. split; [|done].
    assert (Hold : f0 !! dst <> Some Dir /\ f0 !! dst <> Some Symlink).
    { rewrite at_lookup in Hx, Hul by done. destruct Hu as [_ Hu]. destruct (Hu dst) as [E|? E|? ? E|? ? _ E1 E2]; [|split; congruence|split; congruence|done].
      rewrite E in *. done. }
    split; [|by rewrite at_insert by done]. apply contained_insert; [done|done|done|by left|].
    eapply t_restored; [exact Hr|apply Hold|apply Hold|exact He|by rewrite lookup_insert_eq|done|done].
Qed.

Lemma contained_files n : safe contained contained (restoreFiles sha256 stagingRoot configRoot stateRoot dataRoot files n) (fun _ => contained).
Proof using Hc Hs Hd Hst.
  apply restoreFiles_safe. intros e He. eapply safe_weaken.
  - eapply (restoreEntry_safe sha256 _ _ _ _ Hst Hc Hs Hd contained); [by intros t [? _]|by apply contained_accepts].
  - done.
  - done.
  - by intros ? t [? _].
Qed.

(** After the files: the order and the staged files are removed. *)
Definition within (f : tree) : Prop :=
  forall p, touched f p \/ (f !! p = None /\ (p = pend \/ stagingRoot `prefix_of` p)).

Lemma within_delete f p : within f -> p = pend \/ stagingRoot `prefix_of` p -> within (delete p f).
Proof.
  intros H Hp q. destruct (decide (p = q)) as [->|Hne].
  - right. by rewrite lookup_delete_eq.
  - destruct (H q) as [Ht|Hq]; [left|right; by rewrite lookup_delete_ne].
    eapply touched_same; [|exact Ht]. by rewrite lookup_delete_ne.
Qed.
End Containment.

(** ** The whole order *)

Lemma cleanStep_forall p c : Forall proper p -> Forall proper (cleanStep p c).
Proof.
  intros Hp. unfold cleanStep. repeat case_bool_decide; auto; [by apply Forall_take|].
  apply Forall_app; split; [done|]. by repeat constructor.
Qed.
Lemma cleanFrom_forall l p : Forall proper p -> Forall proper (cleanFrom p l).
Proof. unfold cleanFrom. revert p. induction l as [|c l IH]; intros p Hp; simpl; [done|]. by apply IH, cleanStep_forall. Qed.
Lemma lstatFrom_path t p l n q : lstatFrom t p l = Found n q -> q = cleanFrom p l.
Proof.
  revert p. induction l as [|c l IH]; intros p; simpl.
  - destruct (at_ t p); [|done]. by intros [= _ ->].
  - destruct (at_ t p) as [[]|]; try done. by apply IH.
Qed.

Section Order.
Context (sha256 : gostr -> gostr) (configRoot stateRoot dataRoot : path) (pending : pendingRestore).

(** The staging directory of an accepted order. *)
Definition stagingOf : path := cleanAbs (pr_StagingPath pending).
Definition pendPath : path := configRoot ++ [pendingName].

Lemma applyOrder_safe (I P Q D : tree -> Prop) :
  (forall t, P t -> I t) -> (forall t, Q t -> I t) -> (forall t, D t -> I t) ->
  (MatchString operationPattern (pr_OperationID pending) = true ->
   stagingOf = dataRoot ++ [bs "recovery-staging"; pr_OperationID pending] ->
   safe I P (restoreFiles sha256 stagingOf configRoot stateRoot dataRoot (pr_Files pending) 0) (fun _ => Q)) ->
  (forall t, Q t -> D (delete pendPath t)) ->
  (forall t p, stagingOf `prefix_of` p -> D t -> D (delete p t)) ->
  safe I P (applyOrder sha256 configRoot stateRoot dataRoot pending) (fun _ => D).
Proof.
  intros HP HQ HD Hfiles Hpend Hstage. unfold applyOrder.
  apply safe_if; intros H1; [by apply safe_fail|]. apply safe_if; intros H2; [by apply safe_fail|].
  apply negb_false_iff in H1, H2. apply andb_prop in H2 as [_ H2]. apply bool_decide_eq_true in H2.
  eapply safe_bind with (R := fun _ => P); [by apply safe_Lstat|]. intros [[| |] q0| |]; try (by apply safe_fail).
  eapply safe_bind with (R := fun st t => P t /\ st = stagingOf).
  { apply safe_look; [done|]. intros t st Ht E. split; [done|]. destruct (lstat t _) eqn:F; simplify_eq. by apply lstatFrom_path in F. }
  intros st. apply safe_assume. intros ->. apply safe_if; intros H3; [by apply safe_fail|]. apply safe_if; intros H4; [by apply safe_fail|].
  eapply safe_bind; [by apply Hfiles|]. intros n. cbv beta.
  eapply safe_bind with (R := fun _ => D).
  { assert (Hr : safe (fun t => I t /\ (Q t \/ D t)) Q (removeFile pendPath) (fun _ => D)).
    { apply safe_change; [auto|]. intros t t' Ht E. destruct (t !! pendPath) as [[]|] eqn:Ep; simplify_eq; auto 10. }
    assert (Hne : forall w w', removeFile pendPath w = (w', inr ErrNotExist) -> Q (w_tree w) -> D (w_tree w')).
    { intros w w' E Hq. unfold removeFile, change, bind, fault in E. destruct (default false _); [done|]. simpl in E.
      destruct (w_tree w !! pendPath) as [[]|] eqn:Ep; simplify_eq/=. apply Hpend in Hq. by rewrite delete_id in Hq. }
    intros w w' r E Hq. destruct (removeFile (configRoot ++ [pendingName]) w) as [w1 r1] eqn:Er.
    destruct (Hr _ _ _ Er Hq) as ((new & En & Fn) & Hx). split.
    - exists new. split; [destruct r1 as [|[]]; by simplify_eq|]. eapply Forall_impl; [exact Fn|]. by intros t [? _].
    - destruct r1 as [[]|[]]; simplify_eq; [exact Hx| |exact (proj1 Hx)]. by eapply Hne. }
  intros ?. eapply safe_bind with (R := fun _ => D).
  { assert (Hs : safe D D (syncDirectory configRoot) (fun _ => D)).
    { eapply safe_bind with (R := fun _ => D); [by apply safe_look|]. intros ?. by apply safe_look. }
    intros w w' r [= <- <-] Hd. destruct (syncDirectory configRoot w) as [w1 r1] eqn:Es. simpl.
    destruct (Hs _ _ _ Es Hd) as ((new & En & Fn) & Hx). split; [|by destruct r1].
    exists new. split; [done|]. eapply Forall_impl; eauto. }
  intros ?. eapply safe_bind with (R := fun _ => D); [|intros ?; by apply safe_ret].
  intros w w' r E Hd. unfold removeAll in E. revert E Hd.
  assert (Hl : Forall (fun p => stagingOf `prefix_of` p) (filter (fun q => stagingOf `prefix_of` q) (map_to_list (w_tree w)).*1)).
  { apply Forall_forall. intros p Hp. by apply list_elem_of_filter in Hp as [? _]. }
  revert Hl. generalize (filter (fun q => stagingOf `prefix_of` q) (map_to_list (w_tree w)).*1). intros l Hl.
  assert (Hs : safe I D (removeEach l) (fun _ => D)).
  { induction Hl as [|p l Hp Hl IH]; simpl; [by apply safe_ret|]. eapply safe_bind; [|intros ?; apply IH].
    apply safe_change; [done|]. intros t t' Ht [= <-]. split; [apply HD|]; by apply Hstage. }
  intros E Hd. by apply (Hs w).
Qed.
End Order.

(** ** Containment of the whole program *)

Definition rootPath (cwd : option path) (s : gostr) : option path :=
  if isAbs s then Some (cleanAbs s) else (fun c => joinClean c s) <$> cwd.
Lemma cleanRoot_path s w : cleanRoot s w = (w, match rootPath (w_cwd w) s with Some p => inl p | None => inr Err end).
Proof. unfold cleanRoot, rootPath, ret. destruct (isAbs s); [done|]. by destruct (w_cwd w). Qed.
Lemma rootPath_proper cwd s p : (forall c, cwd = Some c -> Forall proper c) -> rootPath cwd s = Some p -> Forall proper p.
Proof.
  intros Hc. unfold rootPath. destruct (isAbs s); [intros [= <-]; by apply cleanFrom_forall|].
  destruct cwd as [c|]; [|done]. intros [= <-]. by apply cleanFrom_forall, Hc.
Qed.

Section Program.
Context (sha256 : gostr -> gostr) (decodePending : gostr -> option pendingRestore).

(** The order that a tree holds. *)
Definition orderIn (t : tree) (configRoot : path) (pending : pendingRestore) : Prop :=
  exists m body q, lstat t (configRoot ++ [pendingName]) = Found (File m body) q /\ decodePending body = Some pending /\
    Z.of_nat (length body) <= maxPendingBytes.

Lemma readPending_spec p w w' r :
  readPending decodePending p w = (w', r) ->
  w_tree w' = w_tree w /\ w_history w' = w_history w /\ w_names w' = w_names w /\ w_faults w' = tail (w_faults w) /\
  match r with
  | inl pending => exists m body q, lstat (w_tree w) p = Found (File m body) q /\ decodePending body = Some pending /\ Z.of_nat (length body) <= maxPendingBytes
  | inr ErrNotExist => lstat (w_tree w) p = NotExist
  | inr Err => True
  end.
Proof.
  unfold readPending, readRegular, look, bind, fault, fail. destruct (default false _); [intros [= <- <-]; done|].
  destruct (lstat _ p) as [[|m body|] q| |] eqn:E; try (intros [= <- <-]; split_and!; done).
  destruct (Z.ltb_spec maxPendingBytes (Z.of_nat (length body))); [intros [= <- <-]; done|].
  destruct (decodePending body) as [pending|] eqn:F; intros [= <- <-]; split_and!; try done.
  exists m, body, q. split_and!; [done..|lia].
Qed.

Lemma ApplyPending_roots options w c s d :
  rootPath (w_cwd w) (ConfigDir options) = Some c -> rootPath (w_cwd w) (StateDir options) = Some s -> rootPath (w_cwd w) (DataDir options) = Some d ->
  ApplyPending sha256 decodePending options w =
    match readPending decodePending (c ++ [pendingName]) w with
    | (w, inr ErrNotExist) => (w, inl OpNone)
    | (w, inr Err) => (w, inr Err)
    | (w, inl pending) => applyOrder sha256 c s d pending w
    end.
Proof. intros Hc Hs Hd. unfold ApplyPending, bind. rewrite cleanRoot_path, Hc, cleanRoot_path, Hs, cleanRoot_path, Hd. done. Qed.

Lemma applyOrder_contained c s d pending (f0 : tree) :
  Forall proper c -> Forall proper s -> Forall proper d ->
  let W := within sha256 f0 (c ++ [pendingName]) (stagingOf pending) c s d (pr_Files pending) in
  safe W (fun t => t = f0 /\ wellFormed f0) (applyOrder sha256 c s d pending) (fun _ => W).
Proof.
  intros Hc Hs Hd W. set (C := contained sha256 f0 c s d (pr_Files pending)).
  assert (HCW : forall t, C t -> W t) by (intros t [_ H] p; left; apply H).
  assert (H0 : forall t, t = f0 /\ wellFormed f0 -> C t) by (intros t [-> Hw]; split; [done|intros p; by apply t_kept]).
  eapply (applyOrder_safe sha256 c s d pending W _ C W); auto.
  - intros _ _. eapply safe_weaken; [apply contained_files with (f0 := f0); [done..|apply cleanFrom_forall; constructor]|done|done|done].
  - intros t Ht. apply within_delete; [by apply HCW|by left].
  - intros t p Hp Ht. apply within_delete; [done|by right].
Qed.

Lemma ApplyPending_contained options w w' r c s d :
  ApplyPending sha256 decodePending options w = (w', r) ->
  rootPath (w_cwd w) (ConfigDir options) = Some c -> rootPath (w_cwd w) (StateDir options) = Some s -> rootPath (w_cwd w) (DataDir options) = Some d ->
  Forall proper c -> Forall proper s -> Forall proper d -> wellFormed (w_tree w) ->
  exists new, w_history w' = w_history w ++ new /\
    ((new = [] /\ w_tree w' = w_tree w) \/
     exists pending, orderIn (w_tree w) c pending /\
       Forall (within sha256 (w_tree w) (c ++ [pendingName]) (stagingOf pending) c s d (pr_Files pending)) (new ++ [w_tree w'])).
Proof.
  intros H Rc Rs Rd Hc Hs Hd Hw. erewrite ApplyPending_roots in H by done.
  destruct (readPending decodePending (c ++ [pendingName]) w) as [w1 r1] eqn:E.
  apply readPending_spec in E as (Et & Eh & _ & _ & Er). destruct r1 as [pending|[]].
  - destruct (applyOrder_contained c s d pending (w_tree w) Hc Hs Hd w1 w' r H) as ((new & En & Fn) & Hr); [by rewrite Et|].
    exists new. split; [congruence|]. right. exists pending. split; [exact Er|]. apply Forall_app; split; [done|].
    constructor; [by destruct r|done].
  - injection H as <- <-. exists []. rewrite app_nil_r. auto.
  - injection H as <- <-. exists []. rewrite app_nil_r. auto.
Qed.
End Program.
