(* ===== verification/RecoveryCrash.v ===== *)
(** * Recovery survives a crash at any point

    From a valid order, the program may be stopped after any operation, or fail
    in any operation; running it again puts every staged file in place. *)

From Stdlib Require Import String.
From S2P Require Import Prelude GoBase GoText GoRegexp GoPath Recovery RecoverySafety.
Open Scope Z_scope.
Open Scope io_scope.

(** ** Runs without faults

    [gives m t n a t' n']: without faults, from tree [t] and temporary names [n],
    [m] returns [a] and leaves [t'] and [n']. *)

Definition gives {A : Type} (m : M A) (t : tree) (n : list gostr) (a : A) (t' : tree) (n' : list gostr) : Prop :=
  forall h c, exists h', m (World t [] n h c) = (World t' [] n' h' c, inl a).

Lemma gives_ret {A : Type} (a : A) t n : gives (ret a) t n a t n.
Proof. intros h c. by exists h. Qed.
Lemma gives_bind {A B : Type} (m : M A) (k : A -> M B) t n a t1 n1 b t2 n2 :
  gives m t n a t1 n1 -> gives (k a) t1 n1 b t2 n2 -> gives (bind m k) t n b t2 n2.
Proof. intros Hm Hk h c. unfold bind. destruct (Hm h c) as [h1 ->]. apply Hk. Qed.
Lemma gives_look {A : Type} (f : tree -> A + ioerr) t n a : f t = inl a -> gives (look f) t n a t n.
Proof. intros H h c. exists h. unfold look, bind, fault. simpl. by rewrite H. Qed.
Lemma gives_change (f : tree -> tree + ioerr) t n t' : f t = inl t' -> gives (change f) t n tt t' n.
Proof. intros H h c. exists (h ++ [t']). unfold change, bind, fault. simpl. by rewrite H. Qed.
Lemma gives_Lstat l t n : gives (Lstat l) t n (lstat t l) t n.
Proof. intros h c. by exists h. Qed.
Lemma gives_if {A : Type} (b : bool) (m k : M A) t n a t' n' : b = false -> gives k t n a t' n' -> gives (if b then m else k) t n a t' n'.
Proof. by intros ->. Qed.

(** The directories that [mkdirAll] adds. *)
Fixpoint addDirs (t : tree) (p : path) (l : list gostr) : tree :=
  match l with
  | [] => t
  | c :: l => addDirs (match at_ t (p ++ [c]) with Some _ => t | None => <[p ++ [c]:=Dir]> t end) (p ++ [c]) l
  end.

Lemma gives_mkdirs l p t n :
  (forall k, (k < length l)%nat -> at_ t (p ++ take (S k) l) = None \/ at_ t (p ++ take (S k) l) = Some Dir) ->
  gives (mkdirs p l) t n tt (addDirs t p l) n.
Proof.
  revert p t. induction l as [|c l IH]; intros p t H; simpl; [apply gives_ret|].
  assert (H0 : at_ t (p ++ [c]) = None \/ at_ t (p ++ [c]) = Some Dir) by exact (H 0%nat ltac:(simpl; lia)).
  set (t1 := match at_ t (p ++ [c]) with Some _ => t | None => <[p ++ [c]:=Dir]> t end).
  eapply gives_bind; [apply gives_change with (t' := t1)|apply IH].
  - unfold t1. by destruct H0 as [-> | ->].
  - intros k Hk. specialize (H (S k) ltac:(simpl; lia)). rewrite <- app_assoc. change ([c] ++ take (S k) l) with (take (S (S k)) (c :: l)). unfold t1.
    destruct H0 as [E|E]; rewrite E; [|done]. rewrite at_insert_ne; [done|]. intros Ep. apply (f_equal length) in Ep.
    rewrite !length_app, length_take in Ep. cbn [length] in Ep. lia.
Qed.
Lemma addDirs_lookup l p t q : addDirs t p l !! q = t !! q \/ (exists k, (k < length l)%nat /\ q = p ++ take (S k) l /\ addDirs t p l !! q = Some Dir).
Proof.
  revert p t. induction l as [|c l IH]; intros p t; simpl; [by left|].
  destruct (IH (p ++ [c]) (match at_ t (p ++ [c]) with Some _ => t | None => <[p ++ [c]:=Dir]> t end)) as [E|(k & Hk & Eq & E)].
  - rewrite E. destruct (at_ t (p ++ [c])); [by left|]. destruct (decide (p ++ [c] = q)) as [<-|Hne]; [|left; by rewrite lookup_insert_ne].
    right. exists 0%nat. rewrite lookup_insert_eq. simpl. split_and!; [lia|done|done].
  - right. exists (S k). rewrite <- app_assoc in Eq. simpl. split_and!; [lia|done|done].
Qed.
Lemma addDirs_at l p t :
  at_ t p = Some Dir -> (forall k, (k < length l)%nat -> at_ t (p ++ take (S k) l) = None \/ at_ t (p ++ take (S k) l) = Some Dir) ->
  at_ (addDirs t p l) (p ++ l) = Some Dir.
Proof.
  revert p t. induction l as [|c l IH]; intros p t Hp H; simpl; [by rewrite app_nil_r|].
  assert (H0 : at_ t (p ++ [c]) = None \/ at_ t (p ++ [c]) = Some Dir) by exact (H 0%nat ltac:(simpl; lia)). rewrite (app_assoc p [c] l : p ++ c :: l = _).
  apply IH.
  - destruct H0 as [E|E]; rewrite E; [apply at_insert, snoc_ne|done].
  - intros k Hk. specialize (H (S k) ltac:(simpl; lia)). rewrite <- app_assoc. change ([c] ++ take (S k) l) with (take (S (S k)) (c :: l)).
    destruct H0 as [E|E]; rewrite E; [|done]. rewrite at_insert_ne; [done|]. intros Ep. apply (f_equal length) in Ep.
    rewrite !length_app, length_take in Ep. cbn [length] in Ep. lia.
Qed.

Lemma gives_append_all tmp l body t n :
  gives (appendAll tmp l) (<[tmp:=File mode600 body]> t) n tt (<[tmp:=File mode600 (body ++ concat l)]> t) n.
Proof.
  revert body. induction l as [|c l IH]; intros body; simpl; [rewrite app_nil_r; apply gives_ret|].
  eapply gives_bind; [|rewrite app_assoc; apply IH]. apply gives_change. rewrite lookup_insert_eq. by rewrite insert_insert_eq.
Qed.
Lemma gives_finally {A : Type} (m : M A) p t n a t' n' :
  gives m t n a t' n' -> t' !! p = None -> gives (finally m (removeFile p)) t n a t' n'.
Proof.
  intros Hm Hn h c. unfold finally. destruct (Hm h c) as [h1 ->]. unfold removeFile, change, bind, fault. simpl.
  rewrite Hn. by exists h1.
Qed.

(** A destination that can take its file: the copy succeeds. *)
Lemma gives_copy sha256 src dst size digest t rnd rest body :
  (exists m q, lstat t src = Found (File m body) q) -> Z.of_nat (length body) = size -> size <= maxFileBytes -> sha256 body = digest ->
  dst <> [] -> (forall k, (k < length dst)%nat -> at_ t (take k dst) = None \/ at_ t (take k dst) = Some Dir) ->
  at_ t dst <> Some Dir -> t !! (dirOf dst ++ [tempName (baseOf dst) rnd]) = None ->
  gives (copyVerifiedAtomic sha256 src dst size digest) t (rnd :: rest) tt
    (<[dst:=File mode600 body]> (addDirs t [] (dirOf dst))) rest.
Proof.
  intros (m & q & Hl) Hlen Hmax Hsha Hnil Hpar Hdst Htmp.
  assert (Hpar' : forall k, (k < length (dirOf dst))%nat -> at_ t ([] ++ take (S k) (dirOf dst)) = None \/ at_ t ([] ++ take (S k) (dirOf dst)) = Some Dir).
  { intros k Hk. rewrite length_dirOf in Hk. simpl. rewrite <- take_dirOf by lia. apply Hpar. lia. }
  set (u := addDirs t [] (dirOf dst)). set (tmp := dirOf dst ++ [tempName (baseOf dst) rnd]).
  assert (Ht : temporaryOf dst tmp) by by exists rnd. destruct (temporaryOf_ne _ _ Ht) as [Hne _].
  assert (Hd : at_ u (dirOf dst) = Some Dir) by by apply (addDirs_at (dirOf dst) [] t).
  assert (Hu : u !! tmp = None).
  { destruct (addDirs_lookup (dirOf dst) [] t tmp) as [E|(k & Hk & E & _)]; [by rewrite <- Htmp|].
    exfalso. apply (f_equal length) in E. unfold tmp in E. rewrite length_app in E. simpl in E. rewrite length_take in E. lia. }
  assert (Hx : at_ u dst <> Some Dir).
  { rewrite at_lookup in * by done. destruct (addDirs_lookup (dirOf dst) [] t dst) as [E|(k & Hk & E & _)]; [by unfold u; rewrite E|].
    exfalso. apply (f_equal length) in E. simpl in E. rewrite length_take, length_dirOf in E. rewrite length_dirOf in Hk. lia. }
  unfold copyVerifiedAtomic.
  eapply gives_bind; [apply gives_look; rewrite Hl; reflexivity|]. apply gives_if; [rewrite Hlen, Z.eqb_refl; done|]. cbv zeta.
  eapply gives_bind; [by apply gives_mkdirs|]. fold u.
  eapply gives_bind with (a := tmp) (t1 := <[tmp:=File mode600 []]> u) (n1 := rest).
  { intros h c. exists (h ++ [<[tmp:=File mode600 []]> u]). unfold createTemp, bind, fault. cbn [freshName w_tree w_names w_faults tail head default].
    fold tmp. rewrite Hu, Hd. done. }
  apply gives_finally; [|by rewrite lookup_insert_ne].
  eapply gives_bind; [apply gives_change; rewrite lookup_insert_eq; reflexivity|]. rewrite insert_insert_eq.
  replace (take (Z.to_nat (maxFileBytes + 1)) body) with body by (symmetry; apply take_ge; lia).
  eapply gives_bind; [apply gives_append_all|]. rewrite concat_chunks by lia. rewrite app_nil_l.
  apply gives_if; [rewrite Hlen, Z.eqb_refl, bool_decide_true; done|].
  eapply gives_bind; [by apply gives_look|]. eapply gives_bind; [by apply gives_look|].
  eapply gives_bind; [apply gives_change with (t' := <[dst:=File mode600 body]> u)|].
  { rewrite lookup_insert_eq, at_insert_ne, delete_insert_id by done. by destruct (at_ u dst) as [[]|]. }
  assert (Hd' : at_ (<[dst:=File mode600 body]> u) (dirOf dst) = Some Dir).
  { rewrite at_insert_ne; [done|]. intros E. apply (f_equal length) in E. rewrite length_dirOf in E. destruct dst; [done|simpl in E; lia]. }
  eapply gives_bind; [apply gives_look; rewrite Hd'; reflexivity|]. by apply gives_look.
Qed.

Lemma lstatFrom_missing t l q :
  Forall proper l -> (forall k, (k < length (q ++ l))%nat -> at_ t (take k (q ++ l)) = None \/ at_ t (take k (q ++ l)) = Some Dir) ->
  at_ t (q ++ l) = None -> lstatFrom t q l = NotExist.
Proof.
  intros Hp. revert q. induction Hp as [|c l Hc Hl IH]; intros q H Hn; simpl.
  - rewrite app_nil_r in Hn. by rewrite Hn.
  - destruct (H (length q)) as [E|E]; [rewrite length_app; simpl; lia|..]; rewrite take_app_length in E; rewrite E; [done|].
    rewrite cleanStep_proper by done. apply IH; rewrite <- app_assoc; [|done]. intros k Hk. apply H. done.
Qed.
Lemma lstat_missing t p :
  Forall proper p -> (forall k, (k < length p)%nat -> at_ t (take k p) = None \/ at_ t (take k p) = Some Dir) ->
  at_ t p = None -> lstat t p = NotExist.
Proof. apply (lstatFrom_missing t p []). Qed.

Lemma gives_safe {A : Type} (m : M A) t n a t' n' (I P : tree -> Prop) Q : gives m t n a t' n' -> safe I P m Q -> P t -> Q a t'.
Proof. intros Hg Hs Hp. destruct (Hg [] None) as [h E]. by destruct (Hs _ _ _ E Hp) as [_ H]. Qed.
Lemma gives_removeEach l t n : exists t', gives (removeEach l) t n tt t' n.
Proof.
  revert t. induction l as [|p l IH]; intros t; simpl; [exists t; apply gives_ret|].
  destruct (IH (delete p t)) as [t' H]. exists t'. eapply gives_bind; [by apply gives_change|done].
Qed.
Lemma lstatFrom_dirs (t t' : tree) p l q :
  (forall x, at_ t x = Some Dir -> at_ t' x = Some Dir) -> lstatFrom t p l = Found Dir q -> lstatFrom t' p l = Found Dir q.
Proof.
  intros H. revert p. induction l as [|c l IH]; intros p; simpl.
  - destruct (at_ t p) as [n|] eqn:E; [|done]. intros [= -> ->]. by rewrite H.
  - destruct (at_ t p) as [[]|] eqn:E; try done. rewrite H by done. apply IH.
Qed.

(** The check of a path succeeds on directories, a final file and missing ends. *)
Lemma gives_secure_loop l cur mustExist t n :
  wellFormed t -> Forall proper (cur ++ l) ->
  (forall k, (k < length (cur ++ l))%nat -> at_ t (take k (cur ++ l)) = None \/ at_ t (take k (cur ++ l)) = Some Dir) ->
  at_ t (cur ++ l) <> Some Symlink -> (mustExist = true -> at_ t (cur ++ l) <> None) ->
  gives (secure_loop cur l mustExist) t n tt t n.
Proof.
  intros Hw. revert cur. induction l as [|c l IH]; intros cur Hp Hpar Hlink Hme; cbn [secure_loop]; [apply gives_ret|].
  assert (Hpc : Forall proper (cur ++ [c]) /\ proper c).
  { apply Forall_app in Hp as [H1 H2]. apply Forall_cons in H2 as [H2 _]. split; [|done]. apply Forall_app; split; [done|by constructor]. }
  destruct Hpc as [Hpc Hc]. rewrite cleanStep_proper by done.
  assert (Happ : (cur ++ [c]) ++ l = cur ++ c :: l) by by rewrite <- app_assoc.
  assert (Hlen : length (cur ++ c :: l) = (length (cur ++ [c]) + length l)%nat) by by rewrite <- Happ, length_app.
  assert (Htake : forall k, (k <= length (cur ++ [c]))%nat -> take k (cur ++ c :: l) = take k (cur ++ [c])).
  { intros k Hk. by rewrite <- Happ, take_app_le. }
  eapply gives_bind; [apply gives_Lstat|].
  destruct (at_ t (cur ++ [c])) as [nd|] eqn:E.
  - destruct (lstat_wf t (cur ++ [c]) Hw Hpc) as (nd' & El & E'); [congruence|]. rewrite E in E'. injection E' as <-. rewrite El.
    destruct l as [|d l]; [destruct nd; [apply gives_ret..|done]|].
    assert (nd = Dir) as ->.
    { destruct (Hpar (length (cur ++ [c]))) as [H|H]; [rewrite Hlen; simpl; lia|..];
        rewrite Htake, take_ge in H by lia; congruence. }
    apply IH; rewrite Happ; auto.
  - rewrite lstat_missing; [|done| |done].
    + destruct mustExist; [|apply gives_ret]. exfalso. apply (Hme eq_refl). apply (wf_none t (cur ++ [c])); [done|exists l; done|done].
    + intros k Hk. rewrite <- Htake by lia. apply Hpar. lia.
Qed.
Lemma gives_secure root rel mustExist t n :
  wellFormed t -> Forall proper root -> isAbs rel = false -> hasParentTraversal rel = false -> names rel <> [] ->
  (forall k, (k < length (root ++ names rel))%nat -> at_ t (take k (root ++ names rel)) = None \/ at_ t (take k (root ++ names rel)) = Some Dir) ->
  at_ t (root ++ names rel) <> Some Symlink -> (mustExist = true -> at_ t (root ++ names rel) <> None) ->
  gives (secureDescendant root rel mustExist) t n (root ++ names rel) t n.
Proof.
  intros Hw Hr Ha Ht Hn Hpar Hl Hm. unfold secureDescendant. rewrite Ha, Ht, joinClean_names by done. simpl.
  unfold relTo. rewrite bool_decide_true by by exists (names rel). rewrite drop_app_length.
  eapply gives_bind with (a := tt); [|apply gives_ret]. destruct (names rel) as [|c l] eqn:E; [done|]. rewrite <- E in *.
  apply gives_secure_loop; auto. apply Forall_app; split; [done|]. by apply names_proper.
Qed.

Section Crash.
Context (sha256 : gostr -> gostr) (decodePending : gostr -> option pendingRestore).
Context (f0 : tree) (configRoot stateRoot dataRoot : path) (pending : pendingRestore).

Definition files : list pendingFile := pr_Files pending.
Definition staging : path := stagingOf pending.
Definition pendFile : path := configRoot ++ [pendingName].

Definition destOf (e : pendingFile) : path :=
  match rootOf (pf_Path e) configRoot stateRoot dataRoot with Some (root, suffix) => root ++ names suffix | None => [] end.
Definition sourceOf (e : pendingFile) : path := staging ++ names (pf_Path e).
Definition stagedBody (e : pendingFile) : gostr := match at_ f0 (sourceOf e) with Some (File _ body) => body | _ => [] end.
Definition installed (e : pendingFile) : node := File mode600 (stagedBody e).
Definition isTempName (c : gostr) : Prop := exists b r, c = tempName b r.

(** An order that can be carried out: the staged files are those of the manifest
    and every destination can take its file. *)
Record feasible : Prop := {
  fe_wf : wellFormed f0;
  fe_roots : Forall proper configRoot /\ Forall proper stateRoot /\ Forall proper dataRoot;
  fe_order : orderIn decodePending f0 configRoot pending;
  fe_operation : MatchString operationPattern (pr_OperationID pending) = true;
  fe_abs : isAbs (pr_StagingPath pending) = true;
  fe_path : staging = dataRoot ++ [bs "recovery-staging"; pr_OperationID pending];
  fe_staging : lstat f0 (parts (pr_StagingPath pending)) = Found Dir staging;
  fe_count : files <> [] /\ Z.of_nat (length files) <= 4096;
  fe_valid e : e ∈ files -> validEntry e = true /\
    exists root suffix, rootOf (pf_Path e) configRoot stateRoot dataRoot = Some (root, suffix) /\
      isAbs suffix = false /\ hasParentTraversal suffix = false /\ names suffix <> [];
  fe_source e : e ∈ files -> exists m, at_ f0 (sourceOf e) = Some (File m (stagedBody e)) /\
    Z.of_nat (length (stagedBody e)) = pf_Size e /\ sha256 (stagedBody e) = pf_SHA256 e;
  fe_target e : e ∈ files -> f0 !! destOf e <> Some Dir /\ f0 !! destOf e <> Some Symlink;
  fe_parents e k : e ∈ files -> (k < length (destOf e))%nat -> at_ f0 (take k (destOf e)) = None \/ at_ f0 (take k (destOf e)) = Some Dir;
  fe_apart e e' k : e ∈ files -> e' ∈ files -> (k < length (destOf e))%nat -> take k (destOf e) <> destOf e';
  fe_distinct e e' : e ∈ files -> e' ∈ files -> destOf e = destOf e' -> e = e';
  fe_outside e : e ∈ files -> ~ staging `prefix_of` destOf e /\ destOf e <> pendFile;
  fe_pend : ~ staging `prefix_of` pendFile;
  fe_names e : e ∈ files -> Forall (fun c => ~ isTempName c) (destOf e) }.

Context (F : feasible).

(** ** The trees of an interrupted restore *)

Inductive progress (f : tree) (p : path) : Prop :=
| p_kept : f !! p = f0 !! p -> progress f p
| p_installed e : e ∈ files -> p = destOf e -> f !! p = Some (installed e) -> progress f p
| p_dir e k : e ∈ files -> (k < length (destOf e))%nat -> p = take k (destOf e) -> f0 !! p = None -> f !! p = Some Dir -> progress f p
| p_temp e body : e ∈ files -> temporaryOf (destOf e) p -> f0 !! p = None -> f !! p = Some (File mode600 body) -> progress f p.

Definition resumable (f : tree) : Prop := wellFormed f /\ forall p, progress f p.
Definition restored (done : list pendingFile) (f : tree) : Prop :=
  resumable f /\ forall e, e ∈ done -> f !! destOf e = Some (installed e).
Definition finished (f : tree) : Prop :=
  (forall k, (k <= length configRoot)%nat -> at_ f (take k configRoot) = Some Dir) /\
  f !! pendFile = None /\ forall e, e ∈ files -> f !! destOf e = Some (installed e).

Lemma progress_same f g p : f !! p = g !! p -> progress f p -> progress g p.
Proof.
  intros E [H|e H1 H2 H3|e k H1 H2 H3 H4 H5|e body H1 H2 H3 H4]; rewrite E in *;
    [by apply p_kept|by eapply p_installed|by eapply p_dir|by eapply p_temp].
Qed.
Lemma progress_none f p : progress f p -> f !! p = None -> f0 !! p = None.
Proof. intros [] E; congruence. Qed.

Lemma resumable_start : resumable f0.
Proof using F. split; [apply F|]. intros p. by apply p_kept. Qed.

Lemma resumable_insert f p n : resumable f -> p <> [] -> at_ f (dirOf p) = Some Dir -> at_ f p <> Some Dir \/ n = Dir ->
  progress (<[p:=n]> f) p -> resumable (<[p:=n]> f).
Proof.
  intros [Hw Ht] Hp Hdir Hn Hpt. split; [by apply wf_insert|]. intros q. destruct (decide (p = q)) as [->|Hne]; [done|].
  eapply progress_same; [|apply Ht]. by rewrite lookup_insert_ne.
Qed.

Lemma staging_dir : at_ f0 staging = Some Dir.
Proof using F.
  pose proof (fe_staging F) as H. unfold lstat in H. revert H. generalize (parts (pr_StagingPath pending)), ([] : path).
  intros l. induction l as [|c l IH]; intros p; simpl.
  - destruct (at_ f0 p) eqn:E; [|done]. intros H. injection H as -> ->. done.
  - destruct (at_ f0 p) as [[]|]; try done. apply IH.
Qed.

(** Nothing below the staging directory changes, nor does the order. *)
Lemma resumable_staging f p : resumable f -> staging `prefix_of` p -> at_ f p = at_ f0 p.
Proof using F.
  intros [_ Ht] Hp. destruct p as [|c p]; [done|]. simpl. destruct (Ht (c :: p)) as [E|e H1 H2 H3|e k H1 H2 H3 H4 H5|e body H1 H2 H3 H4]; [done|..]; exfalso.
  - destruct (fe_outside F e H1) as [H _]. by rewrite <- H2 in H.
  - destruct (fe_outside F e H1) as [H _]. apply H. transitivity (c :: p); [done|]. rewrite H3. by exists (drop k (destOf e)); rewrite take_drop.
  - destruct (fe_outside F e H1) as [H _]. destruct H2 as [rnd H2].
    destruct Hp as [s Hp]. destruct s as [|x s] using rev_ind.
    + rewrite app_nil_r in Hp. pose proof staging_dir as Hd. rewrite <- Hp in Hd. simpl in Hd. congruence.
    + rewrite H2, app_assoc in Hp. apply app_inj_tail in Hp as [Hp _]. apply H. transitivity (dirOf (destOf e)); [by exists s|].
      unfold dirOf. exists (drop (length (destOf e) - 1) (destOf e)). by rewrite take_drop.
Qed.
Lemma pend_file : exists m body, f0 !! pendFile = Some (File m body) /\ decodePending body = Some pending /\ Z.of_nat (length body) <= maxPendingBytes /\
  (forall k, (k <= length configRoot)%nat -> at_ f0 (take k configRoot) = Some Dir).
Proof using F.
  destruct (fe_order F) as (m & body & q & Hl & Hd & Hz). assert (Hp : Forall proper (configRoot ++ [pendingName])).
  { apply Forall_app; split; [apply F|]. by repeat constructor. }
  apply (lstatFrom_Some f0 []) in Hl as (_ & Ha & Hk); [|done]. simpl in Ha, Hk. rewrite at_lookup in Ha by apply snoc_ne.
  exists m, body. split_and!; [done..|]. intros k Hle. specialize (Hk k). rewrite length_app in Hk. simpl in Hk.
  rewrite take_app_le in Hk by lia. apply Hk. lia.
Qed.
Lemma resumable_pend f : resumable f -> f !! pendFile = f0 !! pendFile.
Proof using F.
  destruct pend_file as (m & body & Hf & _). intros [_ Ht]. destruct (Ht pendFile) as [E|e H1 H2 H3|e k H1 H2 H3 H4 H5|e b H1 H2 H3 H4]; [done|..]; try congruence.
  by destruct (fe_outside F e H1) as [_ []].
Qed.
Lemma resumable_dir f p : resumable f -> at_ f0 p = Some Dir -> at_ f p = Some Dir.
Proof using F.
  intros [_ Ht] Hp. destruct p as [|c p]; [done|]. simpl in *. destruct (Ht (c :: p)) as [E|e H1 H2 H3|e k H1 H2 H3 H4 H5|e b H1 H2 H3 H4]; try congruence.
  destruct (fe_target F e H1) as [H _]. rewrite H2 in Hp. congruence.
Qed.

(** ** One entry *)

Lemma destOf_root e root suffix : rootOf (pf_Path e) configRoot stateRoot dataRoot = Some (root, suffix) -> destOf e = root ++ names suffix.
Proof. unfold destOf. by intros ->. Qed.
Lemma temp_not_dest e e' tmp : e' ∈ files -> temporaryOf (destOf e) tmp -> tmp <> destOf e'.
Proof using F.
  intros He [rnd ->] E. pose proof (fe_names F e' He) as H. rewrite <- E in H. apply Forall_app in H as [_ H].
  apply Forall_cons in H as [H _]. apply H. by exists (baseOf (destOf e)), rnd.
Qed.
Lemma source_proper e : e ∈ files -> Forall proper (sourceOf e).
Proof using F.
  intros He. destruct (fe_valid F e He) as [Hv _]. apply Forall_app; split; [apply cleanFrom_forall; constructor|].
  apply names_proper. unfold validEntry in Hv. repeat (apply andb_prop in Hv as [Hv ?]). by apply negb_true_iff.
Qed.

Lemma restored_accepts done e :
  e ∈ files -> (forall e', e' ∈ done -> e' ∈ files) ->
  accepts sha256 staging configRoot stateRoot dataRoot (restored done) (fun _ _ t => t !! destOf e = Some (installed e)) e.
Proof using F.
  intros He Hdone root suffix Hv Hr Hp dst I'. assert (Hdst : destOf e = dst) by by apply destOf_root.
  assert (Hput : forall t p n, p <> [] -> restored done t -> resumable (<[p:=n]> t) ->
    (forall e', e' ∈ done -> p = destOf e' -> n = installed e') -> restored done (<[p:=n]> t)).
  { intros t p n Hnil [Hg Hi] Hg' Hsame. split; [done|]. intros e' He'.
    destruct (decide (p = destOf e')) as [E|Hne]; [rewrite <- E, lookup_insert_eq; f_equal; by apply Hsame|].
    rewrite lookup_insert_ne by done. by apply Hi. }
  split.
  - constructor.
    + intros k t Hk [Hi Hl] Hdir Hnone. assert (Hq : take (S k) (dirOf dst) <> []) by (destruct (dirOf dst); simpl in *; [lia|done]).
      assert (Hlt : (S k < length dst)%nat) by (rewrite length_dirOf in Hk; lia).
      assert (Eq : take (S k) (dirOf dst) = take (S k) dst) by by rewrite <- take_dirOf.
      assert (Hg : resumable (<[take (S k) (dirOf dst):=Dir]> t)).
      { apply resumable_insert; [apply Hi|done|by rewrite dirOf_take|by right|]. rewrite at_lookup in Hnone by done.
        eapply (p_dir _ _ e (S k)); [done|by rewrite Hdst|by rewrite Hdst|eapply progress_none; [apply Hi|done]|by rewrite lookup_insert_eq]. }
      split; [apply Hput; auto|].
      * intros e' He' E. exfalso. apply (fe_apart F e e' (S k)); [done|auto|by rewrite Hdst|]. by rewrite Hdst, <- Eq.
      * rewrite at_insert_ne; [done|]. intros E. apply (f_equal length) in E. rewrite length_take, length_dirOf in E. lia.
    + intros t tmp body Htmp [Hi Hl] Hdir Hn. destruct (temporaryOf_ne _ _ Htmp) as [Hne Hnil]. split; [|by rewrite at_insert_ne].
      assert (Ht' : temporaryOf (destOf e) tmp) by by rewrite Hdst.
      apply Hput; [done|done| |].
      * apply resumable_insert; [apply Hi|done|by rewrite (temporary_dir _ _ Htmp)|left; rewrite at_lookup by done; congruence|].
        eapply p_temp; [exact He|exact Ht'|eapply progress_none; [apply Hi|done]|by rewrite lookup_insert_eq].
      * intros e' He' E. exfalso. eapply temp_not_dest; [apply Hdone, He'|exact Ht'|exact E].
  - intros body t m q Hi Hlst Hlen Hsha u [Hu Hul] Hdir Hx Hy.
    assert (Hbody : body = stagedBody e).
    { apply lstat_found in Hlst; [|by apply source_proper]. change (staging ++ names (pf_Path e)) with (sourceOf e) in Hlst.
      rewrite (resumable_staging t) in Hlst; [|apply Hi|by exists (names (pf_Path e))]. unfold stagedBody. by rewrite Hlst. }
    subst body. change (File mode600 (stagedBody e)) with (installed e).
    split; [split; [|by rewrite at_insert]|rewrite Hdst; by rewrite lookup_insert_eq].
    apply Hput; [done|done| |].
    + apply resumable_insert; [apply Hu|done|done|by left|]. eapply (p_installed _ _ e); [done|done|by rewrite lookup_insert_eq].
    + intros e' He' E. rewrite <- Hdst in E. by rewrite (fe_distinct F e e' He (Hdone _ He') E).
Qed.

Lemma restore_entry_safe done e : e ∈ files -> (forall e', e' ∈ done -> e' ∈ files) ->
  safe resumable (restored done) (restoreEntry sha256 staging configRoot stateRoot dataRoot e) (fun _ => restored (done ++ [e])).
Proof using F.
  intros He Hdone. eapply safe_weaken.
  - eapply (restoreEntry_safe sha256 staging configRoot stateRoot dataRoot); [apply cleanFrom_forall; constructor|apply F..| |by apply restored_accepts].
    by intros t [[? _] _].
  - by intros t [? _].
  - done.
  - intros ? t [[Hg Hi] (root & suffix & body & Hr & Hj)]. split; [done|]. intros e' [He'|He']%elem_of_app; [by apply Hi|].
    apply list_elem_of_singleton in He' as ->. done.
Qed.
Lemma restore_files_safe l done n : (forall e, e ∈ done ++ l -> e ∈ files) ->
  safe resumable (restored done) (restoreFiles sha256 staging configRoot stateRoot dataRoot l n) (fun _ => restored (done ++ l)).
Proof using F.
  revert done n. induction l as [|e l IH]; intros done n H; simpl.
  - apply safe_ret. by rewrite app_nil_r.
  - eapply safe_bind; [apply restore_entry_safe; [apply H|intros; apply H]; set_solver|]. intros ?.
    replace (done ++ e :: l) with ((done ++ [e]) ++ l) by by rewrite <- app_assoc. apply IH. by rewrite <- app_assoc.
Qed.

(** ** The end of a restore *)

Lemma finish_pend t : restored files t -> finished (delete pendFile t).
Proof using F.
  intros [Hg Hi]. destruct pend_file as (m & body & Hf & _ & _ & Hk). split_and!.
  - intros k Hle. assert (take k configRoot <> pendFile).
    { intros E. apply (f_equal length) in E. unfold pendFile in E. rewrite length_take, length_app in E. simpl in E. lia. }
    destruct (take k configRoot) as [|c p] eqn:E; [done|]. simpl. rewrite lookup_delete_ne by done.
    apply (resumable_dir t (c :: p) Hg). rewrite <- E. by apply Hk.
  - apply lookup_delete_eq.
  - intros e He. destruct (fe_outside F e He) as [_ Hne]. rewrite lookup_delete_ne by done. by apply Hi.
Qed.
Lemma finish_staged t p : staging `prefix_of` p -> finished t -> finished (delete p t).
Proof using F.
  intros Hp (Hk & Hn & Hi). split_and!.
  - intros k Hle. assert (Hne : p <> take k configRoot).
    { intros ->. apply (fe_pend F). transitivity (take k configRoot); [done|]. exists (drop k configRoot ++ [pendingName]).
      unfold pendFile. by rewrite app_assoc, take_drop. }
    specialize (Hk k Hle). destruct (take k configRoot) as [|c q]; [done|]. simpl in *. by rewrite lookup_delete_ne.
  - destruct (decide (p = pendFile)) as [->|]; [apply lookup_delete_eq|by rewrite lookup_delete_ne].
  - intros e He. destruct (fe_outside F e He) as [Ho _]. rewrite lookup_delete_ne; [by apply Hi|]. intros ->. done.
Qed.

(** Every tree of a run is resumable or finished, whatever fails. *)
Definition survives (t : tree) : Prop := resumable t \/ finished t.
Lemma order_survives :
  safe survives resumable (applyOrder sha256 configRoot stateRoot dataRoot pending) (fun _ => finished).
Proof using F.
  eapply (applyOrder_safe sha256 configRoot stateRoot dataRoot pending survives resumable (restored files) finished).
  - by left.
  - intros t [H _]. by left.
  - by right.
  - intros _ _. eapply safe_weaken; [apply (restore_files_safe files [])|..].
    + by intros e.
    + by left.
    + intros t Ht. split; [done|]. intros e He. by apply not_elem_of_nil in He.
    + done.
  - apply finish_pend.
  - intros t p. apply finish_staged.
Qed.

(** ** A run from a resumable tree *)

Lemma resumable_parents t e k : resumable t -> e ∈ files -> (k < length (destOf e))%nat ->
  at_ t (take k (destOf e)) = None \/ at_ t (take k (destOf e)) = Some Dir.
Proof using F.
  intros [_ Ht] He Hk. destruct (take k (destOf e)) as [|c p] eqn:Ep; [by right|]. simpl. pose proof (fe_parents F e k He Hk) as H0. rewrite Ep in H0. simpl in H0.
  destruct (Ht (c :: p)) as [E|e' H1 H2 H3|e' k' H1 H2 H3 H4 H5|e' b H1 H2 H3 H4]; [by rewrite E| |by right|].
  - exfalso. apply (fe_apart F e e' k); [done..|]. congruence.
  - exfalso. destruct H2 as [rnd H2]. pose proof (fe_names F e He) as Hf. rewrite <- (take_drop k (destOf e)), Ep, H2 in Hf.
    rewrite !Forall_app in Hf. destruct Hf as [[_ Hf] _]. apply Forall_cons in Hf as [Hf _]. apply Hf. by eexists _, _.
Qed.
Lemma resumable_target t e : resumable t -> e ∈ files -> destOf e <> [] -> at_ t (destOf e) <> Some Dir /\ at_ t (destOf e) <> Some Symlink.
Proof using F.
  intros [_ Ht] He Hnil. rewrite at_lookup by done. destruct (Ht (destOf e)) as [E|e' H1 H2 H3|e' k' H1 H2 H3 H4 H5|e' b H1 H2 H3 H4].
  - rewrite E. by apply (fe_target F).
  - rewrite H3. done.
  - exfalso. by apply (fe_apart F e' e k').
  - rewrite H4. done.
Qed.

Definition fresh (t : tree) (ns : list gostr) : Prop := forall rnd b p, rnd ∈ ns -> t !! (p ++ [tempName b rnd]) = None.

Lemma rootOf_rel rel root suffix : rootOf rel configRoot stateRoot dataRoot = Some (root, suffix) -> isAbs rel = false.
Proof.
  unfold rootOf, trimPrefix. do 3 (case_bool_decide as Hp; [destruct Hp as [k ->]; reflexivity|clear Hp]). done.
Qed.

Lemma names_source e : e ∈ files -> names (pf_Path e) <> [].
Proof using F.
  intros He E. destruct (fe_source F e He) as (m & Hs & _). unfold sourceOf in Hs. rewrite E, app_nil_r, staging_dir in Hs. done.
Qed.

Lemma gives_entry t e rnd rest :
  e ∈ files -> resumable t -> fresh t (rnd :: rest) ->
  exists t', gives (restoreEntry sha256 staging configRoot stateRoot dataRoot e) t (rnd :: rest) tt t' rest /\ fresh t' rest.
Proof using F.
  intros He Hg Hf. destruct (fe_valid F e He) as [Hv (root & suffix & Hr & Ha & Ht & Hn)].
  assert (Hd : destOf e = root ++ names suffix) by by apply destOf_root.
  assert (Hnil : destOf e <> []) by (rewrite Hd; by destruct root, (names suffix)).
  destruct (fe_source F e He) as (m & Hsrc & Hlen & Hsha). assert (Hsp := source_proper e He).
  assert (Hsrc' : at_ t (sourceOf e) = Some (File m (stagedBody e))).
  { rewrite (resumable_staging t); [done|done|by exists (names (pf_Path e))]. }
  assert (Hpath : hasParentTraversal (pf_Path e) = false /\ pf_Size e <= maxFileBytes).
  { unfold validEntry in Hv. repeat (apply andb_prop in Hv as [Hv ?]). split; [by apply negb_true_iff|by apply Z.leb_le]. }
  destruct Hpath as [Hpath Hsize]. destruct (resumable_target t e Hg He Hnil) as [Hx Hl].
  exists (<[destOf e:=File mode600 (stagedBody e)]> (addDirs t [] (dirOf (destOf e)))). split.
  - unfold restoreEntry. apply gives_if; [by rewrite Hv|].
    eapply gives_bind; [apply (gives_secure staging (pf_Path e) true)|].
    + apply Hg.
    + apply cleanFrom_forall; constructor.
    + by eapply rootOf_rel.
    + done.
    + by apply names_source.
    + intros k Hk. right. change (staging ++ names (pf_Path e)) with (sourceOf e) in *.
      destruct (sourceOf e) as [|c p] eqn:E; [simpl in Hk; lia|]. destruct Hg as [Hw _]. by apply (Hw (c :: p) (File m (stagedBody e))).
    + change (staging ++ names (pf_Path e)) with (sourceOf e). congruence.
    + intros _. change (staging ++ names (pf_Path e)) with (sourceOf e). congruence.
    + unfold restoreDestination. rewrite Hr. eapply gives_bind; [apply (gives_secure root suffix false); rewrite <- ?Hd|].
      * apply Hg.
      * destruct (fe_roots F) as (R1 & R2 & R3). by eapply (rootOf_proper configRoot stateRoot dataRoot).
      * done.
      * done.
      * done.
      * intros k Hk. by apply resumable_parents.
      * done.
      * done.
      * rewrite <- Hd. change (staging ++ names (pf_Path e)) with (sourceOf e). apply gives_copy; try done.
        -- exists m, (sourceOf e). destruct (lstat_wf t (sourceOf e)) as (n & El & En); [apply Hg|done|congruence|]. congruence.
        -- intros k Hk. by apply resumable_parents.
        -- apply Hf. left.
  - intros r b p Hin. assert (Hname : ~ isTempName (tempName b r) -> False) by (intros H; apply H; by eexists _, _).
    assert (Hne : forall k, take k (destOf e) <> p ++ [tempName b r]).
    { intros k E. pose proof (fe_names F e He) as Hfn. rewrite <- (take_drop k (destOf e)), E, !Forall_app in Hfn.
      destruct Hfn as [[_ Hfn] _]. by apply Forall_cons in Hfn as [? _]. }
    rewrite lookup_insert_ne; [|specialize (Hne (length (destOf e))); by rewrite take_ge in Hne by lia].
    destruct (addDirs_lookup (dirOf (destOf e)) [] t (p ++ [tempName b r])) as [E|(k & Hk & E & _)]; [rewrite E; apply Hf; by right|].
    exfalso. rewrite length_dirOf in Hk. simpl in E. rewrite <- take_dirOf in E by lia. by apply (Hne (S k)).
Qed.

Lemma gives_files l done t ns n :
  (forall e, e ∈ done ++ l -> e ∈ files) -> restored done t -> fresh t ns -> (length l <= length ns)%nat ->
  0 <= n -> n + Z.of_nat (length l) <= 4096 ->
  exists t' ns', gives (restoreFiles sha256 staging configRoot stateRoot dataRoot l n) t ns (n + Z.of_nat (length l)) t' ns' /\ restored (done ++ l) t'.
Proof using F.
  revert done t ns n. induction l as [|e l IH]; intros done t ns n Hin Hr Hf Hlen Hn Hmax; simpl.
  - exists t, ns. rewrite Z.add_0_r, app_nil_r. split; [apply gives_ret|done].
  - destruct ns as [|rnd rest]; [simpl in Hlen; lia|].
    assert (He : e ∈ files) by (apply Hin; set_solver).
    destruct (gives_entry t e rnd rest He) as (t1 & Hg & Hf1); [apply Hr|done|].
    assert (Hr1 : restored (done ++ [e]) t1).
    { apply (gives_safe _ _ _ _ _ _ resumable (restored done) (fun _ => restored (done ++ [e])) Hg); [|done].
      apply restore_entry_safe; [done|]. intros e' He'. apply Hin. set_solver. }
    destruct (IH (done ++ [e]) t1 rest (n +w 1)) as (t' & ns' & Hg' & Hr').
    + by rewrite <- app_assoc.
    + done.
    + done.
    + simpl in Hlen. lia.
    + rewrite wrap_i64_id; unfold min_i64, max_i64; simpl in Hmax; lia.
    + rewrite wrap_i64_id; unfold min_i64, max_i64; simpl in Hmax; lia.
    + exists t', ns'. split; [|by rewrite <- app_assoc in Hr']. eapply gives_bind; [exact Hg|].
      replace (n + Z.of_nat (S (length l))) with (n +w 1 + Z.of_nat (length l)); [done|].
      rewrite wrap_i64_id; unfold min_i64, max_i64; simpl in Hmax; lia.
Qed.

Lemma gives_order t ns :
  resumable t -> fresh t ns -> (length files <= length ns)%nat ->
  exists t' ns', gives (applyOrder sha256 configRoot stateRoot dataRoot pending) t ns (OpRestored (Z.of_nat (length files))) t' ns' /\ finished t'.
Proof using F.
  intros Hg Hf Hlen. destruct (fe_count F) as [Hne Hmax].
  destruct (gives_files files [] t ns 0) as (t1 & ns1 & H1 & R1); try done; try lia.
  { split; [done|]. intros e He. by apply not_elem_of_nil in He. }
  assert (Hst : lstat t (parts (pr_StagingPath pending)) = Found Dir staging).
  { apply (lstatFrom_dirs f0); [|apply (fe_staging F)]. intros x. by apply resumable_dir. }
  assert (Hex : exists t' ns', gives (applyOrder sha256 configRoot stateRoot dataRoot pending) t ns (OpRestored (Z.of_nat (length files))) t' ns').
  { destruct (gives_removeEach (filter (fun q => staging `prefix_of` q) (map_to_list (delete pendFile t1)).*1) (delete pendFile t1) ns1) as [t2 H2].
    exists t2, ns1. unfold applyOrder. apply gives_if; [by rewrite (fe_operation F)|].
    apply gives_if; [rewrite (fe_abs F), bool_decide_true by apply (fe_path F); done|].
    eapply gives_bind; [apply gives_Lstat|]. rewrite Hst. eapply gives_bind; [apply gives_look; rewrite Hst; reflexivity|].
    apply gives_if; [by rewrite bool_decide_false|]. apply gives_if; [apply Z.ltb_ge; done|].
    eapply gives_bind; [exact H1|]. eapply gives_bind with (a := tt) (t1 := delete pendFile t1).
    - destruct pend_file as (m & body & Hpf & _). rewrite <- (resumable_pend t1) in Hpf by apply R1.
      intros h c. exists (h ++ [delete pendFile t1]). unfold removeFile, change, bind, fault. simpl. unfold pendFile in *. rewrite Hpf. done.
    - eapply gives_bind with (a := tt) (t1 := delete pendFile t1).
      + intros h c. exists h. unfold syncDirectory, look, bind, fault. simpl. by destruct (at_ _ _).
      + eapply gives_bind; [|apply gives_ret]. intros h c. unfold removeAll. simpl. apply H2. }
  destruct Hex as (t' & ns' & He). exists t', ns'. split; [done|].
  exact (gives_safe _ _ _ _ _ _ _ _ _ He order_survives Hg).
Qed.
End Crash.

(** ** The whole program *)

Section Program.
Context (sha256 : gostr -> gostr) (decodePending : gostr -> option pendingRestore).
Context (f0 : tree) (configRoot stateRoot dataRoot : path) (pending : pendingRestore) (options : Options) (cwd : option path).
Context (F : feasible sha256 decodePending f0 configRoot stateRoot dataRoot pending).
Context (Rc : rootPath cwd (ConfigDir options) = Some configRoot) (Rs : rootPath cwd (StateDir options) = Some stateRoot)
        (Rd : rootPath cwd (DataDir options) = Some dataRoot).

Let survives := survives f0 configRoot stateRoot dataRoot pending.
Let finished := finished f0 configRoot stateRoot dataRoot pending.

Lemma first_run w w' r :
  w_tree w = f0 -> w_cwd w = cwd -> ApplyPending sha256 decodePending options w = (w', r) ->
  (exists new, w_history w' = w_history w ++ new /\ Forall survives new) /\ survives (w_tree w') /\ (forall op, r = inl op -> finished (w_tree w')).
Proof using F Rc Rs Rd.
  intros Et Ec H. rewrite (ApplyPending_roots _ _ _ _ configRoot stateRoot dataRoot) in H by by rewrite Ec.
  destruct (readPending decodePending (configRoot ++ [pendingName]) w) as [w1 r1] eqn:E.
  apply readPending_spec in E as (Et1 & Eh & _ & _ & Er).
  assert (Hs : survives f0) by (left; by apply resumable_start with sha256 decodePending).
  destruct (fe_order _ _ _ _ _ _ _ F) as (m & body & q & Hl & Hd & _). destruct r1 as [p1|[]].
  - destruct Er as (m1 & body1 & q1 & Hl1 & Hd1 & _). rewrite Et, Hl in Hl1. injection Hl1 as <- <- <-. rewrite Hd in Hd1. injection Hd1 as <-.
    pose proof (order_survives sha256 decodePending f0 configRoot stateRoot dataRoot pending F _ _ _ H) as Ho.
    rewrite Et1, Et in Ho. destruct Ho as [Hn Hr]; [by apply resumable_start with sha256 decodePending|]. rewrite Eh in Hn.
    split; [exact Hn|]. destruct r as [op|e]; [split; [by right|done]|split; [exact Hr|done]].
  - rewrite Et, Hl in Er. done.
  - injection H as <- <-. split; [exists []; by rewrite app_nil_r|]. rewrite Et1, Et. done.
Qed.

Lemma second_run f ns h :
  survives f -> fresh f ns -> (length (files pending) <= length ns)%nat ->
  exists w2 op, ApplyPending sha256 decodePending options (World f [] ns h cwd) = (w2, inl op) /\ finished (w_tree w2).
Proof using F Rc Rs Rd.
  intros Hs Hf Hlen. rewrite (ApplyPending_roots _ _ _ _ configRoot stateRoot dataRoot) by done.
  assert (Hp : Forall proper (configRoot ++ [pendingName])).
  { apply Forall_app; split; [apply (fe_roots _ _ _ _ _ _ _ F)|by repeat constructor]. }
  destruct Hs as [Hg|Hd].
  - destruct (pend_file sha256 decodePending f0 configRoot stateRoot dataRoot pending F) as (m & body & Hpf & Hdec & Hz & _).
    rewrite <- (resumable_pend _ _ _ _ _ _ _ F f Hg) in Hpf. unfold pendFile in Hpf.
    destruct (lstat_wf f (configRoot ++ [pendingName])) as (n & Hl & Hn); [apply Hg|done|rewrite at_lookup by apply snoc_ne; by rewrite Hpf|].
    rewrite at_lookup in Hn by apply snoc_ne. rewrite Hpf in Hn. injection Hn as <-.
    assert (Hr : readPending decodePending (configRoot ++ [pendingName]) (World f [] ns h cwd) = (World f [] ns h cwd, inl pending)).
    { unfold readPending, readRegular, look, bind, fault. simpl. rewrite Hl. apply Z.ltb_ge in Hz. by rewrite Hz, Hdec. }
    rewrite Hr. destruct (gives_order _ _ _ _ _ _ _ F f ns Hg Hf Hlen) as (t' & ns' & Ho & Hfin).
    destruct (Ho h cwd) as [h' ->]. by eexists _, _.
  - destruct Hd as (Hk & Hn & Hi).
    assert (Hl : lstat f (configRoot ++ [pendingName]) = NotExist).
    { apply lstat_missing; [done| |by rewrite at_lookup by apply snoc_ne]. intros k Hk'. right. rewrite length_app in Hk'. simpl in Hk'.
      rewrite take_app_le by lia. apply Hk. lia. }
    assert (Hr : readPending decodePending (configRoot ++ [pendingName]) (World f [] ns h cwd) = (World f [] ns h cwd, inr ErrNotExist)).
    { unfold readPending, readRegular, look, bind, fault. simpl. by rewrite Hl. }
    rewrite Hr. eexists _, _. split; [done|]. by split_and!.
Qed.
End Program.

(** C17: Recovery survives a crash. From a feasible order, let the program run with
    any operations failing and stop it at any tree it passes through: the next
    run without failures succeeds, every file of the manifest is in place with
    exactly its staged bytes and mode 0600, and the order is gone. *)
Theorem recovery_crash_safe sha256 decodePending options w c s d pending w' r f ns :
  feasible sha256 decodePending (w_tree w) c s d pending ->
  rootPath (w_cwd w) (ConfigDir options) = Some c -> rootPath (w_cwd w) (StateDir options) = Some s -> rootPath (w_cwd w) (DataDir options) = Some d ->
  w_history w = [] -> ApplyPending sha256 decodePending options w = (w', r) ->
  f ∈ w_tree w :: w_history w' ->
  fresh f ns -> (length (pr_Files pending) <= length ns)%nat ->
  exists w2 op, ApplyPending sha256 decodePending options (World f [] ns [] (w_cwd w)) = (w2, inl op) /\
    (forall e, e ∈ pr_Files pending -> w_tree w2 !! destOf c s d e = Some (File mode600 (stagedBody (w_tree w) pending e))) /\
    w_tree w2 !! (c ++ [pendingName]) = None.
Proof.
  intros F Rc Rs Rd Hh H Hf Hn Hl.
  destruct (first_run _ _ _ _ _ _ _ options (w_cwd w) F Rc Rs Rd w w' r) as ((new & En & Fn) & _); [done..|].
  rewrite Hh in En. simpl in En.
  assert (Hs : survives (w_tree w) c s d pending f).
  { apply elem_of_cons in Hf as [->|Hf]; [left; by eapply resumable_start|]. rewrite En in Hf. rewrite Forall_forall in Fn. by apply Fn. }
  destruct (second_run _ _ _ _ _ _ _ options (w_cwd w) F Rc Rs Rd f ns [] Hs Hn Hl) as (w2 & op & Ha & Hk & Hp & Hi).
  exists w2, op. auto.
Qed.

(** C25: Recovery stays within its areas, whatever the manifest says and whatever
    operations fail. Every tree the program passes through differs from the first
    one only by: directories on the way to a path below one of the three roots,
    temporaries next to such a path, files below a root that have exactly the
    size and the digest of an entry and replace no directory and no symbolic link,
    and the removal of the order and of the staging directory of this operation. *)
Theorem recovery_contained sha256 decodePending options w w' r c s d :
  ApplyPending sha256 decodePending options w = (w', r) -> wellFormed (w_tree w) -> w_history w = [] ->
  (forall p, w_cwd w = Some p -> Forall proper p) ->
  rootPath (w_cwd w) (ConfigDir options) = Some c -> rootPath (w_cwd w) (StateDir options) = Some s -> rootPath (w_cwd w) (DataDir options) = Some d ->
  (w_history w' = [] /\ w_tree w' = w_tree w) \/
  exists pending, orderIn decodePending (w_tree w) c pending /\
    Forall (within sha256 (w_tree w) (c ++ [pendingName]) (stagingOf pending) c s d (pr_Files pending)) (w_history w' ++ [w_tree w']).
Proof.
  intros H Hw Hh Hcwd Rc Rs Rd.
  destruct (ApplyPending_contained sha256 decodePending options w w' r c s d H Rc Rs Rd) as (new & En & Hr);
    try (eapply rootPath_proper; eassumption); [done|].
  rewrite Hh in En. simpl in En. rewrite En. exact Hr.
Qed.

(** ** A concrete order *)

Definition demoOp : gostr := bs "0123456789abcdef".
Definition demoDigest : gostr := replicate 64 x30.
Definition demoEntry : pendingFile := PendingFile (bs "config/a") 1 demoDigest.
Definition demoPending : pendingRestore := PendingRestore demoOp (bs "/d/recovery-staging/0123456789abcdef") [demoEntry].
Definition demoStaging : path := [bs "d"; bs "recovery-staging"; demoOp].
Definition demoTree : tree :=
  <[[bs "c"; pendingName]:=File mode600 (bs "{}")]> (<[[bs "c"]:=Dir]>
  (<[demoStaging ++ [bs "config"; bs "a"]:=File mode600 (bs "x")]> (<[demoStaging ++ [bs "config"]:=Dir]>
  (<[demoStaging:=Dir]> (<[[bs "d"; bs "recovery-staging"]:=Dir]> (<[[bs "d"]:=Dir]> ∅)))))).
Definition demoOptions : Options := MkOpt (bs "/c") (bs "/s") (bs "/d").
Definition demoSha (_ : gostr) : gostr := demoDigest.
Definition demoDecode (_ : gostr) : option pendingRestore := Some demoPending.
(** The fifteenth operation fails. *)
Definition demoWorld : world := World demoTree (replicate 14 false ++ [true]) [bs "1"] [] None.
(** The tree after the copy and before the rename. *)
Definition demoCrash : tree := <[[bs "c"; bs ".a.1.tmp"]:=File mode600 (bs "x")]> demoTree.

Lemma demo_entry e : e ∈ [demoEntry] -> e = demoEntry.
Proof. apply list_elem_of_singleton. Qed.
Lemma demo_wf : wellFormed demoTree.
Proof.
  unfold demoTree. repeat (apply wf_insert; [|discriminate|vm_compute; reflexivity|first [by right|by left]]).
  intros p n H. by rewrite lookup_empty in H.
Qed.
Lemma demo_feasible : feasible demoSha demoDecode demoTree [bs "c"] [bs "s"] [bs "d"] demoPending.
Proof.
  assert (Hd : destOf [bs "c"] [bs "s"] [bs "d"] demoEntry = [bs "c"; bs "a"]) by (vm_compute; reflexivity).
  assert (Hb : stagedBody demoTree demoPending demoEntry = bs "x") by (vm_compute; reflexivity).
  constructor; try (intros e He%demo_entry); try (intros e' He'%demo_entry); subst; rewrite ?Hd, ?Hb.
  - exact demo_wf.
  - repeat split; repeat constructor; done.
  - exists mode600, (bs "{}"), [bs "c"; pendingName]. split_and!; [vm_compute; reflexivity|reflexivity|vm_compute; discriminate].
  - vm_compute; reflexivity.
  - reflexivity.
  - vm_compute; reflexivity.
  - vm_compute; reflexivity.
  - split; [discriminate|vm_compute; discriminate].
  - split; [vm_compute; reflexivity|]. exists [bs "c"], (bs "a"). split_and!; try (vm_compute; reflexivity). vm_compute. discriminate.
  - exists mode600. split_and!; vm_compute; reflexivity.
  - split; vm_compute; discriminate.
  - intros e k He Hk. apply demo_entry in He as ->. rewrite Hd in *. destruct k as [|[|k]]; [right; reflexivity|right; vm_compute; reflexivity|simpl in Hk; lia].
  - intros e e' k He He' Hk E. apply demo_entry in He as ->. apply demo_entry in He' as ->. rewrite Hd in *. apply (f_equal length) in E. rewrite length_take in E. simpl in *. lia.
  - intros e e' He He' _. apply demo_entry in He as ->. apply demo_entry in He' as ->. done.
  - split; [|discriminate]. intros [x Hx]. vm_compute in Hx. discriminate.
  - intros [x Hx]. vm_compute in Hx. discriminate.
  - repeat constructor; intros (b & r & E); apply (f_equal length) in E; unfold tempName in E; rewrite !length_app in E; simpl in E; lia.
Qed.

(** The end of a temporary's name tells its random part. *)
Lemma tempName_end b : take 5 (rev (tempName b (bs "7"))) = rev (bs "7.tmp").
Proof. unfold tempName. rewrite !rev_app_distr. reflexivity. Qed.
Lemma fresh_insert t p n : fresh t [bs "7"] -> take 5 (rev (default [] (last p))) <> rev (bs "7.tmp") -> fresh (<[p:=n]> t) [bs "7"].
Proof.
  intros Hf Hp rnd b q Hin. rewrite lookup_insert_ne; [by apply Hf|]. intros ->. apply Hp.
  apply list_elem_of_singleton in Hin as ->. rewrite last_snoc. apply tempName_end.
Qed.
Lemma demo_fresh : fresh demoCrash [bs "7"].
Proof.
  unfold demoCrash, demoTree. repeat (apply fresh_insert; [|vm_compute; discriminate]).
  intros rnd b p _. apply lookup_empty.
Qed.

Lemma recovery_crash_safe_witness :
  exists w2 op, ApplyPending demoSha demoDecode demoOptions (World demoCrash [] [bs "7"] [] None) = (w2, inl op) /\
    w_tree w2 !! [bs "c"; bs "a"] = Some (File mode600 (bs "x")).
Proof.
  destruct (recovery_crash_safe demoSha demoDecode demoOptions demoWorld [bs "c"] [bs "s"] [bs "d"] demoPending
    (ApplyPending demoSha demoDecode demoOptions demoWorld).1 (ApplyPending demoSha demoDecode demoOptions demoWorld).2 demoCrash [bs "7"])
    as (w2 & op & H & Hi & _).
  - exact demo_feasible.
  - vm_compute; reflexivity.
  - vm_compute; reflexivity.
  - vm_compute; reflexivity.
  - reflexivity.
  - apply surjective_pairing.
  - right. apply list_elem_of_lookup_2 with 3%nat. refine (bool_decide_eq_true_1 (_ = Some demoCrash) _). vm_compute. reflexivity.
  - exact demo_fresh.
  - simpl. lia.
  - exists w2, op. split; [exact H|].
    replace (Some (File mode600 (bs "x"))) with (Some (File mode600 (stagedBody demoTree demoPending demoEntry))) by (vm_compute; reflexivity).
    exact (Hi demoEntry (list_elem_of_here _ _)).
Defined.

Lemma recovery_contained_witness :
  exists pending, orderIn demoDecode demoTree [bs "c"] pending /\
    within demoSha demoTree [bs "c"; pendingName] (stagingOf pending) [bs "c"] [bs "s"] [bs "d"] (pr_Files pending)
      (w_tree (ApplyPending demoSha demoDecode demoOptions demoWorld).1).
Proof.
  destruct (recovery_contained demoSha demoDecode demoOptions demoWorld (ApplyPending demoSha demoDecode demoOptions demoWorld).1
    (ApplyPending demoSha demoDecode demoOptions demoWorld).2 [bs "c"] [bs "s"] [bs "d"]) as [[H _]|(pending & Ho & Hf)].
  - apply surjective_pairing.
  - exact demo_wf.
  - reflexivity.
  - intros p H. discriminate.
  - vm_compute; reflexivity.
  - vm_compute; reflexivity.
  - vm_compute; reflexivity.
  - exfalso. apply (f_equal (fun l => Nat.eqb (length l) 0)) in H. vm_compute in H. discriminate.
  - exists pending. split; [exact Ho|]. apply Forall_app in Hf as [_ Hf]. apply Forall_cons in Hf as [Hf _]. exact Hf.
Defined.
