(* ===== verification/RouterTransaction.v ===== *)
(** * Guarded RouterOS transactions

    Models [internal/routeros/transaction.go]: a candidate is applied to the
    router under two rollback mechanisms, the Safe Mode console and a scheduler on
    the router itself, and every failure is classified.  The interface the
    transaction uses ([transactionREST], the script runner, Safe Mode sessions and
    file transfer) is the pair of classes [GuardOps] and [ConsoleOps]; a context that expires shows as
    an error of the operation that uses it. *)

From Stdlib Require Import String.
From S2P Require Import Prelude GoBase.
Open Scope Z_scope.

(** ** Errors *)

Inductive TransactionFailureState := TransactionRolledBack | TransactionRecoveryPending | TransactionStateUnconfirmed.

(** Error values with the trees that [errors.Join] and [Unwrap] build; the texts
    are left out.  [HTTPError] carries the status and whether RouterOS reported an
    interrupted command. *)
Inductive goerr :=
| Plain
| ErrRollbackGuardPending
| ErrRollbackGuardUnconfirmed
| HTTPError (status : Z) (interrupted : bool)
| TransactionFailure (state : TransactionFailureState) (err : option goerr)
| Join (a b : goerr).

Definition err := option goerr.

(** [errors.Join]: nil values are dropped. *)
Fixpoint join (values : list err) : err :=
  match values with
  | [] => None
  | None :: values => join values
  | Some e :: values => match join values with None => Some e | Some e' => Some (Join e e') end
  end.

(** [errors.As] for a [TransactionFailure]. *)
Fixpoint TransactionFailureStateOf (e : goerr) : option TransactionFailureState :=
  match e with
  | TransactionFailure s _ => Some s
  | Join a b => match TransactionFailureStateOf a with Some s => Some s | None => TransactionFailureStateOf b end
  | _ => None
  end.

(** [errors.Is] for the two guard errors. *)
Fixpoint is_guard_error (e : goerr) : bool :=
  match e with
  | ErrRollbackGuardPending | ErrRollbackGuardUnconfirmed => true
  | TransactionFailure _ (Some e) => is_guard_error e
  | Join a b => is_guard_error a || is_guard_error b
  | _ => false
  end.

Definition transactionFailure (state : TransactionFailureState) (values : list err) : goerr :=
  TransactionFailure state (join values).

Definition classifyRollbackArmFailure (e : goerr) : goerr :=
  if is_guard_error e then transactionFailure TransactionRecoveryPending [Some e] else e.

Definition guardedFailure (cause rollbackErr : err) : goerr :=
  let state := match rollbackErr with None => TransactionRolledBack | Some _ => TransactionRecoveryPending end in
  transactionFailure state [Some Plain; cause; rollbackErr].

(** ** The operations a transaction uses *)

Inductive scriptRole := RApply | RRollback.
#[export] Instance scriptRole_eq_dec : EqDecision scriptRole.
Proof. solve_decision. Defined.

(** The router's REST side. *)
Class GuardOps (W : Type) := {
  ensureNoPendingRollbackGuard : W -> W * err;
  PrepareDirectDelta : scriptRole -> gostr -> W -> W * (gostr + goerr);
  PrepareImportScript : scriptRole -> gostr -> W -> W * (gostr + goerr);
  ArmRollback : gostr -> Z -> gostr -> W -> W * (gostr + goerr);   (* script, delay, managed import *)
  DisarmRollback : gostr -> W -> W * err;
  WaitSafeModeSettled : Z -> W -> W * err;
  validateImportedDelta : gostr -> err;
}.
(** The console side: scripts, Safe Mode sessions and file transfer over SSH. *)
Class ConsoleOps (W S : Type) := {
  runScript : gostr -> W -> W * err;
  beginSafeMode : gostr -> W -> W * (S + goerr);
  HistoryCapReached : S -> bool;
  Commit : S -> Z -> W -> W * err;
  Abort : S -> W -> W * err;
  upload : scriptRole -> gostr -> W -> W * (gostr + goerr);
  cleanup : list gostr -> W -> W * err;
}.

Inductive guardMode := GuardNone | RollbackScheduler | RollbackSchedulerFallback | SshSafeMode.

Record TransactionResult := MkResult {
  ApplyScript : gostr; RollbackScript : gostr; ResultHistoryCap : bool; CleanupPending : bool; GuardMode : guardMode }.
Definition emptyResult : TransactionResult := MkResult [] [] false false GuardNone.

Section Transaction.
Context {W S : Type} `{!GuardOps W, !ConsoleOps W S}.

Record TransactionOptions := MkOptions {
  RollbackDelay : Z; SettleTimeout : Z;
  HealthCheck : option (W -> W * err); BeforeApply : option (W -> W * err); Finalize : option (W -> W * err);
  SchedulerGuardOnly : bool }.

Definition maxDirectScriptBytes : Z := 16384.
Definition defaultSettle : Z := 30 * second.

(** ** Recovery *)

Definition removeImports (imports : list gostr) (w : W) : W * err :=
  match imports with [] => (w, None) | _ => cleanup imports w end.

Definition rollbackCommitted (rollbackName scheduler : gostr) (imports : list gostr) (settleTimeout : Z) (w : W) : W * err :=
  match runScript rollbackName w with
  | (w, Some e) => (w, Some e)
  | (w, None) =>
      match WaitSafeModeSettled settleTimeout w with
      | (w, Some e) => (w, Some e)
      | (w, None) =>
          match DisarmRollback scheduler w with
          | (w, Some e) => (w, Some e)
          | (w, None) => removeImports imports w
          end
      end
  end.

(** [rollbackPrepared] only adds a time limit of its own. *)
Definition rollbackPrepared := rollbackCommitted.

Definition restoreWhileGuardArmed (rollbackName : gostr) (settleTimeout : Z) (w : W) : W * err :=
  match runScript rollbackName w with
  | (w, Some e) => (w, Some e)
  | (w, None) => WaitSafeModeSettled settleTimeout w
  end.

Definition restoreAfterGuardDisarmed (rollbackName : gostr) (imports : list gostr) (settleTimeout : Z) (w : W) : W * err :=
  match runScript rollbackName w with
  | (w, Some e) => (w, Some e)
  | (w, None) =>
      match WaitSafeModeSettled settleTimeout w with
      | (w, Some e) => (w, Some e)
      | (w, None) => removeImports imports w
      end
  end.

Definition cleanupAfterAbort (scheduler rollbackName : gostr) (session : S) (settleTimeout : Z) (imports : list gostr) (w : W) : W * err :=
  let autoReleased := HistoryCapReached session in
  let '(w, abortErr) := Abort session w in
  let '(w, rollbackErr) := if autoReleased then runScript rollbackName w else (w, None) in
  let rollbackErr := join [abortErr; rollbackErr] in
  match WaitSafeModeSettled settleTimeout w with
  | (w, Some e) => (w, join [rollbackErr; Some e])
  | (w, None) =>
      match rollbackErr with
      | Some e => (w, Some e)
      | None =>
          match DisarmRollback scheduler w with
          | (w, Some e) => (w, Some e)
          | (w, None) => removeImports imports w
          end
      end
  end.

Definition cleanupUnarmedImports (imports : list gostr) (w : W) : W * err :=
  match ensureNoPendingRollbackGuard w with
  | (w, Some e) => (w, Some (transactionFailure TransactionRecoveryPending [Some e]))
  | (w, None) => cleanup imports w
  end.

(** ** Applying *)

Definition callback (f : option (W -> W * err)) (w : W) : W * err := match f with Some f => f w | None => (w, None) end.

Definition with_mode (r : TransactionResult) (m : guardMode) : TransactionResult :=
  MkResult (ApplyScript r) (RollbackScript r) (ResultHistoryCap r) (CleanupPending r) m.

(** The common end of both ways to apply: disarm, finalize, clean up. *)
Definition conclude (result : TransactionResult) (scheduler : gostr) (options : TransactionOptions) (imports : list gostr) (w : W)
    : W * TransactionResult * err :=
  match DisarmRollback scheduler w with
  | (w, Some e) =>
      let '(w, rollbackErr) := restoreWhileGuardArmed (RollbackScript result) (SettleTimeout options) w in
      let state := match rollbackErr with None => TransactionRolledBack | Some _ => TransactionRecoveryPending end in
      (w, result, Some (transactionFailure state [Some Plain; Some e; rollbackErr]))
  | (w, None) =>
      match callback (Finalize options) w with
      | (w, Some e) =>
          let '(w, rollbackErr) := restoreAfterGuardDisarmed (RollbackScript result) imports (SettleTimeout options) w in
          let state := match rollbackErr with None => TransactionRolledBack | Some _ => TransactionStateUnconfirmed end in
          (w, result, Some (transactionFailure state [Some Plain; Some e; rollbackErr]))
      | (w, None) =>
          let '(w, e) := removeImports imports w in
          let result := match e with
                        | None => result
                        | Some _ => MkResult (ApplyScript result) (RollbackScript result) (ResultHistoryCap result) true (GuardMode result)
                        end in
          (w, result, None)
      end
  end.

Definition applyWithSchedulerGuard (healthCheck : W -> W * err) (result : TransactionResult) (scheduler : gostr)
    (options : TransactionOptions) (imports : list gostr) (w : W) : W * TransactionResult * err :=
  let rollback cause w :=
    let '(w, rollbackErr) := rollbackPrepared (RollbackScript result) scheduler imports (SettleTimeout options) w in
    (w, result, Some (guardedFailure cause rollbackErr)) in
  match runScript (ApplyScript result) w with
  | (w, Some e) => rollback (Some e) w
  | (w, None) =>
      match healthCheck w with
      | (w, Some e) => rollback (Some e) w
      | (w, None) => conclude result scheduler options imports w
      end
  end.

Definition applyPrepared (healthCheck : W -> W * err) (result : TransactionResult) (scheduler : gostr)
    (options : TransactionOptions) (imports : list gostr) (w : W) : W * TransactionResult * err :=
  match callback (BeforeApply options) w with
  | (w, Some e) =>
      let '(w, rollbackErr) := rollbackPrepared (RollbackScript result) scheduler imports (SettleTimeout options) w in
      (w, result, Some (guardedFailure (Some e) rollbackErr))
  | (w, None) =>
      if SchedulerGuardOnly options then
        applyWithSchedulerGuard healthCheck (with_mode result RollbackScheduler) scheduler options imports w
      else
        match beginSafeMode (ApplyScript result) w with
        | (w, inr e) =>
            match WaitSafeModeSettled (SettleTimeout options) w with
            | (w, Some settleErr) => (w, result, Some (transactionFailure TransactionRecoveryPending [Some e; Some settleErr]))
            | (w, None) =>
                applyWithSchedulerGuard healthCheck (with_mode result RollbackSchedulerFallback) scheduler options imports w
            end
        | (w, inl session) =>
            let result := MkResult (ApplyScript result) (RollbackScript result) (HistoryCapReached session)
                            (CleanupPending result) SshSafeMode in
            match healthCheck w with
            | (w, Some e) =>
                let '(w, cleanupErr) := cleanupAfterAbort scheduler (RollbackScript result) session (SettleTimeout options) imports w in
                (w, result, Some (guardedFailure (Some e) cleanupErr))
            | (w, None) =>
                match Commit session (SettleTimeout options) w with
                | (w, Some e) => (w, result, Some (transactionFailure TransactionRecoveryPending [Some e]))
                | (w, None) =>
                    match WaitSafeModeSettled (SettleTimeout options) w with
                    | (w, Some e) => (w, result, Some (transactionFailure TransactionRecoveryPending [Some e]))
                    | (w, None) => conclude result scheduler options imports w
                    end
                end
            end
        end
  end.

Definition settled (options : TransactionOptions) : TransactionOptions :=
  if SettleTimeout options <=? 0
  then MkOptions (RollbackDelay options) defaultSettle (HealthCheck options) (BeforeApply options) (Finalize options) (SchedulerGuardOnly options)
  else options.

(** [ApplyCandidate] of a transaction whose transfer functions are set, as
    [NewTransaction] makes it. *)
Definition ApplyCandidate (applySource rollbackSource : gostr) (options : TransactionOptions) (w : W)
    : W * TransactionResult * err :=
  match HealthCheck options with
  | None => (w, emptyResult, Some Plain)
  | Some healthCheck =>
      let options := settled options in
      match ensureNoPendingRollbackGuard w with
      | (w, Some e) => (w, emptyResult, Some (transactionFailure TransactionRecoveryPending [Some e]))
      | (w, None) =>
          match upload RRollback rollbackSource w with
          | (w, inr e) => (w, emptyResult, Some e)
          | (w, inl rollbackImport) =>
              match upload RApply applySource w with
              | (w, inr e) =>
                  let '(w, ce) := cleanupUnarmedImports [rollbackImport] w in (w, emptyResult, join [Some e; ce])
              | (w, inl applyImport) =>
                  let imports := [applyImport; rollbackImport] in
                  match PrepareImportScript RRollback rollbackImport w with
                  | (w, inr e) => let '(w, ce) := cleanupUnarmedImports imports w in (w, emptyResult, join [Some e; ce])
                  | (w, inl rollbackName) =>
                      let result := MkResult [] rollbackName false false GuardNone in
                      match PrepareImportScript RApply applyImport w with
                      | (w, inr e) => let '(w, ce) := cleanupUnarmedImports imports w in (w, result, join [Some e; ce])
                      | (w, inl applyName) =>
                          let result := MkResult applyName rollbackName false false GuardNone in
                          match ArmRollback rollbackName (RollbackDelay options) rollbackImport w with
                          | (w, inr e) =>
                              let failure := classifyRollbackArmFailure e in
                              match TransactionFailureStateOf failure with
                              | Some _ => (w, result, Some failure)
                              | None => let '(w, ce) := cleanupUnarmedImports imports w in (w, result, join [Some failure; ce])
                              end
                          | (w, inl scheduler) => applyPrepared healthCheck result scheduler options imports w
                          end
                      end
                  end
              end
          end
      end
  end.

Definition ApplyDelta (applySource rollbackSource : gostr) (options : TransactionOptions) (w : W)
    : W * TransactionResult * err :=
  if (maxDirectScriptBytes <? Z.of_nat (length applySource)) || (maxDirectScriptBytes <? Z.of_nat (length rollbackSource)) then
    match validateImportedDelta applySource, validateImportedDelta rollbackSource with
    | None, None => ApplyCandidate applySource rollbackSource options w
    | Some e, _ | None, Some e => (w, emptyResult, Some e)
    end
  else
    match HealthCheck options with
    | None => (w, emptyResult, Some Plain)
    | Some healthCheck =>
        let options := settled options in
        match PrepareDirectDelta RRollback rollbackSource w with
        | (w, inr e) => (w, emptyResult, Some e)
        | (w, inl rollbackName) =>
            let result := MkResult [] rollbackName false false GuardNone in
            match PrepareDirectDelta RApply applySource w with
            | (w, inr e) => (w, result, Some e)
            | (w, inl applyName) =>
                let result := MkResult applyName rollbackName false false GuardNone in
                match ArmRollback rollbackName (RollbackDelay options) [] w with
                | (w, inr e) => (w, result, Some (classifyRollbackArmFailure e))
                | (w, inl scheduler) => applyPrepared healthCheck result scheduler options [] w
                end
            end
        end
    end.
End Transaction.
Arguments TransactionOptions W : clear implicits.
