(* ===== verification/StateStore.v ===== *)
(** * The state repository of the control plane

    Models the documents of [internal/controlplane/storage.go]: generations under
    their digest, the commit point [active.json] with its two derived copies, the
    draft and the auxiliary documents.  A JSON document is the object it holds; a
    damaged file holds none.  [writeJSON] replaces a document atomically
    ([writeAtomic]: a temporary is written, synced and renamed), but can fail
    before the replacement or after it (the sync of the directory); a read can
    fail too.  The in-memory copies that [readJSON] keeps of unchanged files and
    the JSON text are left out.

    The state is carried by the class [Disk], so that the control plane's larger
    state can carry it. *)

From S2P Require Import Prelude GoBase GoText GoRegexp RouterTransaction.
Open Scope Z_scope.

(** ** JSON *)

Inductive json :=
| JNull
| JBool (b : bool)
| JNumber (text : gostr)
| JString (s : gostr)
| JArray (l : list json)
| JObject (members : list (gostr * json)).

(** Induction through arrays and objects, and decidable equality. *)
Section JsonInd.
Context (P : json -> Prop) (Hnull : P JNull) (Hbool : forall b, P (JBool b)) (Hnumber : forall t, P (JNumber t)) (Hstring : forall t, P (JString t)).
Context (Harray : forall l, Forall P l -> P (JArray l)) (Hobject : forall m, Forall (fun kv => P kv.2) m -> P (JObject m)).
Fixpoint json_nested_ind (v : json) : P v :=
  match v with
  | JNull => Hnull
  | JBool b => Hbool b
  | JNumber t => Hnumber t
  | JString t => Hstring t
  | JArray l => Harray l ((fix go l : Forall P l := match l with [] => List.Forall_nil _ | x :: l => List.Forall_cons _ _ _ (json_nested_ind x) (go l) end) l)
  | JObject m => Hobject m ((fix go m : Forall (fun kv => P kv.2) m :=
      match m with [] => List.Forall_nil _ | kv :: m => List.Forall_cons _ _ _ (json_nested_ind kv.2) (go m) end) m)
  end.
End JsonInd.
Fixpoint json_eqb (a b : json) : bool :=
  match a, b with
  | JNull, JNull => true
  | JBool x, JBool y => Bool.eqb x y
  | JNumber x, JNumber y | JString x, JString y => bool_decide (x = y)
  | JArray l, JArray l' =>
      (fix go l l' := match l, l' with [], [] => true | x :: l, y :: l' => json_eqb x y && go l l' | _, _ => false end) l l'
  | JObject m, JObject m' =>
      (fix go m m' := match m, m' with
         | [], [] => true
         | (k, x) :: m, (k', y) :: m' => bool_decide (k = k') && json_eqb x y && go m m'
         | _, _ => false end) m m'
  | _, _ => false
  end.
Lemma json_eqb_eq a b : json_eqb a b = true <-> a = b.
Proof.
  revert b. induction a as [|x|t|t|l Hl|m Hm] using json_nested_ind; intros [|x'|t'|t'|l'|m']; cbn; try done.
  - rewrite Bool.eqb_true_iff. split; congruence.
  - rewrite bool_decide_eq_true. split; congruence.
  - rewrite bool_decide_eq_true. split; congruence.
  - transitivity (l = l'); [|split; congruence]. revert l'. induction Hl as [|x l Hx Hl IH]; intros [|y l']; try done.
    rewrite andb_true_iff, Hx, IH. split; [by intros [-> ->]|by intros [= -> ->]].
  - transitivity (m = m'); [|split; congruence]. revert m'. induction Hm as [|[k x] m Hx Hm IH]; intros [|[k' y] m']; try done. cbn in Hx.
    rewrite !andb_true_iff, bool_decide_eq_true, Hx, IH. split; [by intros [[-> ->] ->]|by intros [= -> -> ->]].
Qed.
#[export] Instance json_eq_decision : EqDecision json.
Proof. intros a b. destruct (json_eqb a b) eqn:E; [left; by apply json_eqb_eq|right]. intros H. apply json_eqb_eq in H. congruence. Defined.

Abbreviation map_of := (@gmap gostr (@list_eq_dec byte byte_eq_decision) (@list_countable byte byte_eq_decision byte_countable)).
Abbreviation obj := (map_of json).

(** [value.(string)], the zero value otherwise. *)
Definition stringOf (v : option json) : gostr := match v with Some (JString s) => s | _ => [] end.
Definition nullableString (s : gostr) : json := match s with [] => JNull | _ => JString s end.
Definition isTrue (v : option json) : bool := match v with Some (JBool true) => true | _ => false end.

(** [text]: [fmt.Sprint] of a value, [Sprint] for arrays and objects. *)
Definition text (Sprint : json -> gostr) (v : option json) : gostr :=
  match v with
  | None | Some JNull => []
  | Some (JString s) | Some (JNumber s) => s
  | Some (JBool b) => if b then bs "true" else bs "false"
  | Some v => Sprint v
  end.

(** ** Names *)

(** 64 characters that [hex.DecodeString] accepts and that are lower case. *)
Definition safeRevision (value : gostr) : bool := (length value =? 64)%nat && forallb is_hex value.
Definition safeAuxiliaryName (value : gostr) : bool :=
  match value with [] => false | _ => forallb (fun b => is_lower b || is_digit b || existsb (fun c => is_byte c b) (bs "-_")) value end.

Definition activeName : gostr := bs "active.json".
Definition lkgName : gostr := bs "last-known-good.json".
Definition metadataName : gostr := bs "apply-metadata.json".
Definition draftName : gostr := bs "draft.json".
Definition auxiliaryName (name : gostr) : gostr := name ++ bs ".json".
Definition generationName (revision : gostr) : gostr := bs "generations/" ++ revision ++ bs ".json".
Definition operationName : gostr := bs "apply-operation".

(** ** The state and its primitive operations *)

Inductive content := Document (o : obj) | Damaged.
Abbreviation documents := (map_of content).
Inductive fault := Fine | FailsEarly | FailsLate.

(** A state that holds documents and the faults to come (none when they run
    out).  [stored] records that the documents were replaced. *)
Class Disk (W : Type) := {
  docs : W -> documents;
  nextFault : W -> fault * W;
  store : documents -> W -> W;
}.

(** Programs with an error of type [E]. *)
Definition M (W E A : Type) : Type := W -> W * (A + E).

Section Repository.
Context {W : Type} `{!Disk W} (revisionFor : obj -> gostr).

Definition ret {E A} (a : A) : M W E A := fun w => (w, inl a).
Definition fail {E A} (e : E) : M W E A := fun w => (w, inr e).
Definition bind {E A B} (m : M W E A) (k : A -> M W E B) : M W E B :=
  fun w => match m w with (w, inl a) => k a w | (w, inr e) => (w, inr e) end.
(** The error as a value: [result, err := ...]. *)
Definition attempt {E E' A} (m : M W E A) : M W E' (A + E) := fun w => let '(w, r) := m w in (w, inl r).

Declare Scope store_scope.
Delimit Scope store_scope with store.
Notation "'let*' x ':=' m 'in' k" := (bind m (fun x => k)) (at level 10, x pattern, m at level 100, k at level 200) : store_scope.
Notation "m ;; k" := (bind m (fun _ => k)) (at level 100, k at level 200, right associativity) : store_scope.
Open Scope store_scope.

Definition tick : M W goerr fault := fun w => let '(f, w) := nextFault w in (w, inl f).

(** [readJSON]: [None] is [os.ErrNotExist]. *)
Definition readJSON (name : gostr) : M W goerr (option obj) :=
  let* f := tick in
  match f with
  | Fine => fun w => match docs w !! name with
                     | None => (w, inl None)
                     | Some (Document o) => (w, inl (Some o))
                     | Some Damaged => (w, inr Plain)
                     end
  | _ => fail Plain
  end.

Definition put (name : gostr) (o : obj) : M W goerr unit := fun w => (store (<[name:=Document o]> (docs w)) w, inl tt).
Definition writeJSON (name : gostr) (o : obj) : M W goerr unit :=
  let* f := tick in
  match f with
  | Fine => put name o
  | FailsEarly => fail Plain
  | FailsLate => put name o ;; fail Plain
  end.

(** ** Operations *)

Definition pointerRevision (pointer : option obj) : M W goerr gostr :=
  match pointer with
  | None => ret []
  | Some pointer =>
      let revision := stringOf (pointer !! bs "revision") in
      if negb (bool_decide (revision = [])) && negb (safeRevision revision) then fail Plain else ret revision
  end.
Definition activeRevision : M W goerr gostr := let* pointer := readJSON activeName in pointerRevision pointer.
Definition lkgRevision : M W goerr gostr := let* pointer := readJSON lkgName in pointerRevision pointer.

Definition metadata : M W goerr obj := let* value := readJSON metadataName in ret (default ∅ value).

Definition loadDraft : M W goerr (option obj) := readJSON draftName.

Definition auxiliary (name : gostr) : M W goerr obj :=
  if negb (safeAuxiliaryName name) then fail Plain
  else let* value := readJSON (auxiliaryName name) in ret (default ∅ value).
Definition saveAuxiliary (name : gostr) (value : obj) : M W goerr unit :=
  if negb (safeAuxiliaryName name) then fail Plain else writeJSON (auxiliaryName name) value.

Definition saveDraft (value : obj) : M W goerr gostr := writeJSON draftName value ;; ret (revisionFor value).

(** [os.Stat] finds damaged files too. *)
Definition stageGeneration (value : obj) : M W goerr gostr :=
  let revision := revisionFor value in
  let* f := tick in
  match f with
  | Fine =>
      fun w => match docs w !! generationName revision with
               | Some _ => (w, inl revision)
               | None => (writeJSON (generationName revision) value ;; ret revision) w
               end
  | _ => fail Plain
  end.

Definition loadGeneration (revision : gostr) : M W goerr obj :=
  if negb (safeRevision revision) then fail Plain
  else
    let* value := readJSON (generationName revision) in
    match value with
    | None => fail Plain
    | Some value => if bool_decide (revisionFor value = revision) then ret value else fail Plain
    end.

(** [readJSON] fails on a missing pointer. *)
Definition loadActive : M W goerr obj :=
  let* pointer := readJSON activeName in
  match pointer with
  | None => fail Plain
  | Some pointer => loadGeneration (stringOf (pointer !! bs "revision"))
  end.
Definition setActiveRevision (revision : gostr) : M W goerr unit :=
  if negb (safeRevision revision) then fail Plain
  else loadGeneration revision ;; writeJSON activeName {[ bs "revision" := JString revision ]}.

Record commitMetadata := CommitMetadata {
  cm_NodeSnapshotRevision : gostr; cm_PreviousNodeSnapshotRevision : gostr; cm_RouterOSSource : gostr;
  cm_Revision : gostr; cm_PreviousRevision : gostr; cm_RuntimeRevision : gostr; cm_PreviousRuntimeRevision : gostr;
  cm_BackupRef : json; cm_Actor : gostr; cm_CommittedAt : gostr }.

Definition optionalRevision (revision : gostr) : bool := bool_decide (revision = []) || safeRevision revision.

Definition commitPointer (m : commitMetadata) : obj :=
  list_to_map [
    (bs "node_snapshot_revision", nullableString (cm_NodeSnapshotRevision m));
    (bs "previous_node_snapshot_revision", nullableString (cm_PreviousNodeSnapshotRevision m));
    (bs "routeros_source", JString (cm_RouterOSSource m));
    (bs "revision", JString (cm_Revision m));
    (bs "previous_revision", nullableString (cm_PreviousRevision m));
    (bs "runtime_revision", nullableString (cm_RuntimeRevision m));
    (bs "previous_runtime_revision", nullableString (cm_PreviousRuntimeRevision m));
    (bs "backup_ref", cm_BackupRef m);
    (bs "actor", JString (cm_Actor m));
    (bs "committed_at", JString (cm_CommittedAt m))].

(** [commitActiveDetailed]: whether the commit point was published, and the
    error; [cm_CommittedAt] is the time as it is written. *)
Definition commitActiveDetailed (m : commitMetadata) : M W goerr (bool * err) :=
  if negb (safeRevision (cm_Revision m)) then ret (false, Some Plain)
  else if negb (optionalRevision (cm_PreviousRevision m)) then ret (false, Some Plain)
  else if negb (optionalRevision (cm_RuntimeRevision m)) then ret (false, Some Plain)
  else if negb (optionalRevision (cm_PreviousRuntimeRevision m)) then ret (false, Some Plain)
  else if negb (forallb optionalRevision [cm_NodeSnapshotRevision m; cm_PreviousNodeSnapshotRevision m]) then ret (false, Some Plain)
  else if bool_decide (cm_Actor m = []) || (128 <? Z.of_nat (length (cm_Actor m))) then ret (false, Some Plain)
  else
    let* generation := attempt (loadGeneration (cm_Revision m)) in
    match generation with
    | inr e => ret (false, Some e)
    | inl _ =>
        let pointer := commitPointer m in
        let* published := attempt (writeJSON activeName pointer) in
        match published with
        | inr e =>
            let* confirmed := attempt activeRevision in
            match confirmed with
            | inl revision => ret (bool_decide (revision = cm_Revision m), Some e)
            | inr confirmErr => ret (bool_decide ([] = cm_Revision m), join [Some e; Some confirmErr])
            end
        | inl _ =>
            let* lkg := attempt (writeJSON lkgName pointer) in
            match lkg with
            | inr e => ret (true, Some e)
            | inl _ =>
                let* derived := attempt (writeJSON metadataName pointer) in
                match derived with
                | inr e => ret (true, Some e)
                | inl _ => ret (true, None)
                end
            end
        end
    end.

Definition commitActive (m : commitMetadata) : M W goerr unit :=
  let* r := commitActiveDetailed m in match r.2 with Some e => fail e | None => ret tt end.

(** One derived document of [reconcileCommitPointers]; [equalJSONObject] of two
    decoded objects is their equality. *)
Definition repairPointer (same : obj -> obj -> bool) (active : obj) (name : gostr) : M W goerr unit :=
  let* current := attempt (readJSON name) in
  match current with
  | inl (Some current) => if same current active then ret tt else writeJSON name active
  | _ => writeJSON name active
  end.
Definition reconcileCommitPointers (same : obj -> obj -> bool) : M W goerr unit :=
  let* active := readJSON activeName in
  match active with
  | None => ret tt
  | Some active =>
      let revision := stringOf (active !! bs "revision") in
      if negb (safeRevision revision) then fail Plain
      else
        loadGeneration revision ;;
        repairPointer same active lkgName ;;
        repairPointer same active metadataName
  end.

Definition updateRuntimeRevision (Sprint : json -> gostr) (same : obj -> obj -> bool) (revision : gostr) : M W goerr unit :=
  if negb (safeRevision revision) then fail Plain
  else
    let* active := readJSON activeName in
    match active with
    | None => fail Plain
    | Some active =>
        if negb (safeRevision (text Sprint (active !! bs "revision"))) then fail Plain
        else
          let previous := text Sprint (active !! bs "runtime_revision") in
          writeJSON activeName (<[bs "runtime_revision" := JString revision]> (<[bs "previous_runtime_revision" := nullableString previous]> active)) ;;
          reconcileCommitPointers same
    end.
End Repository.

Declare Scope store_scope.
Delimit Scope store_scope with store.
Notation "'let*' x ':=' m 'in' k" := (bind m (fun x => k)) (at level 10, x pattern, m at level 100, k at level 200) : store_scope.
Notation "m ;; k" := (bind m (fun _ => k)) (at level 100, k at level 200, right associativity) : store_scope.
