(* ===== verification/StateStoreSafety.v ===== *)
(** * Derived documents

    The copies of the commit point ([last-known-good.json] and
    [apply-metadata.json]) are repaired from it and never the other way round. *)

From S2P Require Import Prelude GoBase GoText GoRegexp RouterTransaction StateStore.
Open Scope Z_scope.
Open Scope store_scope.

(** What a state promises about its documents. *)
Class DiskLaws (W : Type) `{!Disk W} : Prop := {
  docs_store d w : docs (store d w) = d;
  docs_fault w : docs (nextFault w).2 = docs w;
}.

Section Repair.
Context {W : Type} `{!Disk W, !DiskLaws W} (revisionFor : obj -> gostr) (Sprint : json -> gostr).
(** [equalJSONObject] compares canonical encodings. *)
Context (same : obj -> obj -> bool) (same_equal : forall a b, same a b = true -> a = b).

(** The documents that a program may leave from [D]. *)
Definition leaves {E A} (D : documents) (m : M W E A) (Q : A -> documents -> Prop) (F : documents -> Prop) : Prop :=
  forall w w' r, docs w = D -> m w = (w', r) -> match r with inl a => Q a (docs w') | inr _ => F (docs w') end.

Lemma leaves_bind {E A B} D (m : M W E A) (k : A -> M W E B) R Q F :
  leaves D m R F -> (forall a D', R a D' -> leaves D' (k a) Q F) -> leaves D (bind m k) Q F.
Proof.
  intros Hm Hk w w' r Hd H. unfold bind in H. destruct (m w) as [w1 [a|e]] eqn:Em; pose proof (Hm _ _ _ Hd Em) as H1; cbn in H1.
  - exact (Hk _ _ H1 _ _ _ eq_refl H).
  - by injection H as <- <-.
Qed.
Lemma leaves_ret {E A} D (a : A) (Q : A -> documents -> Prop) F : Q a D -> leaves D (ret (E:=E) a) Q F.
Proof. intros HQ w w' r Hd [= <- <-]. by rewrite Hd. Qed.
Lemma leaves_fail {E A} D (e : E) (Q : A -> documents -> Prop) (F : documents -> Prop) : F D -> leaves D (fail e) Q F.
Proof. intros HF w w' r Hd [= <- <-]. by rewrite Hd. Qed.
Lemma leaves_attempt {E E' A} D (m : M W E A) Q (F : documents -> Prop) F' :
  leaves D m Q F -> leaves D (attempt (E':=E') m) (fun r D' => match r with inl a => Q a D' | inr _ => F D' end) F'.
Proof. intros Hm w w' r Hd H. unfold attempt in H. destruct (m w) as [w1 r1] eqn:Em. injection H as <- <-. exact (Hm _ _ _ Hd Em). Qed.
Lemma leaves_weaken {E A} D (m : M W E A) (Q Q' : A -> documents -> Prop) (F F' : documents -> Prop) :
  leaves D m Q F -> (forall a D', Q a D' -> Q' a D') -> (forall D', F D' -> F' D') -> leaves D m Q' F'.
Proof. intros Hm HQ HF w w' r Hd H. specialize (Hm _ _ _ Hd H). destruct r; auto. Qed.
Lemma leaves_tick D : leaves D tick (fun _ D' => D' = D) (fun _ => False).
Proof using DiskLaws0.
  intros w w' r Hd H. unfold tick in H. pose proof (docs_fault w) as Hf. destruct (nextFault w) as [f w1]. injection H as <- <-. cbn in *. congruence.
Qed.

Lemma leaves_read D name :
  leaves D (readJSON name) (fun o D' => D' = D /\ match o with Some o => D !! name = Some (Document o) | None => D !! name = None end) (fun D' => D' = D).
Proof using DiskLaws0.
  eapply leaves_bind; [eapply leaves_weaken; [apply leaves_tick|intros a D' H; exact H|done]|].
  intros [] D' ->; [|by apply leaves_fail..]. intros w w' r Hd H. rewrite Hd in H. destruct (D !! name) as [[o|]|] eqn:E; by injection H as <- <-.
Qed.
Lemma leaves_write D name o :
  leaves D (writeJSON name o) (fun _ D' => D' = <[name:=Document o]> D) (fun D' => D' = D \/ D' = <[name:=Document o]> D).
Proof using DiskLaws0.
  eapply leaves_bind; [eapply leaves_weaken; [apply leaves_tick|intros a D' H; exact H|done]|].
  assert (Hput : leaves D (put name o) (fun _ D' => D' = <[name:=Document o]> D) (fun D' => D' = D \/ D' = <[name:=Document o]> D)).
  { intros w w' r Hd [= <- <-]. by rewrite docs_store, Hd. }
  intros [] D' ->; [done|apply leaves_fail; by left|].
  eapply leaves_bind; [exact Hput|]. intros u D' ->. apply leaves_fail. by right.
Qed.
Lemma leaves_load D r : leaves D (loadGeneration revisionFor r)
    (fun g D' => D' = D /\ D !! generationName r = Some (Document g) /\ revisionFor g = r /\ safeRevision r = true) (fun D' => D' = D).
Proof using DiskLaws0.
  unfold loadGeneration. destruct (safeRevision r) eqn:Es; cbn [negb]; [|by apply leaves_fail].
  eapply leaves_bind; [apply leaves_read|]. intros [g|] D' [-> Hg]; [|by apply leaves_fail].
  case_bool_decide; [|by apply leaves_fail]. by apply leaves_ret.
Qed.

(** ** Repair *)

(** Only the two copies differ, and each is the former one or a copy of [active]. *)
Definition repairing (D : documents) (active : obj) (D' : documents) : Prop :=
  (forall name, name <> lkgName -> name <> metadataName -> D' !! name = D !! name) /\
  (forall name, name = lkgName \/ name = metadataName -> D' !! name = D !! name \/ D' !! name = Some (Document active)).

Lemma repairing_refl D active : repairing D active D.
Proof. split; [done|]. by left. Qed.
Lemma repairing_write D active D' name : name = lkgName \/ name = metadataName ->
  repairing D active D' -> repairing D active (<[name:=Document active]> D').
Proof.
  intros Hn [H1 H2]. split.
  - intros n N1 N2. rewrite lookup_insert_ne; [auto|destruct Hn; congruence].
  - intros n N. destruct (decide (name = n)) as [->|Hne]; [right; apply lookup_insert_eq|]. rewrite lookup_insert_ne; auto.
Qed.

Lemma repair_leaves D active D' name : name = lkgName \/ name = metadataName -> repairing D active D' ->
  leaves D' (repairPointer same active name)
    (fun _ D'' => repairing D active D'' /\ D'' !! name = Some (Document active) /\ (forall n, n <> name -> D'' !! n = D' !! n)) (repairing D active).
Proof using DiskLaws0 same_equal.
  intros Hn Hr. assert (Hw : leaves D' (writeJSON name active)
    (fun _ D'' => repairing D active D'' /\ D'' !! name = Some (Document active) /\ (forall n, n <> name -> D'' !! n = D' !! n)) (repairing D active)).
  { eapply leaves_weaken; [apply leaves_write| |intros D'' [->| ->]; [done|by apply repairing_write]].
    intros u D'' ->. split; [by apply repairing_write|]. split; [apply lookup_insert_eq|]. intros n Hne. by rewrite lookup_insert_ne. }
  unfold repairPointer. eapply leaves_bind; [eapply (leaves_attempt _ _ _ _ (repairing D active)), leaves_read|].
  intros [[o|]|e] D'' H; cbn in H.
  - destruct H as [-> Ho]. destruct (same o active) eqn:Es; [|exact Hw]. apply same_equal in Es as ->. apply leaves_ret. by split.
  - destruct H as [-> _]. exact Hw.
  - subst D''. exact Hw.
Qed.

Lemma copies_names : lkgName <> metadataName /\ activeName <> lkgName /\ activeName <> metadataName.
Proof. vm_compute. split_and!; discriminate. Qed.

Lemma reconcile_leaves D : leaves D (reconcileCommitPointers revisionFor same)
    (fun _ D' => D' = D /\ D !! activeName = None \/
       exists active g, D !! activeName = Some (Document active) /\ D !! generationName (stringOf (active !! bs "revision")) = Some (Document g) /\
         repairing D active D' /\ D' !! lkgName = Some (Document active) /\ D' !! metadataName = Some (Document active))
    (fun D' => D' = D \/ exists active, D !! activeName = Some (Document active) /\ repairing D active D').
Proof using DiskLaws0 same_equal.
  unfold reconcileCommitPointers. eapply leaves_bind; [eapply leaves_weaken; [apply leaves_read|intros a D' H; exact H|by left]|].
  intros [active|] D' [-> Ha]; [|apply leaves_ret; by left]. cbv zeta.
  destruct (negb _); [apply leaves_fail; by left|].
  eapply leaves_bind; [eapply leaves_weaken; [apply leaves_load|intros a D' H; exact H|by left]|]. intros g D' (-> & Hg & _).
  eapply leaves_bind; [eapply leaves_weaken; [apply repair_leaves; [by left|apply repairing_refl]|intros a D' H; exact H|]|].
  { intros D' Hr. right. by exists active. }
  intros u D' (Hr & Hl & _). eapply leaves_weaken; [apply repair_leaves; [by right|exact Hr]| |].
  - intros u' D'' (Hr' & Hm & Ho). right. exists active, g. split_and!; try done. rewrite Ho; [done|apply copies_names].
  - intros D'' Hr'. right. by exists active.
Qed.

(** Once both copies are there, nothing changes any more. *)
Lemma repair_fixed D active name : D !! name = Some (Document active) -> leaves D (repairPointer same active name) (fun _ D' => D' = D) (fun D' => D' = D).
Proof using DiskLaws0.
  intros Hn. assert (Hw : leaves D (writeJSON name active) (fun _ D' => D' = D) (fun D' => D' = D)).
  { eapply leaves_weaken; [apply leaves_write|intros u D' ->; by apply insert_id|]. intros D' [->| ->]; [done|by apply insert_id]. }
  unfold repairPointer. eapply leaves_bind; [eapply (leaves_attempt _ _ _ _ (fun D' => D' = D)), leaves_read|].
  intros [[o|]|e] D' H; cbn in H; [destruct H as [-> _]..|subst D']; try exact Hw. destruct (same o active); [by apply leaves_ret|exact Hw].
Qed.
Lemma reconcile_fixed D active : D !! activeName = Some (Document active) -> D !! lkgName = Some (Document active) -> D !! metadataName = Some (Document active) ->
  leaves D (reconcileCommitPointers revisionFor same) (fun _ D' => D' = D) (fun D' => D' = D).
Proof using DiskLaws0.
  intros Ha Hl Hm. unfold reconcileCommitPointers. eapply leaves_bind; [apply leaves_read|]. intros [a|] D' [-> Ha']; [|by apply leaves_ret].
  rewrite Ha in Ha'. injection Ha' as <-. cbv zeta. destruct (negb _); [by apply leaves_fail|].
  eapply leaves_bind; [apply leaves_load|]. intros g D' (-> & _). eapply leaves_bind; [by apply repair_fixed|]. intros u D' ->. by apply repair_fixed.
Qed.

(** C37: the repair of the copies of the commit point.  It never touches the
    commit point or any other document; when it succeeds both copies are equal
    to the commit point, whose generation is there with its digest, and a
    further run, whatever fails, changes nothing; when it fails each copy is the
    former one or equal to the commit point. *)
Theorem reconcile_repairs (w w' : W) (r : unit + goerr) (Hrun : reconcileCommitPointers revisionFor same w = (w', r)) :
  (forall name, name <> lkgName -> name <> metadataName -> docs w' !! name = docs w !! name) /\
  (forall name, name = lkgName \/ name = metadataName -> docs w' !! name = docs w !! name \/ docs w' !! name = docs w !! activeName) /\
  match r with
  | inl _ => docs w !! activeName <> None ->
      docs w' !! lkgName = docs w' !! activeName /\ docs w' !! metadataName = docs w' !! activeName /\
      (forall w2 w2' r2, docs w2 = docs w' -> reconcileCommitPointers revisionFor same w2 = (w2', r2) -> docs w2' = docs w2)
  | inr _ => True
  end.
Proof using DiskLaws0 same_equal.
  pose proof (reconcile_leaves (docs w) w w' r eq_refl Hrun) as H.
  assert (Hsame : docs w' = docs w -> (forall name, name <> lkgName -> name <> metadataName -> docs w' !! name = docs w !! name) /\
    (forall name, name = lkgName \/ name = metadataName -> docs w' !! name = docs w !! name \/ docs w' !! name = docs w !! activeName)).
  { intros ->. split; [done|]. by left. }
  assert (Hrep : forall active, docs w !! activeName = Some (Document active) -> repairing (docs w) active (docs w') ->
    (forall name, name <> lkgName -> name <> metadataName -> docs w' !! name = docs w !! name) /\
    (forall name, name = lkgName \/ name = metadataName -> docs w' !! name = docs w !! name \/ docs w' !! name = docs w !! activeName)).
  { intros active Ha [H1 H2]. split; [done|]. intros name Hn. rewrite Ha. auto. }
  destruct r as [u|e]; destruct H as [H|H].
  - destruct H as [H Hn]. destruct (Hsame H). by split_and!.
  - destruct H as (active & g & Ha & Hg & Hr & Hl & Hm). destruct (Hrep _ Ha Hr) as [H1 H2]. split; [done|]. split; [done|]. intros _.
    assert (Ha' : docs w' !! activeName = Some (Document active)) by (rewrite H1; [done|apply copies_names..]).
    split_and!; [congruence|congruence|]. intros w2 w2' r2 Hd E. pose proof (reconcile_fixed _ _ Ha' Hl Hm w2 w2' r2 Hd E) as Hf. rewrite Hd. by destruct r2.
  - destruct (Hsame H). by split_and!.
  - destruct H as (active & Ha & Hr). destruct (Hrep _ Ha Hr). by split_and!.
Qed.
End Repair.

(** ** A concrete repair *)

Definition disk : Type := documents * list fault.
#[export] Instance disk_ops : Disk disk := {
  docs := fst;
  nextFault := fun w => (default Fine (head w.2), (w.1, tail w.2));
  store := fun d w => (d, w.2);
}.
#[export] Instance disk_laws : DiskLaws disk.
Proof. by split. Qed.

Definition repairActive : obj := {[ bs "revision" := JString (repeat x61 64) ]}.
Definition repairStart : disk :=
  ({[ activeName := Document repairActive; lkgName := Damaged; generationName (repeat x61 64) := Document ∅ ]}, [Fine; Fine; FailsEarly; Fine]).
Definition equalObjects (a b : obj) : bool := bool_decide (a = b).
Definition repairRun : disk * (unit + goerr) := reconcileCommitPointers (fun _ => repeat x61 64) equalObjects repairStart.
Lemma equalObjects_equal a b : equalObjects a b = true -> a = b.
Proof. apply bool_decide_eq_true. Qed.

Lemma repairRun_eq r : repairRun.2 = r -> repairRun = (repairRun.1, r).
Proof. intros <-. apply surjective_pairing. Qed.

(** The copies are damaged and missing, and one reading fails. *)
Lemma reconcile_repairs_witness :
  repairRun.2 = inl tt /\ docs repairRun.1 !! lkgName = docs repairRun.1 !! activeName /\ docs repairRun.1 !! metadataName = docs repairRun.1 !! activeName.
Proof.
  assert (Hr : repairRun.2 = inl tt) by (vm_compute; reflexivity). split; [exact Hr|].
  destruct (reconcile_repairs (fun _ => repeat x61 64) equalObjects equalObjects_equal repairStart repairRun.1 (inl tt)
    (repairRun_eq (inl tt) Hr)) as (_ & _ & H).
  destruct H as (H1 & H2 & _); [vm_compute; discriminate|]. by split.
Defined.
