(* ===== verification/ApplyWorld.v ===== *)
(** * The world of an Apply: documents, runtime and router

    The state that [internal/controlplane/apply.go] works on: the documents of
    the repository ([StateStore]), the process-local readiness flags and closure
    variables, and everything outside the process, an abstract [X] with the
    operations of the router ([RouterTransaction]) and of the runtime.  Also
    models the activation and the rollback of [internal/controlplane/runtime.go]
    ([nativeRuntime]) over the candidate store and the process controller, the
    class [RuntimeOps].

    The history keeps the documents and the outside after every write of a
    document and every outside operation: a crash is the end of the run at a
    point of the history.  An outside operation leaves the documents alone, so
    a crash inside one meets the documents of the points around it. *)

From S2P Require Import Prelude GoBase GoText GoRegexp RouterTransaction StateStore.
Open Scope Z_scope.
Open Scope store_scope.

(** ** Operations of the runtime and of the surroundings *)

(** [C] is a [RuntimeCandidate], [Rc] an [ActivationReceipt]. *)
Class RuntimeOps (X C Rc : Type) := {
  rt_prepare : obj -> list json -> X -> X * (C + goerr);
  rt_revision : C -> gostr;
  rt_diff : C -> X -> X * (list gostr + goerr);       (* [ActivateAfter] up to the callback *)
  rt_validate : C -> list gostr -> X -> X * err;      (* [validateCandidate] *)
  rt_scope : C -> X -> X * err;                       (* [hotPolicyScope] *)
  rt_publish : C -> list gostr -> X -> X * (Rc + goerr);   (* [ActivateAfter] behind the callback *)
  rt_changed : Rc -> list gostr;                      (* [receipt.Changed] *)
  rt_noReceipt : Rc;
  rt_restore : Rc -> X -> X * err;                    (* [store.Rollback], [restoreHotPolicyScope] *)
  rt_commit : C -> X -> X * err;                      (* [CommitLastKnownGood] *)
  rt_guard : list gostr -> X -> X * err;              (* [beginProgramApplyGuard] *)
  rt_release : X -> X;                                (* the function it returns *)
  rt_mark : X -> X;                                   (* [markXrayPrevalidated], its error is logged *)
  rt_sharedNginx : X -> bool;                         (* nginx.conf has [ssl_preread on;] *)
  rt_restart : list gostr -> X -> X * err;
  rt_probe : list gostr -> X -> X * err;
  rt_waitHot : X -> X * err;                          (* [waitHotRuntime] *)
}.

(** Further calls of an Apply: catalog, feeds, router client and traffic. *)
Class ControlOps (X : Type) := {
  ct_refreshCatalog : option obj -> obj -> X -> X * err;
  ct_ensureFeeds : obj -> X -> X * err;
  ct_stack : obj -> X -> X * err;                     (* [newRouterOSStack]; behind it [NewTransaction] has both its clients *)
  ct_schedulerGuard : X -> X * (bool + goerr);
  ct_backup : X -> X * (json + goerr);
  ct_health : X -> X * err;
  ct_prune : obj -> X -> X * err;                     (* [PruneManagedFiles] *)
  ct_failOpen : obj -> X -> X * err;                  (* [EnterPlannedApplyFailOpen] *)
  ct_waitDiversion : X -> X * err;
  ct_waitTraffic : option (obj -> X -> X * err);
  ct_noteLogging : obj -> gostr -> X -> X;            (* [noteXrayLoggingApplied] *)
}.

Section World.
Context {X S C Rc : Type} `{!GuardOps X, !ConsoleOps X S, !RuntimeOps X C Rc, !ControlOps X}.

(** ** The state *)

Record flags := Flags { plannedRuntimeApply : bool; plannedHotPolicyApply : bool; plannedUnchangedApply : bool; plannedNginxReload : bool }.
(** The closure variables of [applyConfiguration]. *)
Record vars := Vars {
  receipt : Rc; activated : bool; failOpen : bool;       (* [recoveryRouterOS != nil] *)
  stateCommitted : bool; runtimeCleanupPending : bool; runtimeCommitErr : err;   (* an error is [runtimeCommitPending] *)
  runtimeReady : bool; backup : json }.
Record world := World {
  w_docs : documents; w_x : X; w_faults : list fault; w_flags : flags; w_vars : vars; w_history : list (documents * X) }.

Definition noVars : vars := Vars rt_noReceipt false false false false None false JNull.

Definition set_flags (f : flags) (w : world) : world := World (w_docs w) (w_x w) (w_faults w) f (w_vars w) (w_history w).
Definition set_vars (v : vars) (w : world) : world := World (w_docs w) (w_x w) (w_faults w) (w_flags w) v (w_history w).

#[export] Instance world_disk : Disk world := {
  docs := w_docs;
  nextFault := fun w => (default Fine (head (w_faults w)),
                         World (w_docs w) (w_x w) (tail (w_faults w)) (w_flags w) (w_vars w) (w_history w));
  store := fun d w => World d (w_x w) (w_faults w) (w_flags w) (w_vars w) (w_history w ++ [(d, w_x w)]);
}.

(** An outside operation. *)
Definition outside {A} (f : X -> X * A) (w : world) : world * A :=
  let '(x, a) := f (w_x w) in
  (World (w_docs w) x (w_faults w) (w_flags w) (w_vars w) (w_history w ++ [(w_docs w, x)]), a).
Definition outside_ (f : X -> X) (w : world) : world := (outside (fun x => (f x, tt)) w).1.

#[export] Instance world_guard : GuardOps world := {
  ensureNoPendingRollbackGuard := outside ensureNoPendingRollbackGuard;
  PrepareDirectDelta r src := outside (PrepareDirectDelta r src);
  PrepareImportScript r f := outside (PrepareImportScript r f);
  ArmRollback n d f := outside (ArmRollback n d f);
  DisarmRollback s := outside (DisarmRollback s);
  WaitSafeModeSettled t := outside (WaitSafeModeSettled t);
  validateImportedDelta := validateImportedDelta;
}.
#[export] Instance world_console : ConsoleOps world S := {
  runScript n := outside (runScript n);
  beginSafeMode n := outside (beginSafeMode n);
  HistoryCapReached := HistoryCapReached;
  Commit s t := outside (Commit s t);
  Abort s := outside (Abort s);
  upload r src := outside (upload r src);
  cleanup l := outside (cleanup l);
}.

(** Between the two styles of error. *)
Definition ofErr (f : world -> world * err) : M world goerr unit :=
  fun w => match f w with (w, None) => (w, inl tt) | (w, Some e) => (w, inr e) end.
Definition toErr (m : M world goerr unit) (w : world) : world * err :=
  match m w with (w, inl _) => (w, None) | (w, inr e) => (w, Some e) end.
Definition call (f : X -> X * err) : M world goerr unit := ofErr (outside f).
Definition callv {A} (f : X -> X * (A + goerr)) : M world goerr A := outside f.
Definition modify (f : world -> world) : M world goerr unit := fun w => (f w, inl tt).

(** ** Programs to restart *)

Definition xrayArtifacts : list gostr := [bs "xray.json"; bs "client-telemetry.nft"; bs "transparent-exclusions.txt"].
Definition poolArtifact : gostr := bs "urltest-pool.json".
Definition affected (changed : list gostr) (program : gostr) (artifacts : list gostr) : list gostr :=
  if existsb (fun a => bool_decide (a ∈ changed)) artifacts then [program] else [].
(** In the order of [sort.Strings]. *)
Definition affectedPrograms (changed : list gostr) : list gostr :=
  affected changed (bs "dns") [bs "policy-dns.json"] ++ affected changed (bs "monitor") [bs "watchdog.env"]
  ++ affected changed (bs "nginx") [bs "nginx.conf"] ++ affected changed (bs "xray") xrayArtifacts.
Definition restartOrder (x : X) (changed : list gostr) : list gostr :=
  let programs := affectedPrograms changed in
  if rt_sharedNginx x && bool_decide (bs "xray" ∈ programs)
  then bs "xray" :: filter (fun p => p <> bs "xray") programs else programs.

Definition hotPolicyChange (changed : list gostr) : bool := bool_decide (changed = [poolArtifact]).
Definition hotPolicyWithoutCoreRestart (changed : list gostr) : bool :=
  bool_decide (poolArtifact ∈ changed) && negb (bool_decide (bs "xray" ∈ affectedPrograms changed)).

(** ** Activation *)

Record hooks := Hooks {
  beforeXrayRestart : option (M world goerr unit);
  beforeHotPolicy : option (M world goerr unit);
  beforePublication : option (list gostr -> world -> world) }.
Definition noHooks : hooks := Hooks None None None.
Definition runHook (h : option (M world goerr unit)) : M world goerr unit := default (ret tt) h.

(** The callback of [ActivateAfter]: whether the apply guard was taken. *)
Definition beforePublishing (h : hooks) (c : C) (changed : list gostr) : M world goerr bool :=
  call (rt_validate c changed) ;;
  modify (default (fun _ w => w) (beforePublication h) changed) ;;
  (if bool_decide (poolArtifact ∈ changed) then
     call (rt_scope c) ;;
     (if hotPolicyWithoutCoreRestart changed then runHook (beforeHotPolicy h) else ret tt)
   else ret tt) ;;
  if hotPolicyChange changed then ret false
  else fun w =>
    match restartOrder (w_x w) changed with
    | [] => (w, inl false)
    | programs => (call (rt_guard programs) ;; ret true) w
    end.

(** The deferred release of the guard. *)
Definition releasing {A} (taken : bool) (m : M world goerr A) : M world goerr A :=
  fun w => let '(w, r) := m w in (if taken then outside_ rt_release w else w, r).
Definition releaseNow (taken : bool) : M world goerr unit := modify (if taken then outside_ rt_release else (fun w => w)).

Definition restartAndProbe (before : M world goerr unit) (changed programs : list gostr) : M world goerr unit :=
  match programs with
  | [] => ret tt
  | _ =>
      modify (if bool_decide (bs "xray.json" ∈ changed) then outside_ rt_mark else (fun w => w)) ;;
      (if bool_decide (bs "xray" ∈ programs) then before else ret tt) ;;
      call (rt_restart programs) ;;
      call (rt_probe programs)
  end.

(** What follows the publication: restart, probe, and wait for a hot pool, for
    which the guard is released first. *)
Definition settleRuntime (before : M world goerr unit) (taken : bool) (changed : list gostr) : M world goerr unit :=
  fun w =>
    (if bool_decide (poolArtifact ∈ changed) then
       let* r := attempt (restartAndProbe before changed (restartOrder (w_x w) changed)) in
       releaseNow taken ;;
       match r with inr e => fail e | inl _ => call rt_waitHot end
     else releasing taken (restartAndProbe before changed (restartOrder (w_x w) changed))) w.

(** [activateWithHooks]: the receipt and the error. *)
Definition activateWithHooks (h : hooks) (c : C) : M world goerr (Rc * err) :=
  let* changed := attempt (callv (rt_diff c)) in
  match changed with
  | inr e => ret (rt_noReceipt, Some e)
  | inl [] => ret (rt_noReceipt, None)
  | inl changed =>
      let* guarded := attempt (beforePublishing h c changed) in
      match guarded with
      | inr e => ret (rt_noReceipt, Some e)
      | inl taken =>
          let* published := attempt (callv (rt_publish c changed)) in
          match published with
          | inr e => releaseNow taken ;; ret (rt_noReceipt, Some e)
          | inl receipt =>
              let* settled := attempt (settleRuntime (runHook (beforeXrayRestart h)) taken (rt_changed receipt)) in
              ret (receipt, match settled with inl _ => None | inr e => Some e end)
          end
      end
  end.

(** [rollback] of the runtime. *)
Definition rollback (r : Rc) : M world goerr unit :=
  let changed := rt_changed r in
  let* taken := (fun w =>
    match restartOrder (w_x w) changed with
    | [] => (w, inl false)
    | programs => (call (rt_guard programs) ;; ret true) w
    end) in
  let* restored := attempt (call (rt_restore r)) in
  match restored with
  | inr e => releaseNow taken ;; fail e
  | inl _ => settleRuntime (ret tt) taken changed
  end.
End World.
