(* ===== verification/Apply.v ===== *)
(** * Applying a configuration

    Models [applyConfiguration], [runRouterOSApply] and their helpers of
    [internal/controlplane/apply.go], and the journal and its recovery of
    [internal/controlplane/apply_recovery.go], with the production runtime
    ([nativeRuntime]).  Validation, rendering of the router script, the delta
    between two scripts and the choice of subscription nodes are parameters;
    [now] is the time as it is written to documents. *)

From S2P Require Import Prelude GoBase GoText GoRegexp RouterTransaction StateStore ApplyWorld.
Open Scope Z_scope.
Open Scope store_scope.

(** ** Failures *)

Inductive applyFailureState := applyRolledBack | applyRecoveryPending | applyStateUnconfirmed.

(** The errors of [applyConfiguration] with their HTTP status. *)
Inductive applyError :=
| ApplyInvalid                                             (* [applyValidationError] *)
| ApplyOther (status : Z) (e : goerr)
| ApplyFailure (status : Z) (state : applyFailureState) (e : err).   (* [applyFailureError] *)

Definition classifyApplyFailure (primary : goerr) (runtimeRollback : err) : applyFailureState * err :=
  let state :=
    match TransactionFailureStateOf primary with
    | Some TransactionRecoveryPending => applyRecoveryPending
    | Some TransactionStateUnconfirmed => applyStateUnconfirmed
    | _ => applyRolledBack
    end in
  (match runtimeRollback with Some _ => applyStateUnconfirmed | None => state end, join [Some primary; runtimeRollback]).

(** [applyFailureResponse]: the public code. *)
Definition applyFailureResponse (e : applyError) : gostr :=
  match e with
  | ApplyFailure _ applyRolledBack _ => bs "apply_rolled_back"
  | ApplyFailure _ applyRecoveryPending _ => bs "apply_recovery_pending"
  | _ => bs "apply_state_unconfirmed"
  end.

Inductive applyKind := KindNone | KindFull | KindDelta (sections : list gostr).
Record applied := Applied {
  ap_operation : gostr; ap_revision : gostr; ap_previous : gostr; ap_runtimeRevision : gostr; ap_routerOSChanged : bool;
  ap_kind : applyKind; ap_backup : json; ap_guardMode : guardMode; ap_cleanupPending : bool }.

(** ** The first rollback configuration *)

(** [objectAt]: the member object, made when it is missing or no object. *)
Definition membersOf (v : option json) : list (gostr * json) := match v with Some (JObject m) => m | _ => [] end.
Fixpoint assoc (k : gostr) (m : list (gostr * json)) : option json :=
  match m with [] => None | (k', v) :: m => if bool_decide (k = k') then Some v else assoc k m end.
Fixpoint assign (k : gostr) (v : json) (m : list (gostr * json)) : list (gostr * json) :=
  match m with
  | [] => [(k, v)]
  | (k', v') :: m => if bool_decide (k = k') then (k, v) :: m else (k', v') :: assign k v m
  end.
Definition assignAll (l m : list (gostr * json)) : list (gostr * json) := foldl (fun m '(k, v) => assign k v m) m l.

Definition emptiedCollections : list gostr :=
  [bs "local_clients"; bs "policies"; bs "remote_users"; bs "reverse_vless_exits"; bs "service_packs"; bs "subscription_reserves"; bs "transports"].
Definition closedIngress : list (gostr * json) :=
  [(bs "status_hostname", JString []); (bs "subscription_endpoint_enabled", JBool false); (bs "subscription_hostname", JString []);
   (bs "subscription_cdn_hostname", JString []); (bs "subscription_deployment_id", JString []); (bs "subscription_transport_id", JString [])].

Definition firstApplyRollbackConfig (config : obj) : obj :=
  let baseline := foldl (fun o k => <[k := JArray []]> o) config emptiedCollections in
  let baseline := <[bs "ingress" := JObject (assignAll closedIngress (membersOf (baseline !! bs "ingress")))]> baseline in
  let baseline := <[bs "public_exposure" := JObject (assign (bs "shared_tcp_443") (JBool false) (membersOf (baseline !! bs "public_exposure")))]> baseline in
  let system := membersOf (baseline !! bs "system") in
  let networking := assignAll [(bs "wireguard_egress_enabled", JBool false); (bs "wireguard_egress_exits", JArray [])]
                      (membersOf (assoc (bs "networking") system)) in
  <[bs "system" := JObject (assign (bs "networking") (JObject networking) system)]> baseline.

Section Apply.
Context {X S C Rc : Type} `{!GuardOps X, !ConsoleOps X S, !RuntimeOps X C Rc, !ControlOps X}.
Context (revisionFor : obj -> gostr) (Sprint : json -> gostr) (now : gostr).
Context (normalize : obj -> obj) (valid : obj -> bool).
Context (render : obj -> list json -> option gostr) (legacyCleanup : gostr -> gostr -> gostr).
Context (buildDelta : gostr -> gostr -> option (list gostr * gostr * gostr)).      (* sections, apply, rollback *)
Context (sharedOrigin : obj -> bool) (runtimeSubscriptionNodes : obj -> obj -> list json).

Local Abbreviation W := (@world X Rc).
Local Abbreviation text := (text Sprint).
Local Abbreviation loadGeneration := (loadGeneration revisionFor).
Local Abbreviation stageGeneration := (stageGeneration revisionFor).

(** ** The journal *)

Definition journal (previousRevision recoveryRevision targetRevision previousRouterOS targetRouterOS runtimeRevision : gostr) : obj :=
  list_to_map [
    (bs "kind", JString (bs "apply")); (bs "pending", JBool true); (bs "state", JString (bs "prepared"));
    (bs "previous_revision", nullableString previousRevision); (bs "recovery_revision", JString recoveryRevision);
    (bs "target_revision", JString targetRevision); (bs "previous_routeros_source", JString previousRouterOS);
    (bs "target_routeros_source", JString targetRouterOS); (bs "runtime_revision", JString runtimeRevision);
    (bs "started_at", JString now)].
Definition beginApplyRecovery (previousRevision recoveryRevision targetRevision previousRouterOS targetRouterOS runtimeRevision : gostr) : M W goerr unit :=
  saveAuxiliary operationName (journal previousRevision recoveryRevision targetRevision previousRouterOS targetRouterOS runtimeRevision).

Definition markApplyRecoveryState (state : gostr) : M W goerr unit :=
  let* operation := auxiliary operationName in
  if negb (isTrue (operation !! bs "pending")) then ret tt
  else saveAuxiliary operationName (<[state ++ bs "_at" := JString now]> (<[bs "state" := JString state]> operation)).
Definition clearApplyRecovery : M W goerr unit := saveAuxiliary operationName ∅.
(** Its own errors are logged. *)
Definition finishFailedApplyRecovery (state : applyFailureState) (w : W) : W :=
  match state with
  | applyRolledBack => (clearApplyRecovery w).1
  | _ => (markApplyRecoveryState (bs "recovery_pending") w).1
  end.
Definition pendingApplyRecovery : M W goerr (option obj) :=
  let* operation := auxiliary operationName in
  ret (if isTrue (operation !! bs "pending") then Some operation else None).

(** ** Readiness flags *)

Definition storePlannedRuntime (b : bool) (w : W) : W :=
  set_flags (Flags b (plannedHotPolicyApply (w_flags w)) (plannedUnchangedApply (w_flags w)) (plannedNginxReload (w_flags w))) w.
Definition storePlannedHotPolicy (b : bool) (w : W) : W :=
  set_flags (Flags (plannedRuntimeApply (w_flags w)) b (plannedUnchangedApply (w_flags w)) (plannedNginxReload (w_flags w))) w.
Definition storePlannedUnchanged (b : bool) (w : W) : W :=
  set_flags (Flags (plannedRuntimeApply (w_flags w)) (plannedHotPolicyApply (w_flags w)) b (plannedNginxReload (w_flags w))) w.
Definition storePlannedNginx (b : bool) (w : W) : W :=
  set_flags (Flags (plannedRuntimeApply (w_flags w)) (plannedHotPolicyApply (w_flags w)) (plannedUnchangedApply (w_flags w)) b) w.

Definition prepareHotPolicyReadiness : M W goerr unit :=
  modify (storePlannedHotPolicy true) ;;
  markApplyRecoveryState (bs "runtime_hot_activating") ;;
  modify (storePlannedUnchanged false).
Definition prepareNativePublication (changed : list gostr) (w : W) : W :=
  match changed with
  | [] => w
  | _ =>
      if hotPolicyWithoutCoreRestart changed then w
      else storePlannedUnchanged false (storePlannedNginx (bool_decide (changed = [bs "nginx.conf"])) w)
  end.

(** ** Subscription nodes of a revision *)

Definition isObject (v : json) : bool := match v with JObject _ => true | _ => false end.
Definition objectNodes (v : option json) : list json :=
  match v with Some (JArray l) => filter (fun x => isObject x = true) l | _ => [] end.
Definition nodesName (revision : gostr) : gostr := bs "subscription-nodes-" ++ revision.

Definition routerOSNodesForRevision (revision : gostr) (fallback : list json) : M W goerr (list json) :=
  match revision with
  | [] => ret fallback
  | _ =>
      let* meta := attempt metadata in
      let meta := match meta with inl m => m | inr _ => ∅ end in
      let snapshotRevision := stringOf (meta !! bs "node_snapshot_revision") in
      if bool_decide (stringOf (meta !! bs "revision") = revision) && safeRevision snapshotRevision then
        let* snapshot := attempt (auxiliary (nodesName snapshotRevision)) in
        ret (match snapshot with
             | inl snapshot => if bool_decide (stringOf (snapshot !! bs "revision") = snapshotRevision) then objectNodes (snapshot !! bs "nodes") else []
             | inr _ => []
             end)
      else
        let* state := attempt (auxiliary (nodesName revision)) in
        ret (match state with
             | inr _ => fallback
             | inl state =>
                 if bool_decide (stringOf (state !! bs "revision") = revision) then
                   match state !! bs "nodes" with Some (JArray _) => objectNodes (state !! bs "nodes") | _ => fallback end
                 else fallback
             end)
  end.
Definition saveSubscriptionSnapshot (revision : gostr) (nodes : list json) : M W goerr unit :=
  saveAuxiliary (nodesName revision) (list_to_map [(bs "revision", JString revision); (bs "nodes", JArray nodes)]).
Definition routerOSPlanNodes (config : obj) : M W goerr (list json) :=
  let* state := auxiliary (bs "subscription-nodes") in ret (runtimeSubscriptionNodes config state).

(** ** The router's side *)

Record routerOSApplyOutput := Output { out_backup : json; out_result : TransactionResult; out_kind : applyKind }.
Definition noOutput : routerOSApplyOutput := Output JNull emptyResult KindNone.

(** [runRouterOSApply]: the output and the error. *)
Definition runRouterOSApply (config : obj) (desired previous : gostr) (health : W -> W * err) (finalize : json -> W -> W * err) :
    W -> W * (routerOSApplyOutput * err) :=
  fun w =>
  match outside (ct_stack config) w with
  | (w, Some e) => (w, (noOutput, Some e))
  | (w, None) =>
  match outside ct_schedulerGuard w with
  | (w, inr e) => (w, (noOutput, Some e))
  | (w, inl schedulerGuardOnly) =>
  match outside ct_backup w with
  | (w, inr e) => (w, (noOutput, Some e))
  | (w, inl reference) =>
      let options := MkOptions (600 * second) (120 * second)
        (Some (fun w => match health w with (w, Some e) => (w, Some e) | (w, None) => outside ct_health w end))
        (if sharedOrigin config then Some health else None)
        (Some (finalize reference)) schedulerGuardOnly in
      let '(w, result, e, kind) :=
        match buildDelta previous desired with
        | Some (sections, applyScript, rollbackScript) => (ApplyDelta (S:=S) applyScript rollbackScript options w, KindDelta sections)
        | None => (ApplyCandidate (S:=S) desired previous options w, KindFull)
        end in
      match e with
      | Some e => (w, (Output reference result kind, Some e))
      | None =>
          let '(w, pruneErr) := outside (ct_prune config) w in
          let result := match pruneErr with
                        | None => result
                        | Some _ => MkResult (ApplyScript result) (RollbackScript result) (ResultHistoryCap result) true (GuardMode result)
                        end in
          (w, (Output reference result kind, None))
      end
  end end end.

(** ** The closures of an Apply *)

Definition setActivated (receipt : Rc) (w : W) : W :=
  let v := w_vars w in
  set_vars (Vars receipt (negb (bool_decide (rt_changed receipt = []))) (failOpen v) (stateCommitted v)
    (runtimeCleanupPending v) (runtimeCommitErr v) (runtimeReady v) (backup v)) w.
Definition setFailOpen (w : W) : W :=
  let v := w_vars w in
  set_vars (Vars (receipt v) (activated v) true (stateCommitted v) (runtimeCleanupPending v) (runtimeCommitErr v) (runtimeReady v) (backup v)) w.
Definition setReady (b : bool) (w : W) : W :=
  let v := w_vars w in
  set_vars (Vars (receipt v) (activated v) (failOpen v) (stateCommitted v) (runtimeCleanupPending v) (runtimeCommitErr v) b (backup v)) w.
Definition setRolledBack (w : W) : W :=
  let v := w_vars w in
  set_vars (Vars (receipt v) false (failOpen v) (stateCommitted v) (runtimeCleanupPending v) (runtimeCommitErr v) (runtimeReady v) (backup v)) w.
Definition setCommitted (w : W) : W :=
  let v := w_vars w in
  set_vars (Vars (receipt v) (activated v) (failOpen v) true (runtimeCleanupPending v) (runtimeCommitErr v) (runtimeReady v) (backup v)) w.
Definition setCleanup (w : W) : W :=
  let v := w_vars w in
  set_vars (Vars (receipt v) (activated v) (failOpen v) (stateCommitted v) true (runtimeCommitErr v) (runtimeReady v) (backup v)) w.
Definition setCommitErr (e : goerr) (w : W) : W :=
  let v := w_vars w in
  set_vars (Vars (receipt v) (activated v) (failOpen v) (stateCommitted v) true (Some e) (runtimeReady v) (backup v)) w.
Definition setBackup (b : json) (w : W) : W :=
  let v := w_vars w in
  set_vars (Vars (receipt v) (activated v) (failOpen v) (stateCommitted v) (runtimeCleanupPending v) (runtimeCommitErr v) (runtimeReady v) b) w.

Definition plannedHooks (config : obj) : hooks :=
  Hooks (Some (call (ct_failOpen config) ;; modify setFailOpen)) (Some prepareHotPolicyReadiness) (Some prepareNativePublication).

(** [activate]. *)
Definition activateCandidate (config : obj) (candidate : C) (routerOSChanged : bool) : M W goerr unit :=
  fun w =>
  if runtimeReady (w_vars w) then (w, inl tt)
  else
    (call (ct_ensureFeeds config) ;;
     let* r := activateWithHooks (if routerOSChanged then noHooks else plannedHooks config) candidate in
     let '(receipt, activateErr) := r in
     modify (setActivated receipt) ;;
     let* done := attempt (
       match activateErr with Some e => fail e | None => ret tt end ;;
       markApplyRecoveryState (bs "runtime_activated") ;;
       (fun w => if failOpen (w_vars w) then (modify (storePlannedRuntime true) ;; call ct_waitDiversion) w else (w, inl tt))) in
     match done with
     | inl _ => modify (setReady true)
     | inr e => modify (setReady false) ;; fail e
     end) w.

(** [rollbackRuntime]. *)
Definition rollbackRuntime (w : W) : W * err :=
  if negb (activated (w_vars w)) || stateCommitted (w_vars w) then (w, None)
  else match rollback (receipt (w_vars w)) w with
       | (w, inl _) => (setRolledBack w, None)
       | (w, inr e) => (w, Some e)
       end.

(** [commit]. *)
Definition commitApply (m : json -> commitMetadata) (candidate : C) (reference : json) : M W goerr unit :=
  let* r := commitActiveDetailed revisionFor (m reference) in
  match r with
  | (false, Some e) => fail e
  | (false, None) => ret tt
  | (true, commitErr) =>
      modify setCommitted ;;
      let* marked := attempt (markApplyRecoveryState (bs "active_committed")) in
      modify (match marked with inr _ => setCleanup | inl _ => (fun w => w) end) ;;
      modify (match commitErr with Some _ => setCleanup | None => (fun w => w) end) ;;
      let* committed := attempt (call (rt_commit candidate)) in
      modify (match committed with inr e => setCommitErr e | inl _ => (fun w => w) end)
  end.

(** ** [applyConfiguration] *)

(** The status that goes with an error of a preparation step. *)
Definition status {A} (code : Z) (m : M W goerr A) : M W applyError A :=
  fun w => match m w with (w, inl a) => (w, inl a) | (w, inr e) => (w, inr (ApplyOther code e)) end.
Definition rendered (o : option gostr) : M W goerr gostr := match o with Some s => ret s | None => fail Plain end.
Definition step (f : W -> W) : M W applyError unit := fun w => (f w, inl tt).

Record plan := Plan {
  pl_config : obj; pl_active : gostr; pl_recovery : gostr; pl_staged : gostr; pl_candidate : C;
  pl_previousRouterOS : gostr; pl_desiredRouterOS : gostr; pl_routerOSChanged : bool; pl_previousRuntime : gostr; pl_backup : json }.

(** The previous router source: of the installation baseline on the first
    Apply, else as committed, else rendered again. *)
Definition previousSource (config : obj) (activeRevision : gostr) (active : option obj) (committed : gostr) (nodes : list json) :
    M W applyError (gostr * gostr) :=
  match active with
  | None =>
      let baseline := firstApplyRollbackConfig config in
      let* recovery := status 500 (stageGeneration baseline) in
      let* source := status 500 (rendered (render baseline [])) in
      ret (recovery, source)
  | Some active =>
      if bool_decide (committed = []) then
        let* previousNodes := status 500 (routerOSNodesForRevision activeRevision nodes) in
        let* source := status 500 (rendered (render active previousNodes)) in
        ret (activeRevision, source)
      else ret (activeRevision, committed)
  end.

(** Everything up to the journal; [inl] is an unchanged configuration. *)
Definition prepareApply (config : obj) : M W applyError (applied + plan) :=
  let config := normalize config in
  if negb (valid config) then fail ApplyInvalid
  else
    let revision := revisionFor config in
    let* activeRevision := status 500 activeRevision in
    let* active := (match activeRevision with [] => ret None | _ => let* a := status 500 (loadGeneration activeRevision) in ret (Some a) end) in
    let* meta := status 500 metadata in
    let previousRuntime := stringOf (meta !! bs "runtime_revision") in
    let* catalog := attempt (call (ct_refreshCatalog active config)) in
    match catalog with
    | inr _ => fail ApplyInvalid
    | inl _ =>
        let* nodes := status 500 (routerOSPlanNodes config) in
        let* desiredNodes := status 500 (routerOSNodesForRevision revision nodes) in
        let* candidate := status 422 (callv (rt_prepare config desiredNodes)) in
        let* desired := status 422 (rendered (render config desiredNodes)) in
        let committed := stringOf (meta !! bs "routeros_source") in
        let* source := previousSource config activeRevision active committed nodes in
        let '(recovery, previous) := source in
        let previous := legacyCleanup previous desired in
        let changed := bool_decide (committed = []) || negb (bool_decide (desired = previous)) in
        if bool_decide (activeRevision = revision) && bool_decide (previousRuntime = rt_revision candidate) && negb changed then
          ret (inl (Applied (bs "unchanged") revision activeRevision (rt_revision candidate) false KindNone JNull GuardNone false))
        else
          let* staged := status 500 (stageGeneration config) in
          (if negb (bool_decide (activeRevision = revision)) && safeRevision (stringOf (meta !! bs "node_snapshot_revision")) then
             let* old := status 500 (routerOSNodesForRevision activeRevision []) in
             status 500 (saveSubscriptionSnapshot activeRevision old)
           else ret tt) ;;
          status 500 (saveSubscriptionSnapshot staged desiredNodes) ;;
          step (storePlannedUnchanged (negb changed)) ;;
          status 500 (beginApplyRecovery activeRevision recovery staged previous desired (rt_revision candidate)) ;;
          ret (inr (Plan config activeRevision recovery staged candidate previous desired changed previousRuntime
                      (default JNull (meta !! bs "backup_ref"))))
    end.

Definition planMetadata (p : plan) (actor : gostr) (reference : json) : commitMetadata :=
  CommitMetadata [] [] (pl_desiredRouterOS p) (pl_staged p) (pl_active p) (rt_revision (pl_candidate p)) (pl_previousRuntime p) reference actor now.

(** A failed activation, transaction or commit. *)
Definition failApply {A} (code : Z) (e : goerr) : M W applyError A :=
  fun w =>
    let '(w, rollbackErr) := rollbackRuntime w in
    let '(state, e) := classifyApplyFailure e rollbackErr in
    (finishFailedApplyRecovery state w, inr (ApplyFailure code state e)).

(** Activation and commit: the kind, the guard mode and whether the router's
    clean-up is pending. *)
Definition performApply (p : plan) (actor : gostr) : M W applyError (applyKind * guardMode * bool) :=
  let activate := activateCandidate (pl_config p) (pl_candidate p) (pl_routerOSChanged p) in
  let commit := commitApply (planMetadata p actor) (pl_candidate p) in
  if pl_routerOSChanged p then
    fun w =>
      let '(w, (output, e)) := runRouterOSApply (pl_config p) (pl_desiredRouterOS p) (pl_previousRouterOS p) (toErr activate)
        (fun reference w => toErr (commit reference) (setBackup reference w)) w in
      match e with
      | Some e => failApply 409 e w
      | None => (w, inl (out_kind output, GuardMode (out_result output), CleanupPending (out_result output)))
      end
  else
    let* r := attempt activate in
    match r with
    | inr e => failApply 409 e
    | inl _ =>
        let* r := attempt (commit (pl_backup p)) in
        match r with
        | inr e => failApply 500 e
        | inl _ => ret (KindNone, GuardNone, false)
        end
    end.

(** The proof of traffic after the commit. *)
Definition awaitTraffic (p : plan) : M W applyError unit :=
  match ct_waitTraffic with
  | None => ret tt
  | Some wait =>
      fun w =>
        let v := w_vars w in
        if runtimeReady v && stateCommitted v && negb (match runtimeCommitErr v with Some _ => true | None => false end)
           && (pl_routerOSChanged p || activated v) then
          match outside (wait (pl_config p)) (storePlannedRuntime true w) with
          | (w, None) => (w, inl tt)
          | (w, Some e) => (finishFailedApplyRecovery applyRecoveryPending w, inr (ApplyFailure 409 applyRecoveryPending (Some e)))
          end
        else (w, inl tt)
  end.

Definition applyPlan (p : plan) (actor : gostr) : M W applyError applied :=
  step (setBackup (pl_backup p)) ;;
  let* output := performApply p actor in
  let '(kind, mode, cleanupPending) := output in
  awaitTraffic p ;;
  let* saved := attempt (saveDraft revisionFor (pl_config p)) in
  step (match saved with inr _ => setCleanup | inl _ => (fun w => w) end) ;;
  step (outside_ (ct_noteLogging (pl_config p) (pl_staged p))) ;;
  fun w =>
    match runtimeCommitErr (w_vars w) with
    | Some e => ((markApplyRecoveryState (bs "recovery_pending") w).1, inr (ApplyFailure 409 applyRecoveryPending (Some e)))
    | None =>
        let '(w, cleared) := clearApplyRecovery w in
        let w := match cleared with inr _ => setCleanup w | inl _ => w end in
        (w, inl (Applied (bs "applied") (pl_staged p) (pl_active p) (rt_revision (pl_candidate p)) (pl_routerOSChanged p) kind
                   (backup (w_vars w)) mode (cleanupPending || runtimeCleanupPending (w_vars w))))
    end.

(** The closure variables start empty and the flags are dropped on return. *)
Definition applyConfiguration (config : obj) (actor : gostr) : M W applyError applied :=
  fun w =>
    let '(w, r) :=
      (let* prepared := prepareApply config in
       match prepared with
       | inl unchanged => ret unchanged
       | inr p => applyPlan p actor
       end) (set_vars noVars w) in
    (set_flags (Flags false false false false) w, r).

(** ** Recovery of an interrupted Apply *)

(** The desired configuration, router source and nodes. *)
Definition recoveryTarget (operation : obj) : M W goerr (obj * gostr * list json * bool) :=
  let* active := activeRevision in
  match active with
  | [] =>
      if negb (bool_decide (text (operation !! bs "previous_revision") = [])) then fail Plain
      else
        let recovery := text (operation !! bs "recovery_revision") in
        let recorded := text (operation !! bs "previous_routeros_source") in
        let* config :=
          (if bool_decide (recovery = []) then
             let targetRevision := text (operation !! bs "target_revision") in
             if negb (safeRevision targetRevision) then fail Plain
             else
               let* target := loadGeneration targetRevision in
               let config := firstApplyRollbackConfig target in
               let* source := rendered (render config []) in
               if bool_decide (recorded = []) || negb (bool_decide (recorded = source)) then fail Plain
               else stageGeneration config ;; ret config
           else if negb (safeRevision recovery) then fail Plain
           else loadGeneration recovery) in
        if bool_decide (recorded = []) then fail Plain else ret (config, recorded, [], true)
  | _ =>
      let* config := loadGeneration active in
      let* nodes := routerOSNodesForRevision active [] in
      let* pointer := readJSON activeName in
      match pointer with
      | None => fail Plain
      | Some pointer =>
          let source := text (pointer !! bs "routeros_source") in
          let* source := (if bool_decide (source = []) then rendered (render config nodes) else ret source) in
          ret (config, source, nodes, false)
      end
  end.

Definition fallbackSource (operation : obj) (desired : gostr) : gostr :=
  let target := text (operation !! bs "target_routeros_source") in
  let fallback := if bool_decide (target = []) || bool_decide (target = desired) then text (operation !! bs "previous_routeros_source") else target in
  if bool_decide (fallback = []) then desired else fallback.

(** The closure [activate] of the recovery; [activated] is its variable. *)
Definition reactivate (candidate : C) (w : W) : W * err :=
  if runtimeReady (w_vars w) then (w, None)
  else
    match activateWithHooks noHooks candidate w with
    | (w, inl (_, None)) => (setReady true w, None)
    | (w, inl (_, Some e)) | (w, inr e) => (w, Some e)
    end.

(** The work of [reconcilePendingApply] on a pending operation. *)
Definition resumeApply (operation : obj) : M W goerr unit :=
  let* target := recoveryTarget operation in
  let '(config, desired, nodes, first) := target in
  let* candidate := callv (rt_prepare config nodes) in
  let* transaction := (fun w =>
    let '(w, (_, e)) := runRouterOSApply config desired (fallbackSource operation desired) (reactivate candidate)
      (fun _ w => if runtimeReady (w_vars w) then outside (rt_commit candidate) w else (w, Some Plain)) w in
    (w, inl e)) in
  match transaction with
  | Some e => attempt (markApplyRecoveryState (bs "recovery_pending")) ;; fail e
  | None =>
      (if first : bool then
         let* confirmed := activeRevision in
         if bool_decide (confirmed = []) then ret tt else fail Plain
       else
         match ct_waitTraffic with
         | None => ret tt
         | Some wait =>
             markApplyRecoveryState (bs "active_committed") ;;
             modify (storePlannedRuntime true) ;;
             let* traffic := attempt (call (wait config)) in
             match traffic with
             | inr e => attempt (markApplyRecoveryState (bs "recovery_pending")) ;; fail e
             | inl _ => ret tt
             end
         end) ;;
      clearApplyRecovery
  end.

(** [reconcilePendingApply]: whether there was an operation, and the error. *)
Definition reconcilePendingApply : W -> W * (bool * err) :=
  fun w =>
    let '(w, r) :=
      (let* operation := attempt pendingApplyRecovery in
       match operation with
       | inr e => ret (false, Some e)
       | inl None => ret (false, None)
       | inl (Some operation) =>
           let* r := attempt (resumeApply operation) in
           ret (true, match r with inl _ => None | inr e => Some e end)
       end : M W goerr (bool * err)) (set_vars noVars w) in
    (storePlannedRuntime false w, match r with inl p => p | inr e => (false, Some e) end).
End Apply.
