(* ===== verification/RouterGuard.v ===== *)
(** * The RouterOS REST client: managed scripts and the rollback guard

    Models [internal/routeros/rollback.go] and the script part of
    [internal/routeros/client.go].  The HTTP exchange with the router
    ([client.list], [client.request]), the clock, the random nonce, the digest and
    the zone of the local time are the operations of [RouterRest]; a row is its
    string fields, as [text] reads them.  [GuardOps] is instantiated with this
    code. *)

From Stdlib Require Import String.
From S2P Require Import Prelude GoBase GoRegexp GoText RouterTransaction.
Open Scope Z_scope.

Abbreviation row := (gmap gostr gostr).
Definition text (r : row) (key : gostr) : gostr := default [] (r !! key).

Inductive resource := Schedulers | Scripts | History | Clock.

Class RouterRest (W : Type) := {
  rest_list : resource -> W -> W * (list row + goerr);                (* GET *)
  rest_put : resource -> row -> W -> W * (row + goerr);               (* PUT *)
  rest_patch : resource -> gostr -> row -> W -> W * (row + goerr);    (* PATCH by identifier *)
  rest_delete : resource -> gostr -> W -> W * err;                    (* DELETE by identifier *)
  readNonce : W -> W * option (list byte);                            (* rand.Read *)
  timeNow : W -> W * Z;
  sleep : Z -> W -> W * err;                                          (* a timer, or the end of the context *)
  sha256hex : gostr -> gostr;
  ParseLocal : gostr -> gostr -> option Z;                            (* time.ParseInLocation *)
  FormatLocal : gostr -> Z -> gostr;
}.

(** ** Names and sources *)

Definition hexdigits (b : byte) : gostr :=
  let digit n := if n <? 10 then byte_of (48 + n) else byte_of (87 + n) in [digit (bval b / 16); digit (bval b mod 16)].
Definition hexEncode (l : list byte) : gostr := concat (hexdigits <$> l).

Definition guardPrefix : gostr := bs "SB-GATEWAY-safe-rollback-".
Definition rollbackSchedulerComment : gostr := bs "SB-GATEWAY Safe Mode rollback fallback".
Definition rollbackSchedulerNamePattern : re := full (Cat (lit guardPrefix) (rep 8 (Class is_hex))).
Definition managedNamePattern : re :=
  full (Cat (lit (bs "SB-GATEWAY-")) (Cat (Alt (lit (bs "apply")) (lit (bs "rollback"))) (Cat (lit (bs "-")) (rep 12 (Class is_hex))))).
Definition managedImportNamePattern : re :=
  full (Cat (lit (bs "SB-GATEWAY-")) (Cat (Alt (lit (bs "apply")) (lit (bs "rollback")))
    (Cat (lit (bs "-")) (Cat (rep 12 (Class is_hex)) (lit (bs ".rsc")))))).

Definition not_newline (b : byte) : bool := negb (is_byte x0d b) && negb (is_byte x0a b).
Definition prohibitedScriptPatterns : list re :=
  [ Cat (lit_fold (bs "/system")) (Cat (plus (Class (fun b => is_blank b || is_byte x2f b)))
      (alts [lit_fold (bs "reset"); lit_fold (bs "reboot"); lit_fold (bs "shutdown");
             Cat (lit_fold (bs "package")) (Cat (plus (Class (fun b => is_blank b || is_byte x2f b))) (lit_fold (bs "update")))]));
    Cat (lit_fold (bs "/user")) WordB;
    Cat (lit_fold (bs "/certificate")) (Cat WordB (Cat (Star (Class not_newline)) (Cat WordB (Cat (lit_fold (bs "remove")) WordB))));
    Cat WordB (Cat (lit_fold (bs "set")) (Cat (plus (Class is_blank)) (Cat (lit_fold (bs "channel")) (Cat (Star (Class is_blank)) (lit (bs "="))))));
    Cat WordB (Cat (lit_fold (bs "remove")) (Cat (plus (Class is_blank)) (Cat (lit_fold (bs "[find]")) (Alt (Class is_blank) Eol)))) ].

Definition maxManagedImportBytes : Z := 2 ^ 21.
Definition deltaHeader : gostr := bs "# SB-GATEWAY generated minimal delta; complete managed sections" ++ [x0a].

Definition checkImportedDelta (source : gostr) : err :=
  if bool_decide (source = []) || (maxManagedImportBytes <? Z.of_nat (length source)) || bool_decide (x00 ∈ source) then Some Plain
  else if negb (bool_decide (deltaHeader `prefix_of` source)) then Some Plain
  else if existsb (fun pattern => MatchString pattern source) prohibitedScriptPatterns then Some Plain
  else None.
Definition validateDirectDelta (source : gostr) : err :=
  if bool_decide (source = []) || (maxDirectScriptBytes <? Z.of_nat (length source)) then Some Plain else checkImportedDelta source.

Definition roleName (r : scriptRole) : gostr := match r with RApply => bs "apply" | RRollback => bs "rollback" end.

(** [HTTPError] by [errors.As]: the first one of the tree. *)
Fixpoint http_error (e : goerr) : option (Z * bool) :=
  match e with
  | HTTPError status interrupted => Some (status, interrupted)
  | TransactionFailure _ (Some e) => http_error e
  | Join a b => match http_error a with Some x => Some x | None => http_error b end
  | _ => None
  end.
Definition DefinitiveRequestRejection (e : goerr) : bool :=
  match http_error e with Some (status, interrupted) => negb interrupted && (400 <=? status) && (status <? 500) | None => false end.

(** The loop that looks for the one owned row of a name; [inl []] is a name that
    is not there. *)
Fixpoint findOwned (name comment : gostr) (rows : list row) (id : gostr) : gostr + goerr :=
  match rows with
  | [] => inl id
  | r :: rows =>
      if negb (bool_decide (text r (bs "name") = name)) then findOwned name comment rows id
      else if negb (bool_decide (id = [])) then inr Plain
      else if negb (bool_decide (text r (bs "comment") = comment)) then inr Plain
      else findOwned name comment rows (text r (bs ".id"))
  end.

Section Client.
Context {W : Type} `{!RouterRest W}.

Definition managedScriptName (r : scriptRole) (source : gostr) : gostr :=
  bs "SB-GATEWAY-" ++ roleName r ++ bs "-" ++ take 12 (sha256hex source).

(** ** Installing and running managed scripts *)

Definition scriptPayload (name source : gostr) : row :=
  {[ bs "name" := name; bs "source" := source; bs "comment" := bs "SB-GATEWAY managed script " ++ name;
     bs "policy" := bs "ftp,read,write,test,policy" ]}.

Definition installManagedScript (name source : gostr) (w : W) : W * (gostr + goerr) :=
  if negb (MatchString managedNamePattern name) then (w, inr Plain)
  else
    match rest_list Scripts w with
    | (w, inr e) => (w, inr e)
    | (w, inl rows) =>
        match findOwned name (bs "SB-GATEWAY managed script " ++ name) rows [] with
        | inr e => (w, inr e)
        | inl [] =>
            match rest_put Scripts (scriptPayload name source) w with
            | (w, inr e) => (w, inr e)
            | (w, inl created) =>
                match text created (bs ".id") with [] => (w, inr Plain) | id => (w, inl id) end
            end
        | inl id =>
            match rest_patch Scripts id (scriptPayload name source) w with
            | (w, inr e) => (w, inr e)
            | (w, inl _) => (w, inl id)
            end
        end
    end.

Definition prepareDirectDelta (r : scriptRole) (source : gostr) (w : W) : W * (gostr + goerr) :=
  let name := managedScriptName r source in
  match validateDirectDelta source with
  | Some e => (w, inr e)
  | None =>
      match installManagedScript name source w with
      | (w, inr e) => (w, inr e)
      | (w, inl _) => (w, inl name)
      end
  end.

Definition importSource (importName : gostr) : gostr := bs "/import file-name=" ++ [x22] ++ importName ++ [x22] ++ bs " verbose=no".

Definition prepareImportScript (r : scriptRole) (importName : gostr) (w : W) : W * (gostr + goerr) :=
  if negb (MatchString managedImportNamePattern importName) || negb (bool_decide ((bs "SB-GATEWAY-" ++ roleName r ++ bs "-") `prefix_of` importName))
  then (w, inr Plain)
  else
    let source := importSource importName in
    let name := managedScriptName r source in
    match installManagedScript name source w with
    | (w, inr e) => (w, inr e)
    | (w, inl _) => (w, inl name)
    end.

(** ** The rollback guard *)

(** A guard that belongs to the project. *)
Definition ownedGuard (r : row) : bool :=
  MatchString rollbackSchedulerNamePattern (text r (bs "name")) && bool_decide (text r (bs "comment") = rollbackSchedulerComment).
(** It can still fire: its run count is zero or unreadable. *)
Definition unfired (r : row) : bool := match ParseInt (text r (bs "run-count")) 64 with Some count => count =? 0 | None => true end.

Definition ensureNoPending (w : W) : W * err :=
  match rest_list Schedulers w with
  | (w, inr e) => (w, Some e)
  | (w, inl rows) => (w, if existsb (fun r => ownedGuard r && unfired r) rows then Some ErrRollbackGuardPending else None)
  end.

Definition minute : Z := 60 * second.
Definition clampDelay (delay : Z) : Z :=
  let delay := if delay =? 0 then 10 * minute else delay in
  let delay := if delay <? minute then minute else delay in
  if 60 * minute <? delay then 60 * minute else delay.

Definition parseRouterOSClock (dateValue timeValue : gostr) : option Z :=
  let clock := match Cut (TrimSpace timeValue) x2e with Some (before, _) => before | None => TrimSpace timeValue end in
  let value := TrimSpace dateValue ++ bs " " ++ clock in
  match ParseLocal (bs "2006-01-02 15:04:05") value with
  | Some t => Some t
  | None => ParseLocal (bs "Jan/02/2006 15:04:05") value
  end.

Definition joinCommands (commands : list gostr) : gostr :=
  match commands with [] => [] | c :: rest => c ++ concat ((fun d => bs "; " ++ d) <$> rest) end.
Definition quoted (s : gostr) : gostr := [x22] ++ s ++ [x22].
Definition guardCommands (script : gostr) (resumeWatchdog : bool) (import name : gostr) : list gostr :=
  [bs "/system script run " ++ script]
  ++ (if resumeWatchdog then [bs "/system scheduler enable [find where name=" ++ quoted (bs "SB-GATEWAY-health-watchdog") ++ bs "]"] else [])
  ++ (match import with [] => [] | _ => [bs "/file remove [find where name=" ++ quoted import ++ bs "]"] end)
  ++ [bs "/system scheduler remove [find where name=" ++ quoted name ++ bs "]"].
Definition guardPayload (script : gostr) (resumeWatchdog : bool) (import name : gostr) (runAt : Z) : row :=
  {[ bs "name" := name; bs "start-date" := FormatLocal (bs "2006-01-02") runAt; bs "start-time" := FormatLocal (bs "15:04:05") runAt;
     bs "interval" := bs "0s"; bs "on-event" := joinCommands (guardCommands script resumeWatchdog import name);
     bs "policy" := bs "ftp,read,write,test,policy"; bs "comment" := rollbackSchedulerComment; bs "disabled" := bs "false" ]}.

Definition armRollback (scriptName : gostr) (delay : Z) (resumeWatchdog : bool) (managedImport : gostr) (w : W) : W * (gostr + goerr) :=
  if negb (MatchString managedNamePattern scriptName) || negb (bool_decide (bs "SB-GATEWAY-rollback-" `prefix_of` scriptName))
  then (w, inr Plain)
  else if negb (bool_decide (managedImport = [])) && negb (MatchString managedImportNamePattern managedImport) then (w, inr Plain)
  else
    match ensureNoPending w with
    | (w, Some e) => (w, inr e)
    | (w, None) =>
        match rest_list Clock w with
        | (w, inl [clock]) =>
            match parseRouterOSClock (text clock (bs "date")) (text clock (bs "time")) with
            | None => (w, inr Plain)
            | Some now =>
                match readNonce w with
                | (w, None) => (w, inr Plain)
                | (w, Some nonce) =>
                    let name := guardPrefix ++ hexEncode nonce in
                    match rest_put Schedulers (guardPayload scriptName resumeWatchdog managedImport name (now + clampDelay delay)) w with
                    | (w, inr e) => (w, inr (if DefinitiveRequestRejection e then e else Join ErrRollbackGuardUnconfirmed e))
                    | (w, inl _) => (w, inl name)
                    end
                end
            end
        | (w, inl _) => (w, inr Plain)
        | (w, inr e) => (w, inr e)
        end
    end.

Definition disarmRollback (name : gostr) (w : W) : W * err :=
  if negb (MatchString rollbackSchedulerNamePattern name) then (w, Some Plain)
  else
    match rest_list Schedulers w with
    | (w, inr e) => (w, Some e)
    | (w, inl rows) =>
        match findOwned name rollbackSchedulerComment rows [] with
        | inr e => (w, Some e)
        | inl [] => (w, None)
        | inl id => rest_delete Schedulers id w
        end
    end.

Definition isFloating (rows : list row) : bool := existsb (fun r => EqualFold (text r (bs "floating-undo")) (bs "true")) rows.

(** The value [strconv.Atoi] returns when its error is ignored: zero for a syntax
    error, the nearest integer for a range error, which is found as soon as the
    digits leave 64 bits. *)
Fixpoint digitsValue (s : gostr) (acc : Z) : option Z :=
  match s with
  | [] => Some acc
  | b :: s =>
      match digit b with
      | None => None
      | Some d => if 2 ^ 64 <=? acc * 10 + d then Some (2 ^ 64 - 1) else digitsValue s (acc * 10 + d)
      end
  end.
Definition atoiValue (s : gostr) : Z :=
  let '(neg, body) := match s with
                      | b :: rest => if bool_decide (b = x2d) then (true, rest)
                                     else if bool_decide (b = x2b) then (false, rest) else (false, s)
                      | [] => (false, []) end in
  match body with
  | [] => 0
  | _ => match digitsValue body 0 with
         | None => 0
         | Some n => if neg then Z.max min_i64 (- n) else Z.min max_i64 n
         end
  end.

(** [PruneCompletedRollbacks]: remove the guards that have fired. *)
Fixpoint prune_loop (rows : list row) (removed : Z) (w : W) : W * Z * err :=
  match rows with
  | [] => (w, removed, None)
  | r :: rows =>
      if negb (ownedGuard r) || (atoiValue (text r (bs "run-count")) <? 1) then prune_loop rows removed w
      else
        match text r (bs ".id") with
        | [] => (w, removed, Some Plain)
        | id =>
            match rest_delete Schedulers id w with
            | (w, Some e) => (w, removed, Some e)
            | (w, None) => prune_loop rows (removed +w 1) w
            end
        end
  end.
Definition PruneCompletedRollbacks (w : W) : W * Z * err :=
  match rest_list History w with
  | (w, inr e) => (w, 0, Some e)
  | (w, inl history) =>
      if isFloating history then (w, 0, None)
      else
        match rest_list Schedulers w with
        | (w, inr e) => (w, 0, Some e)
        | (w, inl rows) => prune_loop rows 0 w
        end
  end.

(** ** Waiting for Safe Mode to settle *)

Definition pollInterval : Z := 250 * 1000000.
Fixpoint settle_loop (fuel : nat) (deadline : Z) (w : W) : outcome (W * err) :=
  match fuel with
  | O => Stuck
  | S fuel =>
      match rest_list History w with
      | (w, inr e) => Ret (w, Some e)
      | (w, inl rows) =>
          if negb (isFloating rows) then Ret (w, None)
          else
            let '(w, now) := timeNow w in
            let remaining := time_sub deadline now in
            if remaining <=? 0 then Ret (w, Some Plain)
            else
              match sleep (Z.min pollInterval remaining) w with
              | (w, Some e) => Ret (w, Some e)
              | (w, None) => settle_loop fuel deadline w
              end
      end
  end.
(** One poll per interval of the timeout, a shorter last one, and the poll that
    finds the deadline passed. *)
Definition pollBound (timeout : Z) : nat := S (S (Z.to_nat (timeout / pollInterval))).
Definition waitSettled (timeout : Z) (w : W) : outcome (W * err) :=
  let timeout := if timeout <=? 0 then 30 * second else timeout in
  let '(w, now) := timeNow w in
  settle_loop (pollBound timeout) (now + timeout) w.

#[export] Instance restGuardOps : GuardOps W := {
  ensureNoPendingRollbackGuard := ensureNoPending;
  PrepareDirectDelta := prepareDirectDelta;
  PrepareImportScript := prepareImportScript;
  ArmRollback scriptName delay := armRollback scriptName delay false;
  DisarmRollback := disarmRollback;
  WaitSafeModeSettled timeout w := match waitSettled timeout w with Ret r => r | _ => (w, Some Plain) end;
  validateImportedDelta := checkImportedDelta;
}.
End Client.
