(* ===== verification/RouterTransactionSafety.v ===== *)
(** * What a transaction reports is what the router has

    [TransactionView] names what matters about the router: the rollback guards
    that can still fire, whether one has fired, the configuration in force,
    whether an uncommitted Safe Mode transaction could still change it, and the
    scripts that are ready.  An armed guard is the router's own: it fires when its
    time comes, at any point of a run, restores the previous configuration and
    removes itself.  So every law about the guards and the configuration ends
    with "or a guard has fired".  [GuardLaws] and [ConsoleLaws] state the
    documented behaviour of the operations; [RouterGuard] proves [GuardLaws] for
    the REST client.  The theorem covers every way a transaction can end. *)

From Stdlib Require Import String.
From S2P Require Import Prelude GoBase RouterTransaction.
Open Scope Z_scope.

(** The managed configuration: as before the transaction, the candidate, or
    neither. *)
Inductive config := Before | After | Mixed.
#[export] Instance config_eq_dec : EqDecision config.
Proof. solve_decision. Defined.

Class TransactionView (W S : Type) := {
  fired : W -> Prop;                       (* a rollback guard has run by itself since the run began *)
  pending : W -> list gostr;               (* rollback guards that have not fired *)
  lost : W -> Prop;                        (* a removal took effect although its reply was an error *)
  conf : W -> config;
  stable : W -> Prop;                      (* no floating Safe Mode history *)
  ready : W -> scriptRole -> gostr -> Prop;      (* the script establishes its side of the transaction, while no
                                              guard has fired (one removes the import file it uses) *)
  uploaded : W -> scriptRole -> gostr -> Prop;
  opened : S -> W -> Prop;                 (* the session owns the floating candidate *)
  undoing : W -> Prop;                     (* its console is gone: the router undoes the candidate *)
  meant : scriptRole -> gostr -> Prop;           (* the rendered source belongs to this side *)
}.

Section Laws.
Context {W S : Type} `{!GuardOps W, !ConsoleOps W S, !TransactionView W S}.

(** What the router has unless a guard has fired. *)
Definition pendingIs (w : W) (l : list gostr) : Prop := fired w \/ pending w = l.
Definition confIs (w : W) (c : config) : Prop := fired w \/ conf w = c.

(** Nobody but the guards themselves changes them. *)
Definition guard_kept (w w' : W) : Prop :=
  (fired w -> fired w') /\ (fired w' \/ pending w' = pending w) /\ (lost w -> lost w').
Definition scripts_kept (w w' : W) : Prop :=
  (forall r n, ready w r n -> ready w' r n) /\ (forall r n, uploaded w r n -> uploaded w' r n).
(** Nothing of the router's own but a guard can change the configuration: no
    floating history, or a floating candidate whose console is open. *)
Definition quiet (w : W) : Prop := stable w \/ exists s, opened s w.
Definition config_kept (w w' : W) : Prop :=
  (fired w -> fired w') /\ (quiet w -> fired w' \/ conf w' = conf w) /\ (stable w -> stable w') /\ scripts_kept w w' /\
  (forall s, opened s w -> opened s w').
Definition plain (e : goerr) : Prop := TransactionFailureStateOf e = None.

(** A callback of the options leaves the router's managed part alone. *)
Definition harmless (f : W -> W * err) : Prop := forall w, guard_kept w (f w).1 /\ config_kept w (f w).1.

Class GuardLaws : Prop := {
  ensure_keeps w : guard_kept w (ensureNoPendingRollbackGuard w).1 /\ config_kept w (ensureNoPendingRollbackGuard w).1;
  direct_keeps r src w : guard_kept w (PrepareDirectDelta r src w).1 /\ config_kept w (PrepareDirectDelta r src w).1;
  direct_ready r src w w' n : meant r src -> PrepareDirectDelta r src w = (w', inl n) -> ready w' r n;
  direct_plain r src w w' e : PrepareDirectDelta r src w = (w', inr e) -> plain e;
  import_keeps r f w : guard_kept w (PrepareImportScript r f w).1 /\ config_kept w (PrepareImportScript r f w).1;
  import_ready r f w w' n : uploaded w r f -> PrepareImportScript r f w = (w', inl n) -> ready w' r n;
  import_plain r f w w' e : PrepareImportScript r f w = (w', inr e) -> plain e;
  arm_keeps n d f w : config_kept w (ArmRollback n d f w).1 /\ (lost w -> lost (ArmRollback n d f w).1);
  arm_pending n d f w w' s : ArmRollback n d f w = (w', inl s) -> pendingIs w' [s];
  arm_refused n d f w w' e : ArmRollback n d f w = (w', inr e) -> plain e /\ (is_guard_error e = false -> fired w' \/ pending w' = pending w);
  disarm_keeps s w : config_kept w (DisarmRollback s w).1 /\ (lost w -> lost (DisarmRollback s w).1);
  disarm_clears s w w' : pendingIs w [s] -> DisarmRollback s w = (w', None) -> pendingIs w' [];
  disarm_fails s w w' e : DisarmRollback s w = (w', Some e) -> fired w' \/ pending w' = pending w \/ lost w';
  wait_keeps t w : guard_kept w (WaitSafeModeSettled t w).1 /\ scripts_kept w (WaitSafeModeSettled t w).1;
  wait_stable t w : stable w -> fired (WaitSafeModeSettled t w).1 \/ conf (WaitSafeModeSettled t w).1 = conf w;
  wait_settles t w w' : WaitSafeModeSettled t w = (w', None) -> stable w';
  wait_undone t w w' : undoing w -> WaitSafeModeSettled t w = (w', None) -> confIs w' Before;
  validate_plain src e : validateImportedDelta src = Some e -> plain e;
}.

Class ConsoleLaws : Prop := {
  upload_keeps r src w : guard_kept w (upload r src w).1 /\ config_kept w (upload r src w).1;
  upload_uploaded r src w w' f : meant r src -> upload r src w = (w', inl f) -> uploaded w' r f;
  upload_plain r src w w' e : upload r src w = (w', inr e) -> plain e;
  run_keeps n w : guard_kept w (runScript n w).1 /\ scripts_kept w (runScript n w).1 /\ (stable w -> stable (runScript n w).1);
  run_effect r n w w' : stable w -> ready w r n -> runScript n w = (w', None) ->
    confIs w' (match r with RRollback => Before | RApply => After end);
  begin_keeps n w : guard_kept w (beginSafeMode n w).1 /\ scripts_kept w (beginSafeMode n w).1;
  begin_effect n w w' s : stable w -> confIs w Before -> ready w RApply n -> beginSafeMode n w = (w', inl s) ->
    confIs w' After /\ opened s w' /\ (HistoryCapReached s = true -> stable w');
  commit_keeps s t w : guard_kept w (Commit s t w).1 /\ scripts_kept w (Commit s t w).1;
  commit_effect s t w w' : opened s w -> confIs w After -> Commit s t w = (w', None) -> confIs w' After /\ stable w';
  abort_keeps s w : guard_kept w (Abort s w).1 /\ scripts_kept w (Abort s w).1 /\
    (HistoryCapReached s = true -> stable w -> stable (Abort s w).1);
  abort_undoes s w : opened s w -> HistoryCapReached s = false -> undoing (Abort s w).1;
  cleanup_keeps l w : guard_kept w (cleanup l w).1 /\ 
    (stable w -> (fired (cleanup l w).1 \/ conf (cleanup l w).1 = conf w) /\ stable (cleanup l w).1);
  cleanup_plain l w w' e : cleanup l w = (w', Some e) -> plain e;
}.
End Laws.
Arguments GuardLaws W S {_ _}.
Arguments ConsoleLaws W S {_ _}.

(** ** Errors *)

Lemma state_failure s vs : TransactionFailureStateOf (transactionFailure s vs) = Some s.
Proof. done. Qed.

Lemma state_classified e : plain e ->
  TransactionFailureStateOf (classifyRollbackArmFailure e) = if is_guard_error e then Some TransactionRecoveryPending else None.
Proof. intros He. unfold classifyRollbackArmFailure. by destruct (is_guard_error e). Qed.

Section Safety.
Context {W S : Type} `{!GuardOps W, !ConsoleOps W S, !TransactionView W S, !GuardLaws W S, !ConsoleLaws W S}.

(** What an outcome promises about the router it leaves behind. *)
Definition outcome_ok (options : TransactionOptions W) (w w' : W) (e : err) : Prop :=
  match e with
  | None => stable w' /\ (fired w' \/ conf w' = After /\ pending w' = []) /\
            (exists check w1, HealthCheck options = Some check /\ confIs w1 After /\ (check w1).2 = None)
  | Some e =>
      match TransactionFailureStateOf e with
      | None => stable w' /\ (fired w' \/ conf w' = Before /\ pending w' = pending w)
      | Some TransactionRolledBack => stable w' /\ confIs w' Before
      | Some TransactionRecoveryPending => fired w' \/ pending w' <> [] \/ conf w' = Before \/ lost w'
      | Some TransactionStateUnconfirmed =>
          pendingIs w' [] /\ exists finalize w1, Finalize options = Some finalize /\ is_Some (finalize w1).2
      end
  end.

(** Before the candidate runs, nothing has changed. *)
Definition untouched (w w' : W) : Prop :=
  (stable w -> (fired w' \/ conf w' = conf w) /\ stable w') /\ guard_kept w w'.

Lemma conf_trans (w1 w2 w3 : W) : (fired w2 -> fired w3) -> (fired w2 \/ conf w2 = conf w1) -> (fired w3 \/ conf w3 = conf w2) ->
  fired w3 \/ conf w3 = conf w1.
Proof. intros F [?|E1] [?|E2]; auto. right. congruence. Qed.
Lemma confIs_step (w1 w2 : W) c : (fired w1 -> fired w2) -> (fired w2 \/ conf w2 = conf w1) -> confIs w1 c -> confIs w2 c.
Proof. intros F [?|E] [?|E1]; [by left|by left|left; auto|right; congruence]. Qed.
Lemma pendingIs_kept w1 w2 l : guard_kept w1 w2 -> pendingIs w1 l -> pendingIs w2 l.
Proof. intros (F & [?|E] & _) [?|E1]; [by left|by left|left; auto|right; congruence]. Qed.
Lemma confIs_kept w1 w2 c : config_kept w1 w2 -> stable w1 -> confIs w1 c -> confIs w2 c.
Proof. intros (F & E & _) Hs. apply confIs_step; [done|]. apply E. by left. Qed.
Lemma confIs_opened w1 w2 s c : config_kept w1 w2 -> opened s w1 -> confIs w1 c -> confIs w2 c.
Proof. intros (F & E & _) Hs. apply confIs_step; [done|]. apply E. right. by exists s. Qed.
Lemma guard_kept_trans w1 w2 w3 : guard_kept w1 w2 -> guard_kept w2 w3 -> guard_kept w1 w3.
Proof. intros (F1 & E1 & L1) (F2 & E2 & L2). split; [auto|]. split; [|auto]. destruct E1 as [?|E1], E2 as [?|E2]; auto. right. congruence. Qed.
Lemma scripts_kept_trans w1 w2 w3 : scripts_kept w1 w2 -> scripts_kept w2 w3 -> scripts_kept w1 w3.
Proof. intros [A1 B1] [A2 B2]. split; eauto. Qed.
Lemma config_kept_trans (w1 w2 w3 : W) : config_kept w1 w2 -> config_kept w2 w3 -> config_kept w1 w3.
Proof.
  intros (F1 & E1 & S1 & R1 & O1) (F2 & E2 & S2 & R2 & O2). split; [auto|]. split; [|split; [auto|split; [by eapply scripts_kept_trans|auto]]].
  intros Hq. apply (conf_trans w1 w2 w3); [done|by apply E1|]. apply E2. destruct Hq as [Hs|[s Hs]]; [left; auto|right; eauto].
Qed.
Lemma untouched_trans w1 w2 w3 : untouched w1 w2 -> untouched w2 w3 -> untouched w1 w3.
Proof.
  intros (E1 & G1) (E2 & G2). split; [|by eapply guard_kept_trans]. intros Hs. destruct (E1 Hs) as [C1 Hs1]. destruct (E2 Hs1) as [C2 Hs2].
  split; [|done]. apply (conf_trans w1 w2 w3); [apply G2|done|done].
Qed.
Lemma untouched_refl w : untouched w w.
Proof. repeat split; auto. Qed.
Lemma untouched_conf w1 w2 c : untouched w1 w2 -> stable w1 -> confIs w1 c -> confIs w2 c.
Proof. intros (E & F & _) Hs. apply confIs_step; [done|]. by apply E. Qed.

Lemma kept_untouched w w' : guard_kept w w' /\ config_kept w w' -> untouched w w'.
Proof. intros [Hg (F & Ec & Hs & _)]. split; [|done]. intros H. split; [apply Ec; by left|auto]. Qed.

Lemma remove_keeps l w : guard_kept w (removeImports l w).1 /\
  (stable w -> (fired (removeImports l w).1 \/ conf (removeImports l w).1 = conf w) /\ stable (removeImports l w).1).
Proof using GuardLaws0 ConsoleLaws0. unfold removeImports. destruct l; [repeat split; auto|]. apply cleanup_keeps. Qed.
Lemma remove_conf l w w' e c : removeImports l w = (w', e) -> stable w -> confIs w c -> confIs w' c /\ stable w'.
Proof using GuardLaws0 ConsoleLaws0.
  intros E Hs Hc. destruct (remove_keeps l w) as [(F & _) H]. rewrite E in F, H. destruct (H Hs) as [C S']. split; [|done]. by apply (confIs_step w w').
Qed.

Lemma unarmed_keeps l w w' e : cleanupUnarmedImports l w = (w', e) -> untouched w w' /\
  match e with None => True | Some e => TransactionFailureStateOf e = None \/ TransactionFailureStateOf e = Some TransactionRecoveryPending end.
Proof using GuardLaws0 ConsoleLaws0.
  unfold cleanupUnarmedImports. pose proof (ensure_keeps w) as [Hg Hc].
  pose proof (kept_untouched _ _ (conj Hg Hc)) as U1.
  destruct (ensureNoPendingRollbackGuard w) as [w1 [e1|]]; simpl in *.
  - intros [= <- <-]. split; [done|by right].
  - intros Hcl. pose proof (cleanup_keeps l w1) as (Hg2 & Es2). rewrite Hcl in *. simpl in *.
    split; [eapply untouched_trans; [exact U1|by split]|].
    destruct e as [e|]; [left|done]. by eapply cleanup_plain.
Qed.

(** A recovery that reports success has restored the previous configuration; one
    that fails leaves the guard, unless the configuration is already restored,
    a guard has fired or the removal of the guard was lost. *)
Definition unrecovered (w' : W) : Prop := fired w' \/ pending w' <> [] \/ conf w' = Before \/ lost w'.
Definition recovered (w' : W) (e : err) : Prop :=
  match e with None => stable w' /\ confIs w' Before | Some _ => unrecovered w' end.

Lemma unrecovered_pending w s : pendingIs w [s] -> unrecovered w.
Proof. intros [?|E]; [by left|]. right. left. by rewrite E. Qed.
Lemma unrecovered_before w : confIs w Before -> unrecovered w.
Proof. intros [?|E]; [by left|]. right. right. by left. Qed.

Lemma recovered_state options w w' e rest :
  recovered w' e ->
  outcome_ok options w w' (Some (transactionFailure (match e with None => TransactionRolledBack | Some _ => TransactionRecoveryPending end) rest)).
Proof. destruct e; done. Qed.

Lemma finish_recovery scheduler imports w w' e :
  stable w -> confIs w Before ->
  match DisarmRollback scheduler w with (w, Some e) => (w, Some e) | (w, None) => removeImports imports w end = (w', e) ->
  recovered w' e.
Proof using GuardLaws0 ConsoleLaws0.
  intros Hs Hc. pose proof (disarm_keeps scheduler w) as [Hk _]. pose proof (confIs_kept _ _ _ Hk Hs Hc) as Hc1.
  destruct Hk as (_ & _ & Hs1 & _). specialize (Hs1 Hs).
  destruct (DisarmRollback scheduler w) as [w1 [e1|]]; simpl in *.
  - intros [= <- <-]. by apply unrecovered_before.
  - intros Hr. destruct (remove_conf _ _ _ _ _ Hr Hs1 Hc1). destruct e; simpl; [by apply unrecovered_before|done].
Qed.

(** A wait in a stable state, and a script that ran. *)
Lemma wait_conf t w w' e c : WaitSafeModeSettled t w = (w', e) -> stable w -> confIs w c -> confIs w' c.
Proof using GuardLaws0 ConsoleLaws0.
  intros E Hs. pose proof (wait_keeps t w) as ((F & _) & _). pose proof (wait_stable t w Hs) as Hc. rewrite E in F, Hc. by apply confIs_step.
Qed.
Lemma wait_guard t w w' e : WaitSafeModeSettled t w = (w', e) -> guard_kept w w'.
Proof using GuardLaws0. intros E. pose proof (wait_keeps t w) as [H _]. by rewrite E in H. Qed.
Lemma run_guard n w w' e : runScript n w = (w', e) -> guard_kept w w'.
Proof using ConsoleLaws0. intros E. pose proof (run_keeps n w) as [H _]. by rewrite E in H. Qed.
Lemma run_stable n w w' e : runScript n w = (w', e) -> stable w -> stable w'.
Proof using ConsoleLaws0. intros E. pose proof (run_keeps n w) as (_ & _ & H). by rewrite E in H. Qed.

Lemma rollbackCommitted_ok rollbackName scheduler imports t w w' e :
  stable w -> ready w RRollback rollbackName -> pendingIs w [scheduler] ->
  rollbackCommitted rollbackName scheduler imports t w = (w', e) -> recovered w' e.
Proof using GuardLaws0 ConsoleLaws0.
  intros Hs Hr Hp. unfold rollbackCommitted.
  destruct (runScript rollbackName w) as [w1 [e1|]] eqn:E1; pose proof (pendingIs_kept _ _ _ (run_guard _ _ _ _ E1) Hp) as Hp1.
  { intros [= <- <-]. by eapply unrecovered_pending. }
  pose proof (run_effect RRollback _ _ _ Hs Hr E1) as Hc. pose proof (run_stable _ _ _ _ E1 Hs) as Hs1. simpl in Hc.
  destruct (WaitSafeModeSettled t w1) as [w2 [e2|]] eqn:E2.
  { intros [= <- <-]. eapply unrecovered_pending, pendingIs_kept; [by eapply wait_guard|done]. }
  apply finish_recovery; [by eapply wait_settles|by eapply wait_conf].
Qed.

Lemma cleanupAfterAbort_ok scheduler rollbackName session t imports w w' e :
  opened session w -> (HistoryCapReached session = true -> stable w) -> ready w RRollback rollbackName -> pendingIs w [scheduler] ->
  cleanupAfterAbort scheduler rollbackName session t imports w = (w', e) -> recovered w' e.
Proof using GuardLaws0 ConsoleLaws0.
  intros Ho Hcap Hr Hp. unfold cleanupAfterAbort.
  pose proof (abort_keeps session w) as (Hg1 & [Hr1 _] & Hs1). pose proof (pendingIs_kept _ _ _ Hg1 Hp) as Hp1.
  pose proof (abort_undoes session w Ho) as Hab.
  destruct (Abort session w) as [w1 abortErr]; simpl in *.
  destruct (HistoryCapReached session) eqn:Ecap.
  - pose proof (Hs1 eq_refl (Hcap eq_refl)) as Hst.
    destruct (runScript rollbackName w1) as [w2 rollbackErr] eqn:E2; pose proof (pendingIs_kept _ _ _ (run_guard _ _ _ _ E2) Hp1) as Hp2.
    pose proof (run_stable _ _ _ _ E2 Hst) as Hst2.
    destruct (WaitSafeModeSettled t w2) as [w3 e3] eqn:E3; pose proof (pendingIs_kept _ _ _ (wait_guard _ _ _ _ E3) Hp2) as Hp3.
    destruct e3 as [e3|]; [intros [= <- <-]; destruct abortErr, rollbackErr; simpl; by eapply unrecovered_pending|].
    destruct abortErr, rollbackErr; simpl; try (intros [= <- <-]; by eapply unrecovered_pending).
    apply finish_recovery; [by eapply wait_settles|]. eapply wait_conf; [done|done|].
    eapply (run_effect RRollback); [exact Hst|by apply Hr1|done].
  - specialize (Hab eq_refl). destruct (WaitSafeModeSettled t w1) as [w3 e3] eqn:E3; pose proof (pendingIs_kept _ _ _ (wait_guard _ _ _ _ E3) Hp1) as Hp3.
    destruct e3 as [e3|]; [intros [= <- <-]; destruct abortErr; simpl; by eapply unrecovered_pending|].
    pose proof (wait_undone _ _ _ Hab E3) as Hc. destruct abortErr; simpl; [intros [= <- <-]; by apply unrecovered_before|].
    apply finish_recovery; [by eapply wait_settles|done].
Qed.

Lemma restoreWhile_ok rollbackName t w w' e :
  stable w -> ready w RRollback rollbackName -> (fired w \/ pending w <> [] \/ lost w) ->
  restoreWhileGuardArmed rollbackName t w = (w', e) -> recovered w' e.
Proof using GuardLaws0 ConsoleLaws0.
  intros Hs Hr Hp. unfold restoreWhileGuardArmed.
  destruct (runScript rollbackName w) as [w1 [e1|]] eqn:E1; pose proof (run_guard _ _ _ _ E1) as (F & Ep & El).
  { intros [= <- <-]. destruct Hp as [?|[?|?]]; [left; auto| |right; right; right; auto]. destruct Ep as [?|Ep]; [by left|]. right. left. congruence. }
  pose proof (run_effect RRollback _ _ _ Hs Hr E1) as Hc. pose proof (run_stable _ _ _ _ E1 Hs) as Hs1.
  intros Hw. pose proof (wait_conf _ _ _ _ _ Hw Hs1 Hc). destruct e; simpl; [by apply unrecovered_before|]. split; [by eapply wait_settles|done].
Qed.

(** A restoration after the guard was removed leaves none. *)
Lemma restoreAfter_ok rollbackName imports t w w' e :
  stable w -> ready w RRollback rollbackName -> pendingIs w [] -> restoreAfterGuardDisarmed rollbackName imports t w = (w', e) ->
  pendingIs w' [] /\ (e = None -> stable w' /\ confIs w' Before).
Proof using GuardLaws0 ConsoleLaws0.
  intros Hs Hr Hp. unfold restoreAfterGuardDisarmed.
  destruct (runScript rollbackName w) as [w1 [e1|]] eqn:E1; pose proof (pendingIs_kept _ _ _ (run_guard _ _ _ _ E1) Hp) as Hp1.
  { by intros [= <- <-]. }
  pose proof (run_effect RRollback _ _ _ Hs Hr E1) as Hc. pose proof (run_stable _ _ _ _ E1 Hs) as Hs1.
  destruct (WaitSafeModeSettled t w1) as [w2 [e2|]] eqn:E2; pose proof (pendingIs_kept _ _ _ (wait_guard _ _ _ _ E2) Hp1) as Hp2.
  { by intros [= <- <-]. }
  intros Hm. pose proof (remove_keeps imports w2) as [Hg3 _]. rewrite Hm in Hg3. split; [by eapply pendingIs_kept|]. intros ->.
  destruct (remove_conf _ _ _ _ _ Hm (wait_settles _ _ _ E2) (wait_conf _ _ _ _ _ E2 Hs1 Hc)). done.
Qed.

(** The options of a transaction whose callbacks leave the router alone. *)
Definition options_ok (options : TransactionOptions W) : Prop :=
  (forall f, HealthCheck options = Some f -> harmless f) /\ (forall f, BeforeApply options = Some f -> harmless f) /\
  (forall f, Finalize options = Some f -> harmless f).

Lemma callback_keeps f w : (forall g, f = Some g -> harmless g) -> guard_kept w (callback f w).1 /\ config_kept w (callback f w).1.
Proof. intros Hf. destruct f as [g|]; [by apply Hf|]. simpl. repeat split; auto. Qed.

(** The state in which a candidate is in force under its guard. *)
Record guarded (w : W) (scheduler rollbackName : gostr) : Prop := {
  gd_stable : stable w; gd_ready : ready w RRollback rollbackName; gd_pending : pendingIs w [scheduler] }.

Lemma guarded_kept w w' scheduler rollbackName :
  guarded w scheduler rollbackName -> guard_kept w w' -> (stable w -> stable w') -> scripts_kept w w' -> guarded w' scheduler rollbackName.
Proof. intros [Hs Hr Hp] Hg Hs' [Hr' _]. split; [auto|auto|by eapply pendingIs_kept]. Qed.

Lemma conclude_ok options result scheduler imports w0 w w' result' e :
  options_ok options -> guarded w scheduler (RollbackScript result) -> confIs w After ->
  (exists check w1, HealthCheck options = Some check /\ confIs w1 After /\ (check w1).2 = None) ->
  conclude result scheduler options imports w = (w', result', e) -> outcome_ok options w0 w' e.
Proof using GuardLaws0 ConsoleLaws0.
  intros (_ & _ & Hfin) [Hs Hr Hp] Hc Hcheck. unfold conclude.
  pose proof (disarm_keeps scheduler w) as [Hk _]. pose proof (confIs_kept _ _ _ Hk Hs Hc) as Hc1.
  destruct Hk as (F1 & _ & Hst & [Hrd _] & _). specialize (Hst Hs). specialize (Hrd _ _ Hr).
  destruct (DisarmRollback scheduler w) as [w1 [e1|]] eqn:Ed; simpl in *.
  - destruct (restoreWhileGuardArmed (RollbackScript result) (SettleTimeout options) w1) as [w2 rollbackErr] eqn:Er.
    intros [= <- _ <-]. apply recovered_state. eapply restoreWhile_ok; [..|exact Er]; [done|done|].
    destruct Hp as [?|Hp]; [left; auto|]. destruct (disarm_fails _ _ _ _ Ed) as [?|[E|?]]; [by left|right; left; by rewrite E, Hp|by right; right].
  - pose proof (disarm_clears _ _ _ Hp Ed) as Hp1. pose proof (callback_keeps (Finalize options) w1 Hfin) as [Hg2 Hk2].
    pose proof (pendingIs_kept _ _ _ Hg2 Hp1) as Hp2. pose proof (confIs_kept _ _ _ Hk2 Hst Hc1) as Hc2.
    destruct Hk2 as (_ & _ & Hst2 & [Hrd2 _] & _). specialize (Hst2 Hst). specialize (Hrd2 _ _ Hrd).
    destruct (callback (Finalize options) w1) as [w2 [e2|]] eqn:Ef; simpl in *.
    + destruct (restoreAfterGuardDisarmed (RollbackScript result) imports (SettleTimeout options) w2) as [w3 e3] eqn:Er.
      destruct (restoreAfter_ok _ _ _ _ _ _ Hst2 Hrd2 Hp2 Er) as [Hp3 Hb]. destruct e3 as [e3|]; intros [= <- _ <-]; simpl; [|by apply Hb].
      split; [done|]. unfold callback in Ef. destruct (Finalize options) as [finalize|]; [|done]. exists finalize, w1. by rewrite Ef.
    + pose proof (remove_keeps imports w2) as [Hg3 _]. pose proof (pendingIs_kept _ _ _ Hg3 Hp2) as Hp3.
      destruct (removeImports imports w2) as [w3 e3] eqn:Er; simpl in *. intros [= <- _ <-]. simpl.
      destruct (remove_conf _ _ _ _ _ Er Hst2 Hc2) as [Hc3 Hst3]. split; [done|]. split; [|done].
      destruct Hc3, Hp3; auto.
Qed.

Lemma scheduler_guard_ok check options result scheduler imports w0 w w' result' e :
  options_ok options -> HealthCheck options = Some check -> guarded w scheduler (RollbackScript result) ->
  ready w RApply (ApplyScript result) ->
  applyWithSchedulerGuard check result scheduler options imports w = (w', result', e) -> outcome_ok options w0 w' e.
Proof using GuardLaws0 ConsoleLaws0.
  intros Ho Hh Hg Hra. unfold applyWithSchedulerGuard, rollbackPrepared.
  assert (Hback : forall cause w1, guarded w1 scheduler (RollbackScript result) ->
    (let '(w2, rollbackErr) := rollbackCommitted (RollbackScript result) scheduler imports (SettleTimeout options) w1 in
     (w2, result, Some (guardedFailure cause rollbackErr))) = (w', result', e) -> outcome_ok options w0 w' e).
  { intros cause w1 [Hs Hr Hp].
    destruct (rollbackCommitted (RollbackScript result) scheduler imports (SettleTimeout options) w1) as [w2 re] eqn:Er.
    intros [= <- _ <-]. apply recovered_state. by eapply rollbackCommitted_ok. }
  pose proof (run_keeps (ApplyScript result) w) as (Hg1 & Hr1 & Hs1).
  destruct (runScript (ApplyScript result) w) as [w1 [e1|]] eqn:E1; simpl in *; [apply Hback; by eapply guarded_kept|].
  pose proof (run_effect RApply _ _ _ (gd_stable _ _ _ Hg) Hra E1) as Hc. simpl in Hc.
  destruct (proj1 Ho check Hh w1) as [Hg2 Hk2]. pose proof (confIs_kept _ _ _ Hk2 (Hs1 (gd_stable _ _ _ Hg)) Hc) as Hc2.
  destruct Hk2 as (_ & _ & Hs2 & Hr2 & _).
  destruct (check w1) as [w2 [e2|]] eqn:E2; simpl in *.
  - apply Hback. eapply guarded_kept; [eapply guarded_kept|..]; done.
  - apply conclude_ok; [done| |done|].
    + eapply guarded_kept; [eapply guarded_kept|..]; done.
    + exists check, w1. by rewrite E2.
Qed.

Lemma applyPrepared_ok check options result scheduler imports w0 w w' result' e :
  options_ok options -> HealthCheck options = Some check -> guarded w scheduler (RollbackScript result) ->
  ready w RApply (ApplyScript result) -> confIs w Before ->
  applyPrepared check result scheduler options imports w = (w', result', e) -> outcome_ok options w0 w' e.
Proof using GuardLaws0 ConsoleLaws0.
  intros Ho Hh Hg Hra Hc. unfold applyPrepared, rollbackPrepared.
  pose proof (callback_keeps (BeforeApply options) w (proj1 (proj2 Ho))) as [Hg1 Hk1].
  pose proof (confIs_kept _ _ _ Hk1 (gd_stable _ _ _ Hg) Hc) as Hc1. destruct Hk1 as (_ & _ & Hs1 & Hr1 & _).
  destruct (callback (BeforeApply options) w) as [w1 [e1|]]; simpl in *.
  - destruct (rollbackCommitted (RollbackScript result) scheduler imports (SettleTimeout options) w1) as [w2 re] eqn:Er.
    intros [= <- _ <-]. apply recovered_state.
    destruct (guarded_kept _ _ _ _ Hg Hg1 Hs1 Hr1). by eapply rollbackCommitted_ok.
  - pose proof (guarded_kept _ _ _ _ Hg Hg1 Hs1 Hr1) as G1.
    pose proof (proj1 Hr1 _ _ Hra) as Hra1. clear w Hg Hra Hc Hg1 Hs1 Hr1.
    destruct (SchedulerGuardOnly options); [by apply scheduler_guard_ok|].
    pose proof (begin_keeps (ApplyScript result) w1) as [Hg2 Hr2]. pose proof (pendingIs_kept _ _ _ Hg2 (gd_pending _ _ _ G1)) as Hp2.
    destruct (beginSafeMode (ApplyScript result) w1) as [w2 [session|eb]] eqn:Eb; simpl in *.
    + destruct (begin_effect _ _ _ _ (gd_stable _ _ _ G1) Hc1 Hra1 Eb) as (Hc2 & Hop & Hcap).
      destruct (proj1 Ho check Hh w2) as [Hg3 Hk3]. pose proof (confIs_opened _ _ _ _ Hk3 Hop Hc2) as Hc3.
      pose proof (pendingIs_kept _ _ _ Hg3 Hp2) as Hp3. destruct Hk3 as (_ & _ & Hs3 & Hr3 & Hop3).
      destruct (check w2) as [w3 [e3|]] eqn:E3; simpl in *.
      * match goal with |- (let '(_, _) := ?x in _) = _ -> _ => destruct x as [w4 ce] eqn:Ea end.
        intros [= <- _ <-]. apply recovered_state. destruct G1 as [_ Hrr _].
        eapply cleanupAfterAbort_ok; [..|exact Ea]; [auto|auto|by apply Hr3, Hr2|done].
      * pose proof (commit_keeps session (SettleTimeout options) w3) as [Hg4 Hr4]. pose proof (pendingIs_kept _ _ _ Hg4 Hp3) as Hp4.
        destruct (Commit session (SettleTimeout options) w3) as [w4 [e4|]] eqn:E4; simpl in *.
        { intros [= <- _ <-]. by eapply unrecovered_pending. }
        destruct (commit_effect session (SettleTimeout options) w3 w4) as [Hc4 Hs4]; [auto|done|done|].
        pose proof (wait_keeps (SettleTimeout options) w4) as [Hg5 Hr5]. pose proof (pendingIs_kept _ _ _ Hg5 Hp4) as Hp5.
        destruct (WaitSafeModeSettled (SettleTimeout options) w4) as [w5 [e5|]] eqn:E5; simpl in *.
        { intros [= <- _ <-]. by eapply unrecovered_pending. }
        apply conclude_ok; [done| |by eapply wait_conf|].
        -- split; [by eapply wait_settles| |done]. apply Hr5, Hr4, Hr3, Hr2. simpl. apply G1.
        -- exists check, w2. by rewrite E3.
    + pose proof (wait_keeps (SettleTimeout options) w2) as [Hg3 Hr3]. pose proof (pendingIs_kept _ _ _ Hg3 Hp2) as Hp3.
      destruct (WaitSafeModeSettled (SettleTimeout options) w2) as [w3 [e3|]] eqn:E3; simpl in *.
      { intros [= <- _ <-]. by eapply unrecovered_pending. }
      apply scheduler_guard_ok; [done|done| |by apply Hr3, Hr2].
      split; [by eapply wait_settles|apply Hr3, Hr2, G1|done].
Qed.

(** An error before the guard is armed. *)
Lemma early_ok options w w' e :
  stable w -> confIs w Before -> untouched w w' ->
  match e with None => False | Some e => TransactionFailureStateOf e = None \/ TransactionFailureStateOf e = Some TransactionRecoveryPending end ->
  outcome_ok options w w' e.
Proof.
  intros Hs Hc U He. pose proof (untouched_conf _ _ _ U Hs Hc) as Hc1. destruct U as (Ec & _ & Ep & _). destruct (Ec Hs) as [_ Es1].
  destruct e as [e|]; [|done]. simpl. destruct He as [-> | ->]; [|by apply unrecovered_before]. split; [done|]. destruct Hc1, Ep; auto.
Qed.

Lemma join_early e ce :
  plain e -> match ce with None => True | Some e => TransactionFailureStateOf e = None \/ TransactionFailureStateOf e = Some TransactionRecoveryPending end ->
  match join [Some e; ce] with None => False | Some e => TransactionFailureStateOf e = None \/ TransactionFailureStateOf e = Some TransactionRecoveryPending end.
Proof. unfold plain. intros He Hce. destruct ce as [c|]; simpl; [rewrite He|]; auto. Qed.

Lemma settled_fields (options : TransactionOptions W) :
  HealthCheck (settled options) = HealthCheck options /\ BeforeApply (settled options) = BeforeApply options /\
  Finalize (settled options) = Finalize options.
Proof. unfold settled. by destruct (_ <=? _). Qed.

Lemma options_settled options : options_ok options -> options_ok (settled options).
Proof. unfold options_ok. by destruct (settled_fields options) as (-> & -> & ->). Qed.

Lemma outcome_settled options w w' e : outcome_ok (settled options) w w' e -> outcome_ok options w w' e.
Proof. unfold outcome_ok. by destruct (settled_fields options) as (-> & _ & ->). Qed.

(** The guard is armed and the prepared candidate runs. *)
Lemma armed_ok check options result scheduler imports w0 w n d f w1 w' result' e :
  options_ok options -> HealthCheck options = Some check -> confIs w Before -> stable w ->
  ready w RRollback (RollbackScript result) -> ready w RApply (ApplyScript result) ->
  ArmRollback n d f w = (w1, inl scheduler) ->
  applyPrepared check result scheduler (settled options) imports w1 = (w', result', e) -> outcome_ok options w0 w' e.
Proof using GuardLaws0 ConsoleLaws0.
  intros Ho Hh Hc Hs Hr Hra Ha Hap. pose proof (arm_keeps n d f w) as [Hk _]. pose proof (confIs_kept _ _ _ Hk Hs Hc) as Hc1.
  destruct Hk as (_ & _ & Hs1 & [Hr1 _] & _). rewrite Ha in *. simpl in *.
  apply outcome_settled. eapply applyPrepared_ok; [by apply options_settled| |..|exact Hap].
  - by destruct (settled_fields options) as (-> & _).
  - split; [auto|auto|by eapply arm_pending].
  - auto.
  - done.
Qed.

(** A refused arming: the guards are as before, or the error says that one may
    be there. *)
Lemma arm_refused_ok options n d f w0 w w' e :
  stable w0 -> confIs w0 Before -> untouched w0 w -> ArmRollback n d f w = (w', inr e) ->
  outcome_ok options w0 w' (Some (classifyRollbackArmFailure e)) /\ (is_guard_error e = false -> untouched w0 w').
Proof using GuardLaws0 ConsoleLaws0.
  intros Hs Hc U E. destruct (arm_refused _ _ _ _ _ _ E) as [P Hp]. pose proof (arm_keeps n d f w) as [Hk L]. rewrite E in Hk, L. simpl in Hk, L.
  pose proof (proj2 (proj1 U Hs)) as Hs1.
  pose proof (confIs_kept _ _ _ Hk Hs1 (untouched_conf _ _ _ U Hs Hc)) as Hc1.
  assert (Hu : is_guard_error e = false -> untouched w0 w').
  { intros Eg. eapply untouched_trans; [exact U|]. destruct Hk as (F & C & S' & _). split.
    - intros H. split; [apply C; by left|auto].
    - split; [done|]. split; [by apply Hp|done]. }
  split; [|done]. unfold outcome_ok. rewrite (state_classified _ P). destruct (is_guard_error e); [by apply unrecovered_before|].
  destruct (Hu eq_refl) as (Ec & _ & Ep & _). split; [apply Ec; done|]. destruct Hc1, Ep; auto.
Qed.

Lemma ApplyCandidate_ok applySource rollbackSource options w w' result e :
  options_ok options -> meant RApply applySource -> meant RRollback rollbackSource -> confIs w Before -> stable w ->
  ApplyCandidate applySource rollbackSource options w = (w', result, e) -> outcome_ok options w w' e.
Proof using GuardLaws0 ConsoleLaws0.
  intros Ho Ma Mr Hc Hs. unfold ApplyCandidate. destruct (HealthCheck options) as [check|] eqn:Eh.
  2: { intros [= <- _ <-]. simpl. split; [done|]. destruct Hc; [by left|by right]. }
  pose proof (kept_untouched _ _ (ensure_keeps w)) as U1.
  destruct (ensureNoPendingRollbackGuard w) as [w1 [e1|]]; simpl in U1.
  { intros [= <- _ <-]. apply early_ok; [done|done|done|by right]. }
  pose proof (kept_untouched _ _ (upload_keeps RRollback rollbackSource w1)) as U2.
  destruct (upload RRollback rollbackSource w1) as [w2 [f1|e2]] eqn:E2; simpl in U2.
  2: { intros [= <- _ <-]. apply early_ok; [done|done|by eapply untouched_trans|left; by eapply upload_plain]. }
  pose proof (upload_uploaded _ _ _ _ _ Mr E2) as F1. pose proof (untouched_trans _ _ _ U1 U2) as V2.
  pose proof (upload_keeps RApply applySource w2) as K3. pose proof (kept_untouched _ _ K3) as U3.
  assert (Hundo : forall l e0 w3 w4 ce r, plain e0 -> untouched w w3 -> cleanupUnarmedImports l w3 = (w4, ce) ->
    (w4, r, join [Some e0; ce]) = (w', result, e) -> outcome_ok options w w' e).
  { intros l e0 w3 w4 ce r He0 U Hu [= <- _ <-]. destruct (unarmed_keeps _ _ _ _ Hu) as [U4 Hce].
    apply early_ok; [done|done|by eapply untouched_trans|by apply join_early]. }
  destruct (upload RApply applySource w2) as [w3 [f2|e3]] eqn:E3; simpl in K3, U3.
  2: { destruct (cleanupUnarmedImports _ w3) as [w4 ce] eqn:Eu. eapply Hundo; [..|exact Eu]; [by eapply upload_plain|by eapply untouched_trans]. }
  pose proof (upload_uploaded _ _ _ _ _ Ma E3) as F2. pose proof (untouched_trans _ _ _ V2 U3) as V3.
  destruct K3 as [_ (_ & _ & _ & [_ Kf] & _)]. pose proof (Kf _ _ F1) as F1'.
  pose proof (import_keeps RRollback f1 w3) as K4. pose proof (kept_untouched _ _ K4) as U4.
  destruct (PrepareImportScript RRollback f1 w3) as [w4 [n1|e4]] eqn:E4; simpl in K4, U4.
  2: { destruct (cleanupUnarmedImports _ w4) as [w5 ce] eqn:Eu. eapply Hundo; [..|exact Eu]; [by eapply import_plain|by eapply untouched_trans]. }
  pose proof (import_ready _ _ _ _ _ F1' E4) as R1. pose proof (untouched_trans _ _ _ V3 U4) as V4.
  destruct K4 as [_ (_ & _ & _ & [_ Kf4] & _)]. pose proof (Kf4 _ _ F2) as F2'.
  pose proof (import_keeps RApply f2 w4) as K5. pose proof (kept_untouched _ _ K5) as U5.
  destruct (PrepareImportScript RApply f2 w4) as [w5 [n2|e5]] eqn:E5; simpl in K5, U5.
  2: { destruct (cleanupUnarmedImports _ w5) as [w6 ce] eqn:Eu. eapply Hundo; [..|exact Eu]; [by eapply import_plain|by eapply untouched_trans]. }
  pose proof (import_ready _ _ _ _ _ F2' E5) as R2. pose proof (untouched_trans _ _ _ V4 U5) as V5.
  destruct K5 as [_ (_ & _ & _ & [Kr5 _] & _)]. pose proof (Kr5 _ _ R1) as R1'.
  pose proof (proj2 (proj1 V5 Hs)) as Hs5. pose proof (untouched_conf _ _ _ V5 Hs Hc) as Hc5.
  destruct (ArmRollback n1 (RollbackDelay (settled options)) f1 w5) as [w6 [scheduler|e6]] eqn:E6.
  - by eapply armed_ok; [..|exact E6].
  - destruct (arm_refused_ok options _ _ _ _ _ _ _ Hs Hc V5 E6) as [Ho6 U6]. destruct (arm_refused _ _ _ _ _ _ E6) as [P6 _].
    rewrite (state_classified _ P6). destruct (is_guard_error e6) eqn:Eg.
    + by intros [= <- _ <-].
    + destruct (cleanupUnarmedImports _ w6) as [w7 ce] eqn:Eu.
      unfold classifyRollbackArmFailure. rewrite Eg. eapply Hundo; [exact P6| |exact Eu]. by apply U6.
Qed.

Lemma ApplyDelta_ok applySource rollbackSource options w w' result e :
  options_ok options -> meant RApply applySource -> meant RRollback rollbackSource -> confIs w Before -> stable w ->
  ApplyDelta applySource rollbackSource options w = (w', result, e) -> outcome_ok options w w' e.
Proof using GuardLaws0 ConsoleLaws0.
  intros Ho Ma Mr Hc Hs. unfold ApplyDelta. destruct (_ || _).
  { destruct (validateImportedDelta applySource) as [e1|] eqn:E1.
    - intros [= <- _ <-]. apply early_ok; [done|done|apply untouched_refl|left; by eapply validate_plain].
    - destruct (validateImportedDelta rollbackSource) as [e2|] eqn:E2; [|by apply ApplyCandidate_ok].
      intros [= <- _ <-]. apply early_ok; [done|done|apply untouched_refl|left; by eapply validate_plain]. }
  destruct (HealthCheck options) as [check|] eqn:Eh; [|intros [= <- _ <-]; simpl; split; [done|destruct Hc; [by left|by right]]].
  pose proof (kept_untouched _ _ (direct_keeps RRollback rollbackSource w)) as U1.
  destruct (PrepareDirectDelta RRollback rollbackSource w) as [w1 [n1|e1]] eqn:E1; simpl in U1.
  2: { intros [= <- _ <-]. apply early_ok; [done|done|done|left; by eapply direct_plain]. }
  pose proof (direct_ready _ _ _ _ _ Mr E1) as R1. pose proof (direct_keeps RApply applySource w1) as K2.
  pose proof (kept_untouched _ _ K2) as U2.
  destruct (PrepareDirectDelta RApply applySource w1) as [w2 [n2|e2]] eqn:E2; simpl in K2, U2.
  2: { intros [= <- _ <-]. apply early_ok; [done|done|by eapply untouched_trans|left; by eapply direct_plain]. }
  pose proof (direct_ready _ _ _ _ _ Ma E2) as R2. destruct K2 as [_ (_ & _ & _ & [Kr _] & _)]. pose proof (Kr _ _ R1) as R1'.
  pose proof (untouched_trans _ _ _ U1 U2) as V2. pose proof (proj2 (proj1 V2 Hs)) as Hs2.
  pose proof (untouched_conf _ _ _ V2 Hs Hc) as Hc2.
  destruct (ArmRollback n1 (RollbackDelay (settled options)) [] w2) as [w3 [scheduler|e3]] eqn:E3.
  - by eapply armed_ok; [..|exact E3].
  - destruct (arm_refused_ok options _ _ _ _ _ _ _ Hs Hc V2 E3) as [Ho3 _]. by intros [= <- _ <-].
Qed.

End Safety.
