(* ===== verification/ApplyLogic.v ===== *)
(** * Reasoning about an Apply

    What the runtime and the surroundings promise ([RuntimeLaws],
    [ControlLaws]), how the router's promises carry over to the larger state,
    and a program logic with crash invariants: [hoare I P m Q F] says that from
    [P] every point that [m] adds to the history satisfies [I], whatever fails,
    and that [m] ends with [Q] or, with an error, with [F]. *)

From S2P Require Import Prelude GoBase GoText GoRegexp RouterTransaction RouterTransactionSafety StateStore ApplyWorld Apply.
Open Scope Z_scope.
Open Scope store_scope.

(** ** Views and laws *)

(** [A] stands for the bytes of the managed artifacts. *)
Class RuntimeView (X C Rc A : Type) := {
  live : X -> A;                      (* the published artifacts *)
  damaged : X -> Prop;                (* a failed publication could not be undone *)
  artifacts : C -> A;
  restores : Rc -> A;                 (* what the receipt restores *)
}.

Section Laws.
Context {X S C Rc A : Type} `{!GuardOps X, !ConsoleOps X S, !TransactionView X S, !RuntimeOps X C Rc, !ControlOps X, !RuntimeView X C Rc A}.

Definition runtime_kept (x x' : X) : Prop := live x' = live x /\ (damaged x -> damaged x').
Definition managed_kept (x x' : X) : Prop := guard_kept (S:=S) x x' /\ config_kept (S:=S) x x'.
Definition keeps {B} (R : X -> X -> Prop) (f : X -> X * B) : Prop := forall x, R x (f x).1.
Definition both_kept (x x' : X) : Prop := runtime_kept x x' /\ managed_kept x x'.

(** The operations of [runtime.go] and [candidate.go]: only a publication and a
    restoration change the artifacts, and none touches the router's managed
    part. *)
Class RuntimeLaws : Prop := {
  prepare_kept config nodes : keeps both_kept (rt_prepare config nodes);
  diff_kept c : keeps both_kept (rt_diff c);
  diff_equal c x x' : rt_diff c x = (x', inl []) -> live x = artifacts c;
  validate_kept c l : keeps both_kept (rt_validate c l);
  scope_kept c : keeps both_kept (rt_scope c);
  rtguard_kept l : keeps both_kept (rt_guard l);
  release_kept x : both_kept x (rt_release x);
  mark_kept x : both_kept x (rt_mark x);
  restart_kept l : keeps both_kept (rt_restart l);
  probe_kept l : keeps both_kept (rt_probe l);
  waitHot_kept : keeps both_kept rt_waitHot;
  rtcommit_kept c : keeps both_kept (rt_commit c);
  publish_router c l : keeps managed_kept (rt_publish c l);
  publish_done c l x x' r : rt_publish c l x = (x', inl r) ->
    live x' = artifacts c /\ restores r = live x /\ (damaged x -> damaged x') /\ rt_changed r = l;
  publish_failed c l x x' e : rt_publish c l x = (x', inr e) -> runtime_kept x x' \/ damaged x';
  restore_router r : keeps managed_kept (rt_restore r);
  restore_done r x x' : rt_restore r x = (x', None) -> live x' = restores r /\ (damaged x -> damaged x');
  restore_damaged r x x' e : rt_restore r x = (x', Some e) -> damaged x -> damaged x';
  noReceipt_changed : rt_changed rt_noReceipt = [];
}.

(** The router's console and scheduler leave the runtime alone, and the other
    calls leave both alone; their errors are plain. *)
Class ControlLaws : Prop := {
  ensure_runtime : keeps runtime_kept ensureNoPendingRollbackGuard;
  direct_runtime r src : keeps runtime_kept (PrepareDirectDelta r src);
  import_runtime r f : keeps runtime_kept (PrepareImportScript r f);
  arm_runtime n d f : keeps runtime_kept (ArmRollback n d f);
  disarm_runtime s : keeps runtime_kept (DisarmRollback s);
  wait_runtime t : keeps runtime_kept (WaitSafeModeSettled t);
  run_runtime n : keeps runtime_kept (runScript (S:=S) n);
  begin_runtime n : keeps runtime_kept (beginSafeMode (S:=S) n);
  commit_runtime s t : keeps runtime_kept (Commit (S:=S) s t);
  abort_runtime s : keeps runtime_kept (Abort (S:=S) s);
  upload_runtime r src : keeps runtime_kept (upload (S:=S) r src);
  cleanup_runtime l : keeps runtime_kept (cleanup (S:=S) l);
  catalog_kept a c : keeps both_kept (ct_refreshCatalog a c);
  feeds_kept c : keeps both_kept (ct_ensureFeeds c);
  stack_kept c : keeps both_kept (ct_stack c);
  schedulerGuard_kept : keeps both_kept ct_schedulerGuard;
  backup_kept : keeps both_kept ct_backup;
  health_kept : keeps both_kept ct_health;
  prune_kept c : keeps both_kept (ct_prune c);
  failOpen_kept c : keeps both_kept (ct_failOpen c);
  diversion_kept : keeps both_kept ct_waitDiversion;
  traffic_kept wait c : ct_waitTraffic = Some wait -> keeps both_kept (wait c);
  logging_kept c r x : both_kept x (ct_noteLogging c r x);
  stack_plain c x x' e : ct_stack c x = (x', Some e) -> plain e;
  schedulerGuard_plain x x' e : ct_schedulerGuard x = (x', inr e) -> plain e;
  backup_plain x x' e : ct_backup x = (x', inr e) -> plain e;
}.

Lemma runtime_kept_refl x : runtime_kept x x.
Proof. by split. Qed.
Lemma runtime_kept_trans x y z : runtime_kept x y -> runtime_kept y z -> runtime_kept x z.
Proof. intros [E1 D1] [E2 D2]. split; [congruence|auto]. Qed.
Lemma managed_kept_refl x : managed_kept x x.
Proof. split; [split_and!; auto|]. split_and!; auto. by split. Qed.
Lemma managed_kept_trans x y z : managed_kept x y -> managed_kept y z -> managed_kept x z.
Proof.
  intros [G1 C1] [G2 C2]. split; [by eapply guard_kept_trans|by eapply config_kept_trans].
Qed.
Lemma both_kept_refl x : both_kept x x.
Proof. split; [apply runtime_kept_refl|apply managed_kept_refl]. Qed.
Lemma both_kept_trans x y z : both_kept x y -> both_kept y z -> both_kept x z.
Proof. intros [A1 B1] [A2 B2]. split; [by eapply runtime_kept_trans|by eapply managed_kept_trans]. Qed.
End Laws.
Arguments RuntimeLaws X S C Rc A {_ _ _}.
Arguments ControlLaws X S C Rc A {_ _ _ _ _}.

(** ** The router's promises in a larger state *)

(** [lift] runs an operation on the part [get] of a state. *)
Section Lift.
Context {X S V : Type} `{!GuardOps X, !ConsoleOps X S, !TransactionView X S, !GuardLaws X S, !ConsoleLaws X S}.
Context (get : V -> X) (lift : forall B, (X -> X * B) -> V -> V * B).
Context (lift_get : forall B (f : X -> X * B) v, get (lift B f v).1 = (f (get v)).1).
Context (lift_result : forall B (f : X -> X * B) v v' b, lift B f v = (v', b) -> f (get v) = (get v', b)).

Definition lift_guard : GuardOps V := {|
  ensureNoPendingRollbackGuard := lift _ ensureNoPendingRollbackGuard;
  PrepareDirectDelta r src := lift _ (PrepareDirectDelta r src);
  PrepareImportScript r f := lift _ (PrepareImportScript r f);
  ArmRollback n d f := lift _ (ArmRollback n d f);
  DisarmRollback s := lift _ (DisarmRollback s);
  WaitSafeModeSettled t := lift _ (WaitSafeModeSettled t);
  validateImportedDelta := validateImportedDelta (W:=X) |}.
Definition lift_console : ConsoleOps V S := {|
  runScript n := lift _ (runScript n);
  beginSafeMode n := lift _ (beginSafeMode n);
  HistoryCapReached := HistoryCapReached (W:=X);
  Commit s t := lift _ (Commit s t);
  Abort s := lift _ (Abort s);
  upload r src := lift _ (upload r src);
  cleanup l := lift _ (cleanup l) |}.
Definition lift_view : TransactionView V S := {|
  fired v := fired (S:=S) (get v);
  pending v := pending (S:=S) (get v);
  lost v := lost (S:=S) (get v);
  conf v := conf (S:=S) (get v);
  stable v := stable (S:=S) (get v);
  ready v r n := ready (S:=S) (get v) r n;
  uploaded v r f := uploaded (S:=S) (get v) r f;
  opened s v := opened s (get v);
  undoing v := undoing (S:=S) (get v);
  meant r src := meant (W:=X) (S:=S) r src |}.

(** A law about [(f v).1], and one about an equation [f v = (v', b)]. *)
Local Ltac lift_at law :=
  intros; unfold guard_kept, config_kept, scripts_kept, quiet, pendingIs, confIs; cbn; rewrite lift_get; apply law.
Local Ltac lift_eq law :=
  intros; match goal with H : _ = (_, _) |- _ => cbn in H; apply lift_result in H end; unfold pendingIs, confIs in *; cbn in *; eapply law; eauto.

Lemma lift_guard_laws : @GuardLaws V S lift_guard lift_view.
Proof using All.
  split.
  - lift_at (ensure_keeps (S:=S)).
  - lift_at (direct_keeps (S:=S)).
  - lift_eq (direct_ready (S:=S)).
  - lift_eq (direct_plain (S:=S)).
  - lift_at (import_keeps (S:=S)).
  - lift_eq (import_ready (S:=S)).
  - lift_eq (import_plain (S:=S)).
  - lift_at (arm_keeps (S:=S)).
  - lift_eq (arm_pending (S:=S)).
  - intros n d f v v' e E. cbn in E. apply lift_result in E. apply (arm_refused (S:=S) _ _ _ _ _ _ E).
  - lift_at (disarm_keeps (S:=S)).
  - lift_eq (disarm_clears (S:=S)).
  - lift_eq (disarm_fails (S:=S)).
  - lift_at (wait_keeps (S:=S)).
  - intros t v Hs. cbn. rewrite lift_get. by apply (wait_stable (S:=S)).
  - lift_eq (wait_settles (S:=S)).
  - lift_eq (wait_undone (S:=S)).
  - exact (validate_plain (W:=X) (S:=S)).
Qed.

Lemma lift_console_laws : @ConsoleLaws V S lift_console lift_view.
Proof using All.
  split.
  - lift_at (upload_keeps (W:=X) (S:=S)).
  - lift_eq (upload_uploaded (W:=X) (S:=S)).
  - lift_eq (upload_plain (W:=X) (S:=S)).
  - lift_at (run_keeps (W:=X) (S:=S)).
  - lift_eq (run_effect (W:=X) (S:=S)).
  - lift_at (begin_keeps (W:=X) (S:=S)).
  - lift_eq (begin_effect (W:=X) (S:=S)).
  - lift_at (commit_keeps (W:=X) (S:=S)).
  - lift_eq (commit_effect (W:=X) (S:=S)).
  - lift_at (abort_keeps (W:=X) (S:=S)).
  - intros s v Ho Hc. cbn in *. rewrite lift_get. by apply abort_undoes.
  - lift_at (cleanup_keeps (W:=X) (S:=S)).
  - lift_eq (cleanup_plain (W:=X) (S:=S)).
Qed.
End Lift.

Section World.
Context {X S Rc : Type} `{!GuardOps X, !ConsoleOps X S, !TransactionView X S, !GuardLaws X S, !ConsoleLaws X S}.
Local Abbreviation W := (@world X Rc).

Lemma outside_x {B} (f : X -> X * B) (w : W) : w_x (outside f w).1 = (f (w_x w)).1.
Proof. unfold outside. by destruct (f (w_x w)). Qed.
Lemma outside_result {B} (f : X -> X * B) (w w' : W) b : outside f w = (w', b) -> f (w_x w) = (w_x w', b).
Proof. unfold outside. destruct (f (w_x w)). by intros [= <- <-]. Qed.

#[export] Instance world_view : TransactionView W S := lift_view w_x.
#[export] Instance world_guard_laws : GuardLaws W S := lift_guard_laws w_x (@outside X Rc) (@outside_x) (@outside_result).
#[export] Instance world_console_laws : ConsoleLaws W S := lift_console_laws w_x (@outside X Rc) (@outside_x) (@outside_result).
End World.

(** ** The logic *)

(** A document that a failed write replaced can be read back: no write that
    fails late is followed by a failing operation. *)
Fixpoint rereadable (l : list fault) : bool :=
  match l with
  | [] => true
  | FailsLate :: l => match l with [] | Fine :: _ => true | _ => false end && rereadable l
  | _ :: l => rereadable l
  end.

Section Logic.
Context {X S C Rc A : Type} `{!GuardOps X, !ConsoleOps X S, !TransactionView X S, !RuntimeOps X C Rc, !ControlOps X, !RuntimeView X C Rc A}.
Local Abbreviation W := (@world X Rc).

(** Assertions speak about the documents, the outside and the variables. *)
Definition assertion : Type := documents -> X -> @vars Rc -> Prop.
(** The state after a run from the history [h]: the new points satisfy [I]. *)
Definition at_point (I : documents -> X -> Prop) (h : list (documents * X)) (P : assertion) (w : W) : Prop :=
  rereadable (w_faults w) = true /\ (exists new, w_history w = h ++ new /\ Forall (fun p => I p.1 p.2) new) /\
  P (w_docs w) (w_x w) (w_vars w).
Definition triple {B} (I : documents -> X -> Prop) (P : assertion) (f : W -> W * B) (Q : B -> assertion) : Prop :=
  forall h w w' b, f w = (w', b) -> at_point I h P w -> at_point I h (Q b) w'.
Definition hoare {E B} (I : documents -> X -> Prop) (P : assertion) (m : M W E B) (Q : B -> assertion) (F : E -> assertion) : Prop :=
  triple I P m (fun r => match r with inl b => Q b | inr e => F e end).

Lemma at_weaken I h (P Q : assertion) w : at_point I h P w -> (forall D x v, P D x v -> Q D x v) -> at_point I h Q w.
Proof. intros (H1 & H2 & H3) H. split_and!; auto. Qed.

Section Rules.
Context (I : documents -> X -> Prop).

Lemma triple_weaken {B} (P P' : assertion) (f : W -> W * B) (Q Q' : B -> assertion) :
  triple I P f Q -> (forall D x v, P' D x v -> P D x v) -> (forall b D x v, Q b D x v -> Q' b D x v) -> triple I P' f Q'.
Proof.
  intros H HP HQ h w w' b E Hw. eapply at_weaken; [eapply H; [exact E|by eapply at_weaken]|auto].
Qed.
Lemma hoare_weaken {E B} (P P' : assertion) (m : M W E B) (Q Q' : B -> assertion) (F F' : E -> assertion) :
  hoare I P m Q F -> (forall D x v, P' D x v -> P D x v) -> (forall b D x v, Q b D x v -> Q' b D x v) ->
  (forall e D x v, F e D x v -> F' e D x v) -> hoare I P' m Q' F'.
Proof. intros H HP HQ HF. eapply triple_weaken; [exact H|exact HP|]. intros [b|e]; auto. Qed.

Lemma hoare_ret {E B} (P : assertion) (b : B) Q (F : E -> assertion) : (forall D x v, P D x v -> Q b D x v) -> hoare I P (ret b) Q F.
Proof. intros H h w w' r [= <- <-] Hw. by eapply at_weaken. Qed.
Lemma hoare_fail {E B} (P : assertion) (e : E) (Q : B -> assertion) F : (forall D x v, P D x v -> F e D x v) -> hoare I P (fail e) Q F.
Proof. intros H h w w' r [= <- <-] Hw. by eapply at_weaken. Qed.
Lemma hoare_bind {E B B'} (P : assertion) (m : M W E B) (k : B -> M W E B') R Q F :
  hoare I P m R F -> (forall b, hoare I (R b) (k b) Q F) -> hoare I P (bind m k) Q F.
Proof.
  intros Hm Hk h w w' r H Hw. unfold bind in H. destruct (m w) as [w1 [b|e]] eqn:Em.
  - eapply Hk; [exact H|]. exact (Hm _ _ _ _ Em Hw).
  - injection H as <- <-. exact (Hm _ _ _ _ Em Hw).
Qed.
Lemma hoare_attempt {E E' B} (P : assertion) (m : M W E B) Q F (F' : E' -> assertion) :
  hoare I P m Q F -> hoare I P (attempt m) (fun r => match r with inl b => Q b | inr e => F e end) F'.
Proof.
  intros Hm h w w' r H Hw. unfold attempt in H. destruct (m w) as [w1 r1] eqn:Em. injection H as <- <-. exact (Hm _ _ _ _ Em Hw).
Qed.
Lemma hoare_modify (P : assertion) (f : W -> W) Q F :
  (forall w, w_docs (f w) = w_docs w /\ w_x (f w) = w_x w /\ w_faults (f w) = w_faults w /\ w_history (f w) = w_history w) ->
  (forall w, P (w_docs w) (w_x w) (w_vars w) -> Q tt (w_docs w) (w_x w) (w_vars (f w))) -> hoare I P (modify f) Q F.
Proof.
  intros Hf H h w w' r [= <- <-] (H1 & H2 & H3). destruct (Hf w) as (E1 & E2 & E3 & E4).
  unfold at_point. rewrite E1, E2, E3, E4. split_and!; auto.
Qed.
Lemma hoare_if {E B} (P : assertion) (b : bool) (m k : M W E B) Q F :
  (b = true -> hoare I P m Q F) -> (b = false -> hoare I P k Q F) -> hoare I P (if b then m else k) Q F.
Proof. destruct b; auto. Qed.

(** A fact about no state can be assumed. *)
Lemma hoare_assume {E B} (P : assertion) (H : Prop) (m : M W E B) Q F :
  (H -> hoare I P m Q F) -> hoare I (fun D x v => P D x v /\ H) m Q F.
Proof.
  intros Hm h w w' r Er (H1 & H2 & H3 & H4). apply (Hm H4 h w w' r Er). by split_and!.
Qed.
(** A program that first looks at its state. *)
Lemma hoare_state {E B} (P : assertion) (m : W -> M W E B) Q F :
  (forall w0, hoare I P (m w0) Q F) -> hoare I P (fun w => m w w) Q F.
Proof. intros H h w w' r Er Hw. exact (H w h w w' r Er Hw). Qed.
Lemma hoare_status {B} (P R : assertion) code (m : M W goerr B) Q :
  hoare I P m Q (fun _ => R) -> hoare I P (status code m) Q (fun _ => R).
Proof.
  intros H h w w' r E Hw. unfold status in E. destruct (m w) as [w1 [b|e]] eqn:Em; injection E as <- <-; exact (H _ _ _ _ Em Hw).
Qed.
Lemma hoare_toErr (m : M W goerr unit) (P Q F : assertion) :
  hoare I P m (fun _ => Q) (fun _ => F) -> triple I P (toErr m) (fun e => match e with None => Q | Some _ => F end).
Proof.
  intros H h w w' e Er Hw. unfold toErr in Er. destruct (m w) as [w1 [u|e1]] eqn:Em; injection Er as <- <-; exact (H _ _ _ _ Em Hw).
Qed.
(** A program that branches on its variables. *)
Lemma hoare_test {E B} (f : @vars Rc -> bool) (P : assertion) (m k : M W E B) Q F :
  hoare I (fun D x v => P D x v /\ f v = true) m Q F -> hoare I (fun D x v => P D x v /\ f v = false) k Q F ->
  hoare I P (fun w => if f (w_vars w) then m w else k w) Q F.
Proof.
  intros Hm Hk h w w' r Er (H1 & H2 & H3). destruct (f (w_vars w)) eqn:Ef; [eapply Hm|eapply Hk]; try exact Er; by split_and!.
Qed.
(** A step that changes flags or variables only. *)
Lemma hoare_step (P : assertion) (f : W -> W) Q (F : applyError -> assertion) :
  (forall w, w_docs (f w) = w_docs w /\ w_x (f w) = w_x w /\ w_faults (f w) = w_faults w /\ w_history (f w) = w_history w) ->
  (forall w, P (w_docs w) (w_x w) (w_vars w) -> Q tt (w_docs w) (w_x w) (w_vars (f w))) -> hoare I P (step f) Q F.
Proof.
  intros Hf H h w w' r [= <- <-] (H1 & H2 & H3). destruct (Hf w) as (E1 & E2 & E3 & E4).
  unfold at_point. rewrite E1, E2, E3, E4. split_and!; auto.
Qed.

Lemma rereadable_tail l : rereadable l = true -> rereadable (tail l) = true.
Proof. destruct l as [|[] l]; simpl; try done. by intros [_ ?]%andb_true_iff. Qed.

Lemma hoare_tick (P : assertion) F : hoare I P tick (fun _ => P) F.
Proof.
  intros h w w' r H (H1 & H2 & H3). unfold tick in H. cbn in H. injection H as <- <-.
  split_and!; [by apply rereadable_tail|done|done].
Qed.

(** A fact that the program tests at its state. *)
Lemma hoare_read name (P : assertion) (Q : option obj -> assertion) (F : goerr -> assertion) :
  (forall D x v, P D x v -> match D !! name with
     | None => Q None D x v | Some (Document o) => Q (Some o) D x v | Some Damaged => True end) ->
  (forall D x v, P D x v -> F Plain D x v) -> hoare I P (readJSON name) Q F.
Proof.
  intros HQ HF. eapply hoare_bind; [apply hoare_tick|]. intros []; try by apply hoare_fail.
  intros h w w' r H Hw. cbn [docs world_disk] in H. pose proof (HQ (w_docs w) (w_x w) (w_vars w) (proj2 (proj2 Hw))) as Hq.
  destruct (w_docs w !! name) as [[o|]|] eqn:E; injection H as <- <-.
  - destruct Hw as (? & ? & ?). by split_and!.
  - by eapply at_weaken.
  - destruct Hw as (? & ? & ?). by split_and!.
Qed.

Lemma hoare_put name o (P : assertion) Q F :
  (forall D x v, P D x v -> I (<[name:=Document o]> D) x /\ Q tt (<[name:=Document o]> D) x v) -> hoare I P (put name o) Q F.
Proof.
  intros H h w w' r [= <- <-] (H1 & (new & E & Hn) & H3). destruct (H _ _ _ H3) as [Hi Hq]. split_and!; [done| |done].
  exists (new ++ [(<[name:=Document o]> (w_docs w), w_x w)]). cbn. rewrite E, app_assoc. split; [done|].
  apply Forall_app. split; [done|]. by constructor.
Qed.
Lemma hoare_write name o (P : assertion) (Q : unit -> assertion) (F : goerr -> assertion) :
  (forall D x v, P D x v -> F Plain D x v) ->
  (forall D x v, P D x v -> I (<[name:=Document o]> D) x /\ Q tt (<[name:=Document o]> D) x v /\ F Plain (<[name:=Document o]> D) x v) ->
  hoare I P (writeJSON name o) Q F.
Proof.
  intros HF HQ. eapply hoare_bind; [apply hoare_tick|]. intros [].
  - apply hoare_put. intros D x v Hp. destruct (HQ _ _ _ Hp) as (? & ? & ?). done.
  - by apply hoare_fail.
  - eapply hoare_bind; [apply hoare_put with (Q := fun _ => F Plain)|intros ?; by apply hoare_fail].
    intros D x v Hp. destruct (HQ _ _ _ Hp) as (? & ? & ?). done.
Qed.

(** A write whose error the program looks into: behind one that failed late,
    the next operation is fine. *)
Lemma hoare_write_then {E B} name o (P P' : assertion) (k : unit + goerr -> M W E B) Q F :
  (forall D x v, P D x v -> I (<[name:=Document o]> D) x /\ P' (<[name:=Document o]> D) x v) ->
  hoare I P' (k (inl tt)) Q F -> hoare I P (k (inr Plain)) Q F ->
  (forall h w w' r, default Fine (head (w_faults w)) = Fine -> k (inr Plain) w = (w', r) -> at_point I h P' w ->
     at_point I h (match r with inl b => Q b | inr e => F e end) w') ->
  hoare I P (let* r := attempt (writeJSON name o) in k r) Q F.
Proof.
  intros HP Hfine Hearly Hlate h w w' r H (H1 & (new & Eh & Hn) & H3). destruct (HP _ _ _ H3) as [Hi Hp'].
  assert (Hput : forall w1, w_docs w1 = <[name:=Document o]> (w_docs w) -> w_x w1 = w_x w -> w_vars w1 = w_vars w ->
    w_faults w1 = tail (w_faults w) -> w_history w1 = w_history w ++ [(<[name:=Document o]> (w_docs w), w_x w)] -> at_point I h P' w1).
  { intros w1 E1 E2 E3 E4 E5. unfold at_point. rewrite E1, E2, E3, E4, E5, Eh. split_and!; [by apply rereadable_tail| |done].
    exists (new ++ [(<[name:=Document o]> (w_docs w), w_x w)]). rewrite app_assoc. split; [done|]. apply Forall_app. split; [done|]. by constructor. }
  unfold bind, attempt, writeJSON, tick, bind in H. cbn [nextFault world_disk] in H.
  destruct (w_faults w) as [|[] l] eqn:Ef; cbn in H.
  - eapply Hfine; [exact H|]. by apply Hput.
  - eapply Hfine; [exact H|]. by apply Hput.
  - eapply Hearly; [exact H|]. split_and!; [done|by exists new|done].
  - eapply Hlate; [|exact H|by apply Hput]. cbn. cbn in H1. apply andb_true_iff in H1 as [H1 _]. by destruct l as [|[]].
Qed.

Lemma triple_outside {B} (f : X -> X * B) (P : assertion) (Q : B -> assertion) :
  (forall D x v x' b, P D x v -> f x = (x', b) -> I D x' /\ Q b D x' v) -> triple I P (outside f) Q.
Proof.
  intros H h w w' b E (H1 & (new & Eh & Hn) & H3). unfold outside in E. destruct (f (w_x w)) as [x' b'] eqn:Ef.
  injection E as <- <-. destruct (H _ _ _ _ _ H3 Ef) as [Hi Hq]. split_and!; [done| |done].
  exists (new ++ [(w_docs w, x')]). cbn. rewrite Eh, app_assoc. split; [done|]. apply Forall_app. split; [done|]. by constructor.
Qed.
Lemma hoare_call (f : X -> X * err) (P : assertion) (Q : unit -> assertion) (F : goerr -> assertion) :
  (forall D x v x' e, P D x v -> f x = (x', e) -> I D x' /\ match e with None => Q tt D x' v | Some e => F e D x' v end) ->
  hoare I P (call f) Q F.
Proof.
  intros H h w w' r E Hw. unfold call, ofErr in E. destruct (outside f w) as [w1 e] eqn:Eo.
  pose proof (triple_outside f P (fun e => match e with None => Q tt | Some e => F e end)) as Ht.
  assert (Hw1 : at_point I h (match e with None => Q tt | Some e => F e end) w1).
  { eapply Ht; [|exact Eo|exact Hw]. intros D x v x' b Hp Ef. destruct (H _ _ _ _ _ Hp Ef) as [? ?]. destruct b; done. }
  destruct e; injection E as <- <-; done.
Qed.
Lemma hoare_callv {B} (f : X -> X * (B + goerr)) (P : assertion) (Q : B -> assertion) (F : goerr -> assertion) :
  (forall D x v x' r, P D x v -> f x = (x', r) -> I D x' /\ match r with inl b => Q b D x' v | inr e => F e D x' v end) ->
  hoare I P (callv f) Q F.
Proof. intros H. apply triple_outside. intros D x v x' r Hp Ef. destruct (H _ _ _ _ _ Hp Ef). by destruct r. Qed.
End Rules.

(** ** Operations that keep what an assertion is about *)

Definition maintains {E B} (I : documents -> X -> Prop) (P : assertion) (m : M W E B) : Prop := hoare I P m (fun _ => P) (fun _ => P).

Section Maintains.
Context (I : documents -> X -> Prop) (P : assertion).

Lemma maintains_bind {E B B'} (m : M W E B) (k : B -> M W E B') :
  maintains I P m -> (forall b, maintains I P (k b)) -> maintains I P (bind m k).
Proof. intros Hm Hk. by eapply hoare_bind. Qed.
Lemma maintains_ret {E B} (b : B) : maintains I P (ret (E:=E) b).
Proof. by apply hoare_ret. Qed.
Lemma maintains_fail {E B} (e : E) : maintains I P (fail (A:=B) e).
Proof. by apply hoare_fail. Qed.
(** An error as a value is none, and a change of the variables has none. *)
Lemma hoare_try {E E' B} (m : M W E B) (F : E' -> assertion) : maintains I P m -> hoare I P (attempt m) (fun _ => P) F.
Proof. intros Hm. eapply hoare_weaken; [by eapply (hoare_attempt _ _ m _ _ F)|done| |done]. by intros []. Qed.
Lemma maintains_attempt {E E' B} (m : M W E B) : maintains I P m -> maintains I P (attempt (E':=E') m).
Proof. apply hoare_try. Qed.
Lemma hoare_modified (f : W -> W) (F : goerr -> assertion) : maintains I P (modify f) -> hoare I P (modify f) (fun _ => P) F.
Proof. intros Hm h w w' r Er Hw. pose proof (Hm h w w' r Er Hw). by injection Er as <- <-. Qed.
Lemma maintains_if {E B} (b : bool) (m k : M W E B) : maintains I P m -> maintains I P k -> maintains I P (if b then m else k).
Proof. by destruct b. Qed.
Lemma maintains_status {B} code (m : M W goerr B) : maintains I P m -> maintains I P (status code m).
Proof. apply hoare_status. Qed.
Lemma maintains_read name : maintains I P (readJSON name).
Proof. apply hoare_read; [|done]. intros D x v H. by destruct (D !! name) as [[]|]. Qed.
Lemma maintains_auxiliary name : maintains I P (auxiliary name).
Proof.
  unfold auxiliary. destruct (negb _); [apply maintains_fail|]. apply maintains_bind; [apply maintains_read|intros ?; apply maintains_ret].
Qed.
Lemma maintains_metadata : maintains I P metadata.
Proof. apply maintains_bind; [apply maintains_read|intros ?; apply maintains_ret]. Qed.
Lemma maintains_activeRevision : maintains I P activeRevision.
Proof.
  apply maintains_bind; [apply maintains_read|]. intros [q|]; [|apply maintains_ret]. unfold pointerRevision.
  destruct (_ && _); [apply maintains_fail|apply maintains_ret].
Qed.
Lemma maintains_loadGeneration revisionFor r : maintains I P (loadGeneration revisionFor r).
Proof.
  unfold loadGeneration. destruct (negb _); [apply maintains_fail|]. apply maintains_bind; [apply maintains_read|].
  intros [g|]; [|apply maintains_fail]. case_bool_decide; [apply maintains_ret|apply maintains_fail].
Qed.
Lemma maintains_nodes r fallback : maintains I P (routerOSNodesForRevision (X:=X) (Rc:=Rc) r fallback).
Proof.
  unfold routerOSNodesForRevision. destruct r as [|b r]; [apply maintains_ret|].
  apply maintains_bind; [apply maintains_attempt, maintains_metadata|]. intros meta. cbv zeta.
  destruct (_ && _); (apply maintains_bind; [apply maintains_attempt, maintains_auxiliary|intros ?; apply maintains_ret]).
Qed.
Lemma maintains_rendered o : maintains I P (rendered (X:=X) (Rc:=Rc) o).
Proof. destruct o; [apply maintains_ret|apply maintains_fail]. Qed.
End Maintains.

Definition steady (R : X -> X -> Prop) (I : documents -> X -> Prop) (P : assertion) : Prop :=
  (forall D x x' v, R x x' -> P D x v -> P D x' v) /\ (forall D x v, P D x v -> I D x).

Section Steady.
Context (R : X -> X -> Prop) (I : documents -> X -> Prop) (P : assertion) (HP : steady R I P).

Lemma outside_steady {B} (f : X -> X * B) : keeps R f -> triple I P (outside f) (fun _ => P).
Proof using HP.
  intros Hf. apply triple_outside. intros D x v x' b Hp E. assert (Hp' : P D x' v).
  { eapply (proj1 HP); [|exact Hp]. specialize (Hf x). by rewrite E in Hf. }
  split; [by eapply (proj2 HP)|done].
Qed.
Lemma call_steady f : keeps R f -> hoare I P (call f) (fun _ => P) (fun _ => P).
Proof using HP.
  intros Hf h w w' r E Hw. unfold call, ofErr in E. destruct (outside f w) as [w1 e] eqn:Eo.
  pose proof (outside_steady f Hf _ _ _ _ Eo Hw). by destruct e; injection E as <- <-.
Qed.
Lemma callv_steady {B} (f : X -> X * (B + goerr)) : keeps R f -> hoare I P (callv f) (fun _ => P) (fun _ => P).
Proof using HP. intros Hf h w w' r E Hw. pose proof (outside_steady f Hf _ _ _ _ E Hw). by destruct r. Qed.
Lemma modify_outside f F : (forall x, R x (f x)) -> hoare I P (modify (outside_ f)) (fun _ => P) F.
Proof using HP.
  intros Hf h w w' r [= <- <-] Hw.
  refine (outside_steady (fun x => (f x, tt)) _ h w _ tt _ Hw); [intros x; apply Hf|done].
Qed.
Lemma step_outside f F : (forall x, R x (f x)) -> hoare I P (step (outside_ f)) (fun _ => P) F.
Proof using HP.
  intros Hf h w w' r [= <- <-] Hw. exact (modify_outside f (fun _ => P) Hf h w _ (inl tt) eq_refl Hw).
Qed.
Lemma modify_same F : hoare I P (modify (fun w => w)) (fun _ => P) F.
Proof. by intros h w w' r [= <- <-] Hw. Qed.
End Steady.

(** ** A transaction and its callbacks *)

Section Transaction.
Context `{!GuardLaws X S, !ConsoleLaws X S, !ControlLaws X S C Rc A}.
Context (I : documents -> X -> Prop) (h : list (documents * X)).
(** [P] holds until a callback fails, [P1] once the health check passed, [P2]
    once the finalization passed, [PF] once a callback failed. *)
Context (P P1 P2 PF : assertion).
Context (HP : steady runtime_kept I P) (HP1 : steady runtime_kept I P1) (HP2 : steady runtime_kept I P2) (HPF : steady runtime_kept I PF).
Context (Hsub : forall D x v, P1 D x v -> P D x v).
Context (options : TransactionOptions W) (check : W -> W * err) (Hcheck : HealthCheck options = Some check).
Context (finalize : W -> W * err) (Hfinalize : Finalize options = Some finalize).
Context (health_ok : triple I P check (fun e => match e with None => P1 | Some _ => PF end)).
Context (before_ok : forall f, BeforeApply options = Some f -> triple I P f (fun e => match e with None => P | Some _ => PF end)).
Context (finalize_ok : triple I P1 finalize (fun e => match e with None => P2 | Some _ => PF end)).

Local Abbreviation at_ Q := (at_point I h Q).
(** How a transaction that began with [P] may end. *)
Definition ends (w : W) (e : err) : Prop := match e with None => at_ P2 w | Some _ => at_ P w \/ at_ PF w end.

Lemma router_quiet {B} (Q : assertion) (f : X -> X * B) (w w' : W) b :
  steady runtime_kept I Q -> keeps runtime_kept f -> outside f w = (w', b) -> at_ Q w -> at_ Q w'.
Proof. intros HQ Hf E Hw. exact (outside_steady _ _ _ HQ f Hf h w w' b E Hw). Qed.

Lemma removeImports_quiet (Q : assertion) l (w w' : W) e :
  steady runtime_kept I Q -> removeImports (S:=S) l w = (w', e) -> at_ Q w -> at_ Q w'.
Proof using ControlLaws0.
  intros HQ H Hw. unfold removeImports in H. destruct l; [by simplify_eq|].
  eapply router_quiet; [exact HQ|apply (cleanup_runtime (S:=S))|exact H|exact Hw].
Qed.
(** The state behind a router operation of equation [E]. *)
Ltac quiet HQ law E :=
  match type of E with _ = (?w', _) =>
    match goal with Hw : at_point _ _ ?Q _ |- _ =>
      let Hn := fresh "Hw" in pose proof (router_quiet Q _ _ _ _ HQ law E Hw) as Hn; clear Hw end end.

Lemma rollbackCommitted_quiet (Q : assertion) n s l t (w w' : W) e :
  steady runtime_kept I Q -> rollbackCommitted (S:=S) n s l t w = (w', e) -> at_ Q w -> at_ Q w'.
Proof using ControlLaws0.
  intros HQ H Hw. unfold rollbackCommitted in H.
  destruct (runScript n w) as [w1 [e1|]] eqn:E1; quiet HQ (run_runtime (S:=S) n) E1; [by simplify_eq|].
  destruct (WaitSafeModeSettled t w1) as [w2 [e2|]] eqn:E2; quiet HQ (wait_runtime (S:=S) t) E2; [by simplify_eq|].
  destruct (DisarmRollback s w2) as [w3 [e3|]] eqn:E3; quiet HQ (disarm_runtime (S:=S) s) E3; [by simplify_eq|].
  by eapply removeImports_quiet.
Qed.
Lemma restoreWhile_quiet (Q : assertion) n t (w w' : W) e :
  steady runtime_kept I Q -> restoreWhileGuardArmed (S:=S) n t w = (w', e) -> at_ Q w -> at_ Q w'.
Proof using ControlLaws0.
  intros HQ H Hw. unfold restoreWhileGuardArmed in H.
  destruct (runScript n w) as [w1 [e1|]] eqn:E1; quiet HQ (run_runtime (S:=S) n) E1; [by simplify_eq|].
  by quiet HQ (wait_runtime (S:=S) t) H.
Qed.
Lemma restoreAfter_quiet (Q : assertion) n l t (w w' : W) e :
  steady runtime_kept I Q -> restoreAfterGuardDisarmed (S:=S) n l t w = (w', e) -> at_ Q w -> at_ Q w'.
Proof using ControlLaws0.
  intros HQ H Hw. unfold restoreAfterGuardDisarmed in H.
  destruct (runScript n w) as [w1 [e1|]] eqn:E1; quiet HQ (run_runtime (S:=S) n) E1; [by simplify_eq|].
  destruct (WaitSafeModeSettled t w1) as [w2 [e2|]] eqn:E2; quiet HQ (wait_runtime (S:=S) t) E2; [by simplify_eq|].
  by eapply removeImports_quiet.
Qed.
Lemma cleanupAfterAbort_quiet (Q : assertion) sch n session t l (w w' : W) e :
  steady runtime_kept I Q -> cleanupAfterAbort (S:=S) sch n session t l w = (w', e) -> at_ Q w -> at_ Q w'.
Proof using ControlLaws0.
  intros HQ H Hw. unfold cleanupAfterAbort in H.
  destruct (Abort session w) as [w1 e1] eqn:E1. quiet HQ (abort_runtime (S:=S) session) E1.
  destruct (if HistoryCapReached session then runScript n w1 else (w1, None)) as [w2 e2] eqn:E2.
  assert (Hw2 : at_ Q w2).
  { destruct (HistoryCapReached session); [|by simplify_eq]. by quiet HQ (run_runtime (S:=S) n) E2. }
  clear Hw0. destruct (WaitSafeModeSettled t w2) as [w3 [e3|]] eqn:E3; quiet HQ (wait_runtime (S:=S) t) E3; [by simplify_eq|].
  destruct (join [e1; e2]); [by simplify_eq|].
  destruct (DisarmRollback sch w3) as [w4 [e4|]] eqn:E4; quiet HQ (disarm_runtime (S:=S) sch) E4; [by simplify_eq|].
  by eapply removeImports_quiet.
Qed.
Lemma cleanupUnarmed_quiet (Q : assertion) l (w w' : W) e :
  steady runtime_kept I Q -> cleanupUnarmedImports (S:=S) l w = (w', e) -> at_ Q w -> at_ Q w'.
Proof using ControlLaws0.
  intros HQ H Hw. unfold cleanupUnarmedImports in H.
  destruct (ensureNoPendingRollbackGuard w) as [w1 [e1|]] eqn:E1; quiet HQ (ensure_runtime (S:=S)) E1; [by simplify_eq|].
  by quiet HQ (cleanup_runtime (S:=S) l) H.
Qed.

Lemma at_sub w : at_ P1 w -> at_ P w.
Proof using Hsub. intros H. by eapply at_weaken. Qed.

Lemma conclude_ends result sch o l (w w' : W) result' e :
  Finalize o = Some finalize -> at_ P1 w -> conclude (S:=S) result sch o l w = (w', result', e) -> ends w' e.
Proof using All.
  intros Ho Hw H. unfold conclude, callback in H. rewrite Ho in H.
  destruct (DisarmRollback sch w) as [w1 [e1|]] eqn:E1; quiet HP1 (disarm_runtime (S:=S) sch) E1.
  { destruct (restoreWhileGuardArmed _ _ w1) as [w2 e2] eqn:E2. injection H as <- _ <-.
    left. apply at_sub. by eapply restoreWhile_quiet. }
  destruct (finalize w1) as [w2 [e2|]] eqn:E2; pose proof (finalize_ok _ _ _ _ E2 Hw0) as Hw2; simpl in Hw2.
  - destruct (restoreAfterGuardDisarmed _ _ _ w2) as [w3 e3] eqn:E3. injection H as <- _ <-.
    right. by eapply restoreAfter_quiet.
  - destruct (removeImports l w2) as [w3 e3] eqn:E3. injection H as <- _ <-. by eapply removeImports_quiet.
Qed.

Lemma rollbackPrepared_ends n sch l t (w w' : W) e Q :
  Q = P \/ Q = PF -> at_ Q w -> rollbackCommitted (S:=S) n sch l t w = (w', e) -> at_ P w' \/ at_ PF w'.
Proof using All.
  intros [-> | ->] Hw H; [left|right]; by eapply rollbackCommitted_quiet.
Qed.

Lemma scheduler_ends result sch o l (w w' : W) result' e :
  Finalize o = Some finalize -> at_ P w ->
  applyWithSchedulerGuard (S:=S) check result sch o l w = (w', result', e) -> ends w' e.
Proof using All.
  intros Ho Hw H. unfold applyWithSchedulerGuard, rollbackPrepared in H.
  destruct (runScript (ApplyScript result) w) as [w1 [e1|]] eqn:E1; quiet HP (run_runtime (S:=S) (ApplyScript result)) E1.
  { destruct (rollbackCommitted _ _ _ _ w1) as [w2 e2] eqn:E2. injection H as <- _ <-. eapply rollbackPrepared_ends; [by left|exact Hw0|exact E2]. }
  destruct (check w1) as [w2 [e2|]] eqn:E2; pose proof (health_ok _ _ _ _ E2 Hw0) as Hw2; simpl in Hw2.
  - destruct (rollbackCommitted _ _ _ _ w2) as [w3 e3] eqn:E3. injection H as <- _ <-. eapply rollbackPrepared_ends; [by right|exact Hw2|exact E3].
  - by eapply conclude_ends.
Qed.

Lemma prepared_ends result sch o l (w w' : W) result' e :
  Finalize o = Some finalize -> BeforeApply o = BeforeApply options -> at_ P w ->
  applyPrepared (S:=S) check result sch o l w = (w', result', e) -> ends w' e.
Proof using All.
  intros Ho Hb Hw H. unfold applyPrepared, rollbackPrepared in H. rewrite Hb in H.
  destruct (callback (BeforeApply options) w) as [w1 e1] eqn:E1.
  assert (Hw1 : at_ (match e1 with None => P | Some _ => PF end) w1).
  { unfold callback in E1. destruct (BeforeApply options) as [f|] eqn:Ef; [|by simplify_eq]. exact (before_ok f eq_refl _ _ _ _ E1 Hw). }
  clear Hw. destruct e1 as [e1|].
  { destruct (rollbackCommitted _ _ _ _ w1) as [w2 e2] eqn:E2. injection H as <- _ <-. eapply rollbackPrepared_ends; [by right|exact Hw1|exact E2]. }
  destruct (SchedulerGuardOnly o); [by eapply scheduler_ends|].
  destruct (beginSafeMode (ApplyScript result) w1) as [w2 [session|e2]] eqn:E2; quiet HP (begin_runtime (S:=S) (ApplyScript result)) E2.
  2: { destruct (WaitSafeModeSettled _ w2) as [w3 [e3|]] eqn:E3; quiet HP (wait_runtime (S:=S) (SettleTimeout o)) E3; [|by eapply scheduler_ends].
       injection H as <- _ <-. by left. }
  destruct (check w2) as [w3 [e3|]] eqn:E3; pose proof (health_ok _ _ _ _ E3 Hw) as Hw3; simpl in Hw3; clear Hw.
  { cbv zeta in H. simpl in H. destruct (cleanupAfterAbort _ _ _ _ _ w3) as [w4 e4] eqn:E4. injection H as <- _ <-. right. by eapply cleanupAfterAbort_quiet. }
  destruct (Commit session _ w3) as [w4 [e4|]] eqn:E4; quiet HP1 (commit_runtime (S:=S) session (SettleTimeout o)) E4.
  { injection H as <- _ <-. left. by apply at_sub. }
  destruct (WaitSafeModeSettled _ w4) as [w5 [e5|]] eqn:E5; quiet HP1 (wait_runtime (S:=S) (SettleTimeout o)) E5.
  { injection H as <- _ <-. left. by apply at_sub. }
  by eapply conclude_ends.
Qed.

Lemma settled_same : HealthCheck (settled options) = Some check /\ Finalize (settled options) = Some finalize /\
  BeforeApply (settled options) = BeforeApply options.
Proof using Hcheck Hfinalize. unfold settled. by destruct (_ <=? _). Qed.

Lemma candidate_ends src back (w w' : W) result e :
  at_ P w -> ApplyCandidate (S:=S) src back options w = (w', result, e) -> ends w' e.
Proof using All.
  intros Hw H. unfold ApplyCandidate in H. rewrite Hcheck in H. destruct settled_same as (_ & Hf & Hb).
  assert (Hundo : forall l e0 w1 w2 ce r, at_ P w1 -> cleanupUnarmedImports (S:=S) l w1 = (w2, ce) ->
    (w2, r, join [Some e0; ce]) = (w', result, e) -> ends w' e).
  { intros l e0 w1 w2 ce r H1 H2 [= <- _ <-]. destruct ce; simpl; left; by eapply cleanupUnarmed_quiet. }
  destruct (ensureNoPendingRollbackGuard w) as [w1 [e1|]] eqn:E1; quiet HP (ensure_runtime (S:=S)) E1; [simplify_eq; by left|].
  destruct (upload RRollback back w1) as [w2 [f1|e2]] eqn:E2; quiet HP (upload_runtime (S:=S) RRollback back) E2; [|simplify_eq; by left].
  destruct (upload RApply src w2) as [w3 [f2|e3]] eqn:E3; quiet HP (upload_runtime (S:=S) RApply src) E3.
  2: { destruct (cleanupUnarmedImports _ w3) eqn:Eu. by eapply Hundo. }
  destruct (PrepareImportScript RRollback f1 w3) as [w4 [n1|e4]] eqn:E4; quiet HP (import_runtime (S:=S) RRollback f1) E4.
  2: { destruct (cleanupUnarmedImports _ w4) eqn:Eu. by eapply Hundo. }
  destruct (PrepareImportScript RApply f2 w4) as [w5 [n2|e5]] eqn:E5; quiet HP (import_runtime (S:=S) RApply f2) E5.
  2: { destruct (cleanupUnarmedImports _ w5) eqn:Eu. by eapply Hundo. }
  destruct (ArmRollback n1 _ f1 w5) as [w6 [sch|e6]] eqn:E6; quiet HP (arm_runtime (S:=S) n1 (RollbackDelay (settled options)) f1) E6.
  - by eapply prepared_ends.
  - destruct (TransactionFailureStateOf _); [simplify_eq; by left|].
    destruct (cleanupUnarmedImports _ w6) eqn:Eu. by eapply Hundo.
Qed.

Lemma delta_ends src back (w w' : W) result e :
  at_ P w -> ApplyDelta (S:=S) src back options w = (w', result, e) -> ends w' e.
Proof using All.
  intros Hw H. unfold ApplyDelta in H. destruct (_ || _).
  { destruct (validateImportedDelta src); [simplify_eq; by left|].
    destruct (validateImportedDelta back); [simplify_eq; by left|]. by eapply candidate_ends. }
  rewrite Hcheck in H. destruct settled_same as (_ & Hf & Hb).
  destruct (PrepareDirectDelta RRollback back w) as [w1 [n1|e1]] eqn:E1; quiet HP (direct_runtime (S:=S) RRollback back) E1; [|simplify_eq; by left].
  destruct (PrepareDirectDelta RApply src w1) as [w2 [n2|e2]] eqn:E2; quiet HP (direct_runtime (S:=S) RApply src) E2; [|simplify_eq; by left].
  destruct (ArmRollback n1 _ [] w2) as [w3 [sch|e3]] eqn:E3; quiet HP (arm_runtime (S:=S) n1 (RollbackDelay (settled options)) []) E3.
  - by eapply prepared_ends.
  - simplify_eq. by left.
Qed.
End Transaction.

(** ** The router's side of an Apply *)

Section RouterApply.
Context `{!GuardLaws X S, !ConsoleLaws X S, !ControlLaws X S C Rc A}.
Context (I : documents -> X -> Prop) (P P1 P2 PF : assertion).
Context (HP : steady runtime_kept I P) (HP1 : steady runtime_kept I P1) (HP2 : steady runtime_kept I P2) (HPF : steady runtime_kept I PF).
Context (Hsub : forall D x v, P1 D x v -> P D x v) (Hfail : forall D x v, P D x v -> PF D x v).
Context (buildDelta : gostr -> gostr -> option (list gostr * gostr * gostr)) (sharedOrigin : obj -> bool).
Context (health : W -> W * err) (finalize : json -> W -> W * err).
Context (health_ok : triple I P health (fun e => match e with None => P1 | Some _ => PF end)).
Context (finalize_ok : forall reference, triple I P1 (finalize reference) (fun e => match e with None => P2 | Some _ => PF end)).

Lemma kept_runtime {B} (f : X -> X * B) : keeps (both_kept (S:=S)) f -> keeps runtime_kept f.
Proof. intros H x. apply H. Qed.

Lemma checked_ok : triple I P (fun w => match health w with (w, Some e) => (w, Some e) | (w, None) => outside ct_health w end)
    (fun e => match e with None => P1 | Some _ => PF end).
Proof using All.
  intros h w w' e H Hw. destruct (health w) as [w1 [e1|]] eqn:E1; pose proof (health_ok _ _ _ _ E1 Hw) as Hw1; cbn in Hw1.
  - by injection H as <- <-.
  - pose proof (outside_steady _ _ _ HP1 _ (kept_runtime _ (health_kept (S:=S))) _ _ _ _ H Hw1) as Hw2. cbn in Hw2.
    destruct e; [|done]. eapply at_weaken; [exact Hw2|auto].
Qed.

Lemma routerApply_triple cfg desired previous :
  triple I P (runRouterOSApply (S:=S) buildDelta sharedOrigin cfg desired previous health finalize)
    (fun r => match r.2 with None => P2 | Some _ => PF end).
Proof using All.
  intros h w w' r H Hw. unfold runRouterOSApply in H.
  destruct (outside (ct_stack cfg) w) as [w1 e1] eqn:E1.
  pose proof (outside_steady _ _ _ HP _ (kept_runtime _ (stack_kept (S:=S) cfg)) _ _ _ _ E1 Hw) as Hw1. cbn in Hw1.
  destruct e1 as [e1|]; [injection H as <- <-; by eapply at_weaken|].
  destruct (outside ct_schedulerGuard w1) as [w2 e2] eqn:E2.
  pose proof (outside_steady _ _ _ HP _ (kept_runtime _ (schedulerGuard_kept (S:=S))) _ _ _ _ E2 Hw1) as Hw2. cbn in Hw2.
  destruct e2 as [only|e2]; [|injection H as <- <-; by eapply at_weaken].
  destruct (outside ct_backup w2) as [w3 e3] eqn:E3.
  pose proof (outside_steady _ _ _ HP _ (kept_runtime _ (backup_kept (S:=S))) _ _ _ _ E3 Hw2) as Hw3. cbn in Hw3.
  destruct e3 as [reference|e3]; [|injection H as <- <-; by eapply at_weaken].
  set (options := MkOptions _ _ _ _ _ _) in H.
  assert (Hbefore : forall f, BeforeApply options = Some f -> triple I P f (fun e => match e with None => P | Some _ => PF end)).
  { intros f Hf. cbn in Hf. destruct (sharedOrigin cfg); [injection Hf as <-|done].
    eapply triple_weaken; [exact health_ok|done|]. intros [e|] D x v He; auto. }
  assert (Hends : forall w4 result e kind, match buildDelta previous desired with
        | Some (sections, applyScript, rollbackScript) => (ApplyDelta (S:=S) applyScript rollbackScript options w3, KindDelta sections)
        | None => (ApplyCandidate (S:=S) desired previous options w3, KindFull) end = ((w4, result, e), kind) ->
      ends I h P P2 PF w4 e).
  { intros w4 result e kind Ht. destruct (buildDelta previous desired) as [[[sections a] b]|]; injection Ht as Ht _.
    - eapply (delta_ends I h P P1 P2 PF HP HP1 HP2 HPF Hsub options _ eq_refl _ eq_refl checked_ok Hbefore (finalize_ok reference)); done.
    - eapply (candidate_ends I h P P1 P2 PF HP HP1 HP2 HPF Hsub options _ eq_refl _ eq_refl checked_ok Hbefore (finalize_ok reference)); done. }
  destruct (match buildDelta previous desired with Some _ => _ | None => _ end) as [[[w4 result] e] kind] eqn:E4.
  specialize (Hends _ _ _ _ eq_refl). destruct e as [e|]; cbn in Hends.
  - injection H as <- <-. cbn. destruct Hends as [He|He]; [by eapply at_weaken|done].
  - destruct (outside (ct_prune cfg) w4) as [w5 e5] eqn:E5. injection H as <- <-. cbn.
    exact (outside_steady _ _ _ HP2 _ (kept_runtime _ (prune_kept (S:=S) cfg)) _ _ _ _ E5 Hends).
Qed.
End RouterApply.
End Logic.
