(* ===== verification/ApplyActivation.v ===== *)
(** * The journal and the activation of an Apply

    Facts about the documents of an Apply, and the activation of a candidate: a
    program of an Apply that only marks the journal and calls operations that
    keep the runtime keeps every assertion about the runtime ([ok_call] and the
    lemmas behind it), and an activation publishes the candidate or leaves the
    runtime as it was ([activate_hoare]). *)

From S2P Require Import Prelude GoBase GoText GoRegexp RouterTransaction RouterTransactionSafety StateStore ApplyWorld Apply ApplyLogic.
Open Scope Z_scope.
Open Scope store_scope.

(** ** Documents *)

Section Documents.
Context (revisionFor : obj -> gostr).

(** The generation [rev] is there and has its digest. *)
Definition loads (D : documents) (rev : gostr) : Prop :=
  safeRevision rev = true /\ exists g, D !! generationName rev = Some (Document g) /\ revisionFor g = rev.
(** The commit point names the generation [rev]. *)
Definition committed (D : documents) (rev : gostr) : Prop :=
  (exists p, D !! activeName = Some (Document p) /\ stringOf (p !! bs "revision") = rev) /\ loads D rev.
(** The journal says that an Apply is under way. *)
Definition pendingIn (D : documents) : Prop :=
  exists op, D !! auxiliaryName operationName = Some (Document op) /\ isTrue (op !! bs "pending") = true.
Definition generations_kept (D0 D : documents) : Prop :=
  forall r c, D0 !! generationName r = Some c -> D !! generationName r = Some c.

Definition not_generation (name : gostr) : Prop := forall r, name <> generationName r.

Lemma head_ne (a b : gostr) : head a <> head b -> a <> b.
Proof. congruence. Qed.
Lemma not_generation_head name : head name <> Some x67 -> not_generation name.
Proof. intros H r E. apply H. by rewrite E. Qed.
Lemma active_not_generation : not_generation activeName.
Proof. by apply not_generation_head. Qed.
Lemma lkg_not_generation : not_generation lkgName.
Proof. by apply not_generation_head. Qed.
Lemma metadata_not_generation : not_generation metadataName.
Proof. by apply not_generation_head. Qed.
Lemma draft_not_generation : not_generation draftName.
Proof. by apply not_generation_head. Qed.
Lemma operation_not_generation : not_generation (auxiliaryName operationName).
Proof. by apply not_generation_head. Qed.
Lemma nodes_not_generation r : not_generation (auxiliaryName (nodesName r)).
Proof. by apply not_generation_head. Qed.

Lemma generations_write D0 D name c : not_generation name -> generations_kept D0 D -> generations_kept D0 (<[name:=c]> D).
Proof. intros Hn H r c' Hr. rewrite lookup_insert_ne by apply Hn. by apply H. Qed.
Lemma generations_stage D0 D r c : D !! generationName r = None -> generations_kept D0 D -> generations_kept D0 (<[generationName r:=c]> D).
Proof.
  intros Hn H r' c' Hr. pose proof (H _ _ Hr) as Hr'. rewrite lookup_insert_ne; [done|]. intros E. rewrite <- E in Hr'. congruence.
Qed.
Lemma loads_write D name c rev : not_generation name -> loads D rev -> loads (<[name:=c]> D) rev.
Proof. intros Hn (Hs & g & Hg & Hr). split; [done|]. exists g. by rewrite lookup_insert_ne by apply Hn. Qed.
Lemma committed_write D name c rev : not_generation name -> name <> activeName -> committed D rev -> committed (<[name:=c]> D) rev.
Proof.
  intros Hn Hna [(p & Hp & Hr) Hl]. split; [|by apply loads_write]. exists p. by rewrite lookup_insert_ne.
Qed.
Lemma pending_write D name c : name <> auxiliaryName operationName -> pendingIn D -> pendingIn (<[name:=c]> D).
Proof. intros Hn (op & Ho & Hp). exists op. by rewrite lookup_insert_ne. Qed.
Lemma pending_journal D o : isTrue (o !! bs "pending") = true -> pendingIn (<[auxiliaryName operationName:=Document o]> D).
Proof. intros H. exists o. by rewrite lookup_insert_eq. Qed.

Lemma operation_not_active : auxiliaryName operationName <> activeName.
Proof. vm_compute. discriminate. Qed.
Lemma lkg_names : lkgName <> activeName /\ lkgName <> auxiliaryName operationName.
Proof. vm_compute. split; discriminate. Qed.
Lemma metadata_names : metadataName <> activeName /\ metadataName <> auxiliaryName operationName.
Proof. vm_compute. split; discriminate. Qed.
Lemma draft_names : draftName <> activeName /\ draftName <> auxiliaryName operationName.
Proof. vm_compute. split; discriminate. Qed.
Lemma nodes_names r : auxiliaryName (nodesName r) <> activeName /\ auxiliaryName (nodesName r) <> auxiliaryName operationName.
Proof. split; apply head_ne; discriminate. Qed.
Lemma generation_names r : generationName r <> activeName /\ generationName r <> auxiliaryName operationName.
Proof. split; apply head_ne; discriminate. Qed.
Lemma operation_safe : safeAuxiliaryName operationName = true.
Proof. reflexivity. Qed.
End Documents.
Create HintDb apply.
#[export] Hint Resolve active_not_generation lkg_not_generation metadata_not_generation draft_not_generation
  operation_not_generation nodes_not_generation : apply.

Section Activation.
Context {X S C Rc A : Type} `{!GuardOps X, !ConsoleOps X S, !TransactionView X S, !RuntimeOps X C Rc, !ControlOps X, !RuntimeView X C Rc A}.
Context `{!RuntimeLaws X S C Rc A, !ControlLaws X S C Rc A}.
Context (now : gostr).
Local Abbreviation W := (@world X Rc).
Local Abbreviation both_kept := (both_kept (S:=S) (C:=C) (Rc:=Rc) (A:=A)).
Local Abbreviation runtime_kept := (runtime_kept (C:=C) (Rc:=Rc) (A:=A)).
Local Abbreviation live := (live (C:=C) (Rc:=Rc) (A:=A)).
Local Abbreviation artifacts := (artifacts (X:=X) (Rc:=Rc) (A:=A)).
Local Abbreviation restores := (restores (X:=X) (C:=C) (A:=A)).
Local Abbreviation damaged := (damaged (C:=C) (Rc:=Rc) (A:=A)).

(** ** Stages of a run *)

(** Documents that satisfy the crash invariant and allow the journal to be marked. *)
Definition stage (I : documents -> X -> Prop) (d : documents -> Prop) : Prop :=
  (forall D x, d D -> I D x) /\
  (forall D (o : obj), isTrue (o !! bs "pending") = true -> d D -> d (<[auxiliaryName operationName:=Document o]> D)).
Definition over (d : documents -> Prop) (Psi : X -> @vars Rc -> Prop) : assertion := fun D x v => d D /\ Psi x v.

(** What a callback may rely on: the runtime stays, whatever else happens. *)
Definition lasting (Psi : X -> @vars Rc -> Prop) : Prop := forall x x' v, runtime_kept x x' -> Psi x v -> Psi x' v.
Definition anyFailOpen (Psi : X -> @vars Rc -> Prop) : Prop :=
  forall x v, Psi x v -> Psi x (Vars (receipt v) (activated v) true (stateCommitted v) (runtimeCleanupPending v) (runtimeCommitErr v) (runtimeReady v) (backup v)).

Lemma over_steady I d Psi : stage I d -> lasting Psi -> steady runtime_kept I (over d Psi).
Proof.
  intros Hd HP. split; [intros D x x' v Hk [? ?]; split; [done|by eapply HP]|]. intros D x v [? _]. by apply Hd.
Qed.
Lemma keeps_runtime {B} (f : X -> X * B) : keeps both_kept f -> keeps runtime_kept f.
Proof. intros H x. apply H. Qed.

Lemma suffix_ne (a b : gostr) c d : c <> d -> a ++ [c] <> b ++ [d].
Proof. intros H E. apply H. by apply app_inj_2 in E as [_ [= ?]]. Qed.
Lemma marked_pending (state : gostr) (o : obj) : isTrue (o !! bs "pending") = true ->
  isTrue (<[state ++ bs "_at" := JString now]> (<[bs "state" := JString state]> o) !! bs "pending") = true.
Proof.
  intros H. rewrite !lookup_insert_ne; [done|vm_compute; discriminate|].
  change (bs "_at") with (bs "_a" ++ bs "t"). rewrite app_assoc. change (bs "pending") with (bs "pendin" ++ bs "g").
  apply suffix_ne. discriminate.
Qed.

Section Kept.
Context (I : documents -> X -> Prop) (d : documents -> Prop) (Hd : stage I d) (Psi : X -> @vars Rc -> Prop) (HPsi : lasting Psi).
Local Abbreviation ok m := (maintains I (over d Psi) m).

Lemma ok_call f : keeps both_kept f -> ok (call f).
Proof using Hd HPsi. intros Hf. apply (call_steady _ _ _ (over_steady _ _ _ Hd HPsi)), keeps_runtime, Hf. Qed.
Lemma ok_callv {B} (f : X -> X * (B + goerr)) : keeps both_kept f -> ok (callv f).
Proof using Hd HPsi. intros Hf. apply (callv_steady _ _ _ (over_steady _ _ _ Hd HPsi)), keeps_runtime, Hf. Qed.
Lemma ok_outside f : (forall x, both_kept x (f x)) -> ok (modify (outside_ f)).
Proof using Hd HPsi. intros Hf. apply (modify_outside _ _ _ (over_steady _ _ _ Hd HPsi)). intros x. apply Hf. Qed.
Lemma ok_flags f : (forall w, exists fl, f w = set_flags fl w) -> ok (modify f).
Proof using Type. intros Hf. apply hoare_modify; intros w; destruct (Hf w) as [fl ->]; done. Qed.
Lemma ok_same : ok (modify (fun w => w)).
Proof using Type. by apply hoare_modify. Qed.

Lemma ok_mark state : ok (markApplyRecoveryState now (X:=X) (Rc:=Rc) state).
Proof using Hd.
  unfold markApplyRecoveryState. apply maintains_bind; [apply maintains_auxiliary|]. intros op.
  destruct (isTrue (op !! bs "pending")) eqn:Eo; cbn [negb]; [|apply maintains_ret].
  unfold saveAuxiliary. rewrite operation_safe. cbn [negb]. apply hoare_write; [done|]. intros D x v [H1 H2].
  assert (d (<[auxiliaryName operationName:=Document (<[state ++ bs "_at" := JString now]> (<[bs "state" := JString state]> op))]> D)).
  { apply Hd; [by apply marked_pending|done]. }
  split_and!; [by apply Hd|by split..].
Qed.

Lemma ok_failOpen cfg : anyFailOpen Psi -> ok (call (ct_failOpen cfg) ;; modify setFailOpen).
Proof using Hd HPsi ControlLaws0.
  intros Ha. apply maintains_bind; [apply ok_call, failOpen_kept|]. intros ?. apply hoare_modify; [done|].
  intros w [H1 H2]. split; [done|]. by apply Ha.
Qed.
Lemma ok_hotReadiness : ok (prepareHotPolicyReadiness now).
Proof using Hd.
  apply maintains_bind; [apply ok_flags; by eexists|intros ?].
  apply maintains_bind; [apply ok_mark|intros ?]. apply ok_flags. by eexists.
Qed.
(** The hooks of an Apply. *)
Definition applyHooks (h : @hooks X Rc) : Prop := h = noHooks \/ exists cfg, h = plannedHooks now cfg.

Lemma ok_hooks h : anyFailOpen Psi -> applyHooks h -> ok (runHook (beforeXrayRestart h)) /\ ok (runHook (beforeHotPolicy h)) /\
  forall changed, ok (modify (default (fun _ w => w) (beforePublication h) changed)).
Proof using All.
  intros Ha [-> | [cfg ->]]; cbn; split_and!; try (by intros; apply maintains_ret); try (by intros; apply ok_same).
  - by apply ok_failOpen.
  - apply ok_hotReadiness.
  - intros changed. apply ok_flags. intros w. unfold prepareNativePublication.
    destruct changed; [exists (w_flags w); by destruct w|]. destruct (hotPolicyWithoutCoreRestart _); [exists (w_flags w); by destruct w|by eexists].
Qed.

Lemma ok_guard changed : ok (fun w : W =>
    match restartOrder (w_x w) changed with [] => (w, inl false) | programs => (call (rt_guard programs) ;; ret true) w end).
Proof using Hd HPsi RuntimeLaws0.
  intros h w w' r H Hw. destruct (restartOrder (w_x w) changed) as [|q l]; [by injection H as <- <-|].
  assert (Hm : ok (call (rt_guard (q :: l)) ;; ret true)); [|exact (Hm _ _ _ _ H Hw)].
  apply maintains_bind; [apply ok_call, rtguard_kept|intros ?; apply maintains_ret].
Qed.
Lemma ok_release (taken : bool) : ok (modify (if taken then outside_ rt_release else fun w => w)).
Proof using Hd HPsi RuntimeLaws0. destruct taken; [apply ok_outside, release_kept|apply ok_same]. Qed.

Lemma ok_restart before changed programs : ok before -> ok (restartAndProbe before changed programs).
Proof using Hd HPsi RuntimeLaws0.
  intros Hb. unfold restartAndProbe. destruct programs as [|q programs]; [apply maintains_ret|].
  apply maintains_bind; [destruct (bool_decide _); [apply ok_outside, mark_kept|apply ok_same]|intros ?].
  apply maintains_bind; [by apply maintains_if; [|apply maintains_ret]|intros ?].
  apply maintains_bind; [apply ok_call, restart_kept|intros ?]. apply ok_call, probe_kept.
Qed.
Lemma ok_settle before taken changed : ok before -> ok (settleRuntime before taken changed).
Proof using Hd HPsi RuntimeLaws0.
  intros Hb. unfold settleRuntime.
  apply (hoare_state _ _ (fun w0 => if bool_decide (poolArtifact ∈ changed) then
       let* r := attempt (restartAndProbe before changed (restartOrder (w_x w0) changed)) in
       releaseNow taken ;;
       match r with inr e => fail e | inl _ => call rt_waitHot end
     else releasing taken (restartAndProbe before changed (restartOrder (w_x w0) changed)))).
  intros w0. apply maintains_if.
  - apply maintains_bind; [by apply maintains_attempt, ok_restart|]. intros r.
    apply maintains_bind; [apply ok_release|intros ?]. destruct r; [apply ok_call, waitHot_kept|apply maintains_fail].
  - intros h w w' r H Hw. unfold releasing in H. destruct (restartAndProbe _ _ _ w) as [w1 r1] eqn:E1. injection H as <- <-.
    pose proof (ok_restart before changed _ Hb _ _ _ _ E1 Hw) as Hw1.
    assert (Hw1' : at_point I h (over d Psi) w1) by (by destruct r1).
    pose proof (ok_release taken h w1 _ (inl tt) eq_refl Hw1') as Hr. destruct taken, r1; done.
Qed.
Lemma ok_beforePublishing h c changed : anyFailOpen Psi -> applyHooks h -> ok (beforePublishing h c changed).
Proof using All.
  intros Ha Hh. destruct (ok_hooks h Ha Hh) as (H1 & H2 & H3). unfold beforePublishing.
  apply maintains_bind; [apply ok_call, validate_kept|intros ?]. apply maintains_bind; [apply H3|intros ?].
  apply maintains_bind; [|intros ?].
  - apply maintains_if; [|apply maintains_ret]. apply maintains_bind; [apply ok_call, scope_kept|intros ?].
    by apply maintains_if; [|apply maintains_ret].
  - apply maintains_if; [apply maintains_ret|apply ok_guard].
Qed.
End Kept.

(** ** Activation *)

Section Activate.
Context (I : documents -> X -> Prop) (d : documents -> Prop) (Hd : stage I d) (c : C).
(** [same] is what is known of the runtime before a publication, [undo] of the
    receipt behind it. *)
Context (same : X -> Prop) (undo : Rc -> X -> Prop).
Context (same_kept : forall x x', runtime_kept x x' -> same x -> same x') (same_damaged : forall x, damaged x -> same x).
Context (undo_kept : forall r x x', runtime_kept x x' -> undo r x -> undo r x').
Context (undo_publish : forall r x x', same x -> restores r = live x -> (damaged x -> damaged x') -> undo r x').

Definition fresh (v : @vars Rc) : Prop :=
  activated v = false /\ stateCommitted v = false /\ runtimeCommitErr v = None /\ runtimeReady v = false.
Definition started (x : X) (v : @vars Rc) : Prop := fresh v /\ same x.
Definition published (r : Rc) (x : X) (v : @vars Rc) : Prop := fresh v /\ rt_changed r <> [] /\ live x = artifacts c /\ undo r x.

Lemma started_lasting : lasting started.
Proof using same_kept. intros x x' v Hk [? ?]. split; [done|by eapply same_kept]. Qed.
Lemma published_lasting r : lasting (published r).
Proof using undo_kept.
  intros x x' v Hk (H1 & H2 & H3 & H4). split_and!; [done|done|destruct Hk; congruence|by eapply undo_kept].
Qed.

Lemma publish_hoare changed : changed <> [] ->
  hoare I (over d started) (callv (rt_publish c changed))
    (fun r => over d (published r)) (fun _ => over d started).
Proof using All.
  intros Hn. apply hoare_callv. intros D x v x' r [Hds [Hf Hs]] E. split; [by apply Hd|].
  destruct r as [r|e].
  - destruct (publish_done (S:=S) (A:=A) _ _ _ _ _ E) as (H1 & H2 & H3 & H4). split; [done|]. split_and!; [done|congruence|done|].
    by eapply undo_publish.
  - split; [done|]. split; [done|]. destruct (publish_failed (S:=S) (A:=A) _ _ _ _ _ E) as [Hk|Hk]; [by eapply same_kept|by apply same_damaged].
Qed.

(** What [activateWithHooks] leaves. *)
Definition activation (r : Rc) (e : err) (x : X) (v : @vars Rc) : Prop :=
  published r x v \/ (started x v /\ rt_changed r = [] /\ (e = None -> live x = artifacts c)).

Lemma activate_hoare h : applyHooks h ->
  hoare I (over d started) (activateWithHooks h c)
    (fun '(r, e) => over d (activation r e)) (fun _ _ _ _ => False).
Proof using All.
  intros Hh. unfold activateWithHooks.
  assert (Hnone : forall e, hoare I (over d started) (ret (rt_noReceipt, Some e))
    (fun '(r, e) => over d (activation r e)) (fun (_ : goerr) _ _ _ => False)).
  { intros e. apply hoare_ret. intros D x v [? ?]. split; [done|]. right. split_and!; [done|apply (noReceipt_changed (S:=S) (A:=A))|done]. }
  eapply hoare_bind with (R := fun r D x v => over d started D x v /\ (r = inl [] -> live x = artifacts c)).
  { eapply hoare_weaken; [eapply (hoare_attempt _ _ _ (fun r D x v => over d started D x v /\ (r = [] -> live x = artifacts c)) (fun _ => over d started) (fun _ _ _ _ => False))|done| |done].
    - apply hoare_callv. intros D x v x' r [Hds Hst] E.
      assert (Hst' : started x' v).
      { eapply started_lasting; [|exact Hst]. pose proof (diff_kept (S:=S) (A:=A) c x) as Hk. rewrite E in Hk. apply Hk. }
      split; [by apply Hd|]. destruct r as [l|e]; [|by split]. split; [by split|]. intros ->.
      pose proof (diff_kept (S:=S) (A:=A) c x) as Hk. rewrite E in Hk. destruct Hk as [[Hl _] _]. cbn in Hl. rewrite Hl. by eapply (diff_equal (S:=S)).
    - intros [l|e] D x v H; [|by split]. destruct H as [? H]. split; [done|]. intros [= ->]. auto. }
  intros [[|a l]|e].
  - apply hoare_ret. intros D x v [[? ?] He]. split; [done|]. right. split_and!; [done|apply (noReceipt_changed (S:=S) (A:=A))|intros _; by apply He].
  - eapply hoare_bind with (R := fun _ => over d started).
    { eapply hoare_weaken; [apply (hoare_try _ _ _ (fun _ _ _ _ => False)), ok_beforePublishing; [exact Hd|apply started_lasting|by intros ? ? []|done]|by intros ? ? ? [? _]|done|done]. }
    intros [taken|e]; [|apply Hnone].
    eapply hoare_bind; [eapply hoare_attempt, publish_hoare; done|]. intros [r|e]; cbn.
    + eapply hoare_bind with (R := fun _ => over d (published r)).
      { apply hoare_try, ok_settle; [exact Hd|apply published_lasting|].
        apply ok_hooks; [exact Hd|apply published_lasting|by intros ? ? (? & ? & ? & ?)|done]. }
      intros s. apply hoare_ret. intros D x v [? ?]. split; [done|]. by left.
    + eapply hoare_bind with (R := fun _ => over d started); [|intros ?; apply Hnone].
      apply hoare_modified, ok_release; [exact Hd|apply started_lasting].
  - eapply hoare_weaken; [apply Hnone|by intros ? ? ? [? _]|done|done].
Qed.
End Activate.
End Activation.
