(* ===== verification/ApplySafety.v ===== *)
(** * What an Apply leaves behind

    The crash invariant and the truthfulness of [Apply.applyConfiguration] and of
    the recovery of an interrupted one, for every implementation of the runtime,
    the router and the surroundings that obeys the laws of [ApplyLogic]. *)

From S2P Require Import Prelude GoBase GoText GoRegexp RouterTransaction RouterTransactionSafety StateStore ApplyWorld Apply ApplyLogic ApplyActivation.
Open Scope Z_scope.
Open Scope store_scope.

Section Apply.
Context {X S C Rc A : Type} `{!GuardOps X, !ConsoleOps X S, !TransactionView X S, !RuntimeOps X C Rc, !ControlOps X, !RuntimeView X C Rc A}.
Context `{!GuardLaws X S, !ConsoleLaws X S, !RuntimeLaws X S C Rc A, !ControlLaws X S C Rc A}.
Context (revisionFor : obj -> gostr) (now : gostr).
Context (normalize : obj -> obj) (valid : obj -> bool).
Context (render : obj -> list json -> option gostr) (legacyCleanup : gostr -> gostr -> gostr).
Context (buildDelta : gostr -> gostr -> option (list gostr * gostr * gostr)).
Context (sharedOrigin : obj -> bool) (runtimeSubscriptionNodes : obj -> obj -> list json).

Local Abbreviation W := (@world X Rc).
Local Abbreviation managed_kept := (managed_kept (S:=S)).
Local Abbreviation both_kept := (both_kept (S:=S) (C:=C) (Rc:=Rc) (A:=A)).
Local Abbreviation runtime_kept := (runtime_kept (C:=C) (Rc:=Rc) (A:=A)).

(** ** One run: from the documents [D0] and the outside [x0] with [config] *)

Section Run.
Context (D0 : documents) (x0 : X) (config : obj).
Definition rev : gostr := revisionFor (normalize config).
Definition candidateOf (c : C) : Prop := exists nodes x1 x2, rt_prepare (normalize config) nodes x1 = (x2, inl c).

Definition sameActive (D : documents) : Prop := D !! activeName = D0 !! activeName.
Definition sameRuntime (x : X) : Prop := live (C:=C) (Rc:=Rc) (A:=A) x = live (C:=C) (Rc:=Rc) (A:=A) x0 \/ damaged (C:=C) (Rc:=Rc) (A:=A) x.

(** What every point of a run satisfies: the commit point is the old one or
    names the new generation, which is there; and when the journal is not
    pending, the runtime fits the commit point. *)
Definition crash_ok (D : documents) (x : X) : Prop :=
  generations_kept D0 D /\ (sameActive D \/ committed revisionFor D rev) /\
  (pendingIn D \/ (sameActive D /\ sameRuntime x) \/
   (committed revisionFor D rev /\ exists c, candidateOf c /\ live (C:=C) (Rc:=Rc) (A:=A) x = artifacts (X:=X) (Rc:=Rc) c)).

Lemma sameRuntime_kept x x' : runtime_kept x x' -> sameRuntime x -> sameRuntime x'.
Proof. intros [E D] [H|H]; [left; congruence|right; auto]. Qed.

(** *** Preparation *)

Definition untouchedSoFar : assertion := fun D x v =>
  generations_kept D0 D /\ sameActive D /\ sameRuntime x /\ managed_kept x0 x /\ v = noVars.

Lemma untouched_steady : steady both_kept crash_ok untouchedSoFar.
Proof.
  split.
  - intros D x x' v [Hr Hm] (H1 & H2 & H3 & H4 & H5). split_and!; try done; [by eapply sameRuntime_kept|by eapply managed_kept_trans].
  - intros D x v (H1 & H2 & H3 & _). split_and!; auto.
Qed.
Lemma untouched_write name o :
  not_generation name -> name <> activeName ->
  hoare crash_ok untouchedSoFar (writeJSON name o) (fun _ => untouchedSoFar) (fun _ => untouchedSoFar).
Proof.
  intros Hn Ha. apply hoare_write; [done|]. intros D x v (H1 & H2 & H3 & H4 & H5).
  assert (Hu : untouchedSoFar (<[name:=Document o]> D) x v).
  { split_and!; try done; [by apply generations_write|]. unfold sameActive. by rewrite lookup_insert_ne. }
  split_and!; try done. by eapply (proj2 untouched_steady).
Qed.
Local Abbreviation keepsU m := (maintains crash_ok untouchedSoFar m).

Lemma keepsU_snapshot r nodes : keepsU (saveSubscriptionSnapshot (X:=X) (Rc:=Rc) r nodes).
Proof.
  unfold saveSubscriptionSnapshot, saveAuxiliary. destruct (negb _); [apply maintains_fail|].
  apply untouched_write; [auto with apply|apply nodes_names].
Qed.
Lemma keepsU_planNodes c : keepsU (routerOSPlanNodes runtimeSubscriptionNodes (X:=X) (Rc:=Rc) c).
Proof. apply maintains_bind; [apply maintains_auxiliary|intros ?; apply maintains_ret]. Qed.
Lemma keepsU_stage g : hoare crash_ok untouchedSoFar (stageGeneration revisionFor g)
    (fun r D x v => untouchedSoFar D x v /\ r = revisionFor g) (fun _ => untouchedSoFar).
Proof.
  unfold stageGeneration. eapply hoare_bind; [apply hoare_tick|]. intros []; try by apply hoare_fail.
  intros h w w' r H Hw. cbn [docs world_disk] in H.
  destruct (w_docs w !! generationName (revisionFor g)) as [d|] eqn:Ed.
  { injection H as <- <-. eapply at_weaken; [exact Hw|done]. }
  revert H. intros H. set (n := generationName (revisionFor g)) in *.
  assert (Hs : hoare crash_ok (fun D x v => untouchedSoFar D x v /\ D !! n = None) (writeJSON n g ;; ret (revisionFor g))
    (fun r D x v => untouchedSoFar D x v /\ r = revisionFor g) (fun _ => untouchedSoFar)).
  { eapply hoare_bind with (R := fun _ => untouchedSoFar); [|intros ?; by apply hoare_ret].
    apply hoare_write; [tauto|]. intros D x v [(H1 & H2 & H3 & H4 & H5) Hn].
    assert (Hu : untouchedSoFar (<[n:=Document g]> D) x v).
    { split_and!; try done; [by apply generations_stage|]. unfold sameActive.
      rewrite lookup_insert_ne; [done|apply generation_names]. }
    split_and!; try done. by eapply (proj2 untouched_steady). }
  eapply Hs; [exact H|]. destruct Hw as (? & ? & ?). by split_and!.
Qed.
Lemma keepsU_source c r active committed_ nodes :
  keepsU (previousSource revisionFor render (X:=X) (Rc:=Rc) c r active committed_ nodes).
Proof.
  unfold previousSource. destruct active as [a|].
  - case_bool_decide; [|apply maintains_ret]. apply maintains_bind; [apply maintains_status, maintains_nodes|]. intros ?.
    apply maintains_bind; [apply maintains_status, maintains_rendered|intros ?; apply maintains_ret].
  - apply maintains_bind; [apply maintains_status; eapply hoare_weaken; [apply keepsU_stage|done| |done]; by intros ? ? ? ? [? _]|]. intros ?.
    apply maintains_bind; [apply maintains_status, maintains_rendered|intros ?; apply maintains_ret].
Qed.

(** The plan of a prepared Apply. *)
Definition planOk (p : @plan C) : Prop := pl_staged p = rev /\ candidateOf (pl_candidate p).
Definition prepared : assertion := fun D x v => untouchedSoFar D x v /\ pendingIn D.

Lemma prepare_hoare :
  hoare crash_ok untouchedSoFar
    (prepareApply revisionFor now normalize valid render legacyCleanup runtimeSubscriptionNodes (X:=X) (C:=C) (Rc:=Rc) config)
    (fun r D x v => match r with
       | inl a => untouchedSoFar D x v /\ ap_operation a = bs "unchanged" /\ ap_routerOSChanged a = false
       | inr p => prepared D x v /\ planOk p end)
    (fun _ => untouchedSoFar).
Proof.
  unfold prepareApply. destruct (negb (valid (normalize config))); [by apply hoare_fail|]. cbv zeta.
  eapply hoare_bind; [apply maintains_status, maintains_activeRevision|]. intros active.
  eapply hoare_bind with (R := fun _ => untouchedSoFar).
  { destruct active; [by apply hoare_ret|]. apply maintains_bind; [apply maintains_status, maintains_loadGeneration|intros ?; apply maintains_ret]. }
  intros loaded. eapply hoare_bind; [apply maintains_status, maintains_metadata|]. intros meta.
  eapply hoare_bind; [apply maintains_attempt, (call_steady _ _ _ untouched_steady), catalog_kept|]. intros [_|_]; [|by apply hoare_fail].
  eapply hoare_bind; [apply maintains_status, keepsU_planNodes|]. intros nodes.
  eapply hoare_bind; [apply maintains_status, maintains_nodes|]. intros desiredNodes.
  eapply hoare_bind with (R := fun c D x v => untouchedSoFar D x v /\ candidateOf c).
  { apply hoare_status, hoare_callv. intros D x v x' r Hu E.
    assert (Hu' : untouchedSoFar D x' v).
    { eapply (proj1 untouched_steady); [|exact Hu]. pose proof (prepare_kept (S:=S) (A:=A) (normalize config) desiredNodes x) as Hk. by rewrite E in Hk. }
    split; [by eapply (proj2 untouched_steady)|]. destruct r as [c|e]; [|done]. split; [done|]. by exists desiredNodes, x, x'. }
  intros candidate. apply hoare_assume. intros Hcand.
  eapply hoare_bind; [apply maintains_status, maintains_rendered|]. intros desired.
  eapply hoare_bind; [apply keepsU_source|]. intros [recovery previous].
  destruct (_ && _ && _); [by apply hoare_ret|].
  eapply hoare_bind; [apply hoare_status, keepsU_stage|]. intros staged. apply hoare_assume. intros Hstaged.
  eapply hoare_bind with (R := fun _ => untouchedSoFar).
  { destruct (_ && _); [|by apply hoare_ret]. apply maintains_bind; [apply maintains_status, maintains_nodes|intros ?].
    apply maintains_status, keepsU_snapshot. }
  intros ?. eapply hoare_bind; [apply maintains_status, keepsU_snapshot|]. intros ?.
  eapply hoare_bind with (R := fun _ => untouchedSoFar); [by apply hoare_step|]. intros ?.
  eapply hoare_bind with (R := fun _ => prepared).
  { apply hoare_status. unfold beginApplyRecovery, saveAuxiliary. rewrite operation_safe. cbn [negb].
    apply hoare_write; [done|]. intros D x v (H1 & H2 & H3 & H4 & H5).
    assert (Hu : untouchedSoFar (<[auxiliaryName operationName := Document (journal now active recovery staged
      (legacyCleanup previous desired) desired (rt_revision candidate))]> D) x v).
    { split_and!; try done; [apply generations_write; auto with apply|]. unfold sameActive.
      rewrite lookup_insert_ne; [done|apply operation_not_active]. }
    split_and!; try done; [by eapply (proj2 untouched_steady)|]. split; [done|]. apply pending_journal. reflexivity. }
  intros ?. apply hoare_ret. intros D x v Hp. split; [done|]. split; done.
Qed.

(** A preparation fails before there is an operation to report on. *)
Definition early (e : applyError) : Prop := match e with ApplyFailure _ _ _ => False | _ => True end.
(** What a program returns, wherever it starts; its errors are early. *)
Definition shaped {B} (Q : B -> Prop) (m : M W applyError B) : Prop :=
  forall w w' r, m w = (w', r) -> match r with inl b => Q b | inr e => early e end.
Local Abbreviation any := (fun _ => True).

Lemma shaped_let {B B'} (m : M W applyError B) (k : B -> M W applyError B') R Q : shaped R m -> (forall b, R b -> shaped Q (k b)) -> shaped Q (bind m k).
Proof.
  intros Hm Hk w w' r E. unfold bind in E. destruct (m w) as [w1 [b|e1]] eqn:Em; [eapply Hk; [exact (Hm _ _ _ Em)|exact E]|].
  injection E as <- <-. exact (Hm _ _ _ Em).
Qed.
Lemma shaped_bind {B B'} (m : M W applyError B) (k : B -> M W applyError B') Q : shaped any m -> (forall b, shaped Q (k b)) -> shaped Q (bind m k).
Proof. intros Hm Hk. eapply shaped_let; [exact Hm|auto]. Qed.
Lemma shaped_rendered code o : shaped (fun s => o = Some s) (status code (rendered o)).
Proof. intros w w' r E. destruct o; cbn in E; by injection E as <- <-. Qed.
Lemma shaped_ret {B} (Q : B -> Prop) (b : B) : Q b -> shaped Q (ret b).
Proof. by intros Hb w w' r [= <- <-]. Qed.
Lemma shaped_invalid {B} (Q : B -> Prop) : shaped Q (fail ApplyInvalid).
Proof. by intros w w' r [= <- <-]. Qed.
Lemma shaped_status {B} code (m : M W goerr B) : shaped any (status code m).
Proof. intros w w' r E. unfold status in E. destruct (m w) as [w1 [b|e1]]; by simplify_eq. Qed.
Lemma shaped_attempt {E' B} (m : M W E' B) : shaped any (attempt m).
Proof. intros w w' r E. unfold attempt in E. destruct (m w). by injection E as <- <-. Qed.
Lemma shaped_step f : shaped any (step f).
Proof. by intros w w' r [= <- <-]. Qed.

Lemma prepare_shaped :
  shaped (fun r => match r with
      | inl a => ap_routerOSChanged a = false
      | inr p => (exists nodes, render (normalize config) nodes = Some (pl_desiredRouterOS p)) /\
                 exists source, pl_previousRouterOS p = legacyCleanup source (pl_desiredRouterOS p) end)
    (prepareApply revisionFor now normalize valid render legacyCleanup runtimeSubscriptionNodes (X:=X) (C:=C) (Rc:=Rc) config).
Proof.
  unfold prepareApply, previousSource.
  repeat (first [eapply shaped_let; [apply shaped_rendered|intros ? ?] | apply shaped_bind; [|intros ?] | apply shaped_ret; solve [done | cbn in *; eauto 6]
    | apply shaped_invalid | apply shaped_status | apply shaped_attempt | apply shaped_step
    | progress cbv zeta | match goal with |- shaped _ (match ?b with _ => _ end) => destruct b end]).
Qed.

(** *** Documents while the plan runs *)

Definition docsOld (D : documents) : Prop := generations_kept D0 D /\ sameActive D /\ pendingIn D.
Definition docsNew (D : documents) : Prop := generations_kept D0 D /\ committed revisionFor D rev /\ pendingIn D.
Lemma stage_old : stage crash_ok docsOld.
Proof.
  split; [intros D x (H1 & H2 & H3); split_and!; auto|]. intros D o Ho (H1 & H2 & H3).
  split_and!; [apply generations_write; auto with apply| |by apply pending_journal].
  unfold sameActive. rewrite lookup_insert_ne; [done|apply operation_not_active].
Qed.
Lemma stage_new : stage crash_ok docsNew.
Proof.
  split; [intros D x (H1 & H2 & H3); split_and!; auto|]. intros D o Ho (H1 & H2 & H3).
  split_and!; [apply generations_write; auto with apply| |by apply pending_journal].
  apply committed_write; [auto with apply|apply operation_not_active|done].
Qed.

(** *** The closures of the plan with the candidate [c] *)

Section Closures.
Context (c : C) (Hc : candidateOf c).
Local Abbreviation live := (live (C:=C) (Rc:=Rc) (A:=A)).
Local Abbreviation artifacts := (artifacts (X:=X) (Rc:=Rc) (A:=A)).
Local Abbreviation restores := (restores (X:=X) (C:=C) (A:=A)).
Local Abbreviation damaged := (damaged (C:=C) (Rc:=Rc) (A:=A)).

(** What the receipt [r] undoes. *)
Definition undoes (r : Rc) (x : X) : Prop := restores r = live x0 \/ damaged x.
(** Before the commit. *)
Definition uncommitted (x : X) (v : @vars Rc) : Prop :=
  stateCommitted v = false /\ runtimeCommitErr v = None /\ (runtimeReady v = true -> live x = artifacts c) /\
  (if activated v then undoes (receipt v) x else sameRuntime x).
Definition retryable (x : X) (v : @vars Rc) : Prop := uncommitted x v /\ (runtimeReady v = false -> activated v = false).
Definition activatedOk (x : X) (v : @vars Rc) : Prop := uncommitted x v /\ runtimeReady v = true.
Definition done_ (x : X) (v : @vars Rc) : Prop := stateCommitted v = true /\ runtimeReady v = true /\ live x = artifacts c.

Lemma undoes_kept r x x' : runtime_kept x x' -> undoes r x -> undoes r x'.
Proof using Type. intros [_ Hd] [H|H]; [by left|right; auto]. Qed.
Lemma uncommitted_lasting : lasting uncommitted.
Proof using Type.
  intros x x' v Hk (H1 & H2 & H3 & H4). split_and!; [done|done|intros Hr; destruct Hk as [-> _]; auto|].
  destruct (activated v); [by eapply undoes_kept|by eapply sameRuntime_kept].
Qed.
Lemma retryable_lasting : lasting retryable.
Proof using Type. intros x x' v Hk [? ?]. split; [by eapply uncommitted_lasting|done]. Qed.
Lemma activatedOk_lasting : lasting activatedOk.
Proof using Type. intros x x' v Hk [? ?]. split; [by eapply uncommitted_lasting|done]. Qed.
Lemma done_lasting : lasting done_.
Proof using Type. intros x x' v [Hk _] (H1 & H2 & H3). split_and!; [done|done|congruence]. Qed.

Local Abbreviation started := (started sameRuntime).
Local Abbreviation published := (published c undoes).
Local Abbreviation activation := (activation c sameRuntime undoes).
Lemma same_damaged x : damaged x -> sameRuntime x.
Proof using Type. by right. Qed.
Lemma undo_publish r x x' : sameRuntime x -> restores r = live x -> (damaged x -> damaged x') -> undoes r x'.
Proof using Type. intros [Hs|Hs] Hr Hx; [left; congruence|right; auto]. Qed.
Lemma activateWithHooks_hoare h : applyHooks now h ->
  hoare crash_ok (over docsOld started) (activateWithHooks h c)
    (fun '(r, e) => over docsOld (activation r e)) (fun _ _ _ _ => False).
Proof using All.
  apply (activate_hoare now _ _ stage_old c sameRuntime undoes sameRuntime_kept same_damaged undoes_kept undo_publish).
Qed.

(** [activate]. *)
Definition waiting (x : X) (v : @vars Rc) : Prop := uncommitted x v /\ runtimeReady v = false.
Definition serving (x : X) (v : @vars Rc) : Prop := waiting x v /\ live x = artifacts c.
Lemma waiting_lasting : lasting waiting.
Proof using Type. intros x x' v Hk [? ?]. split; [by eapply uncommitted_lasting|done]. Qed.
Lemma serving_lasting : lasting serving.
Proof using Type. intros x x' v Hk [? ?]. split; [by eapply waiting_lasting|destruct Hk; congruence]. Qed.

Lemma setActivated_ok r e x v : activation r e x v ->
  let v' := Vars r (negb (bool_decide (rt_changed r = []))) (failOpen v) (stateCommitted v) (runtimeCleanupPending v)
              (runtimeCommitErr v) (runtimeReady v) (backup v) in
  waiting x v' /\ (e = None -> serving x v').
Proof using Type.
  intros [((F1 & F2 & F3 & F4) & H2 & H3 & H4)|(((F1 & F2 & F3 & F4) & H2) & H3 & H4)]; cbv zeta.
  - rewrite bool_decide_false by done. assert (Hw : waiting x (Vars r true (failOpen v) (stateCommitted v) (runtimeCleanupPending v)
      (runtimeCommitErr v) (runtimeReady v) (backup v))) by (split; [split_and!|]; done).
    split; [exact Hw|]. intros _. by split.
  - rewrite bool_decide_true by done. assert (Hw : waiting x (Vars r false (failOpen v) (stateCommitted v) (runtimeCleanupPending v)
      (runtimeCommitErr v) (runtimeReady v) (backup v))).
    { split; [split_and!; try done|done]. cbn. congruence. }
    split; [exact Hw|]. intros He. split; [exact Hw|auto].
Qed.

Lemma activateCandidate_hoare cfg changed :
  hoare crash_ok (over docsOld retryable) (activateCandidate now cfg c changed)
    (fun _ => over docsOld activatedOk) (fun _ => over docsOld uncommitted).
Proof using All.
  pose proof stage_old as Hs. unfold activateCandidate.
  apply (hoare_test _ runtimeReady _ (ret tt)); [apply hoare_ret; intros D x v [[? [? ?]] ?]; by split|].
  eapply hoare_weaken with (P := over docsOld started) (Q := fun _ => over docsOld activatedOk) (F := fun _ => over docsOld uncommitted); [| |done|done].
  2: { intros D x v [[Hd [(H1 & H2 & H3 & H4) H5]] H6]. split; [done|]. specialize (H5 H6). rewrite H5 in H4. by split_and!. }
  eapply hoare_bind with (R := fun _ => over docsOld started).
  { eapply hoare_weaken; [apply ok_call; [done|apply started_lasting, sameRuntime_kept|apply feeds_kept]|done|done|].
    intros e D x v [Hd [(F1 & F2 & F3 & F4) Hx]]. split; [done|]. split_and!; try done; [by rewrite F4|by rewrite F1]. }
  intros ?. eapply hoare_bind with (R := fun '(r, e) => over docsOld (activation r e)).
  { eapply hoare_weaken; [apply (activateWithHooks_hoare (if changed then noHooks else plannedHooks now cfg))|done| |done].
    - destruct changed; [by left|right; by eexists].
    - intros [r e] D x v H. exact H. }
  intros [r e]. eapply hoare_bind with (R := fun _ D x v => over docsOld waiting D x v /\ (e = None -> over docsOld serving D x v)).
  { apply hoare_modify; [done|]. intros w [Hd Ha]. destruct (setActivated_ok _ _ _ _ Ha) as [H1 H2]. split; [by split|].
    intros He. split; auto. }
  intros ?. eapply hoare_bind.
  { apply (hoare_attempt _ _ _ (fun _ => over docsOld serving) (fun _ => over docsOld waiting)). destruct e as [e|].
    - eapply hoare_bind; [apply hoare_fail; by intros D x v [? _]|]. intros ?.
      instantiate (1 := fun _ _ _ _ => False). intros h w w' r' Er (? & ? & []).
    - eapply hoare_weaken with (P := over docsOld serving) (Q := fun _ => over docsOld serving) (F := fun _ => over docsOld serving); [|intros D x v [_ H]; by apply H|done|].
      2: { intros e D x v [? [? _]]. by split. }
      apply maintains_bind; [apply maintains_ret|intros ?]. apply maintains_bind; [by apply ok_mark|intros ?].
      apply (hoare_test _ failOpen _ (modify (storePlannedRuntime true) ;; call ct_waitDiversion) (ret tt)).
      + eapply hoare_weaken; [|intros D x v [Hh _]; exact Hh|intros ? D x v Hh; exact Hh|intros ? D x v Hh; exact Hh]. apply maintains_bind; [apply ok_flags; by eexists|intros ?].
        apply ok_call; [done|apply serving_lasting|apply diversion_kept].
      + apply hoare_ret. by intros D x v [? _]. }
  intros [[]|e']; cbn.
  - apply hoare_modify; [done|]. intros w [Hd [[(H1 & H2 & H3 & H4) H5] H6]]. split; [done|]. by split_and!.
  - eapply hoare_bind with (R := fun _ => over docsOld uncommitted); [|intros ?; by apply hoare_fail].
    apply hoare_modify; [done|]. intros w [Hd [(H1 & H2 & H3 & H4) H5]]. split; [done|]. by split_and!.
Qed.

(** [commitActiveDetailed]: the commit point is published exactly when the
    result says so. *)
Lemma loadGeneration_loads (P : @assertion X Rc) r :
  hoare crash_ok P (loadGeneration revisionFor r) (fun _ D x v => P D x v /\ loads revisionFor D r) (fun _ => P).
Proof using Type.
  unfold loadGeneration. destruct (safeRevision r) eqn:Es; cbn [negb]; [|by apply hoare_fail].
  eapply hoare_bind with (R := fun g D x v => P D x v /\ (forall o, g = Some o -> D !! generationName r = Some (Document o))).
  { apply hoare_read; [|done]. intros D x v Hp. destruct (D !! generationName r) as [[o|]|]; [|done|by split].
    split; [done|]. by intros ? [= <-]. }
  intros [o|]; [|apply hoare_fail; by intros D x v [? _]].
  case_bool_decide as Hr; [|apply hoare_fail; by intros D x v [? _]]. apply hoare_ret. intros D x v [Hp Hg]. split; [done|].
  split; [done|]. exists o. auto.
Qed.
Lemma pointerRevision_spec (P : @assertion X Rc) (o : obj) :
  hoare crash_ok P (pointerRevision (Some o)) (fun r D x v => P D x v /\ r = stringOf (o !! bs "revision")) (fun _ => P).
Proof using Type. unfold pointerRevision. destruct (_ && _); [by apply hoare_fail|by apply hoare_ret]. Qed.
Lemma safe_nonempty r : safeRevision r = true -> r <> [].
Proof using Type. by intros H ->. Qed.

Lemma docsOld_published D (p : obj) : stringOf (p !! bs "revision") = rev -> docsOld D -> loads revisionFor D rev -> docsNew (<[activeName:=Document p]> D).
Proof using Type.
  intros Hp (H1 & H2 & H3) H4. split_and!; [apply generations_write; auto with apply| |].
  - split; [exists p; by rewrite lookup_insert_eq|apply loads_write; auto with apply].
  - apply pending_write; [apply not_eq_sym, operation_not_active|done].
Qed.
Lemma docsOld_same D (p : obj) : D !! activeName = Some (Document p) -> stringOf (p !! bs "revision") = rev -> docsOld D -> loads revisionFor D rev -> docsNew D.
Proof using Type. intros Hd Hp (H1 & H2 & H3) H4. split_and!; [done| |done]. split; [by exists p|done]. Qed.
Lemma docsNew_write name o D : not_generation name -> name <> activeName -> name <> auxiliaryName operationName ->
  docsNew D -> docsNew (<[name:=Document o]> D).
Proof using Type.
  intros Hn Ha Ho (H1 & H2 & H3). split_and!; [by apply generations_write|by apply committed_write|by apply pending_write].
Qed.

Section Commit.
Context (Psi : X -> @vars Rc -> Prop).
Lemma ok_derived name o : not_generation name -> name <> activeName -> name <> auxiliaryName operationName ->
  maintains crash_ok (over docsNew Psi) (writeJSON name o).
Proof using Type.
  intros Hn Ha Ho. apply hoare_write; [done|]. intros D x v [Hd Hp]. pose proof (docsNew_write name o D Hn Ha Ho Hd).
  split_and!; [by apply (proj1 stage_new)|by split..].
Qed.

Definition commitResult (r : bool * err) : assertion :=
  match r with (true, _) => over docsNew Psi | (false, Some _) => over docsOld Psi | (false, None) => fun _ _ _ => False end.

Lemma commitActive_hoare m : cm_Revision m = rev ->
  hoare crash_ok (over docsOld Psi) (commitActiveDetailed revisionFor m) commitResult (fun _ _ _ _ => False).
Proof using Type.
  intros Hm. unfold commitActiveDetailed. repeat (match goal with |- hoare _ _ (if ?b then ret (false, Some Plain) else _) _ _ => destruct b eqn:?; [by apply hoare_ret|] end).
  rewrite Hm in *. assert (Hsafe : safeRevision rev = true) by (by destruct (safeRevision rev)). pose proof (safe_nonempty _ Hsafe) as Hne.
  eapply hoare_bind; [apply (hoare_attempt _ _ _ _ _ (fun _ _ _ _ => False) (loadGeneration_loads _ rev))|].
  intros [g|e]; cbn; [|by apply hoare_ret]. set (ptr := commitPointer m).
  assert (Hptr : stringOf (ptr !! bs "revision") = rev) by (rewrite <- Hm; reflexivity).
  apply hoare_write_then with (P' := over docsNew Psi).
  - intros D x v [[Hd Hp] Hl]. pose proof (docsOld_published D ptr Hptr Hd Hl). split; [by apply (proj1 stage_new)|by split].
  - eapply hoare_bind; [apply hoare_try, ok_derived; [auto with apply|apply lkg_names..]|]. intros [[]|e]; [|by apply hoare_ret].
    eapply hoare_bind; [apply hoare_try, ok_derived; [auto with apply|apply metadata_names..]|]. intros [[]|e]; by apply hoare_ret.
  - eapply hoare_bind with (R := fun r D x v => (over docsOld Psi D x v /\ loads revisionFor D rev) /\
      match r with inl q => q = [] \/ exists p, D !! activeName = Some (Document p) /\ stringOf (p !! bs "revision") = q | inr _ => True end).
    { eapply hoare_weaken; [eapply (hoare_attempt _ _ activeRevision (fun q D x v => (over docsOld Psi D x v /\ loads revisionFor D rev) /\
        (q = [] \/ exists p, D !! activeName = Some (Document p) /\ stringOf (p !! bs "revision") = q))
        (fun _ D x v => over docsOld Psi D x v /\ loads revisionFor D rev) (fun _ _ _ _ => False))|intros D x v Hh; exact Hh| |done].
      - eapply hoare_bind with (R := fun q D x v => (over docsOld Psi D x v /\ loads revisionFor D rev) /\ (forall o, q = Some o -> D !! activeName = Some (Document o))).
        { apply hoare_read; [|done]. intros D x v Hp. destruct (D !! activeName) as [[o|]|]; [|done|by split]. split; [done|]. by intros ? [= <-]. }
        intros [o|]; [|apply hoare_ret; intros D x v [? _]; split; [done|by left]].
        eapply hoare_weaken; [apply pointerRevision_spec|intros D x v Hh; exact Hh| |by intros e D x v [? _]].
        intros q D x v [[H1 H2] ->]. split; [done|]. right. exists o. auto.
      - intros [q|e] D x v H; [done|by split]. }
    intros [q|e].
    + apply hoare_ret. intros D x v [[[Hd Hp] Hl] Hq]. unfold commitResult. destruct (bool_decide_reflect (q = rev)) as [Hb|_]; [|by split]. split; [|done].
      destruct Hq as [->|(o & Ho & Hr)]; [congruence|]. eapply docsOld_same; [exact Ho|congruence|done|done].
    + apply hoare_ret. intros D x v [[? ?] _]. unfold commitResult. by rewrite bool_decide_false by congruence.
  - intros h w w' r Hf H Hw. pose proof Hw as (H1 & H2 & H3 & H4). destruct H3 as (_ & [(o & Ho & Hr) _] & _).
    unfold bind, attempt, activeRevision, readJSON, tick, bind in H. cbn [nextFault world_disk docs w_docs w_faults] in H.
    rewrite Hf in H. cbn [w_docs] in H. rewrite Ho in H. cbn beta iota in H. unfold pointerRevision in H. rewrite Hr, Hsafe, andb_false_r in H. cbn beta iota in H. unfold ret in H.
    rewrite bool_decide_true in H by congruence. injection H as <- <-. cbn. destruct Hw as (? & ? & ?).
    split_and!; [by apply rereadable_tail|done|done].
Qed.
End Commit.

(** [commit]: behind the publication only clean-up and the runtime's own copy
    can fail. *)
Lemma ok_done (f : W -> W) : (forall w, w_docs (f w) = w_docs w /\ w_x (f w) = w_x w /\ w_faults (f w) = w_faults w /\ w_history (f w) = w_history w) ->
  (forall w, stateCommitted (w_vars (f w)) = stateCommitted (w_vars w) /\ runtimeReady (w_vars (f w)) = runtimeReady (w_vars w)) ->
  maintains crash_ok (over docsNew done_) (modify f).
Proof using Type.
  intros Hf Hv. apply hoare_modify; [done|]. intros w [Hd (H1 & H2 & H3)]. destruct (Hv w) as [E1 E2]. split; [done|].
  split_and!; congruence.
Qed.
Lemma commitApply_hoare m reference : cm_Revision (m reference) = rev ->
  hoare crash_ok (over docsOld activatedOk) (commitApply revisionFor now m c reference)
    (fun _ => over docsNew done_) (fun _ => over docsOld uncommitted).
Proof using All.
  intros Hm. pose proof stage_new as Hs. unfold commitApply. eapply hoare_bind.
  { eapply hoare_weaken; [apply (commitActive_hoare activatedOk), Hm|done|intros r D x v Hr; exact Hr|done]. }
  intros [[] e]; cbn.
  - eapply hoare_bind with (R := fun _ => over docsNew done_).
    { apply hoare_modify; [done|]. intros w [Hd [(H1 & H2 & H3 & H4) H5]]. split; [done|]. by split_and!; auto. }
    intros ?. eapply hoare_bind; [by apply hoare_try, ok_mark|]. intros marked.
    eapply hoare_bind with (R := fun _ => over docsNew done_); [apply hoare_modified; destruct marked; by apply ok_done|]. intros ?.
    eapply hoare_bind with (R := fun _ => over docsNew done_); [apply hoare_modified; destruct e; by apply ok_done|]. intros ?.
    eapply hoare_bind; [apply hoare_try, ok_call; [done|apply done_lasting|apply rtcommit_kept]|]. intros r.
    apply hoare_modified. destruct r; by apply ok_done.
  - destruct e as [e|].
    + apply hoare_fail. intros D x v [? [? _]]. by split.
    + apply hoare_ret. by intros.
Qed.

(** [rollbackRuntime]. *)
Lemma rollback_hoare r :
  hoare crash_ok (over docsOld (fun x _ => undoes r x)) (rollback r) (fun _ => over docsOld (fun x _ => sameRuntime x)) (fun _ => over docsOld (fun _ _ => True)).
Proof using All.
  pose proof stage_old as Hs. assert (Hsame : lasting (fun x _ => sameRuntime x)).
  { intros x x' v. apply sameRuntime_kept. }
  unfold rollback. cbv zeta. eapply hoare_bind.
  { eapply hoare_weaken; [apply (ok_guard crash_ok docsOld Hs (fun x _ => undoes r x)); intros x x' v; apply undoes_kept|done|intros b D x v H; exact H|by intros ? ? ? ? [? _]]. }
  intros taken. eapply hoare_bind.
  { apply (hoare_attempt _ _ _ (fun _ => over docsOld (fun x _ => sameRuntime x)) (fun _ => over docsOld (fun _ _ => True))).
    apply hoare_call. intros D x v x' e [Hd Hu] E. split; [by apply stage_old|]. destruct e as [e|]; [by split|]. split; [done|].
    destruct (restore_done (S:=S) (A:=A) _ _ _ E) as [H1 H2]. destruct Hu as [Hu|Hu]; [left; congruence|right; auto]. }
  intros [[]|e]; cbn.
  - eapply hoare_weaken; [apply ok_settle; [done|exact Hsame|apply maintains_ret]|done|done|by intros ? ? ? ? [? _]].
  - eapply hoare_bind with (R := fun _ => over docsOld (fun _ _ => True)); [|intros ?; by apply hoare_fail].
    apply hoare_modified, ok_release; done.
Qed.
Lemma rollbackRuntime_triple :
  triple crash_ok (over docsOld uncommitted) rollbackRuntime
    (fun e => match e with None => over docsOld (fun x _ => sameRuntime x) | Some _ => over docsOld (fun _ _ => True) end).
Proof using All.
  intros h w w' e H Hw. unfold rollbackRuntime in H. pose proof Hw as (_ & _ & Hd & (H1 & H2 & H3 & H4)).
  rewrite H1, orb_false_r in H. destruct (activated (w_vars w)) eqn:Ea; cbn [negb] in H.
  - destruct (rollback (receipt (w_vars w)) w) as [w1 r] eqn:Er.
    assert (Hw1 : at_point crash_ok h (over docsOld (fun x _ => undoes (receipt (w_vars w)) x)) w) by (destruct Hw as (? & ? & ?); by split_and!).
    pose proof (rollback_hoare _ _ _ _ _ Er Hw1) as Hw2. destruct r; injection H as <- <-; [|done].
    destruct Hw2 as (? & ? & ?). by split_and!.
  - injection H as <- <-. destruct Hw as (? & ? & ?). by split_and!.
Qed.

(** ** How a run may end *)

Definition failedOk (e : applyError) : @assertion X Rc := fun D x v =>
  match e with
  | ApplyFailure _ applyRolledBack _ => generations_kept D0 D /\ sameActive D /\ sameRuntime x
  | ApplyFailure _ _ _ => generations_kept D0 D /\ pendingIn D /\ (sameActive D \/ committed revisionFor D rev)
  | _ => untouchedSoFar D x v
  end.

Lemma clear_triple (Q : @assertion X Rc) : (forall D x v, Q D x v -> crash_ok (<[auxiliaryName operationName:=Document ∅]> D) x) ->
  hoare crash_ok Q clearApplyRecovery (fun _ D x v => exists D', D = <[auxiliaryName operationName:=Document ∅]> D' /\ Q D' x v)
    (fun _ D x v => Q D x v \/ exists D', D = <[auxiliaryName operationName:=Document ∅]> D' /\ Q D' x v).
Proof using Type.
  intros HQ. unfold clearApplyRecovery, saveAuxiliary. rewrite operation_safe. cbn [negb]. apply hoare_write; [auto|].
  intros D x v Hq. split_and!; [by apply (HQ D x v)|by exists D|right; by exists D].
Qed.
Lemma sameActive_journal D o : sameActive D -> sameActive (<[auxiliaryName operationName:=Document o]> D).
Proof using Type. unfold sameActive. intros H. rewrite lookup_insert_ne; [done|apply operation_not_active]. Qed.

Lemma clear_rolledBack h (w : W) : at_point crash_ok h (over docsOld (fun x _ => sameRuntime x)) w ->
  at_point crash_ok h (fun D x _ => generations_kept D0 D /\ sameActive D /\ sameRuntime x) (clearApplyRecovery w).1.
Proof using Type.
  intros Hw. destruct (clearApplyRecovery w) as [w2 r2] eqn:E2.
  assert (Hclear : forall D x, docsOld D -> sameRuntime x -> let D' := <[auxiliaryName operationName:=Document ∅]> D in
    generations_kept D0 D' /\ sameActive D' /\ sameRuntime x).
  { intros D x (H1 & H2 & _) Hx. split_and!; [apply generations_write; auto with apply|by apply sameActive_journal|done]. }
  assert (Hcl : forall D x v, over (Rc:=Rc) docsOld (fun x _ => sameRuntime x) D x v -> crash_ok (<[auxiliaryName operationName:=Document ∅]> D) x).
  { intros D x v [Hd Hx]. destruct (Hclear D x Hd Hx) as (? & ? & ?). split_and!; auto. }
  pose proof (clear_triple _ Hcl _ _ _ _ E2 Hw) as Hw2.
  destruct r2; eapply at_weaken; try exact Hw2; cbn; intros D x v.
  - intros (D' & -> & Hd & Hx). auto.
  - intros [[(H1 & H2 & _) Hx]|(D' & -> & Hd & Hx)]; auto.
Qed.

Lemma pending_finish d Psi state h (w : W) : stage crash_ok d -> state <> applyRolledBack -> at_point crash_ok h (over d Psi) w ->
  at_point crash_ok h (over d Psi) (finishFailedApplyRecovery now state w).
Proof using Type.
  intros Hd Hs Hw. assert (Hf : finishFailedApplyRecovery now state w = (markApplyRecoveryState now (bs "recovery_pending") w).1) by by destruct state.
  rewrite Hf. destruct (markApplyRecoveryState now _ w) as [w1 r] eqn:E. pose proof (ok_mark now _ d Hd Psi (bs "recovery_pending") _ _ _ _ E Hw). by destruct r.
Qed.

Lemma failApply_hoare {B} code e :
  hoare crash_ok (over docsOld uncommitted) (failApply now (A:=B) code e) (fun _ _ _ _ => False) failedOk.
Proof using All.
  intros h w w' r H Hw. unfold failApply in H. destruct (rollbackRuntime w) as [w1 e1] eqn:E1.
  pose proof (rollbackRuntime_triple _ _ _ _ E1 Hw) as Hw1. unfold classifyApplyFailure in H. cbn in H.
  assert (Hpend : forall Psi state e', state <> applyRolledBack -> at_point crash_ok h (over docsOld Psi) w1 ->
    (finishFailedApplyRecovery now state w1, inr (ApplyFailure code state e')) = (w', r) ->
    at_point crash_ok h (match r with inl b => fun _ _ _ => False | inr e => failedOk e end) w').
  { intros Psi state e' Hs Hp [= <- <-]. eapply at_weaken; [apply pending_finish; [apply stage_old|done|exact Hp]|].
    intros D x v [(H1 & H2 & H3) _]. cbn. destruct state; [done|by split_and!; [| |left]..]. }
  destruct e1 as [e1|]; [by eapply Hpend; [|exact Hw1|exact H]|].
  destruct (TransactionFailureStateOf e) as [[]|]; try (by eapply Hpend; [|exact Hw1|exact H]);
    injection H as <- <-; exact (clear_rolledBack _ _ Hw1).
Qed.
End Closures.

(** *** The whole run *)

Section Plan.
Context (p : @plan C) (Hplan : planOk p) (actor : gostr).
Local Abbreviation c := (pl_candidate p).
Local Abbreviation live := (live (C:=C) (Rc:=Rc) (A:=A)).
Local Abbreviation artifacts := (artifacts (X:=X) (Rc:=Rc) (A:=A)).

Definition appliedOk (a : applied) : @assertion X Rc := fun D x _ =>
  ap_operation a = bs "applied" /\ ap_revision a = rev /\ generations_kept D0 D /\ committed revisionFor D rev /\
  (exists c, candidateOf c /\ live x = artifacts c /\ ap_runtimeRevision a = rt_revision c) /\
  (ap_cleanupPending a = false -> ~ pendingIn D).

Lemma uncommitted_of D x v : over docsOld (activatedOk c) D x v -> over docsOld (retryable c) D x v.
Proof using Type. intros [Hd [Hu Hr]]. split; [done|]. split; [done|]. congruence. Qed.
Lemma retryable_uncommitted D x v : over docsOld (retryable c) D x v -> over docsOld (uncommitted c) D x v.
Proof using Type. by intros [Hd [Hu _]]. Qed.
Lemma plan_commit reference :
  hoare crash_ok (over docsOld (activatedOk c)) (commitApply revisionFor now (planMetadata now p actor) c reference)
    (fun _ => over docsNew (done_ c)) (fun _ => over docsOld (uncommitted c)).
Proof using All. apply commitApply_hoare; [apply Hplan|]. apply Hplan. Qed.

Lemma setBackup_triple b (Psi : X -> @vars Rc -> Prop) d (k : W -> W * err) Q :
  (forall x v, Psi x v -> Psi x (Vars (receipt v) (activated v) (failOpen v) (stateCommitted v) (runtimeCleanupPending v) (runtimeCommitErr v) (runtimeReady v) b)) ->
  triple crash_ok (over d Psi) k Q -> triple crash_ok (over d Psi) (fun w => k (setBackup b w)) Q.
Proof using Type.
  intros Hb Hk h w w' e E (H1 & H2 & H3 & H4). eapply Hk; [exact E|]. split_and!; [done|done|]. split; [done|]. by apply Hb.
Qed.

Lemma performApply_hoare :
  hoare crash_ok (over docsOld (retryable c)) (performApply revisionFor now buildDelta sharedOrigin p actor (S:=S))
    (fun _ => over docsNew (done_ c)) failedOk.
Proof using All.
  pose proof stage_old as Hs. assert (Hc : candidateOf c) by apply Hplan. unfold performApply.
  pose proof (activateCandidate_hoare c Hc (pl_config p) (pl_routerOSChanged p)) as Hact.
  destruct (pl_routerOSChanged p) eqn:Ech.
  - intros h w w' r H Hw. destruct (runRouterOSApply _ _ _ _ _ _ _ w) as [w1 [output e]] eqn:E1.
    assert (Hw1 : at_point crash_ok h (match e with None => over docsNew (done_ c) | Some _ => over docsOld (uncommitted c) end) w1).
    { refine (routerApply_triple (A:=A) crash_ok _ (over docsOld (activatedOk c)) _ _ _ _ _ _ uncommitted_of retryable_uncommitted _ _ _ _ _ _ _ _ _ _ _ _ _ E1 Hw).
      - apply over_steady; [done|apply retryable_lasting].
      - apply over_steady; [done|apply activatedOk_lasting].
      - apply over_steady; [apply stage_new|apply done_lasting].
      - apply over_steady; [done|apply uncommitted_lasting].
      - by apply hoare_toErr.
      - intros reference. apply setBackup_triple; [by intros x v [(? & ? & ? & ?) ?]|]. apply hoare_toErr, plan_commit. }
    destruct e as [e|]; [|by injection H as <- <-]. pose proof (failApply_hoare c Hc 409 e _ _ _ _ H Hw1) as Hf. by destruct r; destruct Hf as (? & ? & ?).
  - eapply hoare_bind; [apply (hoare_attempt _ _ _ _ _ _ Hact)|]. intros [[]|e]; cbn.
    2: { eapply hoare_weaken; [by apply failApply_hoare|done|done|done]. }
    eapply hoare_bind; [apply (hoare_attempt _ _ _ _ _ _ (plan_commit _))|]. intros [[]|e]; cbn; [by apply hoare_ret|].
    eapply hoare_weaken; [by apply failApply_hoare|done|done|done].
Qed.

Lemma failed_pending code state e D x v Psi : state <> applyRolledBack -> over docsNew Psi D x v -> failedOk (ApplyFailure code state e) D x v.
Proof using Type. intros Hs [(H1 & H2 & H3) _]. cbn. destruct state; [done|by split_and!; [| |right]..]. Qed.

Lemma awaitTraffic_hoare :
  hoare crash_ok (over docsNew (done_ c)) (awaitTraffic now p) (fun _ => over docsNew (done_ c)) failedOk.
Proof using All.
  unfold awaitTraffic. destruct ct_waitTraffic as [wait|] eqn:Ew; [|by apply hoare_ret].
  intros h w w' r H Hw. cbv zeta in H. destruct (_ && _); [|by injection H as <- <-].
  destruct (outside (wait (pl_config p)) (storePlannedRuntime true w)) as [w1 e] eqn:E1.
  assert (Hst : steady runtime_kept crash_ok (over docsNew (done_ c))) by (apply over_steady; [apply stage_new|apply done_lasting]).
  assert (Hk : keeps runtime_kept (wait (pl_config p))) by (eapply keeps_runtime, traffic_kept; exact Ew).
  pose proof (outside_steady _ _ _ Hst _ Hk h _ _ _ E1) as Hw1. cbn in Hw1. specialize (Hw1 Hw).
  destruct e as [e|]; injection H as <- <-; [|done].
  eapply at_weaken; [apply (pending_finish docsNew (done_ c) applyRecoveryPending h w1); [apply stage_new|done|exact Hw1]|].
  intros D x v. by apply failed_pending.
Qed.

Lemma step_done (f : W -> W) F : (forall w, w_docs (f w) = w_docs w /\ w_x (f w) = w_x w /\ w_faults (f w) = w_faults w /\ w_history (f w) = w_history w) ->
  (forall w, stateCommitted (w_vars (f w)) = stateCommitted (w_vars w) /\ runtimeReady (w_vars (f w)) = runtimeReady (w_vars w)) ->
  hoare crash_ok (over docsNew (done_ c)) (step f) (fun _ => over docsNew (done_ c)) F.
Proof using Type.
  intros Hf Hv. apply hoare_step; [done|]. intros w [Hd (H1 & H2 & H3)]. destruct (Hv w) as [E1 E2]. split; [done|].
  split_and!; congruence.
Qed.

Lemma cleared_done D x v : over docsNew (done_ c) D x v ->
  let D' := <[auxiliaryName operationName:=Document ∅]> D in
  generations_kept D0 D' /\ committed revisionFor D' rev /\ ~ pendingIn D' /\ crash_ok D' x.
Proof using Hplan.
  intros [(H1 & H2 & H3) (H4 & H5 & H6)]. cbv zeta.
  assert (Hg : generations_kept D0 (<[auxiliaryName operationName:=Document ∅]> D)) by (apply generations_write; auto with apply).
  assert (Hcm : committed revisionFor (<[auxiliaryName operationName:=Document ∅]> D) rev).
  { apply committed_write; [auto with apply|apply operation_not_active|done]. }
  split; [done|]. split; [done|]. split.
  - intros (op & Ho & Hp). rewrite lookup_insert_eq in Ho. by injection Ho as <-.
  - split; [done|]. split; [by right|]. right. right. split; [done|]. exists c. split; [apply Hplan|done].
Qed.

Lemma finishApply_hoare (cleanupPending : bool) kind mode :
  hoare crash_ok (over docsNew (done_ c)) (fun w =>
    match runtimeCommitErr (w_vars w) with
    | Some e => ((markApplyRecoveryState now (bs "recovery_pending") w).1, inr (ApplyFailure 409 applyRecoveryPending (Some e)))
    | None =>
        let '(w, cleared) := clearApplyRecovery w in
        let w := match cleared with inr _ => setCleanup w | inl _ => w end in
        (w, inl (Applied (bs "applied") (pl_staged p) (pl_active p) (rt_revision c) (pl_routerOSChanged p) kind
                   (backup (w_vars w)) mode (cleanupPending || runtimeCleanupPending (w_vars w))))
    end) appliedOk failedOk.
Proof using All.
  intros h w w' r H Hw. destruct (runtimeCommitErr (w_vars w)) as [e|].
  - injection H as <- <-. eapply at_weaken; [apply (pending_finish docsNew (done_ c) applyRecoveryPending h w); [apply stage_new|done|exact Hw]|].
    intros D x v. by apply failed_pending.
  - destruct (clearApplyRecovery w) as [w1 cleared] eqn:E1. injection H as <- <-.
    assert (Hcl : forall D x v, over docsNew (done_ c) D x v -> crash_ok (<[auxiliaryName operationName:=Document ∅]> D) x).
    { intros D x v Hd. by apply (cleared_done D x v). }
    assert (Hcand : forall D x v, over docsNew (done_ c) D x v -> exists c', candidateOf c' /\ live x = artifacts c' /\ rt_revision c = rt_revision c').
    { intros D x v [_ (_ & _ & Hl)]. exists c. split; [apply Hplan|done]. }
    pose proof (clear_triple _ Hcl _ _ _ _ E1 Hw) as (H1 & H2 & H3).
    assert (Hfin : forall D x v a, ap_operation a = bs "applied" -> ap_revision a = rev -> ap_runtimeRevision a = rt_revision c ->
      (exists D', D = <[auxiliaryName operationName:=Document ∅]> D' /\ over docsNew (done_ c) D' x v) \/
      (over docsNew (done_ c) D x v /\ ap_cleanupPending a = true) -> appliedOk a D x v).
    { intros D x v a A1 A2 A3 [(D' & -> & Hd)|[Hd A4]]; unfold appliedOk; rewrite A3.
      - destruct (cleared_done _ _ _ Hd) as (C1 & C2 & C3 & _). split_and!; try done. by eapply Hcand.
      - pose proof Hd as [(C1 & C2 & _) _]. split_and!; try done; [by eapply Hcand|congruence]. }
    destruct cleared as [[]|e]; split_and!; try done; apply Hfin; try done; try apply Hplan; cbn in H3 |- *.
    + by left.
    + destruct H3 as [H3|H3]; [right|by left]. split; [|by rewrite orb_true_r].
      destruct H3 as [? (? & ? & ?)]. by split.
Qed.

Lemma applyPlan_hoare :
  hoare crash_ok (over docsOld (retryable c)) (applyPlan revisionFor now buildDelta sharedOrigin p actor (S:=S)) appliedOk failedOk.
Proof using All.
  unfold applyPlan. eapply hoare_bind with (R := fun _ => over docsOld (retryable c)).
  { apply hoare_step; [done|]. intros w [Hd [(H1 & H2 & H3 & H4) H5]]. by split. }
  intros ?. eapply hoare_bind; [apply performApply_hoare|]. intros [[kind mode] cleanupPending].
  eapply hoare_bind; [apply awaitTraffic_hoare|]. intros ?.
  eapply hoare_bind.
  { apply hoare_try. apply maintains_bind; [apply ok_derived; [auto with apply|apply draft_names..]|intros ?; apply maintains_ret]. }
  intros saved. eapply hoare_bind with (R := fun _ => over docsNew (done_ c)); [destruct saved; by apply step_done|]. intros ?.
  eapply hoare_bind with (R := fun _ => over docsNew (done_ c)); [|intros ?; apply finishApply_hoare].
  apply (step_outside runtime_kept); [apply over_steady; [apply stage_new|apply done_lasting]|]. intros x. apply (logging_kept (S:=S)).
Qed.
End Plan.

Definition resultOk (r : applied + applyError) : @assertion X Rc := fun D x v =>
  match r with
  | inl a => appliedOk a D x v \/ (ap_operation a = bs "unchanged" /\ ap_routerOSChanged a = false /\ untouchedSoFar D x v)
  | inr e => failedOk e D x v
  end.

Lemma retryable_start c D x v : prepared D x v -> over docsOld (retryable c) D x v.
Proof. intros [(H1 & H2 & H3 & H4 & ->) H5]. split; [by split_and!|]. by split_and!. Qed.

Local Abbreviation applyConfiguration :=
  (applyConfiguration revisionFor now normalize valid render legacyCleanup buildDelta sharedOrigin runtimeSubscriptionNodes (X:=X) (S:=S) (C:=C) (Rc:=Rc)).

Lemma applyConfiguration_triple actor h (w w' : W) r :
  applyConfiguration config actor w = (w', r) -> w_docs w = D0 -> w_x w = x0 -> rereadable (w_faults w) = true -> w_history w = h ->
  at_point crash_ok h (resultOk r) w'.
Proof using All.
  intros H Hd Hx Hf Hh. unfold Apply.applyConfiguration in H.
  destruct (bind _ _ (set_vars noVars w)) as [w1 r1] eqn:E. injection H as <- <-.
  assert (Hrun : hoare crash_ok untouchedSoFar (let* prepared := prepareApply revisionFor now normalize valid render legacyCleanup runtimeSubscriptionNodes (X:=X) (C:=C) (Rc:=Rc) config in
    match prepared with inl unchanged => ret unchanged | inr p => applyPlan revisionFor now buildDelta sharedOrigin p actor (S:=S) end)
    (fun a => resultOk (inl a)) (fun e => resultOk (inr e))).
  { eapply hoare_bind with (R := fun r D x v => match r with
       | inl a => untouchedSoFar D x v /\ ap_operation a = bs "unchanged" /\ ap_routerOSChanged a = false
       | inr p => prepared D x v /\ planOk p end).
    - intros h' w2 w3 r2 E2 Hw2. pose proof (prepare_hoare _ _ _ _ E2 Hw2) as Hw3. destruct r2 as [r2|e]; [exact Hw3|].
      eapply at_weaken; [exact Hw3|]. intros D x v Hu. pose proof (prepare_shaped _ _ _ E2). by destruct e.
    - intros [a|p].
      + apply hoare_ret. intros D x v (H1 & H2 & H3). by right.
      + apply hoare_assume. intros Hp. eapply hoare_weaken; [by apply (applyPlan_hoare p Hp actor)|apply retryable_start|intros ? ? ? ? ?; by left|done]. }
  assert (Hw : at_point crash_ok h untouchedSoFar (set_vars noVars w)).
  { split_and!; [done|exists []; by rewrite app_nil_r|]. cbn. rewrite Hd, Hx. split; [by intros ? ?|]. split; [done|]. split; [by left|]. split; [apply managed_kept_refl|done]. }
  pose proof (Hrun _ _ _ _ E Hw) as Hw1. by destruct r1.
Qed.
End Run.
End Apply.
