(* ===== verification/ApplyRecovery.v ===== *)
(** * Recovery of an interrupted Apply

    What [Apply.reconcilePendingApply] leaves behind: until the journal is
    cleared it says that an operation is pending, and it is cleared only when the
    runtime serves the generation of the commit point (on the first Apply, the
    installation baseline). *)

From S2P Require Import Prelude GoBase GoText GoRegexp RouterTransaction RouterTransactionSafety StateStore ApplyWorld Apply ApplyLogic ApplyActivation.
Open Scope Z_scope.
Open Scope store_scope.

Section Recovery.
Context {X S C Rc A : Type} `{!GuardOps X, !ConsoleOps X S, !TransactionView X S, !RuntimeOps X C Rc, !ControlOps X, !RuntimeView X C Rc A}.
Context `{!GuardLaws X S, !ConsoleLaws X S, !RuntimeLaws X S C Rc A, !ControlLaws X S C Rc A}.
Context (revisionFor : obj -> gostr) (Sprint : json -> gostr) (render : obj -> list json -> option gostr).

Local Abbreviation W := (@world X Rc).
Local Abbreviation runtime_kept := (runtime_kept (C:=C) (Rc:=Rc) (A:=A)).
Local Abbreviation live := (live (C:=C) (Rc:=Rc) (A:=A)).
Local Abbreviation artifacts := (artifacts (X:=X) (Rc:=Rc) (A:=A)).
Local Abbreviation text := (text Sprint).

(** ** What is restored *)

Section From.
Context (D0 : documents) (x0 : X).

Definition activeIs (r : gostr) : Prop :=
  match D0 !! activeName with
  | None => r = []
  | Some (Document p) => stringOf (p !! bs "revision") = r
  | Some Damaged => False
  end.
Definition generationIs (r : gostr) (g : obj) : Prop := D0 !! generationName r = Some (Document g) /\ revisionFor g = r.
Definition journalIs (op : obj) : Prop := D0 !! auxiliaryName operationName = Some (Document op) /\ isTrue (op !! bs "pending") = true.
(** The configuration of the commit point; before the first one, the baseline. *)
Definition targetConfig (cfg : obj) : Prop :=
  (exists r, r <> [] /\ activeIs r /\ generationIs r cfg) \/
  (activeIs [] /\ exists op, journalIs op /\
    (generationIs (text (op !! bs "recovery_revision")) cfg \/
     exists target, generationIs (text (op !! bs "target_revision")) target /\ cfg = firstApplyRollbackConfig target)).
Definition rebuiltFrom (c : C) : Prop := exists cfg nodes x1 x2, targetConfig cfg /\ rt_prepare cfg nodes x1 = (x2, inl c).

Definition recovery_ok (D : documents) (x : X) : Prop :=
  generations_kept D0 D /\ D !! activeName = D0 !! activeName /\ (pendingIn D \/ exists c, rebuiltFrom c /\ live x = artifacts c).
Definition unfinished (D : documents) : Prop := generations_kept D0 D /\ D !! activeName = D0 !! activeName /\ pendingIn D.

Lemma stage_unfinished : stage recovery_ok unfinished.
Proof.
  split; [intros D x (H1 & H2 & H3); split_and!; auto|]. intros D o Ho (H1 & H2 & H3).
  split_and!; [apply generations_write; auto with apply| |by apply pending_journal].
  rewrite lookup_insert_ne; [done|apply operation_not_active].
Qed.

(** ** The target *)

Definition untried : @assertion X Rc := fun D x v => D = D0 /\ x = x0 /\ v = noVars.

Lemma journal_hoare :
  hoare recovery_ok untried (pendingApplyRecovery (X:=X) (Rc:=Rc))
    (fun o D x v => untried D x v /\ match o with Some op => journalIs op | None => ~ pendingIn D0 end) (fun _ => untried).
Proof.
  unfold pendingApplyRecovery, auxiliary. rewrite operation_safe. cbn [negb].
  eapply hoare_bind with (R := fun op D x v => untried D x v /\
    (isTrue (op !! bs "pending") = true -> journalIs op) /\ (isTrue (op !! bs "pending") = false -> ~ pendingIn D0)).
  - eapply hoare_bind with (R := fun o D x v => untried D x v /\ match o with
      | Some op => D0 !! auxiliaryName operationName = Some (Document op) | None => D0 !! auxiliaryName operationName = None end).
    { apply hoare_read; [|done]. intros D x v (-> & Hx & Hv). by destruct (D0 !! auxiliaryName operationName) as [[o|]|]. }
    intros o. apply hoare_ret. intros D x v [Hu Ho]. split; [done|]. destruct o as [op|]; cbn [default].
    + split; [done|]. intros Hf (op' & Ho' & Hp). rewrite Ho in Ho'. injection Ho' as <-. change (id op) with op in Hf. congruence.
    + split; [done|]. intros _ (op' & Ho' & _). congruence.
  - intros op. apply hoare_ret. intros D x v (Hu & H1 & H2). split; [done|]. destruct (isTrue (op !! bs "pending")); auto.
Qed.

Section Journal.
Context (op : obj) (Hop : journalIs op).
Definition targeted (v : @vars Rc) (D : documents) : Prop := unfinished D /\ v = noVars.

Lemma untried_unfinished D x v : untried D x v -> unfinished D.
Proof using Hop. intros (-> & _ & _). split_and!; [by intros ? ?|done|]. exists op. apply Hop. Qed.

Lemma load_hoare r :
  hoare recovery_ok untried (loadGeneration revisionFor r) (fun g D x v => untried D x v /\ generationIs r g) (fun _ => untried).
Proof.
  unfold loadGeneration. destruct (negb _); [by apply hoare_fail|].
  eapply hoare_bind with (R := fun o D x v => untried D x v /\ (forall g, o = Some g -> D0 !! generationName r = Some (Document g))).
  { apply hoare_read; [|done]. intros D x v (-> & Hx & Hv). destruct (D0 !! generationName r) as [[o|]|]; [|done|by split].
    split; [done|]. by intros ? [= <-]. }
  intros [g|]; [|apply hoare_fail; by intros D x v [? _]].
  case_bool_decide as Hr; [|apply hoare_fail; by intros D x v [? _]]. apply hoare_ret. intros D x v [Hu Hg]. split; [done|].
  split; [auto|done].
Qed.
Lemma active_hoare :
  hoare recovery_ok untried activeRevision (fun r D x v => untried D x v /\ activeIs r) (fun _ => untried).
Proof.
  eapply hoare_bind with (R := fun o D x v => untried D x v /\ match o with
      | Some p => D0 !! activeName = Some (Document p) | None => D0 !! activeName = None end).
  { apply hoare_read; [|done]. intros D x v (-> & Hx & Hv). by destruct (D0 !! activeName) as [[o|]|]. }
  intros [p|]; unfold pointerRevision; cbv zeta iota.
  - destruct (_ && _); [apply hoare_fail; by intros D x v [? _]|]. apply hoare_ret. intros D x v [Hu Hp]. split; [done|].
    unfold activeIs. by rewrite Hp.
  - apply hoare_ret. intros D x v [Hu Hp]. split; [done|]. unfold activeIs. by rewrite Hp.
Qed.

Definition located : @assertion X Rc := fun D x v => unfinished D /\ v = noVars.
Lemma untried_located D x v : untried D x v -> located D x v.
Proof using Hop. intros Hu. split; [by eapply untried_unfinished|apply Hu]. Qed.

Lemma stage_hoare g : hoare recovery_ok located (stageGeneration revisionFor g) (fun _ => located) (fun _ => located).
Proof.
  unfold stageGeneration. eapply hoare_bind; [apply hoare_tick|]. intros []; try by apply hoare_fail.
  intros h w w' r H Hw. cbn [docs world_disk] in H. set (n := generationName (revisionFor g)) in *.
  destruct (w_docs w !! n) as [d|] eqn:Ed; [by injection H as <- <-|].
  assert (Hs : hoare recovery_ok (fun D x v => located D x v /\ D !! n = None) (writeJSON n g ;; ret (revisionFor g)) (fun _ => located) (fun _ => located)).
  { eapply hoare_bind with (R := fun _ => located); [|intros ?; by apply hoare_ret].
    apply hoare_write; [tauto|]. intros D x v [[(H1 & H2 & H3) H4] Hn].
    assert (Hl : unfinished (<[n:=Document g]> D)).
    { split_and!; [by apply generations_stage| |apply pending_write; [apply generation_names|done]]. rewrite lookup_insert_ne; [done|apply generation_names]. }
    split_and!; [by apply (proj1 stage_unfinished)|by split..]. }
  eapply Hs; [exact H|]. destruct Hw as (? & ? & ?). by split_and!.
Qed.

Lemma target_hoare :
  hoare recovery_ok untried (recoveryTarget revisionFor Sprint render (X:=X) (Rc:=Rc) op)
    (fun t D x v => located D x v /\ targetConfig t.1.1.1) (fun _ => located).
Proof using Hop.
  unfold recoveryTarget. eapply hoare_bind.
  { eapply hoare_weaken; [apply active_hoare|done|intros r D x v H; exact H|intros e D x v; apply untried_located]. }
  intros [|a r]; apply hoare_assume; intros Ha.
  - destruct (negb _); [apply hoare_fail, untried_located|]. cbv zeta.
    eapply hoare_bind with (R := fun cfg D x v => located D x v /\ targetConfig cfg).
    + destruct (bool_decide (text (op !! bs "recovery_revision") = [])).
      * destruct (negb _); [apply hoare_fail, untried_located|].
        eapply hoare_bind; [eapply hoare_weaken; [apply load_hoare|done|intros g D x v H; exact H|intros e D x v; apply untried_located]|].
        intros target. apply hoare_assume. intros Ht.
        eapply hoare_bind; [eapply hoare_weaken; [apply maintains_rendered|done|done|intros e D x v; apply untried_located]|].
        intros source. destruct (_ || _); [apply hoare_fail, untried_located|].
        eapply hoare_bind with (R := fun _ => located).
        { eapply hoare_weaken; [apply stage_hoare|apply untried_located|done|done]. }
        intros ?. apply hoare_ret. intros D x v Hl. split; [done|]. right. split; [done|]. exists op. split; [done|]. right. by exists target.
      * destruct (negb _); [apply hoare_fail, untried_located|].
        eapply hoare_weaken; [apply load_hoare|done| |intros e D x v; apply untried_located].
        intros g D x v [Hu Hg]. split; [by apply untried_located in Hu|]. right. split; [done|]. exists op. split; [done|]. by left.
    + intros cfg. apply hoare_assume. intros Hcfg. destruct (bool_decide _); [by apply hoare_fail|]. apply hoare_ret. by intros D x v Hl.
  - eapply hoare_bind; [eapply hoare_weaken; [apply load_hoare|done|intros g D x v H; exact H|intros e D x v; apply untried_located]|].
    intros cfg. apply hoare_assume. intros Hcfg.
    eapply hoare_bind; [eapply hoare_weaken; [apply maintains_nodes|done|done|intros e D x v; apply untried_located]|]. intros nodes.
    eapply hoare_bind; [eapply hoare_weaken; [apply maintains_read|done|done|intros e D x v; apply untried_located]|]. intros [ptr|]; [|apply hoare_fail, untried_located].
    cbv zeta. eapply hoare_bind with (R := fun _ => untried).
    { destruct (bool_decide _); [|by apply hoare_ret]. eapply hoare_weaken; [apply maintains_rendered|done|done|intros e D x v; apply untried_located]. }
    intros source. apply hoare_ret. intros D x v Hu. split; [by apply untried_located in Hu|]. left. exists (a :: r). done.
Qed.
End Journal.

(** ** The transaction *)

Context (now : gostr) (buildDelta : gostr -> gostr -> option (list gostr * gostr * gostr)) (sharedOrigin : obj -> bool).

Section Candidate.
Context (c : C).
Definition reviving (x : X) (v : @vars Rc) : Prop := if runtimeReady v then live x = artifacts c else fresh v.
Definition revived (x : X) (v : @vars Rc) : Prop := runtimeReady v = true /\ live x = artifacts c.
Definition anyhow (x : X) (v : @vars Rc) : Prop := True.
Lemma reviving_lasting : lasting reviving.
Proof. intros x x' v [Hk _] H. unfold reviving in *. destruct (runtimeReady v); congruence. Qed.
Lemma revived_lasting : lasting revived.
Proof. intros x x' v [Hk _] [H1 H2]. split; [done|congruence]. Qed.
Lemma revived_reviving D x v : over unfinished revived D x v -> over unfinished reviving D x v.
Proof. intros [Hd [Hr Hl]]. split; [done|]. unfold reviving. by rewrite Hr. Qed.

Lemma reactivate_triple :
  triple recovery_ok (over unfinished reviving) (reactivate c)
    (fun e => match e with None => over unfinished revived | Some _ => over unfinished anyhow end).
Proof using All.
  intros h w w' e H (H1 & H2 & H3 & H4). unfold reactivate in H. unfold reviving in H4.
  destruct (runtimeReady (w_vars w)) eqn:Er; [injection H as <- <-; by split_and!|].
  destruct (activateWithHooks noHooks c w) as [w1 r] eqn:E1.
  pose proof (activate_hoare now recovery_ok unfinished stage_unfinished c (fun _ => True) (fun _ _ => True)
    (fun _ _ _ _ => I) (fun _ _ => I) (fun _ _ _ _ _ => I) (fun _ _ _ _ _ _ => I) noHooks (or_introl eq_refl)) as Ha.
  assert (Hw : at_point recovery_ok h (over unfinished (started (fun _ => True))) w) by by split_and!.
  specialize (Ha _ _ _ _ E1 Hw). destruct r as [[r [e1|]]|e1].
  - injection H as <- <-. eapply at_weaken; [exact Ha|]. by intros D x v [? _].
  - injection H as <- <-. destruct Ha as (A1 & A2 & A3 & A4). do 2 (split; [done|]). split; [done|]. split; [done|].
    destruct A4 as [(_ & _ & Hl & _)|(_ & _ & Hl)]; auto.
  - by destruct Ha as (_ & _ & []).
Qed.
Lemma settle_triple :
  triple recovery_ok (over unfinished revived) (fun w => if runtimeReady (w_vars w) then outside (rt_commit c) w else (w, Some Plain))
    (fun e => match e with None => over unfinished revived | Some _ => over unfinished anyhow end).
Proof using All.
  intros h w w' e H Hw. pose proof Hw as (_ & _ & _ & Hr & _). rewrite Hr in H.
  assert (Hst : steady runtime_kept recovery_ok (over unfinished revived)) by (apply over_steady; [apply stage_unfinished|apply revived_lasting]).
  assert (Hk : keeps runtime_kept (rt_commit (Rc:=Rc) c)) by (eapply keeps_runtime, (rtcommit_kept (S:=S))).
  pose proof (outside_steady _ _ _ Hst _ Hk _ _ _ _ H Hw) as Hw1. destruct e; [|exact Hw1].
  eapply at_weaken; [exact Hw1|]. by intros D x v [? _].
Qed.
Lemma transaction_triple cfg desired previous :
  triple recovery_ok (over unfinished reviving)
    (runRouterOSApply (S:=S) buildDelta sharedOrigin cfg desired previous (reactivate c)
      (fun _ w => if runtimeReady (w_vars w) then outside (rt_commit c) w else (w, Some Plain)))
    (fun r => match r.2 with None => over unfinished revived | Some _ => over unfinished anyhow end).
Proof using All.
  apply (routerApply_triple (A:=A) recovery_ok (over unfinished reviving) (over unfinished revived) (over unfinished revived) (over unfinished anyhow)).
  - apply over_steady; [apply stage_unfinished|apply reviving_lasting].
  - apply over_steady; [apply stage_unfinished|apply revived_lasting].
  - apply over_steady; [apply stage_unfinished|apply revived_lasting].
  - apply over_steady; [apply stage_unfinished|done].
  - apply revived_reviving.
  - by intros D x v [? _].
  - apply reactivate_triple.
  - intros _. apply settle_triple.
Qed.
End Candidate.
(** ** The whole recovery *)

Definition rebuilt (x : X) : Prop := exists c, rebuiltFrom c /\ live x = artifacts c.
Definition restored : @assertion X Rc := fun D x v => generations_kept D0 D /\ D !! activeName = D0 !! activeName /\ ~ pendingIn D /\ rebuilt x.
Definition stillPending : @assertion X Rc := over unfinished anyhow.

Lemma located_pending D x v : located D x v -> stillPending D x v.
Proof. intros [H _]. by split. Qed.
Lemma unfinished_cleared D x v c : rebuiltFrom c -> over unfinished (revived c) D x v -> restored (<[auxiliaryName operationName:=Document ∅]> D) x v.
Proof.
  intros Hc [(H1 & H2 & H3) [_ Hl]]. split; [apply generations_write; auto with apply|].
  split; [rewrite lookup_insert_ne; [done|apply operation_not_active]|]. split; [|by exists c].
  intros (op & Ho & Hp). rewrite lookup_insert_eq in Ho. by injection Ho as <-.
Qed.
Lemma restored_ok D x v : restored D x v -> recovery_ok D x.
Proof. intros (H1 & H2 & _ & H4). split_and!; auto. Qed.

Lemma clear_hoare c : rebuiltFrom c ->
  hoare recovery_ok (over unfinished (revived c)) (clearApplyRecovery (X:=X) (Rc:=Rc)) (fun _ => restored) (fun _ D x v => stillPending D x v \/ restored D x v).
Proof.
  intros Hc. unfold clearApplyRecovery, saveAuxiliary. rewrite operation_safe. cbn [negb]. apply hoare_write.
  - intros D x v [H _]. by left.
  - intros D x v Ho. pose proof (unfinished_cleared D x v c Hc Ho) as Hr. split_and!; [by eapply restored_ok|done|by right].
Qed.

Lemma resume_hoare op : journalIs op ->
  hoare recovery_ok untried (resumeApply revisionFor Sprint now render buildDelta sharedOrigin op (S:=S) (C:=C)) (fun _ => restored) (fun _ D x v => stillPending D x v \/ restored D x v).
Proof using All.
  intros Hop. pose proof stage_unfinished as Hs. unfold resumeApply.
  eapply hoare_bind; [eapply hoare_weaken; [by apply target_hoare|done|intros t D x v H; exact H|intros e D x v Hl; left; by apply located_pending]|].
  intros [[[cfg desired] nodes] first]. apply hoare_assume. cbn [fst]. intros Hcfg.
  eapply hoare_bind with (R := fun c D x v => located D x v /\ rebuiltFrom c).
  { apply hoare_callv. intros D x v x' r [Hd Hv] E. split; [by apply Hs|]. destruct r as [c|e]; [|left; by split].
    split; [by split|]. by exists cfg, nodes, x, x'. }
  intros c. apply hoare_assume. intros Hc.
  eapply hoare_bind with (R := fun e => match e with None => over unfinished (revived c) | Some _ => stillPending end).
  { intros h w w' r H Hw. destruct (runRouterOSApply _ _ _ _ _ _ _ w) as [w1 [out e]] eqn:E1. injection H as <- <-.
    refine (transaction_triple c _ _ _ _ _ _ _ E1 _). eapply at_weaken; [exact Hw|]. intros D x v [Hd ->]. by split. }
  intros [e|].
  { eapply hoare_bind; [apply hoare_try, ok_mark, Hs|]. intros ?. apply hoare_fail. intros D x v H. by left. }
  eapply hoare_bind with (R := fun _ => over unfinished (revived c)); [|intros ?; by apply clear_hoare].
  assert (Hpend : forall D x v, over unfinished (revived c) D x v -> stillPending D x v \/ restored D x v) by (intros D x v [H _]; by left).
  destruct first.
  - eapply hoare_bind; [eapply hoare_weaken; [apply maintains_activeRevision|done|done|auto]|]. intros r.
    destruct (bool_decide _); [by apply hoare_ret|by apply hoare_fail].
  - destruct ct_waitTraffic as [wait|] eqn:Ew; [|by apply hoare_ret].
    eapply hoare_bind; [eapply hoare_weaken; [apply (ok_mark now _ _ Hs)|done|done|auto]|]. intros ?.
    eapply hoare_bind; [apply hoare_modified, ok_flags; by eexists|]. intros ?.
    eapply hoare_bind; [apply hoare_try, ok_call; [exact Hs|apply revived_lasting|by eapply traffic_kept]|]. intros [u|e]; [by apply hoare_ret|].
    eapply hoare_bind; [apply hoare_try, ok_mark, Hs|]. intros ?. by apply hoare_fail.
Qed.

(** What the recovery reports. *)
Definition reconciled (r : bool * err) : @assertion X Rc := fun D x v =>
  match r with
  | (true, None) => restored D x v
  | (true, Some _) => stillPending D x v \/ restored D x v
  | (false, None) => D = D0 /\ x = x0 /\ ~ pendingIn D0
  | (false, Some _) => D = D0 /\ x = x0
  end.

Lemma reconcile_triple h (w w' : W) r :
  reconcilePendingApply revisionFor Sprint now render buildDelta sharedOrigin (S:=S) (C:=C) w = (w', r) ->
  w_docs w = D0 -> w_x w = x0 -> rereadable (w_faults w) = true -> w_history w = h ->
  at_point recovery_ok h (reconciled r) w'.
Proof using All.
  intros H Hd Hx Hf Hh. unfold reconcilePendingApply in H. destruct (bind _ _ (set_vars noVars w)) as [w1 r1] eqn:E. injection H as <- <-.
  assert (Hw : at_point recovery_ok h untried (set_vars noVars w)).
  { split; [done|]. split; [exists []; by rewrite app_nil_r|done]. }
  assert (Hrun : hoare recovery_ok untried (let* operation := attempt pendingApplyRecovery in
       match operation with
       | inr e => ret (false, Some e)
       | inl None => ret (false, None)
       | inl (Some operation) =>
           let* r := attempt (resumeApply revisionFor Sprint now render buildDelta sharedOrigin operation (S:=S) (C:=C)) in
           ret (true, match r with inl _ => None | inr e => Some e end)
       end : M W goerr (bool * err)) reconciled (fun _ _ _ _ => False)).
  { eapply hoare_bind; [apply (hoare_attempt _ _ _ _ _ _ journal_hoare)|]. intros [[op|]|e]; cbn.
    - apply hoare_assume. intros Hop. eapply hoare_bind; [apply (hoare_attempt _ _ _ _ _ _ (resume_hoare op Hop))|].
      intros [u|e]; by apply hoare_ret.
    - apply hoare_ret. intros D x v [(-> & -> & _) Hn]. done.
    - apply hoare_ret. by intros D x v (-> & -> & _). }
  pose proof (Hrun _ _ _ _ E Hw) as Hw1. destruct r1 as [r1|e]; [exact Hw1|by destruct Hw1 as (_ & _ & [])].
Qed.
End From.
End Recovery.
