(* ===== verification/ApplyRouter.v ===== *)
(** * What an Apply does to the router

    Everything of [Apply.applyConfiguration] but the router's transaction leaves
    the router's managed part alone ([calm]), so that the transaction's reported
    outcome is the outcome of the whole Apply. *)

From S2P Require Import Prelude GoBase GoText GoRegexp RouterTransaction RouterTransactionSafety StateStore ApplyWorld Apply ApplyLogic ApplySafety.
Open Scope Z_scope.
Open Scope store_scope.

Section Router.
Context {X S C Rc A : Type} `{!GuardOps X, !ConsoleOps X S, !TransactionView X S, !RuntimeOps X C Rc, !ControlOps X, !RuntimeView X C Rc A}.
Context `{!GuardLaws X S, !ConsoleLaws X S, !RuntimeLaws X S C Rc A, !ControlLaws X S C Rc A}.
Local Abbreviation W := (@world X Rc).
Local Abbreviation managed_kept := (managed_kept (S:=S)).
Local Abbreviation both_kept := (both_kept (S:=S) (C:=C) (Rc:=Rc) (A:=A)).

(** ** Calm programs *)

Definition calm {B} (f : W -> W * B) : Prop := forall w, managed_kept (w_x w) (w_x (f w).1).

Lemma calm_same {B} (f : W -> W * B) : (forall w, w_x (f w).1 = w_x w) -> calm f.
Proof. intros Hf w. rewrite Hf. apply managed_kept_refl. Qed.
Lemma calm_then {B B'} (f : W -> W * B) (k : B -> W -> W * B') : calm f -> (forall b, calm (k b)) -> calm (fun w => let '(w, b) := f w in k b w).
Proof.
  intros Hf Hk w. specialize (Hf w). destruct (f w) as [w1 b]. eapply managed_kept_trans; [exact Hf|apply Hk].
Qed.
Lemma calm_bind {E B B'} (m : M W E B) (k : B -> M W E B') : calm m -> (forall b, calm (k b)) -> calm (bind m k).
Proof.
  intros Hm Hk w. specialize (Hm w). unfold bind. destruct (m w) as [w1 [b|e]]; [|done]. eapply managed_kept_trans; [exact Hm|apply Hk].
Qed.
Lemma calm_ret {E B} (b : B) : calm (ret (E:=E) b).
Proof. by apply calm_same. Qed.
Lemma calm_fail {E B} (e : E) : calm (fail (A:=B) e).
Proof. by apply calm_same. Qed.
Lemma calm_modify f : (forall w, w_x (f w) = w_x w) -> calm (modify f).
Proof. intros Hf. by apply calm_same. Qed.
Lemma calm_step f : (forall w, w_x (f w) = w_x w) -> calm (step f).
Proof. intros Hf. by apply calm_same. Qed.
Lemma calm_attempt {E E' B} (m : M W E B) : calm m -> calm (attempt (E':=E') m).
Proof. intros Hm w. specialize (Hm w). unfold attempt. by destruct (m w). Qed.
Lemma calm_status {B} code (m : M W goerr B) : calm m -> calm (status code m).
Proof. intros Hm w. specialize (Hm w). unfold status. by destruct (m w) as [w1 []]. Qed.
Lemma calm_if {B} (b : bool) (m k : W -> W * B) : calm m -> calm k -> calm (if b then m else k).
Proof. by destruct b. Qed.
Lemma calm_test {B} (f : W -> bool) (m k : W -> W * B) : calm m -> calm k -> calm (fun w => if f w then m w else k w).
Proof. intros Hm Hk w. destruct (f w); [apply Hm|apply Hk]. Qed.
Lemma calm_toErr (m : M W goerr unit) : calm m -> calm (toErr m).
Proof. intros Hm w. specialize (Hm w). unfold toErr. by destruct (m w) as [w1 []]. Qed.
Lemma calm_outside {B} (f : X -> X * B) : keeps managed_kept f -> calm (outside f).
Proof. intros Hf w. rewrite outside_x. apply Hf. Qed.
Lemma calm_kept {B} (f : X -> X * B) : keeps both_kept f -> calm (outside f).
Proof. intros Hf. apply calm_outside. intros x. apply Hf. Qed.
Lemma calm_call f : keeps both_kept f -> calm (call f).
Proof. intros Hf w. pose proof (calm_kept f Hf w) as H. unfold call, ofErr. by destruct (outside f w) as [w1 []]. Qed.
Lemma calm_callv {B} (f : X -> X * (B + goerr)) : keeps both_kept f -> calm (callv f).
Proof. apply calm_kept. Qed.
Lemma calm_outside_ f : (forall x, both_kept x (f x)) -> calm (modify (outside_ f)).
Proof. intros Hf w. cbn. apply Hf. Qed.
Lemma calm_releasing (taken : bool) : calm (modify (if taken then outside_ rt_release else fun w : W => w)).
Proof using RuntimeLaws0. destruct taken; [apply calm_outside_, release_kept|by apply calm_modify]. Qed.

(** Documents. *)
Lemma calm_read name : calm (readJSON (W:=W) name).
Proof. apply calm_bind; [by apply calm_same|]. intros []; [|apply calm_fail..]. apply calm_same. intros w. by destruct (docs w !! name) as [[]|]. Qed.
Lemma calm_write name o : calm (writeJSON (W:=W) name o).
Proof.
  apply calm_bind; [by apply calm_same|]. intros []; [by apply calm_same|apply calm_fail|].
  apply calm_bind; [by apply calm_same|intros ?; apply calm_fail].
Qed.
Create HintDb calm.
#[local] Hint Resolve calm_ret calm_fail calm_read calm_write calm_releasing : calm.
#[local] Hint Extern 2 (calm (modify _)) => apply calm_modify; done : calm.
#[local] Hint Extern 2 (calm (step _)) => apply calm_step; done : calm.
(** Follows the structure of a program; the hints close its steps. *)
Ltac calmly := repeat first
  [ progress auto with calm
  | apply calm_bind; [|intros ?] | apply calm_attempt | apply calm_status | apply calm_if
  | progress cbv zeta
  | match goal with |- calm (match ?b with _ => _ end) => destruct b | |- calm (modify (match ?b with _ => _ end)) => destruct b end ].

Lemma calm_auxiliary name : calm (auxiliary (W:=W) name).
Proof. unfold auxiliary. calmly. Qed.
Lemma calm_saveAuxiliary name o : calm (saveAuxiliary (W:=W) name o).
Proof. unfold saveAuxiliary. calmly. Qed.
Lemma calm_metadata : calm (metadata (W:=W)).
Proof. unfold metadata. calmly. Qed.
Lemma calm_activeRevision : calm (activeRevision (W:=W)).
Proof. unfold activeRevision, pointerRevision. calmly. Qed.
Lemma calm_loadGeneration revisionFor r : calm (loadGeneration (W:=W) revisionFor r).
Proof. unfold loadGeneration. calmly. Qed.
Lemma calm_stageGeneration revisionFor g : calm (stageGeneration (W:=W) revisionFor g).
Proof.
  unfold stageGeneration. cbv zeta. apply calm_bind; [by apply calm_same|]. intros []; [|apply calm_fail..].
  intros w. destruct (docs w !! _); [apply managed_kept_refl|].
  assert (Hc : calm (writeJSON (W:=W) (generationName (revisionFor g)) g ;; ret (revisionFor g))) by calmly. apply Hc.
Qed.
#[local] Hint Resolve calm_auxiliary calm_saveAuxiliary calm_metadata calm_activeRevision calm_loadGeneration calm_stageGeneration : calm.
Lemma calm_mark now state : calm (markApplyRecoveryState (X:=X) (Rc:=Rc) now state).
Proof. unfold markApplyRecoveryState. calmly. Qed.
#[local] Hint Resolve calm_mark : calm.

Lemma calm_clear : calm (clearApplyRecovery (X:=X) (Rc:=Rc)).
Proof. unfold clearApplyRecovery. calmly. Qed.
Lemma calm_finish now state w : managed_kept (w_x w) (w_x (finishFailedApplyRecovery (X:=X) (Rc:=Rc) now state w)).
Proof. destruct state; [apply calm_clear|apply calm_mark..]. Qed.
Lemma calm_nodes r fallback : calm (routerOSNodesForRevision (X:=X) (Rc:=Rc) r fallback).
Proof. unfold routerOSNodesForRevision. calmly. Qed.
Lemma calm_rendered o : calm (rendered (X:=X) (Rc:=Rc) o).
Proof. unfold rendered. calmly. Qed.
Lemma calm_commitActive revisionFor m : calm (commitActiveDetailed (W:=W) revisionFor m).
Proof. unfold commitActiveDetailed. calmly. Qed.
#[local] Hint Resolve calm_clear calm_nodes calm_rendered calm_commitActive : calm.

(** ** The runtime *)

Lemma calm_guard changed : calm (fun w : W =>
    match restartOrder (w_x w) changed with [] => (w, inl false) | programs => (call (rt_guard programs) ;; ret true) w end).
Proof using RuntimeLaws0.
  intros w. destruct (restartOrder _ _) as [|q l]; [apply managed_kept_refl|].
  assert (Hc : calm (call (rt_guard (q :: l)) ;; ret true)) by (calmly; apply calm_call, rtguard_kept). apply Hc.
Qed.
Lemma calm_restart before changed programs : calm before -> calm (restartAndProbe before changed programs).
Proof using RuntimeLaws0.
  intros Hb. unfold restartAndProbe. calmly; [apply calm_outside_, mark_kept|apply calm_call, restart_kept|apply calm_call, probe_kept].
Qed.
Lemma calm_settle before taken changed : calm before -> calm (settleRuntime before taken changed).
Proof using RuntimeLaws0.
  intros Hb w. unfold settleRuntime. destruct (bool_decide _).
  - assert (Hc : calm (let* r := attempt (restartAndProbe before changed (restartOrder (w_x w) changed)) in
       releaseNow taken ;; match r with inr e => fail e | inl _ => call rt_waitHot end)); [|apply Hc].
    apply calm_bind; [by apply calm_attempt, calm_restart|]. intros r. apply calm_bind; [apply calm_releasing|intros ?].
    destruct r; [apply calm_call, waitHot_kept|apply calm_fail].
  - unfold releasing. pose proof (calm_restart before changed (restartOrder (w_x w) changed) Hb w) as H1.
    destruct (restartAndProbe _ _ _ w) as [w1 r]. pose proof (calm_releasing taken w1) as H2.
    destruct taken; cbn in *; by eapply managed_kept_trans.
Qed.
Definition calmHooks (h : @hooks X Rc) : Prop :=
  calm (runHook (beforeXrayRestart h)) /\ calm (runHook (beforeHotPolicy h)) /\
  forall changed, calm (modify (default (fun _ w => w) (beforePublication h) changed)).
Lemma calm_noHooks : calmHooks noHooks.
Proof. split_and!; cbn; intros; auto with calm. Qed.
Lemma calm_plannedHooks now cfg : calmHooks (plannedHooks now cfg).
Proof using ControlLaws0.
  split_and!; cbn.
  - calmly. apply calm_call, failOpen_kept.
  - unfold prepareHotPolicyReadiness. calmly.
  - intros changed. apply calm_modify. intros w. unfold prepareNativePublication. destruct changed; [done|]. by destruct (hotPolicyWithoutCoreRestart _).
Qed.
Lemma calm_activate h c : calmHooks h -> calm (activateWithHooks h c).
Proof using RuntimeLaws0.
  intros (H1 & H2 & H3). unfold activateWithHooks. apply calm_bind; [apply calm_attempt, calm_callv, diff_kept|].
  intros [[|a l]|e]; auto with calm. apply calm_bind.
  { apply calm_attempt. unfold beforePublishing. apply calm_bind; [apply calm_call, validate_kept|intros ?].
    apply calm_bind; [apply H3|intros ?]. apply calm_bind; [|intros ?; apply calm_if; [auto with calm|apply calm_guard]].
    apply calm_if; [|auto with calm]. apply calm_bind; [apply calm_call, scope_kept|intros ?]. by apply calm_if; [|auto with calm]. }
  intros [taken|e]; [|auto with calm]. apply calm_bind; [apply calm_attempt, calm_outside, publish_router|].
  intros [r|e]; (apply calm_bind; [|intros ?; auto with calm]); [by apply calm_attempt, calm_settle|apply calm_releasing].
Qed.
Lemma calm_rollback r : calm (rollback r).
Proof using RuntimeLaws0.
  unfold rollback. cbv zeta. apply calm_bind; [apply calm_guard|intros taken]. apply calm_bind.
  { apply calm_attempt. intros w. pose proof (calm_outside _ (restore_router (S:=S) (A:=A) r) w) as H. unfold call, ofErr. by destruct (outside _ w) as [w1 []]. }
  intros [u|e]; [apply calm_settle; auto with calm|]. apply calm_bind; [apply calm_releasing|intros ?; auto with calm].
Qed.

(** ** The closures *)

Lemma calm_activateCandidate now cfg c changed : calm (activateCandidate now cfg c changed).
Proof using RuntimeLaws0 ControlLaws0.
  unfold activateCandidate. apply (calm_test (fun w => runtimeReady (w_vars w)) (fun w => (w, inl tt))); [by apply calm_same|].
  apply calm_bind; [apply calm_call, feeds_kept|intros ?].
  apply calm_bind; [apply calm_activate; destruct changed; [apply calm_noHooks|apply calm_plannedHooks]|]. intros [r e].
  apply calm_bind; [auto with calm|intros ?]. apply calm_bind; [|intros []; calmly].
  apply calm_attempt. apply calm_bind; [calmly|intros ?]. apply calm_bind; [auto with calm|intros ?].
  apply (calm_test (fun w => failOpen (w_vars w)) (modify (storePlannedRuntime true) ;; call ct_waitDiversion) (fun w => (w, inl tt))); [|by apply calm_same].
  apply calm_bind; [auto with calm|intros ?]. apply calm_call, diversion_kept.
Qed.
Lemma calm_commitApply revisionFor now m c reference : calm (commitApply revisionFor now m c reference).
Proof using RuntimeLaws0.
  unfold commitApply. calmly; apply calm_call, rtcommit_kept.
Qed.
Lemma calm_rollbackRuntime : calm rollbackRuntime.
Proof using RuntimeLaws0.
  intros w. unfold rollbackRuntime. destruct (_ || _); [apply managed_kept_refl|].
  pose proof (calm_rollback (receipt (w_vars w)) w) as H. by destruct (rollback _ w) as [w1 []].
Qed.
Lemma calm_failApply {B} now code e : calm (failApply (A:=B) now code e).
Proof using RuntimeLaws0.
  intros w. unfold failApply. pose proof (calm_rollbackRuntime w) as H. destruct (rollbackRuntime w) as [w1 e1].
  destruct (classifyApplyFailure e e1) as [state e2]. cbn. eapply managed_kept_trans; [exact H|apply calm_finish].
Qed.

(** ** The transaction *)

Context (buildDelta : gostr -> gostr -> option (list gostr * gostr * gostr)) (sharedOrigin : obj -> bool).

(** The router scripts of the transaction belong to its two sides. *)
Definition scriptsMeant (previous desired : gostr) : Prop :=
  match buildDelta previous desired with
  | Some (_, applyScript, rollbackScript) => meant (W:=X) (S:=S) RApply applyScript /\ meant (W:=X) (S:=S) RRollback rollbackScript
  | None => meant (W:=X) (S:=S) RApply desired /\ meant (W:=X) (S:=S) RRollback previous
  end.
(** The configuration of the router for good, and that no rollback guard is left,
    both unless a guard has fired. *)
Definition inForce (c : config) (x : X) : Prop := confIs (S:=S) x c /\ stable (S:=S) x.
Definition unguarded (x : X) : Prop := pendingIs (S:=S) x [].
Definition routerOutcome (e : err) (x : X) : Prop :=
  match e with
  | None => inForce After x /\ unguarded x
  | Some e => match TransactionFailureStateOf e with
              | None | Some TransactionRolledBack => inForce Before x
              | _ => True
              end
  end.

Lemma inForce_kept c x x' : managed_kept x x' -> inForce c x -> inForce c x'.
Proof. intros [_ K] [E St]. split; [by eapply confIs_kept|by apply K]. Qed.
Lemma unguarded_kept x x' : managed_kept x x' -> unguarded x -> unguarded x'.
Proof. intros [G _]. by apply pendingIs_kept. Qed.

Lemma routerApply_outcome cfg desired previous health finalize (w w' : W) out e :
  calm health -> (forall reference, calm (finalize reference)) -> scriptsMeant previous desired -> inForce Before (w_x w) ->
  runRouterOSApply (S:=S) buildDelta sharedOrigin cfg desired previous health finalize w = (w', (out, e)) -> routerOutcome e (w_x w').
Proof using All.
  intros Hh Hf Hm Hi H. unfold runRouterOSApply in H.
  assert (Hnone : forall e0 (w1 : W), plain e0 -> inForce Before (w_x w1) -> routerOutcome (Some e0) (w_x w1)).
  { intros e0 w1 He Hw. cbn. by rewrite He. }
  pose proof (calm_kept _ (stack_kept (S:=S) cfg) w) as K1.
  destruct (outside (ct_stack cfg) w) as [w1 [e1|]] eqn:E1; pose proof (inForce_kept _ _ _ K1 Hi) as I1; cbn in I1.
  { injection H as <- _ <-. apply Hnone; [|done]. apply outside_result in E1. by eapply (stack_plain (S:=S)). }
  pose proof (calm_kept _ (schedulerGuard_kept (S:=S)) w1) as K2.
  destruct (outside ct_schedulerGuard w1) as [w2 [only|e2]] eqn:E2; pose proof (inForce_kept _ _ _ K2 I1) as I2; cbn in I2.
  2: { injection H as <- _ <-. apply Hnone; [|done]. apply outside_result in E2. by eapply (schedulerGuard_plain (S:=S)). }
  pose proof (calm_kept _ (backup_kept (S:=S)) w2) as K3.
  destruct (outside ct_backup w2) as [w3 [reference|e3]] eqn:E3; pose proof (inForce_kept _ _ _ K3 I2) as I3; cbn in I3.
  2: { injection H as <- _ <-. apply Hnone; [|done]. apply outside_result in E3. by eapply (backup_plain (S:=S)). }
  set (options := MkOptions _ _ _ _ _ _) in H.
  assert (Hoptions : options_ok (S:=S) options).
  { split; [|split]; intros f Ho; cbn in Ho.
    - injection Ho as <-. intros w4. specialize (Hh w4). destruct (health w4) as [w5 [e5|]]; [exact Hh|].
      apply (managed_kept_trans _ _ _ Hh), (calm_kept _ (health_kept (S:=S))).
    - destruct (sharedOrigin cfg); [injection Ho as <-|done]. exact Hh.
    - injection Ho as <-. apply Hf. }
  assert (Hend : forall w4 result e0 kind, match buildDelta previous desired with
        | Some (sections, applyScript, rollbackScript) => (ApplyDelta (S:=S) applyScript rollbackScript options w3, KindDelta sections)
        | None => (ApplyCandidate (S:=S) desired previous options w3, KindFull) end = ((w4, result, e0), kind) -> routerOutcome e0 (w_x w4)).
  { intros w4 result e0 kind Ht. assert (Ho : outcome_ok (S:=S) options w3 w4 e0).
    { unfold scriptsMeant in Hm. destruct (buildDelta previous desired) as [[[sections a] b]|]; injection Ht as Ht _; destruct Hm as [M1 M2], I3 as [C3 S3].
      - by eapply ApplyDelta_ok.
      - by eapply ApplyCandidate_ok. }
    destruct e0 as [e0|]; cbn in *; [|destruct Ho as (? & [?|[]] & _); (split; [split|]; first [done|by left|by right])].
    destruct (TransactionFailureStateOf e0) as [[]|]; try done; [by destruct Ho|]. destruct Ho as (? & [?|[]]); (split; [|done]); [by left|by right]. }
  destruct (match buildDelta previous desired with Some _ => _ | None => _ end) as [[[w4 result] e0] kind] eqn:E4.
  specialize (Hend _ _ _ _ eq_refl). destruct e0 as [e0|]; [by injection H as <- _ <-|].
  pose proof (calm_kept _ (prune_kept (S:=S) cfg) w4) as K5. destruct (outside (ct_prune cfg) w4) as [w5 e5]. injection H as <- _ <-.
  cbn in *. destruct Hend as [Hi4 Hp4]. split; [by eapply inForce_kept|by eapply unguarded_kept].
Qed.

(** ** The whole Apply *)

Context (revisionFor : obj -> gostr) (now : gostr) (normalize : obj -> obj) (valid : obj -> bool).
Context (render : obj -> list json -> option gostr) (legacyCleanup : gostr -> gostr -> gostr).
Context (runtimeSubscriptionNodes : obj -> obj -> list json).
Local Abbreviation prepareApply := (prepareApply revisionFor now normalize valid render legacyCleanup runtimeSubscriptionNodes (X:=X) (C:=C) (Rc:=Rc)).

Lemma calm_prepare config : calm (prepareApply config).
Proof using ControlLaws0 RuntimeLaws0.
  unfold Apply.prepareApply, previousSource, routerOSPlanNodes, saveSubscriptionSnapshot, beginApplyRecovery.
  calmly; first [apply calm_call, catalog_kept|apply calm_callv, prepare_kept].
Qed.

Lemma calm_awaitTraffic p : calm (awaitTraffic (C:=C) now p).
Proof using ControlLaws0.
  unfold awaitTraffic. destruct ct_waitTraffic as [wait|] eqn:Ew; [|apply calm_ret]. intros w. cbv zeta. destruct (_ && _); [|apply managed_kept_refl].
  pose proof (calm_kept _ (traffic_kept (S:=S) wait (pl_config p) Ew) (storePlannedRuntime true w)) as K.
  destruct (outside _ (storePlannedRuntime true w)) as [w1 [e|]]; [|exact K]. eapply managed_kept_trans; [exact K|apply calm_finish].
Qed.

Definition routerResult (r : applied + applyError) (x : X) : Prop :=
  match r with
  | inl a => if ap_routerOSChanged a then inForce After x /\ unguarded x else inForce Before x
  | inr (ApplyFailure _ applyRolledBack _) => inForce Before x
  | inr (ApplyFailure _ _ _) => True
  | inr _ => inForce Before x
  end.
Definition performed (p : @plan C) (x : X) : Prop := if pl_routerOSChanged p then inForce After x /\ unguarded x else inForce Before x.
Definition planMeant (p : @plan C) : Prop := pl_routerOSChanged p = true -> scriptsMeant (pl_previousRouterOS p) (pl_desiredRouterOS p).

Lemma performed_kept p x x' : managed_kept x x' -> performed p x -> performed p x'.
Proof.
  intros K. unfold performed. destruct (pl_routerOSChanged p); [|by apply inForce_kept]. intros [H1 H2].
  split; [by eapply inForce_kept|by eapply unguarded_kept].
Qed.

Lemma failApply_result {B} code e (w w' : W) (r : B + applyError) :
  routerOutcome (Some e) (w_x w) -> failApply now code e w = (w', r) ->
  exists e', r = inr e' /\ routerResult (inr e') (w_x w').
Proof using RuntimeLaws0.
  intros Ho H. pose proof (calm_failApply (B:=B) now code e w) as K. rewrite H in K. cbn in K. unfold failApply in H.
  destruct (rollbackRuntime w) as [w1 re]. unfold classifyApplyFailure in H. injection H as Hw <-. eexists. split; [done|]. cbn.
  destruct re; [done|]. cbn in Ho. destruct (TransactionFailureStateOf e) as [[]|]; try done; by eapply inForce_kept.
Qed.

Lemma performApply_result p actor (w w' : W) r : planMeant p -> inForce Before (w_x w) ->
  performApply revisionFor now buildDelta sharedOrigin p actor (S:=S) w = (w', r) ->
  match r with inl _ => performed p (w_x w') | inr e => routerResult (inr e) (w_x w') end.
Proof using All.
  intros Hm Hi H. unfold performApply in H. unfold performed. destruct (pl_routerOSChanged p) eqn:Ech.
  - destruct (runRouterOSApply _ _ _ _ _ _ _ w) as [w1 [out e]] eqn:E1.
    assert (Ho : routerOutcome e (w_x w1)).
    { refine (routerApply_outcome _ _ _ _ _ _ _ _ _ _ _ (Hm Ech) Hi E1); [apply calm_toErr, calm_activateCandidate|].
      intros reference w2. apply (calm_toErr _ (calm_commitApply _ _ _ _ reference) (setBackup reference w2)). }
    destruct e as [e|]; [|by injection H as <- <-]. destruct (failApply_result _ _ _ _ _ Ho H) as (e' & -> & He). exact He.
  - assert (Hfail : forall (w1 : W) code e, inForce Before (w_x w1) -> failApply now code e w1 = (w', r) ->
      match r with inl _ => inForce Before (w_x w') | inr e => routerResult (inr e) (w_x w') end).
    { intros w1 code e Hw1 E. destruct (failApply_result code e w1 w' r) as (e' & -> & He); [cbn; by destruct (TransactionFailureStateOf e) as [[]|]|done|done]. }
    unfold bind, attempt in H. pose proof (calm_activateCandidate now (pl_config p) (pl_candidate p) false w) as K1.
    destruct (activateCandidate _ _ _ _ w) as [w1 [u|e]]; pose proof (inForce_kept _ _ _ K1 Hi) as I1; cbn in I1; [|by eapply Hfail].
    pose proof (calm_commitApply revisionFor now (planMetadata now p actor) (pl_candidate p) (pl_backup p) w1) as K2.
    destruct (commitApply _ _ _ _ _ w1) as [w2 [u2|e]]; pose proof (inForce_kept _ _ _ K2 I1) as I2; cbn in I2; [|by eapply Hfail].
    by injection H as <- <-.
Qed.

Lemma awaitTraffic_error p (w w' : W) e : awaitTraffic (C:=C) now p w = (w', inr e) -> exists cause, e = ApplyFailure 409 applyRecoveryPending cause.
Proof.
  unfold awaitTraffic. destruct ct_waitTraffic as [wait|]; [|done]. cbv zeta. destruct (_ && _); [|done].
  destruct (outside _ _) as [w1 [e1|]]; [|done]. intros [= _ <-]. by eexists.
Qed.

Lemma applyPlan_result p actor (w w' : W) r : planMeant p -> inForce Before (w_x w) ->
  applyPlan revisionFor now buildDelta sharedOrigin p actor (S:=S) w = (w', r) -> routerResult r (w_x w').
Proof using All.
  intros Hm Hi H. unfold applyPlan, step, bind in H.
  destruct (performApply _ _ _ _ p actor _) as [w1 r1] eqn:E1.
  pose proof (performApply_result p actor (setBackup (pl_backup p) w) w1 r1 Hm Hi E1) as H1.
  destruct r1 as [[[kind mode] cl]|e]; [|by injection H as <- <-].
  pose proof (calm_awaitTraffic p w1) as K2. destruct (awaitTraffic now p w1) as [w2 [u|e]] eqn:E2.
  2: { injection H as <- <-. destruct (awaitTraffic_error _ _ _ _ E2) as [cause ->]. done. }
  pose proof (performed_kept _ _ _ K2 H1) as H2. cbn in H2. clear H1 K2.
  assert (K3 : calm (saveDraft (W:=W) revisionFor (pl_config p))) by (unfold saveDraft; calmly).
  unfold attempt in H. specialize (K3 w2). destruct (saveDraft revisionFor (pl_config p) w2) as [w3 r3].
  pose proof (performed_kept _ _ _ K3 H2) as H3. cbn in H3. clear H2 K3.
  set (w4 := match r3 with inl _ => fun w => w | inr _ => setCleanup end w3) in H.
  assert (H4 : performed p (w_x w4)) by by destruct r3.
  set (w5 := outside_ _ w4) in H. assert (H5 : performed p (w_x w5)) by (eapply performed_kept; [|exact H4]; apply (logging_kept (S:=S))).
  destruct (runtimeCommitErr (w_vars w5)) as [e|]; [by injection H as <- <-|].
  pose proof (calm_clear w5) as K6. destruct (clearApplyRecovery w5) as [w6 r6]. pose proof (performed_kept _ _ _ K6 H5) as H6. cbn in H6.
  injection H as <- <-. unfold routerResult. cbn [ap_routerOSChanged]. by destruct r6.
Qed.

Lemma applyConfiguration_result config actor (w w' : W) r :
  (forall w1 p, prepareApply config (set_vars noVars w) = (w1, inl (inr p)) -> planMeant p) -> inForce Before (w_x w) ->
  applyConfiguration revisionFor now normalize valid render legacyCleanup buildDelta sharedOrigin runtimeSubscriptionNodes (S:=S) config actor w = (w', r) ->
  routerResult r (w_x w').
Proof using All.
  intros Hm Hi H. unfold applyConfiguration, bind in H. pose proof (calm_prepare config (set_vars noVars w)) as K1.
  destruct (prepareApply config (set_vars noVars w)) as [w1 [[a|p]|e]] eqn:E1; pose proof (inForce_kept _ _ _ K1 Hi) as I1; cbn in I1.
  - pose proof (prepare_shaped _ _ _ _ _ _ _ _ _ _ _ E1) as Ha. injection H as <- <-. cbn in *. by rewrite Ha.
  - destruct (applyPlan _ _ _ _ p actor w1) as [w2 r2] eqn:E2. injection H as <- <-.
    exact (applyPlan_result _ _ _ _ _ (Hm _ _ eq_refl) I1 E2).
  - pose proof (prepare_shaped _ _ _ _ _ _ _ _ _ _ _ E1) as He. injection H as <- <-. by destruct e.
Qed.
End Router.
