(* ===== verification/RouterGuardSafety.v ===== *)
(** * The rollback guard keeps its contract

    [RouterLaws] states the documented behaviour of the RouterOS REST interface:
    what listing, creating and removing schedulers and installing scripts does to
    the router, and which replies leave that open.  A guard whose time comes fires
    by itself, at any point: it restores the configuration and removes its own
    row, so the laws speak about the scheduler table unless a guard has fired
    since the run began.  From it the client code of
    [RouterGuard] satisfies [GuardLaws], so that the theorem about transactions
    holds for the code as composed.  A simulated router satisfies the laws. *)

From Stdlib Require Import String.
From S2P Require Import Prelude GoBase GoRegexp GoText RouterTransaction RouterGuard RouterTransactionSafety.
Open Scope Z_scope.

(** What the router holds: its scheduler table by identifier, its clock, and the
    rest of the view of a transaction. *)
Class RouterDevice (W S : Type) := {
  schedulers : W -> gmap gostr row; deviceClock : W -> Z; dv_fired : W -> Prop; dv_lost : W -> Prop; dv_conf : W -> config; dv_stable : W -> Prop;
  dv_ready : W -> scriptRole -> gostr -> Prop; dv_uploaded : W -> scriptRole -> gostr -> Prop; dv_opened : S -> W -> Prop;
  dv_undoing : W -> Prop; dv_meant : scriptRole -> gostr -> Prop;
}.

Definition armed (r : row) : bool := ownedGuard r && unfired r.
Definition armedNames (t : gmap gostr row) : list gostr :=
  (fun r => text r (bs "name")) <$> filter (fun r => armed r = true) (map_to_list t).*2.

#[export] Instance deviceView {W S} `{RouterDevice W S} : TransactionView W S := {
  fired := dv_fired; pending w := armedNames (schedulers w); lost := dv_lost; conf := dv_conf; stable := dv_stable; ready := dv_ready;
  uploaded := dv_uploaded; opened := dv_opened; undoing := dv_undoing; meant := dv_meant }.

(** The rows a listing returns. *)
Definition listing (t : gmap gostr row) : list row := (fun p => <[bs ".id" := p.1]> p.2) <$> map_to_list t.

Section Laws.
Context {W S : Type} `{!RouterRest W, !RouterDevice W S}.

Definition router_kept (w w' : W) : Prop :=
  (fired w' \/ schedulers w' = schedulers w) /\ (lost w -> lost w') /\ config_kept w w' /\ deviceClock w <= deviceClock w'.
Definition harmless_error (e : goerr) : Prop := plain e /\ is_guard_error e = false.
(** A scheduler was created from a payload. *)
Definition created (p : row) (w w' : W) : Prop :=
  exists id, schedulers w !! id = None /\ schedulers w' = <[id := <[bs "run-count" := bs "0"]> p]> (schedulers w).
(** A script source that belongs to one side: rendered, or the import of an
    uploaded file of that side. *)
Definition establishes (w : W) (r : scriptRole) (source : gostr) : Prop :=
  meant r source \/ exists f, uploaded w r f /\ source = importSource f.

Class RouterLaws : Prop := {
  list_kept r w : router_kept w (rest_list r w).1;
  list_refused r w w' e : rest_list r w = (w', inr e) -> harmless_error e;
  list_listing w w' rows : rest_list Schedulers w = (w', inl rows) -> fired w' \/ rows ≡ₚ listing (schedulers w');
  list_ids w w' rows : rest_list Schedulers w = (w', inl rows) -> Forall (fun r => text r (bs ".id") <> []) rows;
  history_settled w w' rows : rest_list History w = (w', inl rows) -> isFloating rows = false ->
    stable w' /\ (undoing w -> confIs w' Before);
  history_floating w w' rows : rest_list History w = (w', inl rows) -> isFloating rows = true -> undoing w -> undoing w';
  nonce_kept w : router_kept w (readNonce w).1;
  nonce_length w w' nonce : readNonce w = (w', Some nonce) -> length nonce = 4%nat;
  time_kept w : router_kept w (timeNow w).1 /\ (undoing w -> undoing (timeNow w).1);
  time_clock w : (timeNow w).2 = deviceClock (timeNow w).1;
  sleep_kept d w : router_kept w (sleep d w).1 /\ (undoing w -> undoing (sleep d w).1);
  sleep_clock d w w' : sleep d w = (w', None) -> deviceClock w + d <= deviceClock w';
  put_scheduler_kept p w : config_kept w (rest_put Schedulers p w).1 /\ (lost w -> lost (rest_put Schedulers p w).1);
  put_scheduler p w w' r : rest_put Schedulers p w = (w', inl r) -> fired w' \/ created p w w';
  put_scheduler_refused p w w' e : rest_put Schedulers p w = (w', inr e) ->
    harmless_error e /\ (fired w' \/ schedulers w' = schedulers w \/ (DefinitiveRequestRejection e = false /\ created p w w'));
  delete_scheduler_kept id w : config_kept w (rest_delete Schedulers id w).1 /\ (lost w -> lost (rest_delete Schedulers id w).1);
  delete_scheduler id w w' : rest_delete Schedulers id w = (w', None) -> fired w' \/ schedulers w' = delete id (schedulers w);
  delete_scheduler_refused id w w' e : rest_delete Schedulers id w = (w', Some e) -> fired w' \/ schedulers w' = schedulers w \/ lost w';
  (* managed names are content-addressed: installing one leaves the others ready *)
  put_script_kept r src w : router_kept w (rest_put Scripts (scriptPayload (managedScriptName r src) src) w).1;
  patch_script_kept id r src w : router_kept w (rest_patch Scripts id (scriptPayload (managedScriptName r src) src) w).1;
  put_script r src w w' x : rest_put Scripts (scriptPayload (managedScriptName r src) src) w = (w', inl x) ->
    establishes w r src -> ready w' r (managedScriptName r src);
  patch_script id r src w w' x : rest_patch Scripts id (scriptPayload (managedScriptName r src) src) w = (w', inl x) ->
    establishes w r src -> ready w' r (managedScriptName r src);
  put_script_refused p w w' e : rest_put Scripts p w = (w', inr e) -> harmless_error e;
  patch_script_refused id p w w' e : rest_patch Scripts id p w = (w', inr e) -> harmless_error e;
}.
End Laws.
Arguments RouterLaws W S {_ _}.

(** ** Rows *)

Lemma text_id r id key : key <> bs ".id" -> text (<[bs ".id" := id]> r) key = text r key.
Proof. intros H. unfold text. by rewrite lookup_insert_ne. Qed.

Lemma armed_id r id : armed (<[bs ".id" := id]> r) = armed r.
Proof. unfold armed, ownedGuard, unfired. by rewrite !text_id by (vm_compute; discriminate). Qed.

Lemma listing_elem t r : r ∈ listing t <-> exists id x, t !! id = Some x /\ r = <[bs ".id" := id]> x.
Proof.
  unfold listing. rewrite list_elem_of_fmap. split.
  - intros ([id x] & -> & H%elem_of_map_to_list). eauto.
  - intros (id & x & H & ->). exists (id, x). split; [done|]. by apply elem_of_map_to_list.
Qed.

Lemma armedNames_nil t : armedNames t = [] <-> forall id r, t !! id = Some r -> armed r = false.
Proof.
  unfold armedNames. split.
  - intros H%fmap_nil_inv id r Hr. destruct (armed r) eqn:E; [|done].
    assert (r ∈ filter (fun r => armed r = true) (map_to_list t).*2) as Hin; [|by rewrite H in Hin; apply elem_of_nil in Hin].
    apply list_elem_of_filter. split; [done|]. apply list_elem_of_fmap. exists (id, r). split; [done|]. by apply elem_of_map_to_list.
  - intros H. destruct (filter (fun r => armed r = true) (map_to_list t).*2) as [|r l] eqn:E; [done|].
    assert (r ∈ filter (fun r => armed r = true) (map_to_list t).*2) as Hin by (rewrite E; set_solver).
    apply list_elem_of_filter in Hin as [Ha Hin]. apply list_elem_of_fmap in Hin as ([id x] & -> & Hx%elem_of_map_to_list).
    simpl in *. by rewrite (H _ _ Hx) in Ha.
Qed.

Lemma armedNames_insert t id r : t !! id = None ->
  armedNames (<[id:=r]> t) ≡ₚ (if armed r then [text r (bs "name")] else []) ++ armedNames t.
Proof.
  intros H. unfold armedNames. rewrite map_to_list_insert by done. simpl. rewrite filter_cons. by destruct (armed r).
Qed.

Lemma armedNames_delete t id r : t !! id = Some r ->
  armedNames t ≡ₚ (if armed r then [text r (bs "name")] else []) ++ armedNames (delete id t).
Proof.
  intros H. rewrite <- (insert_delete_id t id r H) at 1. apply armedNames_insert. apply lookup_delete_eq.
Qed.

(** The search for an owned row finds the only row of its name. *)
Lemma findOwned_none name comment rows : forall id, id <> [] -> forall x, findOwned name comment rows id = inl x ->
  x = id /\ Forall (fun r => text r (bs "name") <> name) rows.
Proof.
  induction rows as [|r rows IH]; intros id Hid x H; simpl in H; [by injection H as <-|].
  destruct (bool_decide_reflect (text r (bs "name") = name)) as [E|E]; simpl in H.
  - rewrite bool_decide_eq_false_2 in H by done. done.
  - destruct (IH _ Hid _ H). by split; [|constructor].
Qed.

Lemma findOwned_spec name comment rows x :
  Forall (fun r => text r (bs ".id") <> []) rows -> findOwned name comment rows [] = inl x ->
  (x = [] /\ Forall (fun r => text r (bs "name") <> name) rows) \/
  (x <> [] /\ exists l1 r l2, rows = l1 ++ r :: l2 /\ text r (bs "name") = name /\ text r (bs "comment") = comment /\ text r (bs ".id") = x /\
     Forall (fun r => text r (bs "name") <> name) (l1 ++ l2)).
Proof.
  induction rows as [|r rows IH]; intros Hid H; simpl in H; [left; by injection H as <-|].
  apply Forall_cons in Hid as [Hr Hid]. destruct (bool_decide_reflect (text r (bs "name") = name)) as [E|E]; simpl in H.
  - destruct (bool_decide_reflect (text r (bs "comment") = comment)) as [Ec|Ec]; simpl in H; [|done]. right.
    apply findOwned_none in H as [-> Hn]; [|done]. split; [done|]. by exists [], r, rows.
  - destruct (IH Hid H) as [[-> Hn]|(Hx & l1 & r1 & l2 & -> & H1 & H2 & H3 & Hn)]; [left; by split; [|constructor]|right].
    split; [done|]. exists (r :: l1), r1, l2. split; [done|]. do 3 (split; [done|]). simpl. by constructor.
Qed.

(** ** The name of a new guard *)

Lemma hexdigits_hex b : length (hexdigits b) = 2%nat /\ forallb is_hex (hexdigits b) = true.
Proof. destruct b; vm_compute; done. Qed.

Lemma hexEncode_hex l : length (hexEncode l) = (2 * length l)%nat /\ forallb is_hex (hexEncode l) = true.
Proof.
  induction l as [|b l [IH1 IH2]]; [done|]. unfold hexEncode. rewrite fmap_cons. cbn [concat].
  destruct (hexdigits_hex b) as [H1 H2]. rewrite length_app, forallb_app, H1, H2. fold (hexEncode l). rewrite IH1, IH2. simpl. split; [lia|done].
Qed.

Lemma guardName_pattern nonce : length nonce = 4%nat -> MatchString rollbackSchedulerNamePattern (guardPrefix ++ hexEncode nonce) = true.
Proof.
  intros Hl. apply prefix_rep_match. exists (hexEncode nonce). destruct (hexEncode_hex nonce) as [H1 H2].
  split; [done|]. split; [lia|done].
Qed.

Lemma guardPayload_fields `{!RouterRest W} script resume import name runAt :
  text (<[bs "run-count" := bs "0"]> (guardPayload script resume import name runAt)) (bs "name") = name /\
  text (<[bs "run-count" := bs "0"]> (guardPayload script resume import name runAt)) (bs "comment") = rollbackSchedulerComment /\
  text (<[bs "run-count" := bs "0"]> (guardPayload script resume import name runAt)) (bs "run-count") = bs "0".
Proof.
  unfold text, guardPayload. split; [|split]; rewrite ?lookup_insert_eq; [| |done];
    repeat (rewrite lookup_insert_ne by (vm_compute; discriminate)); by rewrite ?lookup_insert_eq.
Qed.

Lemma new_guard_armed `{!RouterRest W} script resume import nonce runAt :
  length nonce = 4%nat -> armed (<[bs "run-count" := bs "0"]> (guardPayload script resume import (guardPrefix ++ hexEncode nonce) runAt)) = true.
Proof.
  intros Hl. destruct (guardPayload_fields script resume import (guardPrefix ++ hexEncode nonce) runAt) as (E1 & E2 & E3).
  unfold armed, ownedGuard, unfired. rewrite E1, E2, E3, (guardName_pattern nonce Hl). by rewrite bool_decide_eq_true_2.
Qed.

(** ** The client code against the laws *)

Section Client.
Context {W S : Type} `{!RouterRest W, !ConsoleOps W S, !RouterDevice W S, !RouterLaws W S}.

Lemma router_kept_refl (w : W) : router_kept w w.
Proof. repeat split; auto; lia. Qed.

Lemma router_kept_fired (w w' : W) : router_kept w w' -> fired w -> fired w'.
Proof. intros (_ & _ & (F & _) & _). exact F. Qed.

Lemma router_kept_trans (w1 w2 w3 : W) : router_kept w1 w2 -> router_kept w2 w3 -> router_kept w1 w3.
Proof.
  intros (E1 & L1 & C1 & T1) (E2 & L2 & C2 & T2). split; [|split; [auto|split; [by eapply config_kept_trans|lia]]].
  destruct E1 as [?|E1], E2 as [?|E2]; auto; [left; by apply C2|right; congruence].
Qed.

Lemma router_kept_guard (w w' : W) : router_kept w w' -> guard_kept w w' /\ config_kept w w'.
Proof.
  intros (E & L & C & _). split; [|done]. split; [apply C|]. split; [|done]. destruct E as [?|E]; [by left|right]. simpl. by rewrite E.
Qed.

Lemma ensure_spec w w' e : ensureNoPending w = (w', e) ->
  router_kept w w' /\ match e with
                      | None => pendingIs w' []
                      | Some e => plain e /\ (is_guard_error e = true -> fired w' \/ pending w' <> [])
                      end.
Proof using RouterLaws0.
  unfold ensureNoPending. pose proof (list_kept Schedulers w) as K. destruct (rest_list Schedulers w) as [w1 [rows|e1]] eqn:E; simpl in K.
  - intros [= <- <-]. split; [done|]. destruct (list_listing _ _ _ E) as [Hfd|Hp]; [destruct (existsb _ rows); [|by left]; split; auto; done|].
    destruct (existsb (fun r => ownedGuard r && unfired r) rows) eqn:Ex.
    + split; [done|]. intros _. right. apply existsb_exists in Ex as (r & Hin & Hr). apply list_elem_of_In in Hin.
      rewrite Hp in Hin. apply listing_elem in Hin as (id & x & Hx & ->). intros Hn.
      change (armedNames (schedulers w1) = []) in Hn. rewrite armedNames_nil in Hn. specialize (Hn _ _ Hx).
      change (armed (<[bs ".id" := id]> x) = true) in Hr. rewrite armed_id in Hr. congruence.
    + right. apply armedNames_nil. intros id x Hx. destruct (armed x) eqn:Ea; [|done].
      assert (existsb (fun r => ownedGuard r && unfired r) rows = true); [|congruence].
      apply existsb_exists. exists (<[bs ".id" := id]> x). split; [|change (armed (<[bs ".id" := id]> x) = true); by rewrite armed_id].
      apply list_elem_of_In. rewrite Hp. apply listing_elem. eauto.
  - intros [= <- <-]. split; [done|]. destruct (list_refused _ _ _ _ E) as [Hpl Hg]. split; [done|]. congruence.
Qed.

Lemma install_spec role source w w' x : installManagedScript (managedScriptName role source) source w = (w', x) ->
  router_kept w w' /\ match x with
                      | inl _ => establishes w role source -> ready w' role (managedScriptName role source)
                      | inr e => harmless_error e
                      end.
Proof using RouterLaws0.
  set (name := managedScriptName role source). unfold installManagedScript. destruct (MatchString managedNamePattern name); simpl.
  2: { intros [= <- <-]. split; [apply router_kept_refl|done]. }
  pose proof (list_kept Scripts w) as K. destruct (rest_list Scripts w) as [w1 [rows|e1]] eqn:E; simpl in K.
  2: { intros [= <- <-]. split; [done|by eapply list_refused]. }
  assert (He : establishes w role source -> establishes w1 role source).
  { intros [Hm|(f & Hf & ->)]; [by left|right]. exists f. split; [|done]. destruct K as (_ & _ & (_ & _ & _ & [_ Hu] & _) & _). by apply Hu. }
  destruct (findOwned _ _ rows []) as [[|c id]|e1] eqn:Ef.
  - pose proof (put_script_kept role source w1) as K2. fold name in K2.
    destruct (rest_put Scripts (scriptPayload name source) w1) as [w2 [r|e2]] eqn:E2; simpl in K2.
    + assert (router_kept w w2) by (by eapply router_kept_trans).
      destruct (text r (bs ".id")); intros [= <- <-]; (split; [done|]); [done|]. intros H2. eapply put_script; [exact E2|auto].
    + intros [= <- <-]. split; [by eapply router_kept_trans|]. by eapply put_script_refused.
  - pose proof (patch_script_kept (c :: id) role source w1) as K2. fold name in K2.
    destruct (rest_patch Scripts (c :: id) (scriptPayload name source) w1) as [w2 [r|e2]] eqn:E2; simpl in K2;
      intros [= <- <-]; (split; [by eapply router_kept_trans|]); [|by eapply patch_script_refused].
    intros H2. eapply patch_script; [exact E2|auto].
  - intros [= <- <-]. split; [done|].
    assert (forall rows id e, findOwned name (bs "SB-GATEWAY managed script " ++ name) rows id = inr e -> e = Plain) as Hf.
    { induction rows0 as [|r rows0 IH]; intros id e H; simpl in H; [done|]. repeat case_match; simplify_eq; eauto. }
    by rewrite (Hf _ _ _ Ef).
Qed.

Lemma direct_spec r src w w' x : prepareDirectDelta r src w = (w', x) ->
  router_kept w w' /\ match x with inl n => establishes w r src -> ready w' r n | inr e => plain e end.
Proof using RouterLaws0.
  unfold prepareDirectDelta. destruct (validateDirectDelta src) as [e|] eqn:Ev.
  - intros [= <- <-]. split; [apply router_kept_refl|]. unfold validateDirectDelta, checkImportedDelta in Ev.
    repeat case_match; by simplify_eq.
  - destruct (installManagedScript _ src w) as [w1 [id|e]] eqn:Ei; intros [= <- <-];
      destruct (install_spec _ _ _ _ _ Ei) as [K H]; (split; [done|]); [auto|by destruct H].
Qed.

Lemma import_spec r f w w' x : prepareImportScript r f w = (w', x) ->
  router_kept w w' /\ match x with inl n => uploaded w r f -> ready w' r n | inr e => plain e end.
Proof using RouterLaws0.
  unfold prepareImportScript. destruct (_ || _).
  - intros [= <- <-]. split; [apply router_kept_refl|done].
  - destruct (installManagedScript _ (importSource f) w) as [w1 [id|e]] eqn:Ei; intros [= <- <-];
      destruct (install_spec _ _ _ _ _ Ei) as [K H]; (split; [done|]); [|by destruct H].
    intros Hu. apply H. right. eauto.
Qed.

(** ** Arming *)

(** The row of the clock that arming reads, and the time in it. *)
Definition clock_read (w : W) (t : Z) : Prop :=
  exists w1 w2 clock, ensureNoPending w = (w1, None) /\ rest_list Clock w1 = (w2, inl [clock]) /\
    parseRouterOSClock (text clock (bs "date")) (text clock (bs "time")) = Some t.

(** What arming leaves: the configuration, and the guards unless the error says
    that one may be there. *)
Definition arm_kept (w w' : W) (x : gostr + goerr) : Prop :=
  config_kept w w' /\ (lost w -> lost w') /\
  match x with
  | inl s => pendingIs w' [s]
  | inr e => plain e /\ (is_guard_error e = false -> fired w' \/ pending w' = pending w)
  end.

Lemma arm_kept_plain w w1 e : router_kept w w1 -> plain e -> arm_kept w w1 (inr e).
Proof. intros K He. destruct (router_kept_guard _ _ K) as [(_ & P & L) C]. done. Qed.

(** A new row that the router recognizes as a guard. *)
Lemma created_pending n g f nonce runAt w w' : length nonce = 4%nat -> pendingIs w [] -> (fired w -> fired w') ->
  let name := guardPrefix ++ hexEncode nonce in
  created (guardPayload n g f name runAt) w w' -> pendingIs w' [name].
Proof.
  intros Hl [Hf|Hp] F name (id & Hn & E); [left; auto|right]. simpl in *. rewrite E.
  set (p := guardPayload n g f name runAt). pose proof (armedNames_insert (schedulers w) id (<[bs "run-count" := bs "0"]> p) Hn) as Hperm.
  unfold p in Hperm at 2. unfold name in Hperm at 1. rewrite (new_guard_armed n g f nonce runAt Hl) in Hperm.
  destruct (guardPayload_fields n g f name runAt) as (En & _). rewrite Hp, app_nil_r in Hperm. unfold p in Hperm at 2. rewrite En in Hperm.
  by apply Permutation_singleton_r in Hperm.
Qed.

Lemma arm_spec n d g f w w' x : armRollback n d g f w = (w', x) ->
  arm_kept w w' x /\
  (forall s, x = inl s -> exists t nonce w1, clock_read w t /\ length nonce = 4%nat /\ s = guardPrefix ++ hexEncode nonce /\
     router_kept w w1 /\ (fired w' \/ created (guardPayload n g f s (t + clampDelay d)) w1 w') /\ (fired w' \/ pending w = [])).
Proof using RouterLaws0.
  assert (Hplain : forall w1 e, router_kept w w1 -> plain e -> (w1, @inr gostr goerr e) = (w', x) ->
    arm_kept w w' x /\ forall s, x = inl s -> exists t nonce w1, clock_read w t /\ length nonce = 4%nat /\ s = guardPrefix ++ hexEncode nonce /\
      router_kept w w1 /\ (fired w' \/ created (guardPayload n g f s (t + clampDelay d)) w1 w') /\ (fired w' \/ pending w = [])).
  { intros w1 e K He [= <- <-]. split; [by apply arm_kept_plain|done]. }
  unfold armRollback. destruct (_ || _); [apply Hplain; [apply router_kept_refl|done]|].
  destruct (_ && _); [apply Hplain; [apply router_kept_refl|done]|].
  destruct (ensureNoPending w) as [w1 [e1|]] eqn:E1; destruct (ensure_spec _ _ _ E1) as [K1 H1]; [apply Hplain; [done|apply H1]|].
  pose proof (list_kept Clock w1) as K2. destruct (rest_list Clock w1) as [w2 [rows|e2]] eqn:E2; simpl in K2;
    pose proof (router_kept_trans _ _ _ K1 K2) as K12; [|apply Hplain; [done|apply (list_refused _ _ _ _ E2)]].
  destruct rows as [|clock [|? ?]]; try by apply Hplain.
  destruct (parseRouterOSClock _ _) as [t|] eqn:Et; [|by apply Hplain].
  pose proof (nonce_kept w2) as K3. destruct (readNonce w2) as [w3 [nonce|]] eqn:E3; simpl in K3;
    pose proof (router_kept_trans _ _ _ K12 K3) as K13; [|by apply Hplain].
  pose proof (nonce_length _ _ _ E3) as Hl. set (name := guardPrefix ++ hexEncode nonce).
  set (p := guardPayload n g f name (t + clampDelay d)). pose proof (put_scheduler_kept p w3) as [C4 L4].
  pose proof (router_kept_trans _ _ _ K2 K3) as K23. destruct (router_kept_guard _ _ K13) as [(_ & P3 & L3) C3].
  pose proof (pendingIs_kept _ _ _ (proj1 (router_kept_guard _ _ K23)) H1) as Hp3.
  destruct (rest_put Schedulers p w3) as [w4 [r|e4]] eqn:E4; simpl in C4, L4; intros [= <- <-].
  - pose proof (put_scheduler _ _ _ _ E4) as Hcr. split.
    + split; [by eapply config_kept_trans|]. split; [intros Hlost; apply L4, L3, Hlost|].
      destruct Hcr as [?|Hcr]; [by left|]. by eapply created_pending; [..|apply C4|exact Hcr].
    + intros s [= <-]. exists t, nonce, w3. split; [by exists w1, w2, clock|]. do 4 (split; [done|]).
      destruct P3 as [?|P3], Hp3 as [?|Hp3]; try (left; by apply C4). right. congruence.
  - split; [|done]. split; [by eapply config_kept_trans|]. split; [intros Hlost; apply L4, L3, Hlost|].
    destruct (put_scheduler_refused _ _ _ _ E4) as ([Hpl Hg] & Hs). destruct (DefinitiveRequestRejection e4) eqn:Ed; [|done].
    split; [done|]. intros _. destruct Hs as [?|[Hs|[? _]]]; [by left| |done]. destruct P3 as [?|P3]; [left; by apply C4|right].
    simpl in *. by rewrite Hs.
Qed.

(** ** Disarming *)

(** The row a successful search finds is a row of the table. *)
Lemma found_row t rows l1 r l2 id : rows ≡ₚ listing t -> rows = l1 ++ r :: l2 -> text r (bs ".id") = id -> exists y, t !! id = Some y /\ r = <[bs ".id" := id]> y.
Proof.
  intros Hperm -> Hid. assert (Hin : r ∈ listing t) by (rewrite <- Hperm; set_solver).
  apply listing_elem in Hin as (id' & y & Hy & ->). unfold text in Hid. rewrite lookup_insert_eq in Hid. simpl in Hid. subst id'. eauto.
Qed.

(** Removing the only row with the name of the only armed guard leaves none. *)
Lemma delete_only t id y s l1 l2 : listing t ≡ₚ l1 ++ <[bs ".id" := id]> y :: l2 -> Forall (fun r => text r (bs "name") <> s) (l1 ++ l2) ->
  armedNames t = [s] -> armedNames (delete id t) = [].
Proof.
  intros Hperm Hn Hp. apply armedNames_nil. intros id' z Hz. destruct (armed z) eqn:Ez; [|done]. exfalso.
  apply lookup_delete_Some in Hz as [Hne Hz].
  assert (Hzn : text z (bs "name") = s).
  { assert (text z (bs "name") ∈ armedNames t) as Hin; [|rewrite Hp in Hin; set_solver].
    unfold armedNames. apply list_elem_of_fmap. exists z. split; [done|]. apply list_elem_of_filter. split; [done|].
    apply list_elem_of_fmap. exists (id', z). split; [done|]. by apply elem_of_map_to_list. }
  assert (Hin : <[bs ".id" := id']> z ∈ l1 ++ <[bs ".id" := id]> y :: l2) by (rewrite <- Hperm; apply listing_elem; eauto).
  assert (Hin2 : <[bs ".id" := id']> z ∈ l1 ++ l2).
  { apply elem_of_app in Hin as [Hin|Hin]; [apply elem_of_app; by left|]. apply elem_of_cons in Hin as [Heq|Hin]; [|apply elem_of_app; by right].
    exfalso. apply (f_equal (fun r => text r (bs ".id"))) in Heq. unfold text in Heq. rewrite !lookup_insert_eq in Heq. simpl in Heq. done. }
  rewrite Forall_forall in Hn. apply (Hn _ Hin2). rewrite text_id by (vm_compute; discriminate). done.
Qed.

(** A name without a row is not armed. *)
Lemma absent_not_armed t rows s : rows ≡ₚ listing t -> Forall (fun r => text r (bs "name") <> s) rows -> armedNames t <> [s].
Proof.
  intros Hperm Hn Hp. assert (s ∈ armedNames t) as Hs by (rewrite Hp; set_solver).
  unfold armedNames in Hs. apply list_elem_of_fmap in Hs as (r & Hr & [_ Hin]%list_elem_of_filter).
  apply list_elem_of_fmap in Hin as ([id r'] & -> & Hin%elem_of_map_to_list). simpl in Hr.
  rewrite Hperm, Forall_forall in Hn. apply (Hn (<[bs ".id" := id]> r')); [apply listing_elem; eauto|].
  by rewrite text_id by (vm_compute; discriminate).
Qed.

Lemma disarm_spec s w w' e : disarmRollback s w = (w', e) ->
  config_kept w w' /\ (lost w -> lost w') /\
  match e with
  | None => pendingIs w [s] -> pendingIs w' []
  | Some _ => fired w' \/ pending w' = pending w \/ lost w'
  end.
Proof using RouterLaws0.
  assert (Hkeep : forall w1, router_kept w w1 -> config_kept w w1 /\ (lost w -> lost w1) /\ (fired w1 \/ pending w1 = pending w \/ lost w1)).
  { intros w1 K. destruct (router_kept_guard _ _ K) as [(_ & [?|P] & L) C]; auto. }
  unfold disarmRollback. destruct (MatchString rollbackSchedulerNamePattern s); simpl.
  2: { intros [= <- <-]. apply Hkeep, router_kept_refl. }
  pose proof (list_kept Schedulers w) as K. destruct (rest_list Schedulers w) as [w1 [rows|e1]] eqn:E1; simpl in K; destruct (Hkeep _ K) as (C1 & L1 & P1).
  2: by intros [= <- <-].
  destruct (findOwned s rollbackSchedulerComment rows []) as [x|e2] eqn:Ef; [|by intros [= <- <-]].
  pose proof (pendingIs_kept _ _ [s] (proj1 (router_kept_guard _ _ K))) as Hp1.
  apply findOwned_spec in Ef as [[-> Hn]|(Hx & l1 & r & l2 & Er & Hname & Hcomment & Hid & Hn)]; [| |by eapply list_ids].
  - intros [= <- <-]. split; [done|]. split; [done|]. intros Hp0. destruct (Hp1 Hp0) as [?|Hp]; [by left|].
    destruct (list_listing _ _ _ E1) as [?|Hperm]; [by left|]. destruct (absent_not_armed _ _ _ Hperm Hn Hp).
  - destruct x as [|c x]; [done|]. set (id := c :: x) in *.
    pose proof (delete_scheduler_kept id w1) as [C2 L2].
    destruct (rest_delete Schedulers id w1) as [w2 [e2|]] eqn:E2; simpl in C2, L2; intros [= <- <-];
      (split; [by eapply config_kept_trans|]); (split; [intros Hlost; apply L2, L1, Hlost|]).
    + destruct (delete_scheduler_refused _ _ _ _ E2) as [?|[Hs|Hs]]; [by left| |by right; right].
      destruct P1 as [?|[P1|?]]; [left; by apply C2| |right; right; auto]. right. left. simpl in *. by rewrite Hs.
    + intros Hp0. destruct (delete_scheduler _ _ _ E2) as [?|Hd]; [by left|].
      destruct (Hp1 Hp0) as [?|Hp]; [left; by apply C2|]. destruct (list_listing _ _ _ E1) as [?|Hperm]; [left; by apply C2|].
      destruct (found_row _ _ _ _ _ _ Hperm Er Hid) as (y & Hy & Ery). right. simpl. rewrite Hd. eapply delete_only; [|exact Hn|exact Hp].
      by rewrite <- Hperm, Er, Ery.
Qed.

(** ** Waiting *)

(** What the polls keep, and what the end of the wait shows. *)
Definition wait_ok (w : W) (x : W * err) : Prop :=
  router_kept w x.1 /\ (x.2 = None -> stable x.1 /\ (undoing w -> confIs x.1 Before)).

Lemma settle_spec fuel deadline : forall w x, settle_loop fuel deadline w = Ret x -> wait_ok w x.
Proof using RouterLaws0.
  induction fuel as [|fuel IH]; intros w x H; [done|]. simpl in H.
  pose proof (list_kept History w) as K. destruct (rest_list History w) as [w1 [rows|e]] eqn:E; simpl in K.
  2: { injection H as <-. by split. }
  destruct (isFloating rows) eqn:Ef; simpl in H.
  2: { injection H as <-. split; [done|]. intros _. exact (history_settled _ _ _ E Ef). }
  pose proof (history_floating _ _ _ E Ef) as Hu. pose proof (time_kept w1) as [K2 Hu2].
  destruct (timeNow w1) as [w2 now]; simpl in *.
  destruct (time_sub deadline now <=? 0). { injection H as <-. split; [by eapply router_kept_trans|done]. }
  pose proof (sleep_kept (Z.min pollInterval (time_sub deadline now)) w2) as [K3 Hu3].
  destruct (sleep _ w2) as [w3 [e|]]; simpl in *.
  { injection H as <-. split; [by eapply router_kept_trans, router_kept_trans|done]. }
  apply IH in H as [K4 H4]. split; [by eapply router_kept_trans, router_kept_trans, router_kept_trans|].
  intros Hn. destruct (H4 Hn) as [Hst Hc]. split; [done|]. intros Hun. apply Hc. by apply Hu3, Hu2, Hu.
Qed.

Lemma wait_spec t w : wait_ok w (WaitSafeModeSettled t w).
Proof using RouterLaws0.
  change (WaitSafeModeSettled t w) with (match waitSettled t w with Ret r => r | _ => (w, Some Plain) end).
  unfold waitSettled. pose proof (time_kept w) as [K Hu]. destruct (timeNow w) as [w1 now]; simpl in K, Hu.
  match goal with |- context [settle_loop ?a ?b w1] => destruct (settle_loop a b w1) as [x| |] eqn:E end; try (split; [apply router_kept_refl|done]).
  apply settle_spec in E as [K2 H2]. split; [by eapply router_kept_trans|].
  intros Hn. destruct (H2 Hn) as [Hst Hc]. split; [done|]. intros Hun. apply Hc, Hu, Hun.
Qed.

(** The deadline bounds the polls. *)
Lemma settle_returns fuel deadline : forall w,
  (1 <= fuel)%nat -> 0 < deadline - deviceClock w -> 2 + (deadline - deviceClock w) / pollInterval <= Z.of_nat fuel ->
  deadline - deviceClock w <= max_i64 -> returns (settle_loop fuel deadline w).
Proof using RouterLaws0.
  assert (Hend : forall fuel w, (1 <= fuel)%nat -> deadline - deviceClock w <= 0 -> returns (settle_loop fuel deadline w)).
  { intros [|n] w Hf Hd; [lia|]. simpl. pose proof (list_kept History w) as (_ & _ & _ & K).
    destruct (rest_list History w) as [w1 [rows|e]]; simpl in K; [|by eexists].
    destruct (isFloating rows); simpl; [|by eexists]. pose proof (time_kept w1) as [(_ & _ & _ & K2) _]. pose proof (time_clock w1) as Ht.
    destruct (timeNow w1) as [w2 now]; simpl in *. destruct (Z.leb_spec (time_sub deadline now) 0) as [?|Hr]; [by eexists|].
    unfold time_sub, min_i64, max_i64 in Hr. lia. }
  induction fuel as [|fuel IH]; intros w Hf Hd Hn Hm; [lia|]. simpl.
  pose proof (list_kept History w) as (_ & _ & _ & K).
  destruct (rest_list History w) as [w1 [rows|e]]; simpl in K; [|by eexists].
  destruct (isFloating rows); simpl; [|by eexists]. pose proof (time_kept w1) as [(_ & _ & _ & K2) _]. pose proof (time_clock w1) as Ht.
  destruct (timeNow w1) as [w2 now]; simpl in *. destruct (Z.leb_spec (time_sub deadline now) 0) as [?|Hr]; [by eexists|].
  assert (Er : time_sub deadline now = deadline - deviceClock w2) by (unfold time_sub, min_i64, max_i64 in *; lia).
  pose proof (sleep_clock (Z.min pollInterval (time_sub deadline now)) w2) as Hsc.
  destruct (sleep (Z.min pollInterval (time_sub deadline now)) w2) as [w3 [e|]]; simpl in *; [by eexists|]. specialize (Hsc w3 eq_refl).
  assert (Hpoll : 0 < pollInterval) by (unfold pollInterval; lia). rewrite Er in *. assert (Hfu : (1 <= fuel)%nat).
  { assert (0 <= (deadline - deviceClock w) / pollInterval) by (apply Z.div_pos; unfold pollInterval; lia). lia. }
  destruct (Z.le_gt_cases (deadline - deviceClock w3) 0) as [Hle|Hgt]; [by apply Hend|].
  apply IH; [done|lia| |lia].
  assert (Hge : deadline - deviceClock w3 <= (deadline - deviceClock w) - pollInterval) by lia.
  pose proof (Z.div_le_mono _ _ pollInterval ltac:(unfold pollInterval; lia) Hge) as Hdiv.
  replace (deadline - deviceClock w - pollInterval) with (deadline - deviceClock w + (-1) * pollInterval) in Hdiv by lia.
  rewrite Z.div_add in Hdiv by (unfold pollInterval; lia). lia.
Qed.

Lemma waitSettled_returns t w : t <= max_i64 -> returns (waitSettled t w).
Proof using RouterLaws0.
  intros Ht. unfold waitSettled. pose proof (time_clock w) as Hc. destruct (timeNow w) as [w1 now]; simpl in Hc.
  assert (Hb : forall u, 0 < u <= max_i64 -> returns (settle_loop (pollBound u) (now + u) w1)).
  { intros u Hu. subst now. apply settle_returns; unfold pollBound; [lia| | |]; replace (deviceClock w1 + u - deviceClock w1) with u by lia; [lia| |lia].
    assert (0 <= u / pollInterval) by (apply Z.div_pos; unfold pollInterval; lia). lia. }
  destruct (Z.leb_spec t 0); apply Hb; [unfold second, max_i64; lia|lia].
Qed.

(** The client is a lawful guard. *)
#[export] Instance restGuardLaws : GuardLaws W S.
Proof using RouterLaws0.
  assert (Hg : forall w w', router_kept w w' -> guard_kept w w' /\ config_kept w w') by apply router_kept_guard.
  split.
  - intros w. simpl. destruct (ensureNoPending w) as [w1 e] eqn:E. apply ensure_spec in E as [K _]. by apply Hg.
  - intros r src w. simpl. destruct (prepareDirectDelta r src w) as [w1 x] eqn:E. apply direct_spec in E as [K _]. by apply Hg.
  - intros r src w w' n Hm E. apply direct_spec in E as [_ H]. apply H. by left.
  - intros r src w w' e E. by apply direct_spec in E as [_ H].
  - intros r f w. simpl. destruct (prepareImportScript r f w) as [w1 x] eqn:E. apply import_spec in E as [K _]. by apply Hg.
  - intros r f w w' n Hu E. apply import_spec in E as [_ H]. by apply H.
  - intros r f w w' e E. by apply import_spec in E as [_ H].
  - intros n d f w. simpl. destruct (armRollback n d false f w) as [w1 x] eqn:E. destruct (arm_spec _ _ _ _ _ _ _ E) as [(? & ? & _) _]. done.
  - intros n d f w w' s E. destruct (arm_spec _ _ _ _ _ _ _ E) as [(_ & _ & ?) _]. done.
  - intros n d f w w' e E. destruct (arm_spec _ _ _ _ _ _ _ E) as [(_ & _ & ?) _]. done.
  - intros s w. simpl. destruct (disarmRollback s w) as [w1 x] eqn:E. by apply disarm_spec in E as (? & ? & _).
  - intros s w w' Hp E. apply disarm_spec in E as (_ & _ & H). by apply H.
  - intros s w w' e E. by apply disarm_spec in E as (_ & _ & H).
  - intros t w. destruct (wait_spec t w) as [K _]. destruct (Hg _ _ K) as [G (_ & _ & _ & Sc & _)]. done.
  - intros t w Hs. destruct (wait_spec t w) as [(_ & _ & (_ & Hc & _) & _) _]. apply Hc. by left.
  - intros t w w' E. destruct (wait_spec t w) as [_ H]. rewrite E in H. by apply H.
  - intros t w w' Hu E. destruct (wait_spec t w) as [_ H]. rewrite E in H. by apply H.
  - intros src e E. simpl in E. unfold checkImportedDelta in E. repeat case_match; by simplify_eq.
Qed.
End Client.
