(* ===== verification/RouterSim.v ===== *)
(** * Transactions on a router

    The theorems about guarded transactions for the code as composed (the
    transaction of [RouterTransaction] over the REST client of [RouterGuard]), and
    a simulated router that satisfies the laws.  The simulation has four faults
    that can be switched on: rollback scripts fail, the removal of files fails, the
    removal of a scheduler takes effect although its reply is an error, and the
    time of an armed guard comes while the client waits for Safe Mode to settle. *)

From Stdlib Require Import String.
From S2P Require Import Prelude GoBase GoRegexp GoText RouterTransaction RouterGuard RouterTransactionSafety RouterGuardSafety.
Open Scope Z_scope.

(** ** The simulation *)

Record faults := Faults { fa_rollback : bool; fa_cleanup : bool; fa_delete : bool; fa_due : bool }.
Record sim := Sim {
  si_faults : faults; si_sched : gmap gostr row; si_next : nat; si_clock : Z; si_lost : bool; si_conf : config;
  si_scripts : gmap gostr scriptRole; si_files : gmap gostr scriptRole; si_open : bool; si_undo : bool; si_fired : bool }.

Definition simSource (r : scriptRole) : gostr := deltaHeader ++ roleName r.
Definition simFile (r : scriptRole) : gostr := bs "SB-GATEWAY-" ++ roleName r ++ bs "-0123456789ab.rsc".
#[local] Arguments simSource _ : simpl never.
#[local] Arguments simFile _ : simpl never.
(** The side a script source belongs to. *)
Definition sideOf (w : sim) (source : gostr) : option scriptRole :=
  if bool_decide (source = simSource RApply) then Some RApply
  else if bool_decide (source = simSource RRollback) then Some RRollback
  else if bool_decide (source = importSource (simFile RApply)) then si_files w !! simFile RApply
  else if bool_decide (source = importSource (simFile RRollback)) then si_files w !! simFile RRollback else None.

Definition sim_sched (w : sim) (t : gmap gostr row) (next : nat) (lost : bool) : sim :=
  Sim (si_faults w) t next (si_clock w) lost (si_conf w) (si_scripts w) (si_files w) (si_open w) (si_undo w) (si_fired w).
Definition sim_scripts (w : sim) (s : gmap gostr scriptRole) : sim :=
  Sim (si_faults w) (si_sched w) (si_next w) (si_clock w) (si_lost w) (si_conf w) s (si_files w) (si_open w) (si_undo w) (si_fired w).
Definition sim_files (w : sim) (f : gmap gostr scriptRole) : sim :=
  Sim (si_faults w) (si_sched w) (si_next w) (si_clock w) (si_lost w) (si_conf w) (si_scripts w) f (si_open w) (si_undo w) (si_fired w).
Definition sim_conf (w : sim) (c : config) (op undo : bool) : sim :=
  Sim (si_faults w) (si_sched w) (si_next w) (si_clock w) (si_lost w) c (si_scripts w) (si_files w) op undo (si_fired w).
Definition sim_clock (w : sim) (t : Z) : sim :=
  Sim (si_faults w) (si_sched w) (si_next w) t (si_lost w) (si_conf w) (si_scripts w) (si_files w) (si_open w) (si_undo w) (si_fired w).

(** Identifiers in unary: fresh ones are longer than all others. *)
Definition simId (n : nat) : gostr := repeat x2a (S n).
Definition idBound (t : gmap gostr row) : nat := foldr Nat.max 0%nat (length <$> (map_to_list t).*1).

(** One script per side: the digest is the same for every source. *)
Definition simName (r : scriptRole) : gostr := bs "SB-GATEWAY-" ++ roleName r ++ bs "-" ++ repeat x61 12.
#[local] Arguments simName _ : simpl never.
Definition installScript (p : row) (w : sim) : sim :=
  let name := text p (bs "name") in
  match sideOf w (text p (bs "source")) with
  | Some r => if bool_decide (name = simName r) then sim_scripts w (<[name:=r]> (si_scripts w)) else w
  | None => w
  end.

(** The armed guards fire: each restores the configuration and is gone. *)
Definition sim_fire (w : sim) : sim :=
  let due := filter (fun p => armed p.2 = true) (si_sched w) in
  if fa_due (si_faults w) && negb (bool_decide (due = ∅)) then
    Sim (si_faults w) (filter (fun p => armed p.2 = false) (si_sched w)) (si_next w) (si_clock w) (si_lost w) Before (si_scripts w)
      (si_files w) (si_open w) (si_undo w) true
  else w.

#[export] Instance simRest : RouterRest sim := {
  rest_list r w :=
    match r with
    | Schedulers => (w, inl (listing (filter (fun p => p.1 <> []) (si_sched w))))
    | Scripts => (w, inl [])
    | History =>
        let w := sim_fire w in
        if si_open w && si_undo w then (sim_conf w Before false false, inl [])
        else (w, inl (if si_open w then [{[bs "floating-undo" := bs "true"]}] else []))
    | Clock => (w, inl [{[bs "date" := bs "2024-01-01"; bs "time" := bs "00:00:00"]}])
    end;
  rest_put r p w :=
    match r with
    | Schedulers =>
        (sim_sched w (<[simId (idBound (si_sched w)) := <[bs "run-count" := bs "0"]> p]> (si_sched w)) (si_next w) (si_lost w), inl ∅)
    | Scripts => (installScript p w, inl {[bs ".id" := bs "*1"]})
    | _ => (w, inr Plain)
    end;
  rest_patch r id p w := match r with Scripts => (installScript p w, inl ∅) | _ => (w, inr Plain) end;
  rest_delete r id w :=
    match r with
    | Schedulers => (sim_sched w (delete id (si_sched w)) (si_next w) (fa_delete (si_faults w) || si_lost w),
                     if fa_delete (si_faults w) then Some Plain else None)
    | _ => (w, Some Plain)
    end;
  readNonce w := (w, Some [x01; x02; x03; x04]);
  timeNow w := (w, si_clock w);
  sleep d w := (sim_clock w (Z.max (si_clock w) (si_clock w + d)), None);
  sha256hex _ := repeat x61 64;
  ParseLocal _ _ := Some 0;
  FormatLocal _ _ := [];
}.

#[export] Instance simConsole : ConsoleOps sim unit := {
  runScript n w :=
    match si_scripts w !! n with
    | Some RApply => (sim_conf w After (si_open w) (si_undo w), None)
    | Some RRollback => if fa_rollback (si_faults w) then (w, Some Plain) else (sim_conf w Before (si_open w) (si_undo w), None)
    | None => (w, Some Plain)
    end;
  beginSafeMode n w :=
    match si_scripts w !! n with
    | Some RApply => (sim_conf w After true false, inl tt)
    | _ => (w, inr Plain)
    end;
  HistoryCapReached _ := false;
  Commit _ _ w := (sim_conf w (si_conf w) false false, None);
  Abort _ w := (sim_conf w (si_conf w) (si_open w) true, None);
  upload r src w :=
    if bool_decide (src = simSource r) then
      (sim_files w (<[simFile r := r]> (si_files w)), inl (simFile r))
    else (w, inr Plain);
  cleanup l w := (w, if fa_cleanup (si_faults w) then Some Plain else None);
}.

#[export] Instance simDevice : RouterDevice sim unit := {
  schedulers w := filter (fun p => p.1 <> []) (si_sched w); deviceClock := si_clock; dv_fired w := si_fired w = true; dv_lost w := si_lost w = true; dv_conf := si_conf;
  dv_stable w := si_open w = false;
  dv_ready w r n := si_scripts w !! n = Some r /\ n = simName r;
  dv_uploaded w r f := si_files w !! f = Some r /\ f = simFile r;
  dv_opened _ w := si_open w = true /\ si_undo w = false;
  dv_undoing w := si_open w = true /\ si_undo w = true;
  dv_meant r src := src = simSource r }.

(** ** The simulation satisfies the laws *)

Lemma simName_inj r r' : simName r = simName r' -> r = r'.
Proof. destruct r, r'; vm_compute; done. Qed.
Lemma simFile_inj r r' : simFile r = simFile r' -> r = r'.
Proof. destruct r, r'; vm_compute; done. Qed.
Lemma sim_managedName r src : managedScriptName (W:=sim) r src = simName r.
Proof. by destruct r. Qed.

Lemma idBound_max t id r : t !! id = Some r -> (length id <= idBound t)%nat.
Proof.
  intros H%elem_of_map_to_list. unfold idBound. revert H. induction (map_to_list t) as [|[id' r'] l IH]; intros H; [by apply elem_of_nil in H|].
  rewrite !fmap_cons. cbn [foldr fst]. apply elem_of_cons in H as [[= -> ->]|H]; [lia|]. apply IH in H. lia.
Qed.

Lemma simId_fresh t : t !! simId (idBound t) = None.
Proof.
  destruct (t !! simId (idBound t)) as [r|] eqn:E; [|done]. apply idBound_max in E. unfold simId in E. rewrite repeat_length in E. lia.
Qed.

Lemma payload_source n src : text (scriptPayload n src) (bs "name") = n /\ text (scriptPayload n src) (bs "source") = src.
Proof.
  unfold text, scriptPayload. split; repeat (rewrite lookup_insert_ne by (vm_compute; discriminate)); by rewrite ?lookup_insert_eq.
Qed.

Lemma sideOf_establishes (w : sim) r src : establishes (S:=unit) w r src -> sideOf w src = Some r.
Proof.
  unfold sideOf. intros [-> |(f & [Hf ->] & ->)].
  - by destruct r.
  - destruct r; simpl; exact Hf.
Qed.

Lemma sim_install_kept r src w : router_kept (S:=unit) w (installScript (scriptPayload (managedScriptName r src) src) w).
Proof.
  unfold installScript. destruct (payload_source (managedScriptName r src) src) as [-> ->]. rewrite sim_managedName.
  destruct (sideOf w src) as [r'|]; [|by apply (router_kept_refl (S:=unit))].
  case_bool_decide as E; [|by apply (router_kept_refl (S:=unit))]. apply simName_inj in E as ->.
  split; [by right|]. split; [done|]. split; [|simpl; lia]. split; [done|]. split; [by right|]. split; [done|]. split; [split; [|done]|done].
  intros r n [H ->]. split; [|done]. simpl. destruct (decide (r = r')) as [->|Hne]; [by rewrite lookup_insert_eq|].
  rewrite lookup_insert_ne; [done|]. intros ?%simName_inj. congruence.
Qed.

Lemma sim_install_ready r src w :
  establishes (S:=unit) w r src -> ready (S:=unit) (installScript (scriptPayload (managedScriptName r src) src) w) r (managedScriptName r src).
Proof.
  intros He. unfold installScript. destruct (payload_source (managedScriptName r src) src) as [-> ->].
  rewrite (sideOf_establishes w r src He), sim_managedName, bool_decide_eq_true_2 by done. split; [|done]. simpl. by rewrite lookup_insert_eq.
Qed.

Lemma sim_kept (w w' : sim) :
  si_sched w' = si_sched w -> (si_lost w = true -> si_lost w' = true) -> si_conf w' = si_conf w -> si_scripts w' = si_scripts w ->
  si_files w' = si_files w -> si_open w' = si_open w -> si_undo w' = si_undo w -> si_clock w <= si_clock w' ->
  si_fired w' = si_fired w -> router_kept (S:=unit) w w'.
Proof.
  intros E1 E2 E3 E4 E5 E6 E7 E8 E9. split; [right; simpl; by rewrite E1|]. split; [done|]. split; [|done].
  split; [simpl; congruence|]. split; [by right|]. split; [simpl; congruence|]. split; [split; simpl; [rewrite E4|rewrite E5]; done|]. intros s [H1 H2]. split; simpl; congruence.
Qed.

Lemma sim_fire_cases (w : sim) : sim_fire w = w \/ (si_fired (sim_fire w) = true /\ si_lost (sim_fire w) = si_lost w /\
  si_scripts (sim_fire w) = si_scripts w /\ si_files (sim_fire w) = si_files w /\ si_open (sim_fire w) = si_open w /\
  si_undo (sim_fire w) = si_undo w /\ si_clock (sim_fire w) = si_clock w).
Proof. unfold sim_fire. destruct (_ && _); [by right|by left]. Qed.

Lemma sim_fire_kept (w : sim) : router_kept (S:=unit) w (sim_fire w) /\ (undoing (S:=unit) w -> undoing (S:=unit) (sim_fire w)).
Proof.
  destruct (sim_fire_cases w) as [->|(Ef & El & Es & Efi & Eo & Eu & Ec)]; [split; [apply (router_kept_refl (S:=unit))|done]|].
  split; [|intros [H1 H2]; split; simpl; congruence].
  split; [by left|]. split; [simpl; congruence|]. split; [|simpl; rewrite Ec; lia].
  split; [done|]. split; [by left|]. split; [simpl; congruence|]. split; [split; simpl; rewrite ?Es, ?Efi; done|].
  intros s [H1 H2]. split; simpl; congruence.
Qed.

Lemma simHistory w w' rows : rest_list (W:=sim) History w = (w', inl rows) ->
  (si_open (sim_fire w) && si_undo (sim_fire w) = true /\ w' = sim_conf (sim_fire w) Before false false /\ rows = []) \/
  (si_open (sim_fire w) && si_undo (sim_fire w) = false /\ w' = sim_fire w /\ isFloating rows = si_open (sim_fire w)).
Proof.
  simpl. destruct (si_open _ && si_undo _); intros [= <- <-]; [by left|right]. split; [done|]. split; [done|].
  destruct (si_open (sim_fire w)); vm_compute; done.
Qed.

#[export] Instance simLaws : RouterLaws sim unit.
Proof.
  split; try (intros; simpl in *; by simplify_eq).
  - intros r w. destruct r; simpl; try (apply (router_kept_refl (S:=unit))).
    destruct (sim_fire_kept w) as [K _]. revert K. generalize (sim_fire w). intros v K.
    destruct (si_open v) eqn:Eo, (si_undo v) eqn:Eu; simpl; try done. apply (router_kept_trans _ _ _ K).
    split; [by right|]. split; [done|]. split; [|simpl; lia]. split; [done|]. split; [|split; [done|split; [done|]]].
    + intros [H|[s H]]; simpl in H; [congruence|]. destruct H. congruence.
    + intros s [_ H]. congruence.
  - intros r w w' e H. destruct r; simpl in H; [done|done| |done]. by destruct (si_open _ && si_undo _).
  - intros w w' rows [= <- <-]. by right.
  - intros w w' rows [= <- <-]. apply Forall_forall. intros r (id & x & [_ H]%map_lookup_filter_Some & ->)%listing_elem.
    unfold text. rewrite lookup_insert_eq. done.
  - intros w w' rows H Hf. destruct (sim_fire_kept w) as [_ Hu]. destruct (simHistory _ _ _ H) as [(E & -> & _)|(E & -> & Ef)]; [split; [done|by right]|].
    split; [simpl; congruence|]. intros [H1 H2]%Hu. simpl in H1, H2. by rewrite H1, H2 in E.
  - intros w w' rows H Hf Hw. destruct (sim_fire_kept w) as [_ Hu].
    destruct (simHistory _ _ _ H) as [(E & _ & ->)|(E & -> & _)]; [done|]. by apply Hu.
  - intros w. apply (router_kept_refl (S:=unit)).
  - intros w. split; [apply (router_kept_refl (S:=unit))|done].
  - intros d w. split; [|done]. apply sim_kept; try done. simpl. lia.
  - intros d w w' [= <-]. simpl. lia.
  - intros p w. split; [|done]. split; [done|]. split; [by right|]. split; [done|]. split; [split; done|done].
  - intros p w w' r [= <- _]. right. exists (simId (idBound (si_sched w))). simpl. split.
    + apply map_lookup_filter_None. left. apply simId_fresh.
    + apply map_filter_insert_True. done.
  - intros id w. split; [|simpl; intros ->; by destruct (fa_delete _)]. split; [done|]. split; [by right|]. split; [done|]. split; [split; done|done].
  - intros id w w' H. simpl in H. destruct (fa_delete (si_faults w)); [done|]. injection H as <-. right. simpl. apply map_filter_delete.
  - intros id w w' e H. simpl in H. destruct (fa_delete (si_faults w)); [|done]. injection H as <- _. by right; right.
  - intros r src w. apply sim_install_kept.
  - intros id r src w. apply sim_install_kept.
  - intros r src w w' x [= <- _]. apply sim_install_ready.
  - intros id r src w w' x [= <- _]. apply sim_install_ready.
Qed.

Lemma sim_upload r src (w : sim) : upload r src w =
  if bool_decide (src = simSource r) then (sim_files w (<[simFile r := r]> (si_files w)), inl (simFile r)) else (w, inr Plain).
Proof. reflexivity. Qed.

#[export] Instance simConsoleLaws : ConsoleLaws sim unit.
Proof.
  assert (Hg : forall w w' : sim, si_fired w' = si_fired w -> si_sched w' = si_sched w -> si_lost w' = si_lost w -> guard_kept (S:=unit) w w').
  { intros w w' E1 E2 E3. split; [simpl; congruence|]. split; [right; simpl; by rewrite E2|simpl; congruence]. }
  assert (Hk : forall w c o u, guard_kept (S:=unit) w (sim_conf w c o u) /\ scripts_kept (S:=unit) w (sim_conf w c o u))
    by (intros; split; [by apply Hg|by split]).
  assert (Hr : forall w : sim, guard_kept (S:=unit) w w /\ scripts_kept (S:=unit) w w /\ config_kept (S:=unit) w w).
  { intros w. split; [by apply Hg|]. split; [by split|]. split; [done|]. split; [by right|]. split; [done|]. by split. }
  split.
  - intros r src w. rewrite sim_upload. case_bool_decide; [|destruct (Hr w) as (? & ? & ?); done].
    split; [by apply Hg|]. split; [done|]. split; [by right|]. split; [done|]. split; [split; [done|]|done]. intros r' n [H2 ->]. split; [|done]. simpl.
    destruct (decide (r = r')) as [->|Hne]; [by rewrite lookup_insert_eq|]. rewrite lookup_insert_ne; [done|]. intros ?%simFile_inj. congruence.
  - intros r src w w' f -> H. rewrite sim_upload, bool_decide_eq_true_2 in H by reflexivity. injection H as <- <-.
    split; [|done]. simpl. by rewrite lookup_insert_eq.
  - intros r src w w' e H. rewrite sim_upload in H. case_bool_decide; by simplify_eq.
  - intros n w. simpl. destruct (Hr w) as (G & T & _). destruct (si_scripts w !! n) as [[]|]; [|destruct (fa_rollback (si_faults w))|]; simpl.
    + destruct (Hk w After (si_open w) (si_undo w)). done.
    + done.
    + destruct (Hk w Before (si_open w) (si_undo w)). done.
    + done.
  - intros r n w w' _ [H _] E. simpl in E, H. rewrite H in E. destruct r; simpl in E; [injection E as <-; by right|].
    destruct (fa_rollback (si_faults w)); [done|]. injection E as <-. by right.
  - intros n w. simpl. destruct (si_scripts w !! n) as [[]|]; simpl; [apply Hk| |]; destruct (Hr w) as (? & ? & ?); done.
  - intros n w w' s _ _ [H _] E. simpl in E, H. rewrite H in E. injection E as <- _. split; [by right|done].
  - intros s t w. apply Hk.
  - intros s t w w' _ [Hc|Hc] E; simpl in E; injection E as <-; split; try done; [by left|by right].
  - intros s w. split; [apply Hk|]. split; [apply Hk|done].
  - intros s w [H _] _. done.
  - intros l w. simpl. destruct (Hr w) as (? & _ & ? & ? & ? & _). split; [done|]. intros Hs. split; [by right|done].
  - intros l w w' e E. simpl in E. destruct (fa_cleanup _); by simplify_eq.
Qed.

(** ** Theorems *)

Section Theorems.
Context {W S : Type} `{!RouterRest W, !ConsoleOps W S, !RouterDevice W S, !RouterLaws W S, !ConsoleLaws W S}.

Lemma clampDelay_bounds d : minute <= clampDelay d <= 60 * minute /\ (minute <= d <= 60 * minute -> clampDelay d = d).
Proof.
  unfold clampDelay. set (d' := if d =? 0 then _ else d). assert (H : minute <= d <= 60 * minute -> d' = d).
  { unfold d', minute, second. case_tests. }
  destruct (Z.ltb_spec d' minute), (Z.ltb_spec (60 * minute) minute), (Z.ltb_spec (60 * minute) d'); unfold minute, second in *; lia.
Qed.

(** C14: a transaction reports what the router has, unless a rollback guard fires
    by itself during the run (a guard is due at the end of its delay, which the
    transaction does not wait for or watch).  Whatever operation fails or is
    interrupted, from the previous configuration at rest, with scripts that
    establish their sides and callbacks that leave the managed part alone:
    success means that the candidate is in force, permanently and with no guard
    left, and that the health check passed with it in force; [rolled_back] means
    that the previous configuration is in force for good; [recovery_pending]
    means that a guard can still restore it, or that it is restored already,
    unless the removal of the guard took effect although its reply was an error;
    [state_unconfirmed] is reported only when the guard was removed and the
    finalization failed; and any other error leaves the configuration and the
    guards as they were. *)
Theorem transaction_truthful (options : TransactionOptions W) (applySource rollbackSource : gostr) (w w' : W)
    (result : TransactionResult) (e : err)
    (Hoptions : options_ok (S:=S) options)
    (Happly : meant (W:=W) (S:=S) RApply applySource) (Hrollback : meant (W:=W) (S:=S) RRollback rollbackSource)
    (Hconf : conf (S:=S) w = Before) (Hstable : stable (S:=S) w)
    (Hrun : ApplyDelta (S:=S) applySource rollbackSource options w = (w', result, e) \/
            ApplyCandidate (S:=S) applySource rollbackSource options w = (w', result, e)) :
  outcome_ok (S:=S) options w w' e.
Proof.
  destruct Hrun as [H|H]; [eapply ApplyDelta_ok|eapply ApplyCandidate_ok]; try exact H; try assumption; by right.
Qed.

(** C28: a rollback guard is armed exclusively and can be disarmed.  Arming
    succeeds only when no guard is pending and leaves exactly the new one, a
    scheduler that the project recognizes as its own and that runs the rollback
    script at the time of the clock the router reported during this call, plus
    the delay, which is the requested one within one and sixty minutes; while it
    is pending no other guard can be armed, and a confirmed removal leaves none.
    Each of this holds unless a guard has fired meanwhile. *)
Theorem guard_lifecycle (script import : gostr) (delay : Z) (resume : bool) (w w' : W) (s : gostr)
    (Harm : armRollback script delay resume import w = (w', inl s)) :
  (fired (S:=S) w' \/ pending (S:=S) w = [] /\ pending (S:=S) w' = [s]) /\
  (exists w1 w2 clock t w3, ensureNoPending w = (w1, None) /\ rest_list Clock w1 = (w2, inl [clock]) /\
     parseRouterOSClock (text clock (bs "date")) (text clock (bs "time")) = Some t /\
     (fired (S:=S) w' \/ created (S:=S) (guardPayload script resume import s (t + clampDelay delay)) w3 w') /\
     minute <= clampDelay delay <= 60 * minute /\ (minute <= delay <= 60 * minute -> clampDelay delay = delay)) /\
  (forall script2 resume2 import2 delay2 w2 w3 s2, pendingIs (S:=S) w2 [s] ->
     armRollback script2 delay2 resume2 import2 w2 = (w3, inl s2) -> fired (S:=S) w3) /\
  (forall w2 w3, pendingIs (S:=S) w2 [s] -> disarmRollback s w2 = (w3, None) -> pendingIs (S:=S) w3 []).
Proof.
  destruct (arm_spec _ _ _ _ _ _ _ Harm) as [(_ & _ & Hp) Hs]. destruct (Hs s eq_refl) as (t & nonce & w3 & (w1 & w2 & clock & H1 & H2 & H3) & _ & _ & _ & Hc & He).
  split; [destruct Hp, He; auto|]. split; [exists w1, w2, clock, t, w3; do 4 (split; [done|]); apply clampDelay_bounds|]. split.
  - intros script2 resume2 import2 delay2 v2 v3 s2 Hp2 Ha. destruct (arm_spec _ _ _ _ _ _ _ Ha) as [((F & _) & _) Hs2].
    destruct (Hs2 s2 eq_refl) as (_ & _ & _ & _ & _ & _ & _ & _ & [?|E]); [done|]. destruct Hp2 as [?|Hp2]; [by apply F|congruence].
  - intros v2 v3 Hp2 Hd. destruct (disarm_spec _ _ _ _ Hd) as (_ & _ & H). by apply H.
Qed.

(** waiting for Safe Mode to settle ends: with a clock that follows the
    sleeps, the poll loop returns before its bound on the number of polls, and it
    reports success only when the router has no floating history left. *)
Theorem waitSettled_terminates (timeout : Z) (w : W) (Ht : timeout <= max_i64) :
  exists w' e, waitSettled timeout w = Ret (w', e) /\ (e = None -> stable (S:=S) w').
Proof.
  destruct (waitSettled_returns timeout w Ht) as [[w' e] H]. exists w', e. split; [done|]. intros ->.
  pose proof (wait_spec timeout w) as [_ Hw]. simpl WaitSafeModeSettled in Hw. rewrite H in Hw. by apply Hw.
Qed.
End Theorems.

(** ** Concrete runs *)

Definition sim_start (f : faults) : sim := Sim f ∅ 0 0 false Before ∅ ∅ false false false.
Definition passing : sim -> sim * err := fun w => (w, None).
Definition failing : sim -> sim * err := fun w => (w, Some Plain).
Definition sim_options (health : sim -> sim * err) (finalize : option (sim -> sim * err)) : TransactionOptions sim :=
  MkOptions 0 (2 * minute) (Some health) None finalize false.
Definition sim_run (f : faults) (options : TransactionOptions sim) : sim * TransactionResult * err :=
  ApplyDelta (S:=unit) (simSource RApply) (simSource RRollback) options (sim_start f).
Definition noFaults : faults := Faults false false false false.

Lemma harmless_kept (e : err) : harmless (W:=sim) (S:=unit) (fun w => (w, e)).
Proof. intros w. split; [by split; [|split; [right|]]|]. split; [done|]. split; [by right|]. split; [done|]. by split. Qed.

Lemma sim_options_ok health_err finalize_err :
  options_ok (S:=unit) (sim_options (fun w => (w, health_err)) (Some (fun w => (w, finalize_err)))).
Proof. split; [|split]; simpl; intros f Hf; try discriminate Hf; injection Hf as <-; apply harmless_kept. Qed.

Lemma transaction_truthful_witness :
  (sim_run noFaults (sim_options passing (Some passing))).2 = None /\
  si_fired (sim_run noFaults (sim_options passing (Some passing))).1.1 = false /\
  outcome_ok (S:=unit) (sim_options passing (Some passing)) (sim_start noFaults) (sim_run noFaults (sim_options passing (Some passing))).1.1
    (sim_run noFaults (sim_options passing (Some passing))).2.
Proof.
  split; [vm_compute; reflexivity|]. split; [vm_compute; reflexivity|].
  apply (transaction_truthful (S:=unit) (sim_options passing (Some passing)) (simSource RApply) (simSource RRollback) (sim_start noFaults)
    _ (sim_run noFaults (sim_options passing (Some passing))).1.2).
  - apply (sim_options_ok None None).
  - reflexivity.
  - reflexivity.
  - reflexivity.
  - reflexivity.
  - left. unfold sim_run. destruct (ApplyDelta (S:=unit) _ _ _ _) as [[? ?] ?]. reflexivity.
Defined.

Definition sim_guard : gostr := guardPrefix ++ hexEncode [x01; x02; x03; x04].

Lemma guard_lifecycle_witness :
  fired (S:=unit) (armRollback (simName RRollback) 0 false [] (sim_start noFaults)).1 \/
  pending (S:=unit) (sim_start noFaults) = [] /\
  pending (S:=unit) (armRollback (simName RRollback) 0 false [] (sim_start noFaults)).1 = [sim_guard].
Proof.
  destruct (guard_lifecycle (S:=unit) (simName RRollback) [] 0 false (sim_start noFaults)
    (armRollback (simName RRollback) 0 false [] (sim_start noFaults)).1 sim_guard) as (H1 & _).
  - apply injective_projections; [reflexivity|vm_compute; reflexivity].
  - exact H1.
Defined.

Lemma waitSettled_terminates_witness :
  exists w' e, waitSettled (2 * minute) (sim_conf (sim_start noFaults) After true false) = Ret (w', e) /\ (e = None -> stable (S:=unit) w').
Proof. apply (waitSettled_terminates (S:=unit)). unfold minute, second, max_i64. lia. Defined.

(** The exception in [transaction_truthful] is real: when the removal of the
    guard takes effect but is reported as an error, and the rollback script then
    fails, the transaction reports a pending recovery although no guard is left
    and the candidate is in force. *)
Theorem lost_guard_reported_pending :
  let '(w, _, e) := sim_run (Faults true false true false) (sim_options passing None) in
  e <> None /\ (e' ← e; TransactionFailureStateOf e') = Some TransactionRecoveryPending /\ conf (S:=unit) w = After /\ pending (S:=unit) w = [].
Proof. vm_compute. split; [discriminate|done]. Qed.

(** A guard that fires while the transaction waits is not noticed: its removal
    finds no row and counts as done, and the transaction reports success although
    the previous configuration is in force. *)
Theorem fired_guard_reported_applied :
  let '(w, _, e) := sim_run (Faults false false false true) (sim_options passing (Some passing)) in
  e = None /\ fired (S:=unit) w /\ conf (S:=unit) w = Before /\ pending (S:=unit) w = [].
Proof. vm_compute. done. Qed.

(** A completed rollback whose import files cannot be removed is reported as a
    pending recovery, and after a failed finalization as unconfirmed, although the
    previous configuration is in force and no guard is left. *)
Theorem cleanup_failure_reported :
  let run options := ApplyCandidate (S:=unit) (simSource RApply) (simSource RRollback) options (sim_start (Faults false true false false)) in
  (let '(w, _, e) := run (sim_options failing None) in
   (e' ← e; TransactionFailureStateOf e') = Some TransactionRecoveryPending /\ conf (S:=unit) w = Before /\ pending (S:=unit) w = []) /\
  (let '(w, _, e) := run (sim_options passing (Some failing)) in
   (e' ← e; TransactionFailureStateOf e') = Some TransactionStateUnconfirmed /\ conf (S:=unit) w = Before /\ pending (S:=unit) w = []).
Proof. vm_compute. done. Qed.
