(* ===== verification/ApplySim.v ===== *)
(** * A simulated appliance

    The simulated router of [RouterSim] beside a simulated runtime that obeys the
    laws of [ApplyLogic], with four faults of the runtime that can be switched on.
    The concrete runs of [ApplyCorrect] use it. *)

From S2P Require Import Prelude GoBase GoRegexp GoText RouterTransaction RouterTransactionSafety RouterGuard RouterGuardSafety RouterSim.
From S2P Require Import StateStore ApplyWorld Apply ApplyLogic.
Open Scope Z_scope.

(** ** The state *)

Record runtimeFaults := RuntimeFaults { rf_publish : bool; rf_restart : bool; rf_commit : bool; rf_traffic : bool }.
Record runtime := Runtime { ru_live : gostr; ru_damaged : bool; ru_faults : runtimeFaults }.
Definition appliance : Type := sim * runtime.
Record candidate := Candidate { ca_artifact : gostr; ca_revision : gostr }.
(** The changed artifacts and what was live before. *)
Definition receiptOf : Type := list gostr * gostr.

Definition setLive (a : gostr) (x : appliance) : appliance := (x.1, Runtime a (ru_damaged x.2) (ru_faults x.2)).
Definition failIf (b : bool) (x : appliance) : appliance * err := (x, if b then Some Plain else None).

(** ** The router *)

Definition onRouter (B : Type) (f : sim -> sim * B) (x : appliance) : appliance * B := let '(r, b) := f x.1 in ((r, x.2), b).
Lemma onRouter_get B (f : sim -> sim * B) x : (onRouter B f x).1.1 = (f x.1).1.
Proof. unfold onRouter. by destruct (f x.1). Qed.
Lemma onRouter_result B (f : sim -> sim * B) x x' b : onRouter B f x = (x', b) -> f x.1 = (x'.1, b).
Proof. unfold onRouter. destruct (f x.1). by intros [= <- <-]. Qed.
Lemma onRouter_runtime B (f : sim -> sim * B) x : (onRouter B f x).1.2 = x.2.
Proof. unfold onRouter. by destruct (f x.1). Qed.

#[export] Instance appliance_guard : GuardOps appliance := lift_guard onRouter.
#[export] Instance appliance_console : ConsoleOps appliance unit := lift_console onRouter.
#[export] Instance appliance_view : TransactionView appliance unit := lift_view fst.
#[export] Instance appliance_guard_laws : GuardLaws appliance unit := lift_guard_laws fst onRouter onRouter_get onRouter_result.
#[export] Instance appliance_console_laws : ConsoleLaws appliance unit := lift_console_laws fst onRouter onRouter_get onRouter_result.

(** ** The runtime and the surroundings *)

(** A candidate's artifact is the [name] of its configuration. *)
#[export] Instance appliance_runtime : RuntimeOps appliance candidate receiptOf := {
  rt_prepare config nodes x := (x, inl (Candidate (stringOf (config !! bs "name")) (repeat x61 64)));
  rt_revision := ca_revision;
  rt_diff c x := (x, inl (if bool_decide (ru_live x.2 = ca_artifact c) then [] else [bs "xray.json"]));
  rt_validate _ _ x := (x, None);
  rt_scope _ x := (x, None);
  rt_publish c l x := if rf_publish (ru_faults x.2) then (x, inr Plain) else (setLive (ca_artifact c) x, inl (l, ru_live x.2));
  rt_changed := fst;
  rt_noReceipt := ([], []);
  rt_restore r x := (setLive r.2 x, None);
  rt_commit _ x := failIf (rf_commit (ru_faults x.2)) x;
  rt_guard _ x := (x, None);
  rt_release x := x;
  rt_mark x := x;
  rt_sharedNginx _ := false;
  rt_restart _ x := failIf (rf_restart (ru_faults x.2) && negb (bool_decide (ru_live x.2 = bs "old"))) x;
  rt_probe _ x := (x, None);
  rt_waitHot x := (x, None);
}.
#[export] Instance appliance_control : ControlOps appliance := {
  ct_refreshCatalog _ _ x := (x, None);
  ct_ensureFeeds _ x := (x, None);
  ct_stack _ x := (x, None);
  ct_schedulerGuard x := (x, inl false);
  ct_backup x := (x, inl (JString (bs "backup")));
  ct_health x := (x, None);
  ct_prune _ x := (x, None);
  ct_failOpen _ x := (x, None);
  ct_waitDiversion x := (x, None);
  ct_waitTraffic := Some (fun _ x => failIf (rf_traffic (ru_faults x.2)) x);
  ct_noteLogging _ _ x := x;
}.
#[export] Instance appliance_runtime_view : RuntimeView appliance candidate receiptOf gostr := {
  live x := ru_live x.2;
  damaged x := ru_damaged x.2 = true;
  artifacts := ca_artifact;
  restores := snd;
}.

Lemma same_both (x : appliance) : both_kept (S:=unit) x x.
Proof. apply both_kept_refl. Qed.
Lemma same_router (x x' : appliance) : x'.1 = x.1 -> managed_kept (S:=unit) x x'.
Proof. destruct x as [a b], x' as [a' b']. intros E. cbn in E. subst a'. exact (managed_kept_refl (S:=unit) (a, b)). Qed.
Lemma failIf_both (b : appliance -> bool) : keeps (both_kept (S:=unit)) (fun x => failIf (b x) x).
Proof. intros x. apply same_both. Qed.

#[export] Instance appliance_runtime_laws : RuntimeLaws appliance unit candidate receiptOf gostr.
Proof.
  split; try (intros; red; intros; apply same_both); try (intros; apply same_both); try done.
  - intros c x x' E. cbn in E. case_bool_decide as Hb; [|done]. by injection E as <-.
  - intros c l x. apply same_router. cbn. by destruct (rf_publish _).
  - intros c l x x' r E. cbn in E. destruct (rf_publish _); [done|]. by injection E as <- <-.
  - intros c l x x' e E. cbn in E. destruct (rf_publish _); [|done]. injection E as <- <-. left. apply runtime_kept_refl.
  - intros r x. by apply same_router.
  - intros r x x' E. cbn in E. by injection E as <-.
Qed.
#[export] Instance appliance_control_laws : ControlLaws appliance unit candidate receiptOf gostr.
Proof.
  split; try (intros; red; intros; apply same_both); try (intros; apply same_both); try (intros; done);
    try (intros; intros x; split; [|intros Hd]; cbn in *; by rewrite onRouter_runtime).
  intros wait c E. injection E as <-. apply failIf_both.
Qed.
