(* ===== verification/ApplyCorrect.v ===== *)
(** * An Apply is crash safe and truthful

    The theorems about [Apply.applyConfiguration] and [Apply.reconcilePendingApply]
    as a whole, from the program logic of [ApplySafety], [ApplyRecovery] and
    [ApplyRouter], with concrete runs on the simulated appliance.

    They assume that a document whose replacement failed late (the name is
    replaced, the sync of the directory failed) can be read back ([rereadable]):
    [commitActiveDetailed] decides with this reading whether the commit point was
    published. *)

From S2P Require Import Prelude GoBase GoRegexp GoText RouterTransaction RouterTransactionSafety RouterGuard RouterGuardSafety RouterSim.
From S2P Require Import StateStore ApplyWorld Apply ApplyLogic ApplyActivation ApplySafety ApplyRecovery ApplyRouter ApplySim.
Open Scope Z_scope.
Open Scope store_scope.

Section Correct.
Context {X S C Rc A : Type} `{!GuardOps X, !ConsoleOps X S, !TransactionView X S, !RuntimeOps X C Rc, !ControlOps X, !RuntimeView X C Rc A}.
Context `{!GuardLaws X S, !ConsoleLaws X S, !RuntimeLaws X S C Rc A, !ControlLaws X S C Rc A}.
Context (revisionFor : obj -> gostr) (Sprint : json -> gostr) (now : gostr).
Context (normalize : obj -> obj) (valid : obj -> bool).
Context (render : obj -> list json -> option gostr) (legacyCleanup : gostr -> gostr -> gostr).
Context (buildDelta : gostr -> gostr -> option (list gostr * gostr * gostr)).
Context (sharedOrigin : obj -> bool) (runtimeSubscriptionNodes : obj -> obj -> list json).

Local Abbreviation W := (@world X Rc).
Local Abbreviation applyConfiguration :=
  (applyConfiguration revisionFor now normalize valid render legacyCleanup buildDelta sharedOrigin runtimeSubscriptionNodes (X:=X) (S:=S) (C:=C) (Rc:=Rc)).
Local Abbreviation prepareApply := (prepareApply revisionFor now normalize valid render legacyCleanup runtimeSubscriptionNodes (X:=X) (C:=C) (Rc:=Rc)).
Local Abbreviation reconcilePendingApply := (reconcilePendingApply revisionFor Sprint now render buildDelta sharedOrigin (X:=X) (S:=S) (C:=C) (Rc:=Rc)).
Local Abbreviation crash_ok := (crash_ok revisionFor normalize (C:=C) (Rc:=Rc) (A:=A)).
Local Abbreviation resultOk := (resultOk revisionFor normalize (S:=S) (C:=C) (Rc:=Rc) (A:=A)).
Local Abbreviation recovery_ok := (recovery_ok revisionFor Sprint (C:=C) (Rc:=Rc) (A:=A)).
Local Abbreviation reconciled := (reconciled revisionFor Sprint (C:=C) (Rc:=Rc) (A:=A)).

(** The points that a run went through after [w]. *)
Definition passed (w w' : W) (p : documents * X) : Prop := exists new, w_history w' = w_history w ++ new /\ p ∈ new.

Lemma passed_ok (I : documents -> X -> Prop) (P : assertion) (w w' : W) p :
  at_point I (w_history w) P w' -> passed w w' p -> I p.1 p.2.
Proof.
  intros (_ & (new & E & Hn) & _) (new' & E' & Hp). rewrite E in E'. apply app_inv_head in E' as ->.
  rewrite Forall_forall in Hn. by apply Hn.
Qed.

(** C1: an Apply can be interrupted anywhere. Whatever the runtime, the router
    and the other calls answer, and whatever document operations fail, provided
    that a document whose replacement failed late (the name is replaced, the
    sync of the directory failed) can be read back, at every point of the run
    every generation is still there, the commit point is the former one or names
    the new generation, which is there with its digest, and unless the journal
    says that an Apply is pending the runtime fits the commit point: it serves
    the former artifacts with the former commit point, or those of the candidate
    with the new one, or, with the former commit point, it was damaged, by a
    failed publication that could not be undone. Without the reading back this
    is false ([unread_commit_reported_rolled_back]). *)
Theorem apply_crash_safe (config : obj) (actor : gostr) (w w' : W) (r : applied + applyError) (p : documents * X)
    (Hread : rereadable (w_faults w) = true) (Hrun : applyConfiguration config actor w = (w', r)) (Hp : passed w w' p) :
  crash_ok (w_docs w) (w_x w) config p.1 p.2.
Proof.
  eapply passed_ok; [|exact Hp].
  by eapply (applyConfiguration_triple revisionFor now normalize valid render legacyCleanup buildDelta sharedOrigin runtimeSubscriptionNodes).
Qed.

(** C2: the answer of an Apply is true, when documents whose replacement failed
    late can be read back, the router scripts of the plan belong to their sides,
    and the former configuration was in force on the router. [applied] means
    that the commit point names the new generation (for a configuration
    committed before, possibly through its former record), that the runtime
    serves the artifacts of a candidate prepared from it, and, unless clean-up
    is reported as pending, that the journal is closed; [rolled_back] means that
    the commit point is the former one and so is the runtime, unless a failed
    publication damaged it; the other failures leave the journal pending and
    promise nothing about the router; and an early error or [unchanged] leaves
    the commit point, the runtime (but for such damage) and the router as they
    were. After [applied], [unchanged], [rolled_back] and an early error the
    router is left with the configuration that the answer says, for good, and
    with no guard after a changed one, unless a rollback guard fired during the
    run. *)
Theorem apply_truthful (config : obj) (actor : gostr) (w w' : W) (r : applied + applyError)
    (Hread : rereadable (w_faults w) = true) (Hrun : applyConfiguration config actor w = (w', r))
    (Hmeant : forall w1 p, prepareApply config (set_vars noVars w) = (w1, inl (inr p)) -> planMeant (S:=S) buildDelta p)
    (Hbefore : inForce (S:=S) Before (w_x w)) :
  resultOk (w_docs w) (w_x w) config r (w_docs w') (w_x w') (w_vars w') /\ routerResult (S:=S) r (w_x w').
Proof.
  split; [|by eapply (applyConfiguration_result (A:=A))].
  by eapply (applyConfiguration_triple revisionFor now normalize valid render legacyCleanup buildDelta sharedOrigin runtimeSubscriptionNodes).
Qed.


(** C3: a crash anywhere in an Apply, followed by a recovery that reports no
    error, when in both runs a document whose replacement failed late can be
    read back: either nothing was pending and nothing changed, and the runtime
    fits the commit point already (it serves the candidate's artifacts with the
    new commit point, or the former ones with the former commit point, where a
    failed publication may have damaged it); or the journal was pending, the
    runtime serves the artifacts of a candidate prepared from the committed
    generation, and the journal is closed. *)
Theorem apply_then_recovery (config : obj) (actor : gostr) (w w' : W) (r : applied + applyError) (p : documents * X)
    (wc w2 : W) (found : bool) (Hread : rereadable (w_faults w) = true) (Hrun : applyConfiguration config actor w = (w', r)) (Hp : passed w w' p)
    (Hdocs : w_docs wc = p.1) (Hx : w_x wc = p.2) (Hread2 : rereadable (w_faults wc) = true)
    (Hrecover : reconcilePendingApply wc = (w2, (found, None))) :
  if found then restored revisionFor Sprint (A:=A) (w_docs wc) (w_docs w2) (w_x w2) (w_vars w2)
  else w_docs w2 = p.1 /\ w_x w2 = p.2 /\
       ((sameActive (w_docs w) p.1 /\ sameRuntime (C:=C) (Rc:=Rc) (A:=A) (w_x w) p.2) \/
        (committed revisionFor p.1 (rev revisionFor normalize config) /\
         exists c, candidateOf normalize config c /\ live (C:=C) (Rc:=Rc) (A:=A) p.2 = artifacts (X:=X) (Rc:=Rc) c)).
Proof.
  assert (Hc : crash_ok (w_docs w) (w_x w) config p.1 p.2).
  { eapply passed_ok; [|exact Hp].
    by eapply (applyConfiguration_triple revisionFor now normalize valid render legacyCleanup buildDelta sharedOrigin runtimeSubscriptionNodes). }
  assert (Ht : at_point (recovery_ok (w_docs wc)) (w_history wc) (reconciled (w_docs wc) (w_x wc) (found, None)) w2).
  { by eapply (reconcile_triple revisionFor Sprint render (w_docs wc) (w_x wc) now buildDelta sharedOrigin). }
  destruct found; [apply Ht|]. destruct Ht as (_ & _ & -> & -> & Hn). rewrite Hdocs, Hx in *. split; [done|]. split; [done|].
  destruct Hc as (_ & _ & [Hpend|[H|H]]); [done|by left|by right].
Qed.
End Correct.

(** ** Concrete runs *)

Definition demoRevision (g : obj) : gostr := repeat (if bool_decide (stringOf (g !! bs "name") = bs "old") then x61 else x62) 64.
Definition demoConfig (name : gostr) : obj := {[ bs "name" := JString name ]}.
Definition demoPointer : obj := {[ bs "revision" := JString (repeat x61 64); bs "routeros_source" := JString (simSource RApply) ]}.
Definition demoDocuments : documents :=
  {[ activeName := Document demoPointer; metadataName := Document demoPointer; generationName (repeat x61 64) := Document (demoConfig (bs "old")) ]}.
Definition demoWorld (f : list fault) (rf : runtimeFaults) : @world appliance receiptOf :=
  World demoDocuments (sim_start noFaults, Runtime (bs "old") false rf) f (Flags false false false false) noVars [].
Definition noRuntimeFaults : runtimeFaults := RuntimeFaults false false false false.

Definition demoApply (f : list fault) (rf : runtimeFaults) : @world appliance receiptOf * (applied + applyError) :=
  applyConfiguration demoRevision (bs "now") id (fun _ => true) (fun _ _ => Some (simSource RApply)) (fun _ _ => simSource RRollback) (fun _ _ => None)
    (fun _ => false) (fun _ _ => []) (S:=unit) (C:=candidate) (demoConfig (bs "new")) (bs "operator") (demoWorld f rf).
Definition demoRecover (w : @world appliance receiptOf) : @world appliance receiptOf * (bool * err) :=
  reconcilePendingApply demoRevision (fun _ => []) (bs "now") (fun _ _ => Some (simSource RApply)) (fun _ _ => None) (fun _ => false) (S:=unit) (C:=candidate) w.

(** What a run reports. *)
Definition reported (r : applied + applyError) : gostr := match r with inl a => ap_operation a | inr e => applyFailureResponse e end.
(** A pointer's revision and router source. *)
Definition activeFields (w : @world appliance receiptOf) : gostr * gostr :=
  match w_docs w !! activeName with
  | Some (Document p) => (stringOf (p !! bs "revision"), stringOf (p !! bs "routeros_source"))
  | _ => ([], [])
  end.
Definition journalPending (w : @world appliance receiptOf) : bool :=
  match w_docs w !! auxiliaryName operationName with Some (Document op) => isTrue (op !! bs "pending") | _ => false end.

(** The replacement of the commit point fails late. *)
Definition lateCommit : list fault := replicate 13 Fine ++ [FailsLate].

Lemma demo_passed f rf p : p ∈ w_history (demoApply f rf).1 -> passed (demoWorld f rf) (demoApply f rf).1 p.
Proof. intros Hp. by exists (w_history (demoApply f rf).1). Qed.
Lemma demo_eq f rf : demoApply f rf = ((demoApply f rf).1, (demoApply f rf).2).
Proof. by destruct (demoApply f rf). Qed.
Lemma demo_meant f rf w1 p :
  prepareApply demoRevision (bs "now") id (fun _ => true) (fun _ _ => Some (simSource RApply)) (fun _ _ => simSource RRollback) (fun _ _ => [])
    (C:=candidate) (demoConfig (bs "new")) (set_vars noVars (demoWorld f rf)) = (w1, inl (inr p)) -> planMeant (S:=unit) (fun _ _ => None) p.
Proof.
  intros E _. unfold scriptsMeant.
  enough (pl_desiredRouterOS p = simSource RApply /\ pl_previousRouterOS p = simSource RRollback) as [-> ->] by done.
  destruct (prepare_shaped _ _ _ _ _ _ _ _ _ _ _ E) as [(nodes & [= <-]) (source & ->)]. done.
Qed.

Lemma apply_crash_safe_witness :
  reported (demoApply lateCommit noRuntimeFaults).2 = bs "applied" /\ length (w_history (demoApply lateCommit noRuntimeFaults).1) = 38%nat /\
  Forall (fun p => crash_ok demoRevision id (C:=candidate) (Rc:=receiptOf) (A:=gostr) demoDocuments
    (w_x (demoWorld lateCommit noRuntimeFaults)) (demoConfig (bs "new")) p.1 p.2) (w_history (demoApply lateCommit noRuntimeFaults).1).
Proof.
  split; [vm_compute; reflexivity|]. split; [vm_compute; reflexivity|]. apply Forall_forall. intros p Hp.
  exact (apply_crash_safe demoRevision (bs "now") id (fun _ => true) (fun _ _ => Some (simSource RApply)) (fun _ _ => simSource RRollback) (fun _ _ => None)
    (fun _ => false) (fun _ _ => []) (S:=unit) (C:=candidate) (A:=gostr) (demoConfig (bs "new")) (bs "operator") (demoWorld lateCommit noRuntimeFaults) _ _ p
    eq_refl (demo_eq _ _) (demo_passed _ _ _ Hp)).
Defined.

(** One run is applied, one is rolled back. *)
Definition badRestart : runtimeFaults := RuntimeFaults false true false false.
Lemma apply_truthful_witness :
  reported (demoApply [] noRuntimeFaults).2 = bs "applied" /\ reported (demoApply [] badRestart).2 = bs "apply_rolled_back" /\
  si_fired (w_x (demoApply [] badRestart).1).1 = false /\
  resultOk demoRevision id (S:=unit) (C:=candidate) (A:=gostr) demoDocuments (w_x (demoWorld [] badRestart)) (demoConfig (bs "new")) (demoApply [] badRestart).2
    (w_docs (demoApply [] badRestart).1) (w_x (demoApply [] badRestart).1) (w_vars (demoApply [] badRestart).1) /\
  routerResult (S:=unit) (demoApply [] badRestart).2 (w_x (demoApply [] badRestart).1).
Proof.
  do 3 (split; [vm_compute; reflexivity|]).
  exact (apply_truthful demoRevision (bs "now") id (fun _ => true) (fun _ _ => Some (simSource RApply)) (fun _ _ => simSource RRollback) (fun _ _ => None)
    (fun _ => false) (fun _ _ => []) (S:=unit) (C:=candidate) (A:=gostr) (demoConfig (bs "new")) (bs "operator") (demoWorld [] badRestart) _ _
    eq_refl (demo_eq _ _) (demo_meant _ _) (conj (or_intror eq_refl) eq_refl)).
Defined.

(** The point behind the [n]-th step of the Apply, and the world after a crash there. *)
Definition demoPoint (n : nat) : documents * appliance :=
  default (demoDocuments, w_x (demoWorld [] noRuntimeFaults)) (w_history (demoApply [] noRuntimeFaults).1 !! n).
Definition crashed (p : documents * appliance) : @world appliance receiptOf :=
  World p.1 p.2 [] (Flags false false false false) noVars [].
Lemma some_default {B} (o : option B) d : match o with Some _ => true | None => false end = true -> o = Some (default d o).
Proof. by destruct o. Qed.
Lemma recover_eq w : demoRecover w = ((demoRecover w).1, (demoRecover w).2).
Proof. by destruct (demoRecover w). Qed.
Lemma recover_reported w found : (demoRecover w).2 = (found, None) -> demoRecover w = ((demoRecover w).1, (found, None)).
Proof. intros <-. apply recover_eq. Qed.
Lemma demo_point_passed n p : w_history (demoApply [] noRuntimeFaults).1 !! n = Some p -> passed (demoWorld [] noRuntimeFaults) (demoApply [] noRuntimeFaults).1 p.
Proof. intros Hn. apply demo_passed. by eapply list_elem_of_lookup_2. Qed.


Lemma apply_then_recovery_witness :
  restored demoRevision (fun _ => []) (C:=candidate) (Rc:=receiptOf) (A:=gostr) (demoPoint 30).1 (w_docs (demoRecover (crashed (demoPoint 30))).1)
    (w_x (demoRecover (crashed (demoPoint 30))).1) (w_vars (demoRecover (crashed (demoPoint 30))).1).
Proof.
  refine (apply_then_recovery demoRevision (fun _ => []) (bs "now") id (fun _ => true) (fun _ _ => Some (simSource RApply)) (fun _ _ => simSource RRollback) (fun _ _ => None)
    (fun _ => false) (fun _ _ => []) (S:=unit) (C:=candidate) (A:=gostr) (demoConfig (bs "new")) (bs "operator") (demoWorld [] noRuntimeFaults) _ _ (demoPoint 30)
    (crashed (demoPoint 30)) (demoRecover (crashed (demoPoint 30))).1 true eq_refl (demo_eq _ _) _ eq_refl eq_refl eq_refl
    (recover_reported (crashed (demoPoint 30)) true _)).
  - apply (demo_point_passed 30), some_default. vm_compute. reflexivity.
  - vm_compute. reflexivity.
Defined.

(** ** Two faults at the commit point *)

(** The name of the commit point is replaced, the sync of the directory fails, and
    then the confirming reading fails too: the Apply is reported as rolled back
    with the journal closed, although the commit point names the new
    generation. *)
Theorem unread_commit_reported_rolled_back :
  let out := demoApply (lateCommit ++ [FailsEarly]) noRuntimeFaults in
  reported out.2 = bs "apply_rolled_back" /\ journalPending out.1 = false /\ (activeFields out.1).1 = repeat x62 64 /\ ru_live (w_x out.1).2 = bs "old".
Proof. vm_compute. split_and!; reflexivity. Qed.

(** The committed configuration is applied again with a changed router script and
    the replacement of the commit point fails before it begins: the former
    pointer has the same revision and counts as the new one, so that the Apply is
    reported as done although the router script on record is the former one. *)
Definition demoAgain (f : list fault) : @world appliance receiptOf * (applied + applyError) :=
  applyConfiguration demoRevision (bs "now") id (fun _ => true) (fun _ _ => Some (simSource RApply)) (fun _ _ => simSource RRollback) (fun _ _ => None)
    (fun _ => false) (fun _ _ => []) (S:=unit) (C:=candidate) (demoConfig (bs "old")) (bs "operator")
    (World (<[activeName := Document (<[bs "routeros_source" := JString (bs "# former")]> demoPointer)]> demoDocuments)
       (sim_start noFaults, Runtime (bs "older") false noRuntimeFaults) f (Flags false false false false) noVars []).
Theorem unwritten_commit_reported_applied :
  let out := demoAgain (replicate 12 Fine ++ [FailsEarly]) in
  reported out.2 = bs "applied" /\ journalPending out.1 = false /\ (activeFields out.1).2 = bs "# former".
Proof. vm_compute. split_and!; reflexivity. Qed.
