(* ===== verification/SafeMode.v ===== *)
(** * The RouterOS console: Safe Mode sessions and script receipts

    Models [internal/routeros/safe_mode.go] (the session behind an open
    console) and the receipt of [internal/routeros/ssh_script.go].  The console
    answers with an arbitrary sequence of events, whatever is sent: chunks of
    output, a failed read, the end of the context, a deadline that cannot be set;
    after the last event every read fails, as it does at the deadline. *)

From Stdlib Require Import String.
From S2P Require Import Prelude GoBase GoRegexp GoText RouterGuard.
Open Scope Z_scope.

Definition maxSafeModeOutputBytes : Z := 2 ^ 18.

Inductive event :=
| Chunk (data : gostr) (failed : bool)   (* one Read *)
| Cancelled                              (* ctx.Err() before a Read *)
| NoDeadline.                            (* SetDeadline fails *)

(** The channel: the events to come, the results of the writes to come ([true]
    when they run out), what was sent, how often it was closed and the result of
    closing it. *)
Record channel := Channel {
  ch_events : list event; ch_writes : list bool; ch_sent : list gostr; ch_closes : nat; ch_closing : bool }.
Record SafeModeSession := Session { ss_active : bool; ss_autoReleased : bool; ss_closed : bool; ss_pending : gostr }.
Definition newSession : SafeModeSession := Session false false false [].

Definition write (data : gostr) (c : channel) : channel * bool :=
  match ch_writes c with
  | [] => (Channel (ch_events c) [] (ch_sent c ++ [data]) (ch_closes c) (ch_closing c), true)
  | ok :: writes => (Channel (ch_events c) writes (ch_sent c ++ [data]) (ch_closes c) (ch_closing c), ok)
  end.
Definition close (c : channel) : channel * bool :=
  (Channel (ch_events c) (ch_writes c) (ch_sent c) (S (ch_closes c)) (ch_closing c), ch_closing c).
Definition with_events (c : channel) (l : list event) : channel :=
  Channel l (ch_writes c) (ch_sent c) (ch_closes c) (ch_closing c).
Definition with_rest (s : SafeModeSession) (p : gostr) : SafeModeSession := Session (ss_active s) (ss_autoReleased s) (ss_closed s) p.

(** [bytes.Index]. *)
Fixpoint Index (s token : gostr) : option nat :=
  if bool_decide (token `prefix_of` s) then Some 0%nat
  else match s with [] => None | _ :: s => S <$> Index s token end.
Definition Contains (s token : gostr) : bool := match Index s token with Some _ => true | None => false end.

(** The first token of the list that occurs, with the end of its first occurrence. *)
Fixpoint firstToken (pending : gostr) (tokens : list gostr) : option (nat * gostr) :=
  match tokens with
  | [] => None
  | token :: tokens =>
      match Index pending token with
      | Some index => Some ((index + length token)%nat, token)
      | None => firstToken pending tokens
      end
  end.

(** The loop of [waitForAny]: the result, the token and the new [pending], or an
    error. *)
Fixpoint wait_events (events : list event) (pending : gostr) (tokens : list gostr)
    : list event * gostr * option (gostr * gostr) :=
  match firstToken pending tokens with
  | Some (end_, token) => (events, drop end_ pending, Some (take end_ pending, token))
  | None =>
      if maxSafeModeOutputBytes <=? Z.of_nat (length pending) then (events, pending, None)
      else
        match events with
        | Chunk data false :: events => wait_events events (pending ++ data) tokens
        | Chunk data true :: events => (events, pending ++ data, None)
        | Cancelled :: events | NoDeadline :: events => (events, pending, None)
        | [] => ([], pending, None)
        end
  end.

Definition waitForAny (tokens : list gostr) (s : SafeModeSession) (c : channel)
    : SafeModeSession * channel * option (gostr * gostr) :=
  match ch_events c with
  | NoDeadline :: events => (s, with_events c events, None)
  | events =>
      let '(events, rest, r) := wait_events events (ss_pending s) tokens in
      (with_rest s rest, with_events c events, r)
  end.
Definition waitFor (token : gostr) := waitForAny [token].

Definition failureMarkers : list gostr :=
  bs <$> ["syntax error"; "failure:"; "bad command name"; "expected end of command"; "no such item"; "not allowed"]%string.
(** [strings.ToLower] as far as an ASCII marker without the letter k can tell:
    besides the ASCII letters only U+0130 (bytes c4 b0) has an ASCII lower case
    in the markers, the letter i; c4 begins a character wherever it occurs. *)
Fixpoint toLower (s : gostr) : gostr :=
  match s with
  | xc4 :: ((xb0 :: s) as rest) => x69 :: toLower s
  | b :: s => lower_byte b :: toLower s
  | [] => []
  end.
Definition safeModeCommandFailed (output : gostr) : bool :=
  existsb (fun marker => Contains (toLower output) marker) failureMarkers.

Definition prompt : gostr := bs "] >".
Definition safePrompt : gostr := bs "<SAFE>".
Definition taken : gostr := bs "Taking Safe Mode session... Success!".
Definition released : gostr := bs "Safe Mode released".
Definition crlf : gostr := [x0d; x0a].
Definition receiptMarker (scriptName : gostr) : gostr := bs "SB-GATEWAY-" ++ drop (length scriptName - 12) scriptName.
Definition applyCommand (scriptName : gostr) : gostr :=
  bs ":do { /system script run " ++ scriptName ++ bs "; :put " ++ quoted (bs "OK:" ++ receiptMarker scriptName)
  ++ bs " } on-error={ :put " ++ quoted (bs "ERROR:" ++ receiptMarker scriptName) ++ bs " }" ++ crlf.
Definition successTokens (scriptName : gostr) : list gostr :=
  [ [x0d] ++ bs "OK:" ++ receiptMarker scriptName ++ crlf; [x0a] ++ bs "OK:" ++ receiptMarker scriptName ++ crlf ].
Definition failureTokens (scriptName : gostr) : list gostr :=
  [ [x0d] ++ bs "ERROR:" ++ receiptMarker scriptName ++ crlf; [x0a] ++ bs "ERROR:" ++ receiptMarker scriptName ++ crlf ].

Definition with_active (s : SafeModeSession) (active auto : bool) : SafeModeSession := Session active auto (ss_closed s) (ss_pending s).

(** [begin]; [true] is success. *)
Definition begin_ (scriptName : gostr) (s : SafeModeSession) (c : channel) : SafeModeSession * channel * bool :=
  match waitFor prompt s c with
  | (s, c, None) => (s, c, false)
  | (s, c, Some _) =>
      match write [x18] c with
      | (c, false) => (s, c, false)
      | (c, true) =>
          match waitFor taken s c with
          | (s, c, None) => (s, c, false)
          | (s, c, Some _) =>
              let s := with_active s true (ss_autoReleased s) in
              match write (applyCommand scriptName) c with
              | (c, false) => (s, c, false)
              | (c, true) =>
                  match waitForAny (successTokens scriptName ++ failureTokens scriptName) s c with
                  | (s, c, None) => (s, c, false)
                  | (s, c, Some (output, found)) =>
                      if Contains found (bs "ERROR:") || safeModeCommandFailed output then (s, c, false)
                      else
                        match waitForAny [safePrompt; prompt] s c with
                        | (s, c, None) => (s, c, false)
                        | (s, c, Some (_, p)) =>
                            if bool_decide (p = prompt) then (with_active s false true, c, true) else (s, c, true)
                        end
                  end
              end
          end
      end
  end.

Definition abort_ (s : SafeModeSession) (c : channel) : SafeModeSession * channel * bool :=
  if ss_closed s then (s, c, true)
  else
    let c := if ss_active s then (write [x04] c).1 else c in
    (Session false (ss_autoReleased s) true (ss_pending s), (close c).1, (close c).2).

Definition commit_ (s : SafeModeSession) (c : channel) : SafeModeSession * channel * bool :=
  if ss_closed s || (negb (ss_active s) && negb (ss_autoReleased s)) then (s, c, false)
  else if ss_autoReleased s then (Session (ss_active s) true true (ss_pending s), (close c).1, (close c).2)
  else
    match write [x18] c with
    | (c, false) => let '(s, c, _) := abort_ s c in (s, c, false)
    | (c, true) =>
        match waitFor released s c with
        | (s, c, None) => let '(s, c, _) := abort_ s c in (s, c, false)
        | (s, c, Some (output, _)) =>
            if Contains output (bs "Failure") then let '(s, c, _) := abort_ s c in (s, c, false)
            else (Session false (ss_autoReleased s) true (ss_pending s), (close c).1, (close c).2)
        end
    end.

(** [BeginSafeMode] behind the open console: a session that does not begin is
    aborted. *)
Definition openSession (scriptName : gostr) (c : channel) : option SafeModeSession * channel :=
  if negb (MatchString managedNamePattern scriptName) then (None, c)
  else
    match begin_ scriptName newSession c with
    | (s, c, true) => (Some s, c)
    | (s, c, false) => (None, (abort_ s c).1.2)
    end.

(** ** The receipt of a managed script *)

Definition managedScriptCommand (name : gostr) : option (gostr * gostr) :=
  if negb (MatchString managedNamePattern name) then None
  else
    let receipt := bs "OK:" ++ name in
    Some (bs ":do { :local target [/system/script/find where name=" ++ quoted name ++ bs "]; "
      ++ bs ":if ([:len $target] != 1) do={ :error " ++ quoted (bs "managed script missing or ambiguous") ++ bs " }; "
      ++ bs ":if ([/system/script/get $target comment] != " ++ quoted (bs "SB-GATEWAY managed script " ++ name)
      ++ bs ") do={ :error " ++ quoted (bs "unowned script") ++ bs " }; "
      ++ bs "/system/script/run $target; :put " ++ quoted receipt
      ++ bs " } on-error={ :put " ++ quoted (bs "ERROR:" ++ name) ++ bs " }", receipt).

Definition tailLimit : nat := 4096.
Definition tailWrite (data p : gostr) : gostr :=
  if (tailLimit <=? length p)%nat then drop (length p - tailLimit) p
  else
    let excess := (length data + length p - tailLimit)%nat in
    drop excess data ++ p.

Inductive completion := Completed | ExplicitError | OkSeenNotLast | ReceiptMissing.
#[export] Instance completion_eq : EqDecision completion.
Proof. solve_decision. Defined.
Fixpoint scan_lines (lines : list gostr) (explicitError receipt : gostr) (seen : bool) : option bool :=
  match lines with
  | [] => Some seen
  | line :: lines =>
      if bool_decide (TrimSpace line = explicitError) then None
      else scan_lines lines explicitError receipt (seen || bool_decide (TrimSpace line = receipt))
  end.
Definition TrimPrefix (s p : gostr) : gostr := if bool_decide (p `prefix_of` s) then drop (length p) s else s.
Definition completionFailure (receipt : gostr) (data : gostr) : completion :=
  let lines := Split (TrimSpace data) x0a in
  match scan_lines lines (bs "ERROR:" ++ TrimPrefix receipt (bs "OK:")) receipt false with
  | None => ExplicitError
  | Some seen =>
      if bool_decide (TrimSpace (default [] (last lines)) = receipt) then Completed
      else if seen then OkSeenNotLast else ReceiptMissing
  end.

(** [RunManagedScript] once the session runs: the writes of the session's output
    and the result of [session.Run]. *)
Definition RunManagedScript (name : gostr) (writes : list gostr) (run : bool) : bool :=
  match managedScriptCommand name with
  | None => false
  | Some (_, receipt) =>
      if run then bool_decide (completionFailure receipt (foldl tailWrite [] writes) = Completed) else false
  end.

(** ** What a wait returns *)

(** The bytes the session has not yet consumed. *)
Definition event_bytes (e : event) : gostr := match e with Chunk data _ => data | _ => [] end.
Definition received (events : list event) : gostr := concat (event_bytes <$> events).
Definition inbound (s : SafeModeSession) (c : channel) : gostr := ss_pending s ++ received (ch_events c).
Definition flags (s : SafeModeSession) := (ss_active s, ss_autoReleased s, ss_closed s).
Definition outbound (c : channel) := (ch_writes c, ch_sent c, ch_closes c, ch_closing c).
Definition occurs (token s : gostr) : Prop := exists a b, s = a ++ token ++ b.
(** The output up to and including the first occurrence of the token. *)
Definition ends_at_first (token out : gostr) : Prop :=
  exists pre, out = pre ++ token /\ forall a b, out = a ++ token ++ b -> (length pre <= length a)%nat.

Lemma Index_Some s token i :
  Index s token = Some i ->
  take (i + length token) s = take i s ++ token /\
  (forall a b, s = a ++ token ++ b -> (i <= length a)%nat) /\ (i + length token <= length s)%nat.
Proof.
  revert i; induction s as [|x s IH]; intros i; simpl; case_bool_decide as Hp; try discriminate.
  - intros [= <-]. apply prefix_nil_inv in Hp as ->. split_and!; auto; simpl; lia.
  - intros [= <-]. destruct Hp as [k Hk]. pose proof (f_equal length Hk) as Hl. rewrite length_app in Hl; simpl in *.
    split_and!; [rewrite Hk; apply take_app_length|intros; lia|lia].
  - destruct (Index s token) as [j|]; simpl; [|discriminate]. intros [= <-].
    destruct (IH j eq_refl) as (E & F & B). simpl. rewrite E. split_and!; auto; [|lia].
    intros [|y a] b Ha; simpl in *; [destruct Hp; exists b; auto|].
    injection Ha as -> Ha. pose proof (F _ _ Ha); lia.
Qed.
Lemma Index_occurs s token : occurs token s -> Index s token <> None.
Proof.
  intros (a & b & ->); induction a as [|x a IH]; simpl.
  - destruct (token ++ b) as [|y r] eqn:E; simpl; rewrite bool_decide_true; try discriminate;
      rewrite <- E; apply prefix_app_r; reflexivity.
  - case_bool_decide; [discriminate|]. simpl in IH. destruct (Index _ token); simpl; [discriminate|tauto].
Qed.
Lemma Contains_spec s token : Contains s token = true <-> occurs token s.
Proof.
  unfold Contains; split; intros H.
  - destruct (Index s token) as [i|] eqn:E; [|discriminate]. destruct (Index_Some _ _ _ E) as (F & _ & _).
    exists (take i s), (drop (i + length token) s). rewrite app_assoc, <- F. symmetry; apply take_drop.
  - apply Index_occurs in H. destruct (Index s token); congruence.
Qed.

Lemma firstToken_Some pending tokens k token :
  firstToken pending tokens = Some (k, token) ->
  token ∈ tokens /\ ends_at_first token (take k pending).
Proof.
  induction tokens as [|t tokens IH]; simpl; [discriminate|].
  destruct (Index pending t) as [i|] eqn:E; [intros [= <- <-]|intros F; destruct (IH F); split; [right|]; auto].
  split; [left|]. destruct (Index_Some _ _ _ E) as (F & G & B). exists (take i pending). split; auto.
  intros a b Ha. rewrite length_take_le by lia. apply (G a (b ++ drop (i + length t) pending)).
  rewrite <- (take_drop (i + length t) pending) at 1. rewrite Ha, <- !app_assoc; auto.
Qed.
Lemma firstToken_None pending tokens token :
  token ∈ tokens -> occurs token pending -> firstToken pending tokens <> None.
Proof.
  intros Ht Ho; induction Ht as [t tokens|t t' tokens Ht IH]; simpl.
  - apply Index_occurs in Ho. destruct (Index pending t); congruence.
  - destruct (Index pending t'); [discriminate|auto].
Qed.

Lemma wait_events_spec tokens events pending events' rest r :
  wait_events events pending tokens = (events', rest, r) ->
  match r with
  | Some (out, token) =>
      token ∈ tokens /\ ends_at_first token out /\ pending ++ received events = out ++ rest ++ received events'
  | None => True
  end.
Proof.
  revert pending; induction events as [|e events IH]; intros pending; simpl;
    destruct (firstToken pending tokens) as [[k token]|] eqn:E.
  1,3: intros [= <- <- <-]; destruct (firstToken_Some _ _ _ _ E); split_and!; auto;
    rewrite app_assoc, take_drop; auto.
  all: destruct (_ <=? _); [intros [= <- <- <-]; auto|].
  - intros [= <- <- <-]; auto.
  - destruct e as [data [|]| |]; try (intros [= <- <- <-]; auto; fail).
    intros H. apply IH in H. destruct r as [[out token]|]; auto.
    destruct H as (? & ? & H); split_and!; auto. rewrite <- H, <- app_assoc; auto.
Qed.

Definition quiet (e : event) : Prop := match e with Chunk _ false => True | _ => False end.
Lemma wait_events_finds tokens token events pending :
  token ∈ tokens -> Forall quiet events -> occurs token (pending ++ received events) ->
  Z.of_nat (length (pending ++ received events)) < maxSafeModeOutputBytes ->
  (wait_events events pending tokens).2 <> None.
Proof.
  intros Ht Hq. revert pending; induction Hq as [|e events Hq _ IH]; intros pending Ho Hl; simpl;
    destruct (firstToken pending tokens) as [[k t]|] eqn:E; try discriminate.
  - rewrite app_nil_r in Ho. destruct (firstToken_None _ _ _ Ht Ho E).
  - rewrite length_app in Hl. destruct (Z.leb_spec maxSafeModeOutputBytes (Z.of_nat (length pending))); [lia|].
    destruct e as [data [|]| |]; try destruct Hq.
    rewrite <- length_app in Hl. apply IH; rewrite <- app_assoc; auto.
Qed.

(** A wait consumes the stream up to the first token it finds and changes nothing
    else. *)
Lemma waitForAny_spec tokens s c s' c' r :
  waitForAny tokens s c = (s', c', r) ->
  flags s' = flags s /\ outbound c' = outbound c /\
  match r with
  | Some (out, token) => token ∈ tokens /\ ends_at_first token out /\ inbound s c = out ++ inbound s' c'
  | None => True
  end.
Proof.
  unfold waitForAny, inbound. intros H.
  assert (W : exists events rest,
    s' = with_rest s rest /\ c' = with_events c events /\
    (wait_events (ch_events c) (ss_pending s) tokens = (events, rest, r) \/ r = None)).
  { destruct (ch_events c) as [|[data f| |] l] eqn:E; [| | |injection H as <- <- <-].
    4: exists l, (ss_pending s); destruct s, c; auto.
    all: destruct (wait_events _ (ss_pending s) tokens) as [[ev rest] r'] eqn:F;
      injection H as <- <- <-; exists ev, rest; auto. }
  destruct W as (ev & rest & -> & -> & W). split_and!; [reflexivity..|].
  destruct r as [[out token]|]; auto. destruct W as [W|]; [|discriminate].
  apply wait_events_spec in W. simpl. auto.
Qed.

Lemma write_spec data c c' ok :
  write data c = (c', ok) ->
  ch_events c' = ch_events c /\ ch_sent c' = ch_sent c ++ [data] /\ ch_closes c' = ch_closes c /\ ch_closing c' = ch_closing c.
Proof. unfold write. destruct (ch_writes c); intros [= <- <-]; auto. Qed.

(** ** A session that begins *)

(** The stream shows, in this order, the prompt, the confirmation of Safe Mode,
    the success line of exactly this script and a prompt. *)
Definition began_stream (scriptName : gostr) (before : gostr) (s' : SafeModeSession) (rest : gostr) : Prop :=
  exists o1 o2 o3 o4 ok last_ : gostr,
    before = o1 ++ o2 ++ o3 ++ o4 ++ rest /\
    ends_at_first prompt o1 /\ ends_at_first taken o2 /\
    ends_at_first ok o3 /\ ok ∈ successTokens scriptName /\ safeModeCommandFailed o3 = false /\
    ends_at_first last_ o4 /\
    ((last_ = safePrompt /\ ss_active s' = true) \/
     (last_ = prompt /\ ss_active s' = false /\ ss_autoReleased s' = true)).

(** The session is still open: the channel was not closed. *)
Definition kept (s : SafeModeSession) (c : channel) (s' : SafeModeSession) (c' : channel) : Prop :=
  ss_closed s' = ss_closed s /\ ch_closes c' = ch_closes c /\ ch_closing c' = ch_closing c.

Lemma failure_contains scriptName token : token ∈ failureTokens scriptName -> Contains token (bs "ERROR:") = true.
Proof.
  intros H. apply Contains_spec. unfold failureTokens in H.
  rewrite !elem_of_cons, elem_of_nil in H. destruct H as [->|[->|[]]].
  - exists [x0d], (receiptMarker scriptName ++ crlf); auto.
  - exists [x0a], (receiptMarker scriptName ++ crlf); auto.
Qed.

Lemma wait_kept tokens s c s' c' r :
  waitForAny tokens s c = (s', c', r) ->
  kept s c s' c' /\ ss_active s' = ss_active s /\ ss_autoReleased s' = ss_autoReleased s /\ ch_sent c' = ch_sent c.
Proof.
  intros H. apply waitForAny_spec in H as (F & O & _). unfold flags, outbound in *. unfold kept.
  injection F; injection O; intros; subst; auto 10.
Qed.
Lemma wait_found tokens s c s' c' out token :
  waitForAny tokens s c = (s', c', Some (out, token)) ->
  token ∈ tokens /\ ends_at_first token out /\ inbound s c = out ++ inbound s' c'.
Proof. intros H. apply waitForAny_spec in H as (_ & _ & H). exact H. Qed.
Lemma write_kept data s c c' ok :
  write data c = (c', ok) -> kept s c s c' /\ inbound s c' = inbound s c /\ ch_sent c' = ch_sent c ++ [data].
Proof. intros H. apply write_spec in H as (E & S & C & K). unfold kept, inbound. rewrite E, C, K; auto. Qed.
Lemma kept_trans s1 c1 s2 c2 s3 c3 : kept s1 c1 s2 c2 -> kept s2 c2 s3 c3 -> kept s1 c1 s3 c3.
Proof. unfold kept. intuition congruence. Qed.

Lemma begin_kept scriptName s c s' c' ok : begin_ scriptName s c = (s', c', ok) -> kept s c s' c'.
Proof.
  unfold begin_, waitFor.
  repeat (match goal with
  | |- context [match waitForAny ?t ?s ?c with _ => _ end] =>
      let E := fresh in destruct (waitForAny t s c) as [[? ?] [[? ?]|]] eqn:E; apply wait_kept in E as (? & _)
  | |- context [match write ?d ?c with _ => _ end] =>
      let E := fresh in destruct (write d c) as [? []] eqn:E; apply (write_kept _ newSession) in E as (? & _)
  | |- context [if ?b then _ else _] => destruct b
  end); intros [= <- <- <-]; unfold kept in *; simpl in *; intuition congruence.
Qed.

Lemma begin_stream scriptName s c s' c' :
  begin_ scriptName s c = (s', c', true) ->
  began_stream scriptName (inbound s c) s' (inbound s' c') /\ ch_sent c' = ch_sent c ++ [[x18]; applyCommand scriptName].
Proof.
  unfold begin_, waitFor.
  destruct (waitForAny [prompt] s c) as [[s1 c1] [[o1 t1]|]] eqn:E1; [|discriminate].
  destruct (write [x18] c1) as [c2 []] eqn:E2; [|discriminate].
  destruct (waitForAny [taken] s1 c2) as [[s3 c3] [[o2 t2]|]] eqn:E3; [|discriminate].
  destruct (write (applyCommand scriptName) c3) as [c4 []] eqn:E4; [|discriminate].
  destruct (waitForAny _ (with_active s3 true _) c4) as [[s5 c5] [[o3 t3]|]] eqn:E5; [|discriminate].
  destruct (Contains t3 (bs "ERROR:")) eqn:Ce; [discriminate|].
  destruct (safeModeCommandFailed o3) eqn:Cf; [discriminate|]. cbn [orb].
  destruct (waitForAny [safePrompt; prompt] s5 c5) as [[s6 c6] [[o4 t4]|]] eqn:E6; [|discriminate].
  intros H.
  pose proof (wait_kept _ _ _ _ _ _ E1) as (_ & _ & _ & S1). pose proof (wait_kept _ _ _ _ _ _ E3) as (_ & _ & _ & S3).
  pose proof (wait_kept _ _ _ _ _ _ E5) as (_ & A5 & _ & S5). pose proof (wait_kept _ _ _ _ _ _ E6) as (_ & A6 & _ & S6).
  apply wait_found in E1 as (T1 & F1 & I1), E3 as (T3 & F3 & I3), E5 as (T5 & F5 & I5), E6 as (T6 & F6 & I6).
  apply (write_kept _ s1) in E2 as (_ & I2 & S2). apply (write_kept _ s3) in E4 as (_ & I4 & S4).
  apply list_elem_of_singleton in T1 as ->, T3 as ->.
  apply elem_of_app in T5 as [T5|T5]; [|apply failure_contains in T5; congruence].
  change (inbound (with_active s3 true (ss_autoReleased s3)) c4) with (inbound s3 c4) in I5.
  assert (c' = c6 /\ inbound s' c' = inbound s6 c6 /\
    ((t4 = safePrompt /\ ss_active s' = true) \/ (t4 = prompt /\ ss_active s' = false /\ ss_autoReleased s' = true)))
    as (-> & Hr & Hp).
  { simpl in A5. rewrite !elem_of_cons, elem_of_nil in T6. case_bool_decide as P; simplify_eq.
    - split_and!; auto.
    - split_and!; auto. destruct T6 as [?|[?|[]]]; [|congruence]. left; split; congruence. }
  split; [|rewrite S6, S5, S4, S3, S2, S1, <- app_assoc; auto].
  exists o1, o2, o3, o4, t3, t4. rewrite Hr. split_and!; auto.
  rewrite I1, <- I2, I3, <- I4, I5, I6; auto.
Qed.

(** ** A session that ends *)

(** [Commit] ([true]) and [Abort] or [Close] ([false]) in any order. *)
Fixpoint endings (ops : list bool) (s : SafeModeSession) (c : channel) : SafeModeSession * channel :=
  match ops with
  | [] => (s, c)
  | true :: ops => let '(s, c, _) := commit_ s c in endings ops s c
  | false :: ops => let '(s, c, _) := abort_ s c in endings ops s c
  end.

Lemma abort_spec s c s' c' ok :
  abort_ s c = (s', c', ok) ->
  ss_closed s' = true /\
  (ss_closed s = true -> s' = s /\ c' = c) /\
  (ss_closed s = false -> ch_closes c' = S (ch_closes c) /\
     ch_sent c' = ch_sent c ++ (if ss_active s then [[x04]] else [])).
Proof.
  unfold abort_, close. destruct (ss_closed s) eqn:E; [intros [= <- <- <-]; repeat split; auto; discriminate|].
  destruct (ss_active s); [destruct (write [x04] c) as [c1 ok1] eqn:W; apply write_spec in W as (_ & S & C & _)|];
    intros [= <- <- <-]; simpl; rewrite ?app_nil_r; split_and!; auto; discriminate.
Qed.

Lemma commit_closed s c : ss_closed s = true -> commit_ s c = (s, c, false).
Proof. unfold commit_. intros ->; auto. Qed.

(** An acknowledged release. *)
Definition acknowledged (s : SafeModeSession) (c : channel) (s' : SafeModeSession) (c' : channel) : Prop :=
  exists out, ends_at_first released out /\ Contains out (bs "Failure") = false /\ inbound s c = out ++ inbound s' c'.

Lemma commit_spec s c s' c' ok :
  commit_ s c = (s', c', ok) -> ss_closed s = false ->
  (ss_active s = false -> ss_autoReleased s = false -> s' = s /\ c' = c /\ ok = false) /\
  (ss_autoReleased s = true -> ss_closed s' = true /\ ch_closes c' = S (ch_closes c) /\ ch_sent c' = ch_sent c /\ ok = ch_closing c) /\
  (ss_active s = true -> ss_autoReleased s = false ->
     ss_closed s' = true /\ ss_active s' = false /\ ch_closes c' = S (ch_closes c) /\
     ((acknowledged s c s' c' /\ ch_sent c' = ch_sent c ++ [[x18]] /\ ok = ch_closing c) \/
      (ok = false /\ ch_sent c' = ch_sent c ++ [[x18]; [x04]]))).
Proof.
  intros H Hc. unfold commit_ in H. rewrite Hc in H.
  destruct (ss_active s) eqn:Ha, (ss_autoReleased s) eqn:Hr; simpl in H;
    try (injection H as <- <- <-; split_and!; auto; discriminate).
  split_and!; try discriminate. intros _ _.
  destruct (write [x18] c) as [c1 w] eqn:W; apply (write_kept _ s) in W as (K1 & I1 & S1).
  assert (A : forall s2 c2, (let '(s, c, _) := abort_ s2 c2 in (s, c, false)) = (s', c', ok) -> kept s c1 s2 c2 ->
     ss_active s2 = true -> ch_sent c2 = ch_sent c1 ->
     ss_closed s' = true /\ ss_active s' = false /\ ch_closes c' = S (ch_closes c) /\
     ok = false /\ ch_sent c' = ch_sent c ++ [[x18]; [x04]]).
  { intros s2 c2 E (K2 & C2 & _) A2 S2. destruct (abort_ s2 c2) as [[s3 c3] o] eqn:F. injection E as <- <- <-.
    pose proof (f_equal (fun r => ss_active r.1.1) F) as Hs. unfold abort_ in Hs. rewrite K2, Hc in Hs. simpl in Hs.
    apply abort_spec in F as (? & _ & F). destruct F as (F1 & F2); [congruence|].
    destruct K1 as (_ & K1 & _). rewrite A2, S2, S1, <- app_assoc in F2. split_and!; auto; congruence. }
  destruct w; [|edestruct A as (? & ? & ? & ? & ?); [exact H|repeat split; auto..|]; tauto].
  unfold waitFor in H. destruct (waitForAny [released] s c1) as [[s2 c2] r] eqn:E.
  pose proof (wait_kept _ _ _ _ _ _ E) as (K2 & A2 & _ & S2).
  destruct r as [[out token]|]; [|edestruct A as (? & ? & ? & ? & ?); [exact H|auto; congruence..|]; tauto].
  destruct (Contains out (bs "Failure")) eqn:Cf;
    [edestruct A as (? & ? & ? & ? & ?); [exact H|auto; congruence..|]; tauto|].
  apply wait_found in E as (T & F & I). apply list_elem_of_singleton in T as ->.
  unfold kept in K1, K2. destruct K1 as (_ & C1 & G1), K2 as (_ & C2 & G2).
  injection H as <- <- <-; simpl. split_and!; auto; [congruence|]. left. split_and!; [|congruence..].
  exists out. split_and!; auto. unfold inbound in *; simpl in *. rewrite <- I1. exact I.
Qed.

Lemma endings_closed ops s c : ss_closed s = true -> endings ops s c = (s, c).
Proof.
  intros H; induction ops as [|[] ops IH]; simpl; auto; [rewrite commit_closed; auto|].
  unfold abort_. rewrite H; auto.
Qed.

Lemma endings_once ops s c :
  ss_closed s = false -> ss_active s || ss_autoReleased s = true -> ops <> [] ->
  ch_closes (endings ops s c).2 = S (ch_closes c).
Proof.
  intros Hc Ha Hn. destruct ops as [|[] ops]; [congruence|simpl..].
  - destruct (commit_ s c) as [[s1 c1] ok] eqn:E. apply commit_spec in E as (_ & A & B); auto.
    assert (ss_closed s1 = true /\ ch_closes c1 = S (ch_closes c)) as [K L].
    { destruct (ss_autoReleased s); [destruct A; tauto|]. rewrite orb_false_r in Ha. destruct B; tauto. }
    rewrite endings_closed; auto.
  - destruct (abort_ s c) as [[s1 c1] ok] eqn:E. apply abort_spec in E as (K & _ & A).
    rewrite endings_closed by auto. apply A; auto.
Qed.

(** The first ending decides. *)
Lemma endings_first op ops s c :
  ss_closed s = false -> ss_active s || ss_autoReleased s = true -> endings (op :: ops) s c = endings [op] s c.
Proof.
  intros Hc Ha. destruct op; simpl.
  - destruct (commit_ s c) as [[s1 c1] ok] eqn:E. apply commit_spec in E as (_ & A & B); auto. apply endings_closed.
    destruct (ss_autoReleased s); [destruct A; tauto|]. rewrite orb_false_r in Ha. destruct B; tauto.
  - destruct (abort_ s c) as [[s1 c1] ok] eqn:E. apply abort_spec in E as (K & _). by apply endings_closed.
Qed.

Lemma openSession_spec scriptName c :
  match openSession scriptName c with
  | (Some s, c') =>
      MatchString managedNamePattern scriptName = true /\
      began_stream scriptName (received (ch_events c)) s (inbound s c') /\
      ch_sent c' = ch_sent c ++ [[x18]; applyCommand scriptName] /\
      ss_closed s = false /\ ss_active s || ss_autoReleased s = true /\ ch_closes c' = ch_closes c
  | (None, c') =>
      if MatchString managedNamePattern scriptName then ch_closes c' = S (ch_closes c) else c' = c
  end.
Proof.
  unfold openSession. destruct (MatchString managedNamePattern scriptName); [simpl|reflexivity].
  destruct (begin_ scriptName newSession c) as [[s c1] ok] eqn:E.
  pose proof (begin_kept _ _ _ _ _ _ E) as (K & C & _). destruct ok.
  - apply begin_stream in E as (B & S). split_and!; auto.
    destruct B as (? & ? & ? & ? & ? & ? & _ & _ & _ & _ & _ & _ & _ & [(_ & ->)|(_ & -> & ->)]); auto.
  - destruct (abort_ s c1) as [[s2 c2] o] eqn:F. apply abort_spec in F as (_ & _ & F).
    destruct F as (F & _); [rewrite K; auto|]. simpl in *. congruence.
Qed.

(** ** The tail of a script's output *)

Definition lastn {A} (n : nat) (l : list A) : list A := drop (length l - n) l.

Lemma tailWrite_spec out p : tailWrite (lastn tailLimit out) p = lastn tailLimit (out ++ p).
Proof.
  unfold tailWrite, lastn. rewrite length_app, length_drop. destruct (Nat.leb_spec tailLimit (length p)).
  - rewrite drop_app_ge by lia. f_equal; lia.
  - rewrite drop_drop, drop_app_le by lia. f_equal; f_equal; lia.
Qed.
Lemma tail_fold writes out : foldl tailWrite (lastn tailLimit out) writes = lastn tailLimit (out ++ concat writes).
Proof.
  revert out; induction writes as [|p writes IH]; intros out; simpl; [rewrite app_nil_r; auto|].
  rewrite tailWrite_spec, IH, <- app_assoc; auto.
Qed.

Lemma scan_None lines e r seen : scan_lines lines e r seen = None <-> Exists (fun l => TrimSpace l = e) lines.
Proof.
  revert seen; induction lines as [|l lines IH]; intros seen; simpl; [split; [discriminate|inversion 1]|].
  case_bool_decide as H; rewrite Exists_cons; [tauto|]. rewrite IH; tauto.
Qed.

Lemma completed_spec name data :
  completionFailure (bs "OK:" ++ name) data = Completed <->
  let lines := Split (TrimSpace data) x0a in
  TrimSpace (default [] (last lines)) = bs "OK:" ++ name /\ Forall (fun l => TrimSpace l <> bs "ERROR:" ++ name) lines.
Proof.
  unfold completionFailure. replace (TrimPrefix _ (bs "OK:")) with name by
    (unfold TrimPrefix; rewrite bool_decide_true by (apply prefix_app_r; reflexivity); reflexivity).
  cbv zeta. set (lines := Split _ _). destruct (scan_lines lines _ _ _) as [seen|] eqn:E.
  - assert (Forall (fun l => TrimSpace l <> bs "ERROR:" ++ name) lines).
    { apply Forall_Exists_neg. intros H. apply <- (scan_None lines (bs "ERROR:" ++ name) (bs "OK:" ++ name) false) in H. congruence. }
    case_bool_decide; [tauto|]. destruct seen; split; try discriminate; tauto.
  - apply scan_None in E. split; [discriminate|]. intros (_ & H). apply Forall_Exists_neg in H. tauto.
Qed.

(** ** The properties *)

(** C29: Whatever the console sends, [BeginSafeMode] returns a session only after
    it saw the prompt, the confirmation that Safe Mode was taken, the success line
    of exactly this script (and no failure text before it) and a prompt, in this
    order, having sent Ctrl-X and the command and nothing else; the session is
    active exactly when the prompt still shows Safe Mode. When it returns no
    session the console is closed, once; a name that is not a managed name sends
    nothing. *)
Theorem safe_mode_begins scriptName c :
  match openSession scriptName c with
  | (Some s, c') =>
      MatchString managedNamePattern scriptName = true /\
      began_stream scriptName (received (ch_events c)) s (inbound s c') /\
      ch_sent c' = ch_sent c ++ [[x18]; applyCommand scriptName] /\
      ss_closed s = false /\ ss_active s || ss_autoReleased s = true /\ ch_closes c' = ch_closes c
  | (None, c') =>
      if MatchString managedNamePattern scriptName then ch_closes c' = S (ch_closes c) else c' = c
  end.
Proof. apply openSession_spec. Qed.

(** C30: How an open session ends.  When Safe Mode is still active, [Commit] sends
    Ctrl-X, and either RouterOS acknowledged the release without a failure text
    and nothing more is sent (the result is that of closing the console), or
    Ctrl-D is sent as well and an error is returned; [Abort] sends Ctrl-D.  When
    the router released the transaction itself (its history was full), [Commit]
    and [Abort] send nothing and only close the console.  Whatever commits and
    aborts follow, the first one decides: no later one sends anything, and the
    console is closed exactly once. *)
Theorem safe_mode_ends s c :
  ss_closed s = false -> ss_active s || ss_autoReleased s = true ->
  (let '(s', c', ok) := commit_ s c in
   if ss_autoReleased s then ch_sent c' = ch_sent c /\ ok = ch_closing c
   else (acknowledged s c s' c' /\ ch_sent c' = ch_sent c ++ [[x18]] /\ ok = ch_closing c) \/
        (ok = false /\ ch_sent c' = ch_sent c ++ [[x18]; [x04]])) /\
  ch_sent (abort_ s c).1.2 = ch_sent c ++ (if ss_active s then [[x04]] else []) /\
  (forall op ops, endings (op :: ops) s c = endings [op] s c /\ ch_closes (endings (op :: ops) s c).2 = S (ch_closes c)).
Proof.
  intros Hc Ha. split; [|split].
  - destruct (commit_ s c) as [[s' c'] ok] eqn:E. apply commit_spec in E as (_ & A & B); auto.
    destruct (ss_autoReleased s); [tauto|]. rewrite orb_false_r in Ha. tauto.
  - destruct (abort_ s c) as [[s' c'] ok] eqn:E. apply abort_spec in E as (_ & _ & A). by apply A.
  - intros op ops. split; [by apply endings_first|by apply endings_once].
Qed.

(** C31: A managed script counts as done only on its receipt: of any output, in any
    number of writes, the last 4096 bytes are kept, and the run succeeds exactly
    when the session ran, the last line of that tail is the receipt of this script
    and no line of it is the script's error line. *)
Theorem script_receipt name writes run :
  foldl tailWrite [] writes = lastn tailLimit (concat writes) /\
  (RunManagedScript name writes run = true <->
     MatchString managedNamePattern name = true /\ run = true /\
     let lines := Split (TrimSpace (lastn tailLimit (concat writes))) x0a in
     TrimSpace (default [] (last lines)) = bs "OK:" ++ name /\ Forall (fun l => TrimSpace l <> bs "ERROR:" ++ name) lines).
Proof.
  pose proof (tail_fold writes []) as T. change (lastn tailLimit []) with ([] : gostr) in T. split; [exact T|].
  unfold RunManagedScript, managedScriptCommand. rewrite T, app_nil_l.
  destruct (MatchString managedNamePattern name); simpl; [|split; [discriminate|intros [? _]; discriminate]].
  destruct run; [|split; [discriminate|intros (_ & ? & _); discriminate]].
  rewrite bool_decide_eq_true. pose proof (completed_spec name (lastn tailLimit (concat writes))) as C.
  cbv zeta in C. tauto.
Qed.

(** ** A console that answers *)

Definition demoName : gostr := bs "SB-GATEWAY-apply-456789abcdef".
Definition demoConsole : channel :=
  Channel [Chunk (bs "[admin@r] >") false; Chunk (taken ++ crlf) false;
           Chunk (crlf ++ bs "OK:SB-GATEWAY-456789ab") false; Chunk (bs "cdef" ++ crlf ++ bs "[admin@r] <SAFE>") false;
           Chunk (crlf ++ released) false] [] [] 0 true.

Example demo_begins :
  (fun r => (flags <$> r.1, length (ch_sent r.2))) (openSession demoName demoConsole) = (Some (true, false, false), 2%nat).
Proof. vm_compute. reflexivity. Qed.

Definition demoSession : SafeModeSession := Session true false false [].
Definition demoRelease : channel := Channel [Chunk (bs "Safe Mode rel") false; Chunk (bs "eased") false] [] [] 0 true.
Lemma safe_mode_ends_witness :
  (commit_ demoSession demoRelease).2 = true /\ ch_closes (endings [true; false; true] demoSession demoRelease).2 = 1%nat.
Proof.
  split; [vm_compute; reflexivity|].
  exact (proj2 (proj2 (proj2 (safe_mode_ends demoSession demoRelease eq_refl eq_refl)) true [false; true])).
Defined.
