(* ===== verification/RouterDelta.v ===== *)
(** * Router deltas

    [internal/runtimeconfig/routeros_delta.go] and the assembly of a router
    candidate ([routeros_render.go]): a candidate is a header and thirteen named
    sections, a delta holds the sections that differ between two candidates, each
    complete.  The sections' contents are the renderer's; every routine here takes
    them as text. *)

From Stdlib Require Import String.
From S2P Require Import Prelude GoBase GoText GoFloat SafeMode RouterGuard.
Open Scope Z_scope.

(** ** Text *)

Definition nl : byte := x0a.
(** [strings.Join] with a newline. *)
Fixpoint Lines (l : list gostr) : gostr :=
  match l with [] => [] | [s] => s | s :: l => s ++ nl :: Lines l end.
(** [strings.Join] with a comma. *)
Fixpoint Commas (l : list gostr) : gostr :=
  match l with [] => [] | [s] => s | s :: l => s ++ x2c :: Commas l end.
Definition HasPrefix (s p : gostr) : bool := bool_decide (p `prefix_of` s).
Definition TrimSuffix (s suffix : gostr) : gostr := default s (CutSuffix s suffix).
(** A literal of the source with its double quotes written as apostrophes. *)
Definition qt (s : string) : gostr := (fun b => if bool_decide (b = x27) then x22 else b) <$> bs s.

(** ** The layout of a candidate *)

Definition routerOSCandidateHeader : gostr := bs "# SB-GATEWAY generated candidate; managed objects only".
Definition routerOSSectionPrefix : gostr := bs "# SB-GATEWAY section:".
Definition routerOSSectionOrder : list gostr :=
  bs <$> ["panel-port-check"; "public-port-check"; "core"; "dns"; "watchdog"; "address-lists"; "protocol-policy";
          "outage-exceptions"; "public-ingress"; "panel-ingress"; "wireguard-egress"; "ipv6"; "finalize"]%string.

(** The end of [RenderRouterOSTrafficCandidate]: the lines of the rendered
    sections, in order. *)
Definition assembleCandidate (sections : gmap gostr (list gostr)) : gostr :=
  Lines (routerOSCandidateHeader ::
    flat_map (fun name => (routerOSSectionPrefix ++ name) :: default [] (sections !! name)) routerOSSectionOrder) ++ [nl].

(** ** Splitting a candidate *)

(** The variables of the loop; a section that has started is in [parts]. *)
Record scan := Scan { parts : gmap gostr (list gostr); current : gostr; order : list gostr }.

Definition scanLine (line : gostr) (st : scan) : option scan :=
  if HasPrefix line routerOSSectionPrefix then
    let name := TrimPrefix line routerOSSectionPrefix in
    if negb (bool_decide (name ∈ routerOSSectionOrder)) || bool_decide (is_Some (parts st !! name)) then None
    else Some (Scan (<[name := []]> (parts st)) name (order st ++ [name]))
  else if bool_decide (current st = []) then None
  else Some (Scan (<[current st := default [] (parts st !! current st) ++ [line]]> (parts st)) (current st) (order st)).
Fixpoint scanLines (lines : list gostr) (st : scan) : option scan :=
  match lines with
  | [] => Some st
  | line :: lines => match scanLine line st with Some st => scanLines lines st | None => None end
  end.
(** The last loop: the sections in their order, none of them empty. *)
Fixpoint collect (names order : list gostr) (parts : gmap gostr (list gostr)) (sections : gmap gostr gostr) : option (gmap gostr gostr) :=
  match names, order with
  | [], [] => Some sections
  | name :: names, other :: order =>
      let lines := default [] (parts !! name) in
      if negb (bool_decide (other = name)) || bool_decide (lines = []) then None
      else collect names order parts (<[name := Lines lines]> sections)
  | _, _ => None
  end.
Definition splitRouterOSCandidate (source : gostr) : option (gmap gostr gostr) :=
  match Split (TrimSuffix source [nl]) nl with
  | [] => None
  | header :: lines =>
      if negb (bool_decide (header = routerOSCandidateHeader)) then None
      else match scanLines lines (Scan ∅ [] []) with
           | None => None
           | Some st => collect routerOSSectionOrder (order st) (parts st) ∅
           end
  end.

(** ** Building a delta *)

Record RouterOSDeltaPlan := DeltaPlan { dp_apply : gostr; dp_rollback : gostr; dp_sections : list gostr }.

Definition renderRouterOSFailClosedDrop : list gostr := qt <$>
  [":local forwardReturn [/ip/firewall/filter/find where comment='SB-GATEWAY forward policy return']";
   ":if ([:len $forwardReturn] != 1) do={ :error 'SB-GATEWAY forward return rule missing or ambiguous' }";
   ":local failClosedDrop [/ip/firewall/filter/find where comment='SB-GATEWAY fail-closed public drop']";
   ":if ([:len $failClosedDrop] > 1) do={ :error 'SB-GATEWAY fail-closed rule ambiguous' }";
   ":if ([:len $failClosedDrop] = 0) do={ /ip/firewall/filter/add chain='sb-gateway-forward' action=drop src-address-list='SB_FAIL_CLOSED_CLIENTS' dst-address-list='!SB_INTERNAL_NETWORKS' place-before=$forwardReturn comment='SB-GATEWAY fail-closed public drop'; :set failClosedDrop [/ip/firewall/filter/find where comment='SB-GATEWAY fail-closed public drop'] }";
   "/ip/firewall/filter/set $failClosedDrop chain='sb-gateway-forward' action=drop src-address-list='SB_FAIL_CLOSED_CLIENTS' dst-address-list='!SB_INTERNAL_NETWORKS' disabled=no";
   "/ip/firewall/filter/move $failClosedDrop destination=$forwardReturn"]%string.

Definition routerOSDeltaPrelude (section : gostr) : list gostr :=
  if bool_decide (section = bs "address-lists") then renderRouterOSFailClosedDrop
  else if bool_decide (section = bs "wireguard-egress") then qt <$>
    [":local sbBridge [/interface/bridge/find where comment='SB-GATEWAY container bridge']";
     ":if ([:len $sbBridge] != 1) do={ :error 'SB-GATEWAY container bridge missing or ambiguous' }";
     ":local sbBridgeName [/interface/bridge/get $sbBridge name]"]%string
  else [].

(** A Go [map[string]string] and [map[string]bool] read at a key. *)
Definition textAt (m : gmap gostr gostr) (name : gostr) : gostr := default [] (m !! name).
Definition chosen (m : gmap gostr bool) (name : gostr) : bool := default false (m !! name).

(** The map [selected] after the additions. *)
Definition selectSections (previous desired : gmap gostr gostr) : gmap gostr bool :=
  let selected := foldl (fun m name => <[name := negb (bool_decide (textAt previous name = textAt desired name))]> m) ∅ routerOSSectionOrder in
  let changed := existsb snd (map_to_list selected) in
  let selected :=
    if changed && Contains (textAt desired (bs "panel-ingress")) (bs "SB_WIREGUARD_INGRESS")
    then <[bs "panel-ingress" := true]> selected else selected in
  let selected :=
    if chosen selected (bs "panel-ingress") then <[bs "panel-port-check" := true]> selected else selected in
  if chosen selected (bs "core") || chosen selected (bs "address-lists") || chosen selected (bs "wireguard-egress")
  then <[bs "finalize" := true]> selected else selected.

(** The closure [assemble]. *)
Definition assembleDelta (selected : gmap gostr bool) (sections : list gostr) (source : gmap gostr gostr) : gostr :=
  Lines (bs "# SB-GATEWAY generated minimal delta; complete managed sections" ::
         (bs "# SB-GATEWAY delta sections: " ++ Commas sections) ::
         flat_map (fun name => (routerOSSectionPrefix ++ name) ::
           (if negb (chosen selected (bs "core")) then routerOSDeltaPrelude name else []) ++ [textAt source name]) sections) ++ [nl].

(** The double nearest to 0.8. *)
Definition defaultRatio : f64 := SpecFloat.S754_finite false 7205759403792794 (-53).
Definition fone : f64 := f64_of_Z 1.
Definition size (s : gostr) : Z := Z.of_nat (length s).
Definition ratio (part whole : gostr) : f64 := fdiv (f64_of_Z (size part)) (f64_of_Z (Z.max 1 (size whole))).

Definition BuildRouterOSDelta (previousSource desiredSource : gostr) (maximumRatio : f64) : option RouterOSDeltaPlan :=
  let maximumRatio := if fle maximumRatio fzero || fgt maximumRatio fone then defaultRatio else maximumRatio in
  match splitRouterOSCandidate previousSource with
  | None => None
  | Some previous =>
  match splitRouterOSCandidate desiredSource with
  | None => None
  | Some desired =>
      let selected := selectSections previous desired in
      let sections := base.filter (fun name => chosen selected name = true) routerOSSectionOrder in
      if bool_decide (sections = []) then None
      else
        let apply := assembleDelta selected sections desired in
        let rollback := assembleDelta selected sections previous in
        if (2 * 1024 * 1024 <? size apply) || (2 * 1024 * 1024 <? size rollback) then None
        else if fgt (ratio apply desiredSource) maximumRatio || fgt (ratio rollback previousSource) maximumRatio then None
        else Some (DeltaPlan apply rollback sections)
  end end.

#[local] Opaque routerOSSectionOrder routerOSSectionPrefix routerOSCandidateHeader.

(** ** Lines *)

Lemma Split_some s sep : Split s sep <> [].
Proof. destruct s as [|b s]; simpl; [done|]. case_bool_decide; [done|]. by destruct (Split s sep). Qed.
Lemma Lines_cons s l : l <> [] -> Lines (s :: l) = s ++ nl :: Lines l.
Proof. by destruct l. Qed.
Lemma Lines_Split s : Lines (Split s nl) = s.
Proof.
  induction s as [|b s IH]; simpl; [done|]. pose proof (Split_some s nl) as Hn.
  case_bool_decide as Hb.
  - rewrite Lines_cons by done. by rewrite IH, Hb.
  - destruct (Split s nl) as [|w ws]; [done|]. destruct ws; cbn in *; by rewrite <- IH.
Qed.
Lemma Split_inj s t : Split s nl = Split t nl -> s = t.
Proof. intros E. by rewrite <- (Lines_Split s), E, Lines_Split. Qed.
Lemma Split_app s t : Split (s ++ nl :: t) nl = Split s nl ++ Split t nl.
Proof.
  induction s as [|b s IH]; simpl; [done|].
  rewrite IH. case_bool_decide; [done|]. by destruct (Split s nl) eqn:E; [apply Split_some in E|].
Qed.
Lemma Split_Lines l : l <> [] -> Split (Lines l) nl = flat_map (fun s => Split s nl) l.
Proof.
  induction l as [|s l IH]; intros Hl; [done|]. destruct l as [|t l]; [cbn [flat_map]; by rewrite app_nil_r|].
  rewrite Lines_cons by done. by rewrite Split_app, IH.
Qed.
Lemma Split_whole s : Forall (fun l => nl ∉ l) (Split s nl).
Proof.
  induction s as [|b s IH]; simpl; [repeat constructor; apply not_elem_of_nil|].
  case_bool_decide; [constructor; [apply not_elem_of_nil|done]|].
  destruct (Split s nl); [repeat constructor; set_solver|]. apply Forall_cons in IH as [? ?]. constructor; [set_solver|done].
Qed.
Lemma flat_map_whole ls : Forall (fun l => nl ∉ l) ls -> flat_map (fun s => Split s nl) ls = ls.
Proof. induction 1 as [|l ls Hl _ IH]; simpl; [done|]. rewrite Split_plain by done. cbn. by rewrite IH. Qed.

Lemma TrimSuffix_app s : TrimSuffix (s ++ [nl]) [nl] = s.
Proof.
  unfold TrimSuffix, CutSuffix. rewrite length_app. cbn. replace (length s + 1 - 1)%nat with (length s) by lia.
  rewrite drop_app_length, take_app_length, !bool_decide_true by (done || lia). done.
Qed.
Lemma HasPrefix_app p s : HasPrefix (p ++ s) p = true.
Proof. apply bool_decide_true. by exists s. Qed.
Lemma TrimPrefix_app p s : TrimPrefix (p ++ s) p = s.
Proof. unfold TrimPrefix. rewrite bool_decide_true by (by exists s). apply drop_app_length. Qed.
Lemma HasPrefix_split l p : HasPrefix l p = true -> l = p ++ TrimPrefix l p.
Proof. intros H%bool_decide_eq_true. destruct H as [s ->]. by rewrite TrimPrefix_app. Qed.

(** ** Blocks: the reading of a script as named groups of lines *)

Definition plain (line : gostr) : Prop := HasPrefix line routerOSSectionPrefix = false.
Abbreviation block := (gostr * list gostr)%type.
Definition blockLines (b : block) : list gostr := (routerOSSectionPrefix ++ b.1) :: b.2.

(** The state of the scan after a list of blocks. *)
Record scanned (blocks : list block) (st : scan) : Prop := {
  sc_parts : parts st = list_to_map blocks;
  sc_current : current st = default [] (last blocks.*1);
  sc_order : order st = blocks.*1;
  sc_nodup : NoDup blocks.*1;
  sc_valid : Forall (fun n => n ∈ routerOSSectionOrder) blocks.*1;
  sc_plain : Forall (fun b => Forall plain b.2) blocks;
}.

Lemma section_named name : name ∈ routerOSSectionOrder -> name <> [].
Proof.
  intros H ->. assert (E : bool_decide ([] ∈ routerOSSectionOrder) = false) by (vm_compute; reflexivity).
  by apply bool_decide_eq_false_1 in E.
Qed.
Lemma scanned_nil : scanned [] (Scan ∅ [] []).
Proof. split; try done; constructor. Qed.
Lemma list_to_map_last (blocks : list block) n ls :
  n ∉ blocks.*1 -> list_to_map (blocks ++ [(n, ls)]) = <[n := ls]> (list_to_map blocks) :> gmap _ _.
Proof. intros Hn. by rewrite list_to_map_snoc. Qed.
Lemma scan_open blocks st n : scanned blocks st -> n ∈ routerOSSectionOrder -> n ∉ blocks.*1 ->
  exists st', scanLine (routerOSSectionPrefix ++ n) st = Some st' /\ scanned (blocks ++ [(n, [])]) st'.
Proof.
  intros [Hp Hc Ho Hn Hv Hpl] Hval Hfresh. unfold scanLine. rewrite HasPrefix_app, TrimPrefix_app.
  rewrite bool_decide_true by done. cbn [negb orb].
  rewrite bool_decide_false by (rewrite Hp, (not_elem_of_list_to_map_1 _ _ Hfresh); apply is_Some_None).
  eexists; split; [done|]. split; cbn.
  - by rewrite list_to_map_last, Hp.
  - rewrite fmap_app. cbn. by rewrite last_snoc.
  - by rewrite fmap_app, Ho.
  - rewrite fmap_app. apply NoDup_app. split_and!; [done|set_solver|apply NoDup_singleton].
  - rewrite fmap_app. apply Forall_app. split; [done|by repeat constructor].
  - apply Forall_app. split; [done|by repeat constructor].
Qed.
Lemma scan_add blocks n ls st line : scanned (blocks ++ [(n, ls)]) st -> plain line ->
  exists st', scanLine line st = Some st' /\ scanned (blocks ++ [(n, ls ++ [line])]) st'.
Proof.
  intros [Hp Hc Ho Hn Hv Hpl] Hline. unfold scanLine. rewrite Hline.
  rewrite fmap_app in Hc, Ho, Hn, Hv. cbn in Hc, Ho, Hn, Hv. rewrite last_snoc in Hc. cbn in Hc.
  apply NoDup_app in Hn as (Hn1 & Hn2 & Hn3). apply Forall_app in Hv as [Hv1 Hv2].
  assert (Hfresh : n ∉ blocks.*1) by set_solver.
  apply Forall_app in Hpl as [Hpl1 Hpl2]. rewrite Forall_singleton in Hpl2. cbn [snd] in Hpl2.
  rewrite bool_decide_false by (rewrite Hc; by apply section_named, (Forall_singleton (fun n => n ∈ routerOSSectionOrder))).
  eexists; split; [done|]. split; cbn.
  - rewrite Hp, Hc, !list_to_map_last by done. by rewrite lookup_insert_eq, insert_insert_eq.
  - rewrite fmap_app. cbn. by rewrite last_snoc.
  - by rewrite fmap_app.
  - rewrite fmap_app. by apply NoDup_app.
  - rewrite fmap_app. by apply Forall_app.
  - apply Forall_app. split; [done|]. apply Forall_singleton. cbn. apply Forall_app. split; [exact Hpl2|by apply Forall_singleton].
Qed.

(** What the scan accepts, and what it then has read. *)
Lemma scanLine_read blocks st line st' : scanned blocks st -> scanLine line st = Some st' ->
  exists blocks', scanned blocks' st' /\ flat_map blockLines blocks' = flat_map blockLines blocks ++ [line].
Proof.
  intros Hs H. destruct (HasPrefix line routerOSSectionPrefix) eqn:Hpre.
  - rewrite (HasPrefix_split _ _ Hpre) in H |- *. set (n := TrimPrefix line _) in *.
    assert (n ∈ routerOSSectionOrder /\ n ∉ blocks.*1) as [Hv Hf].
    { unfold scanLine in H. rewrite HasPrefix_app, TrimPrefix_app in H. case_bool_decide; [|done]. split; [done|].
      intros Hin. cbn in H. rewrite bool_decide_true in H; [done|]. rewrite (sc_parts _ _ Hs).
      destruct (list_to_map blocks !! n) eqn:E; [done|]. by apply not_elem_of_list_to_map_2 in E. }
    destruct (scan_open _ _ _ Hs Hv Hf) as (st1 & E & Hs1). rewrite E in H. injection H as <-.
    exists (blocks ++ [(n, [])]). split; [done|]. by rewrite flat_map_app.
  - destruct blocks as [|[n ls] blocks _] using rev_ind.
    { unfold scanLine in H. rewrite Hpre, (sc_current _ _ Hs) in H. done. }
    destruct (scan_add _ _ _ _ _ Hs Hpre) as (st1 & E & Hs1). rewrite E in H. injection H as <-.
    exists (blocks ++ [(n, ls ++ [line])]). split; [done|]. rewrite !flat_map_app. cbn. by rewrite !app_nil_r, <- app_assoc.
Qed.
Lemma scanLines_read lines : forall blocks st st', scanned blocks st -> scanLines lines st = Some st' ->
  exists blocks', scanned blocks' st' /\ flat_map blockLines blocks' = flat_map blockLines blocks ++ lines.
Proof.
  induction lines as [|line lines IH]; cbn; intros blocks st st' Hs H.
  { injection H as <-. exists blocks. by rewrite app_nil_r. }
  destruct (scanLine line st) as [st1|] eqn:E; [|done]. destruct (scanLine_read _ _ _ _ Hs E) as (b1 & Hs1 & E1).
  destruct (IH _ _ _ Hs1 H) as (b2 & Hs2 & E2). exists b2. split; [done|]. by rewrite E2, E1, <- app_assoc.
Qed.

Lemma scanLines_add lines rest : forall blocks n ls st, scanned (blocks ++ [(n, ls)]) st -> Forall plain lines ->
  exists st', scanLines (lines ++ rest) st = scanLines rest st' /\ scanned (blocks ++ [(n, ls ++ lines)]) st'.
Proof.
  induction lines as [|line lines IH]; intros blocks n ls st Hs Hpl.
  { exists st. by rewrite app_nil_r. }
  apply Forall_cons in Hpl as [Hl Hpl]. destruct (scan_add _ _ _ _ _ Hs Hl) as (st1 & E & Hs1).
  destruct (IH _ _ _ _ Hs1 Hpl) as (st2 & E2 & Hs2). exists st2. cbn. rewrite E. by rewrite <- app_assoc in Hs2.
Qed.
Lemma scanLines_blocks more : forall blocks st, scanned blocks st -> NoDup (blocks ++ more).*1 ->
  Forall (fun b => b.1 ∈ routerOSSectionOrder /\ Forall plain b.2) more ->
  exists st', scanLines (flat_map blockLines more) st = Some st' /\ scanned (blocks ++ more) st'.
Proof.
  induction more as [|[n ls] more IH]; intros blocks st Hs Hn Hall.
  { exists st. by rewrite app_nil_r. }
  apply Forall_cons in Hall as [[Hv Hpl] Hall]. cbn in Hv, Hpl.
  assert (Hf : n ∉ blocks.*1). { rewrite fmap_app in Hn. apply NoDup_app in Hn as (_ & Hd & _). intros Hin. apply (Hd _ Hin). cbn. by left. }
  destruct (scan_open _ _ _ Hs Hv Hf) as (st1 & E1 & Hs1).
  destruct (scanLines_add ls (flat_map blockLines more) _ _ _ _ Hs1 Hpl) as (st2 & E2 & Hs2).
  destruct (IH _ _ Hs2) as (st3 & E3 & Hs3); [by rewrite <- app_assoc|done|].
  exists st3. rewrite <- app_assoc in Hs3. split; [|done]. 
  change (flat_map blockLines ((n, ls) :: more)) with ((routerOSSectionPrefix ++ n) :: ls ++ flat_map blockLines more). cbn [scanLines].
  by rewrite E1, E2.
Qed.

(** ** The specification of splitting *)

Definition plainText (t : gostr) : Prop := Forall plain (Split t nl).
(** One text for each section of the order, none with a section line inside. *)
Definition wellSectioned (m : gmap gostr gostr) : Prop :=
  dom m = list_to_set routerOSSectionOrder /\ map_Forall (fun _ t => plainText t) m.
Definition candidateText (m : gmap gostr gostr) : gostr := assembleCandidate ((fun t => [t]) <$> m).
Definition blocksOf (m : gmap gostr gostr) : list block := (fun n => (n, Split (textAt m n) nl)) <$> routerOSSectionOrder.

Lemma order_nodup : NoDup routerOSSectionOrder.
Proof. by_decide. Qed.
Lemma section_whole n : n ∈ routerOSSectionOrder -> nl ∉ routerOSSectionPrefix ++ n.
Proof.
  intros Hn. assert (H : Forall (fun n => nl ∉ routerOSSectionPrefix ++ n) routerOSSectionOrder).
  { by_decide. }
  by rewrite Forall_forall in H; apply H.
Qed.
Lemma header_whole : nl ∉ routerOSCandidateHeader.
Proof. by_decide. Qed.

Lemma blocksOf_names m : (blocksOf m).*1 = routerOSSectionOrder.
Proof. unfold blocksOf. rewrite <- list_fmap_compose. apply list_fmap_id. Qed.

Lemma split_sections (text : gostr -> list gostr) names : Forall (fun n => n ∈ routerOSSectionOrder) names ->
  flat_map (fun s => Split s nl) (flat_map (fun n => (routerOSSectionPrefix ++ n) :: text n) names)
  = flat_map blockLines ((fun n => (n, flat_map (fun s => Split s nl) (text n))) <$> names).
Proof.
  induction 1 as [|n names Hn _ IH]; [done|]. cbn [flat_map fmap list_fmap]. rewrite !flat_map_app, IH.
  cbn [flat_map]. rewrite Split_plain by by apply section_whole. done.
Qed.
Lemma assembled_lines (sections : gmap gostr (list gostr)) :
  Split (TrimSuffix (assembleCandidate sections) [nl]) nl
  = routerOSCandidateHeader :: flat_map blockLines ((fun n => (n, flat_map (fun s => Split s nl) (default [] (sections !! n)))) <$> routerOSSectionOrder).
Proof.
  unfold assembleCandidate. rewrite TrimSuffix_app, Split_Lines by done. cbn [flat_map].
  rewrite Split_plain by apply header_whole. cbn [app]. f_equal. by rewrite split_sections by by apply Forall_forall.
Qed.
Lemma candidate_lines m : dom m = list_to_set routerOSSectionOrder ->
  Split (TrimSuffix (candidateText m) [nl]) nl = routerOSCandidateHeader :: flat_map blockLines (blocksOf m).
Proof.
  intros Hd. unfold candidateText. rewrite assembled_lines. do 2 f_equal. apply list_fmap_ext. intros i n Hn. f_equal.
  assert (Hin : n ∈ dom m) by (rewrite Hd; apply elem_of_list_to_set; by eapply list_elem_of_lookup_2).
  apply elem_of_dom in Hin as [t Ht]. rewrite lookup_fmap. unfold textAt. rewrite Ht. cbn. by rewrite app_nil_r.
Qed.

Lemma collect_spec names : forall order parts acc m, NoDup names ->
  collect names order parts acc = Some m <->
  order = names /\ Forall (fun n => default [] (parts !! n) <> []) names /\
  m = list_to_map ((fun n => (n, Lines (default [] (parts !! n)))) <$> names) ∪ acc.
Proof.
  induction names as [|n names IH]; intros order parts acc m Hn; destruct order as [|o order]; cbn [collect].
  - cbn. rewrite (left_id_L ∅ (∪)). split; [intros [= ->]; by split_and!|by intros (_ & _ & ->)].
  - split; [done|by intros (? & _)].
  - split; [done|by intros (? & _)].
  - apply NoDup_cons in Hn as [Hf Hn]. case_bool_decide as Ho; case_bool_decide as Hl; cbn [negb orb].
    + split; [done|]. intros (_ & HF & _). by apply Forall_cons in HF as [? _].
    + rewrite IH by done. subst o. cbn [fmap list_fmap list_to_map foldr fst snd].
      assert (E : list_to_map ((fun n0 => (n0, Lines (default [] (parts !! n0)))) <$> names) ∪ <[n := Lines (default [] (parts !! n))]> acc
        = <[n := Lines (default [] (parts !! n))]> (list_to_map ((fun n0 => (n0, Lines (default [] (parts !! n0)))) <$> names)) ∪ acc :> gmap gostr gostr).
      { rewrite <- insert_union_r, insert_union_l; [done|]. apply not_elem_of_list_to_map_1.
        rewrite <- list_fmap_compose. by rewrite list_fmap_id. }
      cbn in E |- *. rewrite E. rewrite Forall_cons. split; [intros (-> & ? & ->); by split_and!|intros (Eo & [_ ?] & ->)].
      injection Eo as ->. by split_and!.
    + split; [done|by intros (? & _); congruence].
    + split; [done|by intros (? & _); congruence].
Qed.

Lemma sections_eq (m : gmap gostr gostr) : dom m = list_to_set routerOSSectionOrder ->
  m = list_to_map ((fun n => (n, textAt m n)) <$> routerOSSectionOrder).
Proof.
  intros Hd. apply map_eq. intros n. rewrite assoc_lookup. unfold textAt. case_decide as Hn.
  - rewrite <- (elem_of_list_to_set (C:=gset gostr)), <- Hd, elem_of_dom in Hn. destruct Hn as [t Ht]. by rewrite Ht.
  - rewrite <- (elem_of_list_to_set (C:=gset gostr)), <- Hd in Hn. by apply not_elem_of_dom.
Qed.
Lemma scanned_blocks m : wellSectioned m -> exists st, scanLines (flat_map blockLines (blocksOf m)) (Scan ∅ [] []) = Some st /\ scanned (blocksOf m) st.
Proof.
  intros [Hd Hp]. apply (scanLines_blocks (blocksOf m) [] _ scanned_nil).
  - cbn [app]. rewrite blocksOf_names. apply order_nodup.
  - apply Forall_fmap, Forall_forall. intros n Hn. split; [done|]. cbn.
    rewrite <- (elem_of_list_to_set (C:=gset gostr)), <- Hd, elem_of_dom in Hn. destruct Hn as [t Ht]. unfold textAt. rewrite Ht. by apply (Hp n).
Qed.
Lemma candidateText_ends m : exists t, candidateText m = t ++ [nl].
Proof. by eexists. Qed.

Lemma split_complete source m : wellSectioned m -> TrimSuffix source [nl] ++ [nl] = candidateText m -> splitRouterOSCandidate source = Some m.
Proof.
  intros Hw Hs. pose proof (candidate_lines m (proj1 Hw)) as Hl. rewrite <- Hs, TrimSuffix_app in Hl.
  unfold splitRouterOSCandidate. rewrite Hl, bool_decide_true by done. cbn [negb].
  destruct (scanned_blocks m Hw) as (st & -> & Hst). apply collect_spec; [apply order_nodup|].
  rewrite (sc_order _ _ Hst), (sc_parts _ _ Hst). split_and!.
  - apply blocksOf_names.
  - apply Forall_forall. intros n Hn. unfold blocksOf. rewrite assoc_lookup, decide_True by done. apply Split_some.
  - rewrite (right_id_L ∅ (∪)), (sections_eq m) at 1 by apply Hw. f_equal. apply list_fmap_ext. intros i n Hn%list_elem_of_lookup_2.
    unfold blocksOf. rewrite assoc_lookup, decide_True by done. cbn. by rewrite Lines_Split.
Qed.
Lemma split_sound source m : splitRouterOSCandidate source = Some m -> wellSectioned m /\ TrimSuffix source [nl] ++ [nl] = candidateText m.
Proof.
  unfold splitRouterOSCandidate. intros H. pose proof (Split_whole (TrimSuffix source [nl])) as Hwhole.
  destruct (Split (TrimSuffix source [nl]) nl) as [|header lines] eqn:El; [done|]. case_bool_decide as Hh; [cbn in H|done]. subst header.
  destruct (scanLines lines (Scan ∅ [] [])) as [st|] eqn:Es; [|done].
  destruct (scanLines_read _ _ _ _ scanned_nil Es) as (blocks & Hst & Hb). cbn [flat_map app] in Hb.
  apply (collect_spec _ _ _ _ _ order_nodup) in H as (Ho & Hne & Hm). rewrite (right_id_L ∅ (∪)) in Hm.
  rewrite (sc_order _ _ Hst) in Ho. rewrite (sc_parts _ _ Hst) in Hm.
  assert (Hall : Forall (fun b => Forall plain b.2 /\ b.2 <> [] /\ Split (Lines b.2) nl = b.2 /\ textAt m b.1 = Lines b.2) blocks).
  { apply Forall_forall. intros [n ls] Hin.
    assert (E : (list_to_map blocks : gmap gostr (list gostr)) !! n = Some ls) by (apply elem_of_list_to_map_1; [rewrite Ho; apply order_nodup|done]).
    assert (Hn : n ∈ routerOSSectionOrder) by (rewrite <- Ho; apply list_elem_of_fmap; by exists (n, ls)).
    assert (Hls : ls <> []). { rewrite Forall_forall in Hne. specialize (Hne n Hn). by rewrite (sc_parts _ _ Hst), E in Hne. }
    pose proof (sc_plain _ _ Hst) as Hp. rewrite Forall_forall in Hp. split_and!; [apply (Hp _ Hin)|done| |].
    - rewrite Split_Lines, flat_map_whole; [done| |done]. apply Forall_cons in Hwhole as [_ Hwhole]. rewrite <- Hb in Hwhole.
      rewrite Forall_forall in Hwhole |- *. intros l Hl. apply Hwhole, list_elem_of_In, in_flat_map. exists (n, ls).
      split; [by apply list_elem_of_In|]. right. by apply list_elem_of_In.
    - unfold textAt. rewrite Hm, assoc_lookup, decide_True by done. cbn. by rewrite E. }
  assert (Hblocks : blocksOf m = blocks).
  { unfold blocksOf. rewrite <- Ho. rewrite <- list_fmap_compose. rewrite <- (list_fmap_id blocks) at 2. apply list_fmap_ext.
    intros i [n ls] Hi%list_elem_of_lookup_2. rewrite Forall_forall in Hall. destruct (Hall _ Hi) as (_ & _ & Hs & Ht). cbn in *. by rewrite Ht, Hs. }
  assert (Hd : dom m = list_to_set routerOSSectionOrder).
  { rewrite Hm, dom_list_to_map_L, <- list_fmap_compose. f_equal. }
  split; [split; [done|]|].
  - intros n t Hn. assert (Hin : n ∈ routerOSSectionOrder) by (rewrite <- (elem_of_list_to_set (C:=gset gostr)), <- Hd; by apply elem_of_dom_2 in Hn).
    rewrite <- Ho in Hin. apply list_elem_of_fmap in Hin as ([n' ls] & -> & Hin). rewrite Forall_forall in Hall.
    destruct (Hall _ Hin) as (Hp & _ & Hs & Ht). cbn in *. unfold textAt in Ht. rewrite Hn in Ht. cbn in Ht. unfold plainText. by rewrite Ht, Hs.
  - destruct (candidateText_ends m) as [t Et]. rewrite Et. f_equal. apply Split_inj. rewrite El.
    pose proof (candidate_lines m Hd) as Hl. by rewrite Et, TrimSuffix_app, Hblocks, Hb in Hl.
Qed.

(** ** The sections of a delta *)

Lemma foldl_chosen (f : gostr -> bool) names : forall (acc : gmap gostr bool) n,
  foldl (fun m name => <[name := f name]> m) acc names !! n = if decide (n ∈ names) then Some (f n) else acc !! n.
Proof.
  induction names as [|k names IH]; intros acc n; cbn [foldl]; [by rewrite decide_False by apply not_elem_of_nil|].
  rewrite IH. destruct (decide (n ∈ names)); [by rewrite decide_True by by right|].
  destruct (decide (n = k)) as [->|Hn]; [by rewrite lookup_insert_eq, decide_True by by left|].
  rewrite lookup_insert_ne, decide_False; [done| |done]. by rewrite elem_of_cons; intros [].
Qed.
Lemma chosen_insert m k n : chosen m n = true -> chosen (<[k := true]> m) n = true.
Proof. unfold chosen. destruct (decide (n = k)) as [->|Hn]; [by rewrite lookup_insert_eq|by rewrite lookup_insert_ne]. Qed.
Lemma chosen_insert_eq m k : chosen (<[k := true]> m) k = true.
Proof. unfold chosen. by rewrite lookup_insert_eq. Qed.
Lemma chosen_insert_ne m k n : n <> k -> chosen (<[k := true]> m) n = chosen m n.
Proof. intros Hn. unfold chosen. by rewrite lookup_insert_ne. Qed.
Lemma chosen_if m (c : bool) k n : n <> k -> chosen (if c then <[k := true]> m else m) n = chosen m n.
Proof. intros Hn. destruct c; [by apply chosen_insert_ne|done]. Qed.
Lemma chosen_if_kept m (c : bool) k n : chosen m n = true -> chosen (if c then <[k := true]> m else m) n = true.
Proof. destruct c; [apply chosen_insert|done]. Qed.
Lemma chosen_if_eq m (c : bool) k : c = true -> chosen (if c then <[k := true]> m else m) k = true.
Proof. intros ->. apply chosen_insert_eq. Qed.

Section Selection.
Context (previous desired : gmap gostr gostr).

Definition differs (name : gostr) : bool := negb (bool_decide (textAt previous name = textAt desired name)).
Definition differing : gmap gostr bool := foldl (fun m name => <[name := differs name]> m) ∅ routerOSSectionOrder.

Lemma differing_chosen n : chosen differing n = true <-> n ∈ routerOSSectionOrder /\ differs n = true.
Proof.
  unfold chosen, differing. rewrite foldl_chosen. destruct (decide (n ∈ routerOSSectionOrder)) as [Hn|Hn]; [cbn; tauto|].
  rewrite lookup_empty. cbn. split; [done|tauto].
Qed.
Lemma differing_any : existsb snd (map_to_list differing) = true <-> exists n, chosen differing n = true.
Proof.
  rewrite existsb_exists. split.
  - intros ([n b] & Hin & Hb). cbn in Hb. subst b. exists n. rewrite <- list_elem_of_In, elem_of_map_to_list in Hin. unfold chosen. by rewrite Hin.
  - intros [n Hn]. unfold chosen in Hn. destruct (differing !! n) as [b|] eqn:E; [|done]. exists (n, b).
    split; [|exact Hn]. rewrite <- list_elem_of_In, elem_of_map_to_list. exact E.
Qed.

Local Abbreviation selected := (selectSections previous desired).

Lemma selected_differing n : chosen differing n = true -> chosen selected n = true.
Proof. intros Hn. unfold selectSections. change (foldl _ _ _) with differing. by do 3 apply chosen_if_kept. Qed.
Lemma selected_ingress : chosen selected (bs "panel-ingress") = true -> chosen selected (bs "panel-port-check") = true.
Proof.
  unfold selectSections. change (foldl _ _ _) with differing. set (m := if _ && _ then _ else _).
  rewrite !(chosen_if _ (_ || _)) by by_decide. intros H. apply chosen_if_eq. by rewrite chosen_if in H by by_decide.
Qed.
Lemma selected_finalize n : n ∈ [bs "core"; bs "address-lists"; bs "wireguard-egress"] -> chosen selected n = true -> chosen selected (bs "finalize") = true.
Proof.
  intros Hn. unfold selectSections. change (foldl _ _ _) with differing. set (m := if chosen _ (bs "panel-ingress") then _ else _).
  intros H. apply chosen_if_eq. rewrite !elem_of_cons, elem_of_nil in Hn.
  assert (Hf : n <> bs "finalize") by (destruct Hn as [->|[->|[->|[]]]]; by_decide).
  rewrite chosen_if in H by done. destruct Hn as [->|[->|[->|[]]]]; rewrite H, ?orb_true_r; reflexivity.
Qed.
Lemma selected_none : (forall n, differs n = false) -> forall n, chosen selected n = false.
Proof.
  intros Hd n. assert (Hnone : forall k, chosen differing k = false).
  { intros k. destruct (chosen differing k) eqn:E; [|done]. apply differing_chosen in E as [_ E]. by rewrite Hd in E. }
  assert (Ha : existsb snd (map_to_list differing) = false).
  { destruct (existsb _ _) eqn:E; [|done]. apply differing_any in E as [k E]. by rewrite Hnone in E. }
  unfold selectSections. change (foldl _ _ _) with differing. rewrite Ha. cbn [andb]. by rewrite !Hnone.
Qed.
End Selection.

(** ** Reading a script *)

(** The lines before the first section, and the sections. *)
Fixpoint sectionsOf (lines : list gostr) : list gostr * list block :=
  match lines with
  | [] => ([], [])
  | line :: lines =>
      let '(first, blocks) := sectionsOf lines in
      if HasPrefix line routerOSSectionPrefix then ([], (TrimPrefix line routerOSSectionPrefix, first) :: blocks) else (line :: first, blocks)
  end.
Definition readScript (source : gostr) : list block := (sectionsOf (Split (TrimSuffix source [nl]) nl)).2.

Lemma sectionsOf_app first rest : Forall plain first ->
  sectionsOf (first ++ rest) = (first ++ (sectionsOf rest).1, (sectionsOf rest).2).
Proof.
  induction 1 as [|l first Hl _ IH]; cbn; [by destruct (sectionsOf rest)|]. rewrite IH. by rewrite Hl.
Qed.
Lemma sectionsOf_blocks blocks : Forall (fun b => Forall plain b.2) blocks -> sectionsOf (flat_map blockLines blocks) = ([], blocks).
Proof.
  induction 1 as [|[n ls] blocks Hb _ IH]; [done|]. cbn in Hb.
  change (flat_map blockLines ((n, ls) :: blocks)) with ((routerOSSectionPrefix ++ n) :: ls ++ flat_map blockLines blocks).
  cbn [sectionsOf]. rewrite sectionsOf_app by done. rewrite IH. cbn. by rewrite HasPrefix_app, TrimPrefix_app, app_nil_r.
Qed.

(** The text of a section as the delta carries it: after the lines that stand in
    for an absent core section. *)
Definition deltaLines (sections : list gostr) (source : gmap gostr gostr) (name : gostr) : list gostr :=
  (if bool_decide (bs "core" ∈ sections) then [] else routerOSDeltaPrelude name) ++ Split (textAt source name) nl.
(** The sections of the list taken from [source], the others from [base]. *)
Definition overlay (sections : list gostr) (source base : gmap gostr gostr) : gmap gostr gostr :=
  list_to_map ((fun n => (n, textAt source n)) <$> sections) ∪ base.

Lemma prelude_lines n : Forall (fun l => nl ∉ l /\ plain l) (routerOSDeltaPrelude n).
Proof.
  unfold routerOSDeltaPrelude. case_bool_decide; [by_decide|]. case_bool_decide; [by_decide|constructor].
Qed.
Lemma prelude_whole n : flat_map (fun s => Split s nl) (routerOSDeltaPrelude n) = routerOSDeltaPrelude n.
Proof. apply flat_map_whole. eapply Forall_impl; [apply prelude_lines|]. by intros l []. Qed.
Lemma wellSectioned_plain m n : wellSectioned m -> plainText (textAt m n).
Proof.
  intros [_ Hp]. unfold textAt. destruct (m !! n) as [t|] eqn:E; [by apply (Hp n)|]. by_decide.
Qed.
Lemma Commas_whole names : Forall (fun n => n ∈ routerOSSectionOrder) names -> nl ∉ Commas names.
Proof.
  induction 1 as [|n names Hn _ IH]; [apply not_elem_of_nil|]. apply section_whole in Hn.
  assert (Hn' : nl ∉ n) by set_solver. destruct names as [|k names]; [done|].
  change (Commas (n :: k :: names)) with (n ++ x2c :: Commas (k :: names)). rewrite elem_of_app, elem_of_cons.
  intros [H|[H|H]]; [done|discriminate|done].
Qed.

(** A delta reads back as its sections. *)
Lemma assembleDelta_read selected sections source :
  Forall (fun n => n ∈ routerOSSectionOrder) sections -> wellSectioned source ->
  chosen selected (bs "core") = bool_decide (bs "core" ∈ sections) ->
  readScript (assembleDelta selected sections source) = (fun n => (n, deltaLines sections source n)) <$> sections.
Proof.
  intros Hv Hw Hcore. unfold readScript, assembleDelta. rewrite TrimSuffix_app, Split_Lines by done.
  set (head1 := bs "# SB-GATEWAY generated minimal delta; complete managed sections").
  set (head2 := bs "# SB-GATEWAY delta sections: ").
  assert (H1 : nl ∉ head1 /\ plain head1) by by_decide. assert (H2 : nl ∉ head2) by by_decide.
  assert (H3 : plain (head2 ++ Commas sections)).
  { apply bool_decide_eq_false. intros [k Hk]. apply (f_equal (take 15)) in Hk. vm_compute in Hk. discriminate. }
  cbn [flat_map]. rewrite !Split_plain; [|apply not_elem_of_app; split; [done|by apply Commas_whole]|apply H1].
  rewrite split_sections by done. match goal with |- context [[?a] ++ ([?b] ++ ?r)] => change ([a] ++ ([b] ++ r)) with ([a; b] ++ r) end.
  rewrite (sectionsOf_app [head1; head2 ++ Commas sections]). 2: { apply Forall_cons_2; [apply H1|by apply Forall_singleton]. }
  cbn [snd]. rewrite Hcore.
  assert (E : (fun n => (n, flat_map (fun s => Split s nl) ((if negb (bool_decide (bs "core" ∈ sections)) then routerOSDeltaPrelude n else []) ++ [textAt source n]))) <$> sections
    = (fun n => (n, deltaLines sections source n)) <$> sections).
  { apply list_fmap_ext. intros i n _. f_equal. unfold deltaLines. rewrite flat_map_app. cbn [flat_map]. rewrite app_nil_r.
    case_bool_decide; cbn [negb]; [done|]. by rewrite prelude_whole. }
  rewrite E, sectionsOf_blocks; [done|]. apply Forall_fmap, Forall_forall. intros n _. cbn. unfold deltaLines.
  apply Forall_app. split; [|by apply wellSectioned_plain]. case_bool_decide; [constructor|].
  eapply Forall_impl; [apply prelude_lines|]. by intros l [].
Qed.

Lemma section_lookup m n : dom m = list_to_set routerOSSectionOrder ->
  m !! n = if decide (n ∈ routerOSSectionOrder) then Some (textAt m n) else None.
Proof. intros Hd. rewrite (sections_eq m Hd) at 1. apply assoc_lookup. Qed.
Lemma overlay_all sections source base :
  dom source = list_to_set routerOSSectionOrder -> dom base = list_to_set routerOSSectionOrder ->
  (forall n, n ∈ routerOSSectionOrder -> n ∉ sections -> textAt base n = textAt source n) ->
  Forall (fun n => n ∈ routerOSSectionOrder) sections -> overlay sections source base = source.
Proof.
  intros Hs Hb Heq Hv. apply map_eq. intros n. unfold overlay.
  rewrite lookup_union, assoc_lookup, (section_lookup base), (section_lookup source) by done.
  destruct (decide (n ∈ sections)) as [Hn|Hn].
  - rewrite Forall_forall in Hv. rewrite !(decide_True (P:=n ∈ routerOSSectionOrder)) by auto. done.
  - rewrite (left_id_L None (∪)). case_decide as Ho; [|done]. by rewrite Heq.
Qed.

(** ** The sections of a plan *)

Section Plan.
Context (previous desired : gmap gostr gostr) (Hprevious : wellSectioned previous) (Hdesired : wellSectioned desired).
Local Abbreviation selected := (selectSections previous desired).
Definition planSections : list gostr := base.filter (fun name => chosen selected name = true) routerOSSectionOrder.

Lemma planSections_valid : Forall (fun n => n ∈ routerOSSectionOrder) planSections.
Proof using. apply Forall_forall. intros n Hn. by apply list_elem_of_filter in Hn as [_ Hn]. Qed.
Lemma planSections_chosen n : n ∈ routerOSSectionOrder -> chosen selected n = bool_decide (n ∈ planSections).
Proof using.
  intros Hn. unfold planSections. destruct (chosen selected n) eqn:E; symmetry.
  - apply bool_decide_true, list_elem_of_filter. by split.
  - apply bool_decide_false. rewrite list_elem_of_filter. intros [? _]. congruence.
Qed.
Lemma planSections_rest n : n ∈ routerOSSectionOrder -> n ∉ planSections -> textAt previous n = textAt desired n.
Proof using.
  intros Ho Hn. destruct (decide (textAt previous n = textAt desired n)) as [|Hd]; [done|]. exfalso. apply Hn.
  apply list_elem_of_filter. split; [|done]. apply selected_differing, differing_chosen. split; [done|].
  unfold differs. by rewrite bool_decide_false.
Qed.
Lemma planSections_nil : planSections = [] <-> previous = desired.
Proof using Hprevious Hdesired.
  split; intros H.
  - apply map_eq. intros n. rewrite (section_lookup previous), (section_lookup desired) by (apply Hprevious || apply Hdesired).
    case_decide as Hn; [|done]. f_equal. apply planSections_rest; [done|]. rewrite H. apply not_elem_of_nil.
  - destruct planSections as [|n names] eqn:E; [done|exfalso]. assert (Hn : n ∈ planSections) by (rewrite E; by left).
    apply list_elem_of_filter in Hn as [Hc _]. rewrite selected_none in Hc; [done|]. intros k. unfold differs. by rewrite H, bool_decide_true.
Qed.
End Plan.

(** ** The theorems *)

(** C11: Splitting a candidate into its sections is exact.  [splitRouterOSCandidate]
    accepts a source precisely when, up to one missing final newline, it is the
    assembly of a text for each of the thirteen sections in their order, with no
    section line inside a text; and it returns those texts.  Text that was edited,
    truncated or written by something else is refused, and two candidates with the
    same sections are the same candidate. *)
Theorem splitRouterOSCandidate_exact source sections :
  splitRouterOSCandidate source = Some sections <->
  wellSectioned sections /\ TrimSuffix source [nl] ++ [nl] = candidateText sections.
Proof. split; [apply split_sound|]. intros []. by apply split_complete. Qed.

(** What the transaction requires of a delta before it looks at its commands. *)
Definition importable (source : gostr) : Prop := deltaHeader `prefix_of` source /\ 0 < size source <= maxManagedImportBytes.
Lemma assembleDelta_importable selected sections source :
  (2 * 1024 * 1024 <? size (assembleDelta selected sections source)) = false -> importable (assembleDelta selected sections source).
Proof.
  intros H. split.
  - unfold assembleDelta. rewrite Lines_cons by done. eexists. unfold deltaHeader. by rewrite <- !app_assoc.
  - apply Z.ltb_ge in H. split; [|exact H]. unfold size, assembleDelta. rewrite length_app. cbn [length]. lia.
Qed.

(** C8: A delta switches between its two candidates.  Whenever
    [BuildRouterOSDelta] returns a plan, both sources are well-formed candidates
    that differ; each script, read back section by section, carries complete
    sections of its side (with the prelude of a section whose core section is
    absent); taking those sections from the desired candidate and the others from
    the previous one gives the desired candidate, and the other way round for the
    rollback; the sections keep the candidate's order and bring the sections that
    depend on them; and both scripts have the header and the size that the
    transaction asks for. *)
Theorem BuildRouterOSDelta_switches previousSource desiredSource maximumRatio plan :
  BuildRouterOSDelta previousSource desiredSource maximumRatio = Some plan ->
  exists previous desired,
    splitRouterOSCandidate previousSource = Some previous /\ splitRouterOSCandidate desiredSource = Some desired /\ previous <> desired /\
    readScript (dp_apply plan) = (fun n => (n, deltaLines (dp_sections plan) desired n)) <$> dp_sections plan /\
    readScript (dp_rollback plan) = (fun n => (n, deltaLines (dp_sections plan) previous n)) <$> dp_sections plan /\
    overlay (dp_sections plan) desired previous = desired /\ overlay (dp_sections plan) previous desired = previous /\
    dp_sections plan `sublist_of` routerOSSectionOrder /\
    (bs "panel-ingress" ∈ dp_sections plan -> bs "panel-port-check" ∈ dp_sections plan) /\
    (forall n, n ∈ [bs "core"; bs "address-lists"; bs "wireguard-egress"] -> n ∈ dp_sections plan -> bs "finalize" ∈ dp_sections plan) /\
    importable (dp_apply plan) /\ importable (dp_rollback plan).
Proof.
  unfold BuildRouterOSDelta. intros H. destruct (splitRouterOSCandidate previousSource) as [previous|] eqn:Ep; [|done].
  destruct (splitRouterOSCandidate desiredSource) as [desired|] eqn:Ed; [|done].
  apply split_sound in Ep as [Hp _]. apply split_sound in Ed as [Hd _]. exists previous, desired. do 2 (split; [done|]).
  change (base.filter _ _) with (planSections previous desired) in H. destruct (bool_decide (planSections previous desired = [])) eqn:Hs; [discriminate H|]. apply bool_decide_eq_false in Hs.
  destruct (_ || _) eqn:Esize in H; [discriminate H|]. destruct (fgt _ _ || _) eqn:Eratio in H; [discriminate H|]. apply (inj Some) in H. subst plan. cbn [dp_apply dp_rollback dp_sections].
  apply orb_false_iff in Esize as [Ea Er]. pose proof (planSections_valid previous desired) as Hv.
  assert (Hcore : chosen (selectSections previous desired) (bs "core") = bool_decide (bs "core" ∈ planSections previous desired))
    by (apply planSections_chosen; by_decide).
  assert (Hin : forall n, n ∈ planSections previous desired -> chosen (selectSections previous desired) n = true)
    by (intros n Hn; by apply list_elem_of_filter in Hn as [? _]).
  assert (Hout : forall n, bool_decide (n ∈ routerOSSectionOrder) = true -> chosen (selectSections previous desired) n = true -> n ∈ planSections previous desired)
    by (intros n Hn Hc; apply list_elem_of_filter; split; [done|by apply bool_decide_eq_true in Hn]).
  split_and!.
  - intros E. apply Hs. by apply planSections_nil.
  - by apply assembleDelta_read.
  - by apply assembleDelta_read.
  - apply overlay_all; [apply Hd|apply Hp| |done]. apply planSections_rest.
  - apply overlay_all; [apply Hp|apply Hd| |done]. intros n Ho Hn. symmetry. by apply planSections_rest.
  - apply sublist_filter.
  - intros Hn. apply Hout; [vm_compute; reflexivity|]. by apply selected_ingress, Hin.
  - intros n Hl Hn. apply Hout; [vm_compute; reflexivity|]. by eapply selected_finalize, Hin.
  - by apply assembleDelta_importable.
  - by apply assembleDelta_importable.
Qed.

(** A delta is declined only for a reason.  With both sources well-formed,
    [BuildRouterOSDelta] falls back to the complete candidate exactly when the two
    have the same sections, or one of the scripts would be larger than 2 MiB, or
    one would exceed the permitted share of its complete candidate, where a share
    outside (0, 1] stands for 0.8; with a source that is not a candidate it always
    falls back. *)
Theorem BuildRouterOSDelta_declines previousSource desiredSource maximumRatio :
  BuildRouterOSDelta previousSource desiredSource maximumRatio = None <->
  match splitRouterOSCandidate previousSource, splitRouterOSCandidate desiredSource with
  | Some previous, Some desired =>
      let sections := base.filter (fun name => chosen (selectSections previous desired) name = true) routerOSSectionOrder in
      let apply := assembleDelta (selectSections previous desired) sections desired in
      let rollback := assembleDelta (selectSections previous desired) sections previous in
      let share := if fle maximumRatio fzero || fgt maximumRatio fone then defaultRatio else maximumRatio in
      previous = desired \/ 2 ^ 21 < size apply \/ 2 ^ 21 < size rollback \/
      fgt (ratio apply desiredSource) share = true \/ fgt (ratio rollback previousSource) share = true
  | _, _ => True
  end.
Proof.
  unfold BuildRouterOSDelta. destruct (splitRouterOSCandidate previousSource) as [previous|] eqn:Ep; [|done].
  destruct (splitRouterOSCandidate desiredSource) as [desired|] eqn:Ed; [|done].
  apply split_sound in Ep as [Hp _]. apply split_sound in Ed as [Hd _]. cbv zeta.
  change (base.filter _ _) with (planSections previous desired). rewrite <- (planSections_nil previous desired) by done.
  destruct (bool_decide (planSections previous desired = [])) eqn:Hs.
  { apply bool_decide_eq_true in Hs. split; [by left|done]. }
  apply bool_decide_eq_false in Hs. change (2 ^ 21) with (2 * 1024 * 1024). rewrite <- !Z.ltb_lt.
  destruct (2 * 1024 * 1024 <? _); cbn [orb]; [split; [auto|done]|]. destruct (2 * 1024 * 1024 <? _); cbn [orb]; [split; [auto|done]|].
  destruct (fgt _ _); cbn [orb]; [split; [auto|done]|]. destruct (fgt _ _); cbn [orb]; [split; [auto 6|done]|].
  split; [discriminate|]. intros [H|[H|[H|[H|H]]]]; [contradiction|discriminate H..].
Qed.

(** ** A run *)

Definition demoSections (dns : string) : gmap gostr gostr :=
  <[bs "dns" := bs dns]> (list_to_map ((fun n => (n, bs "# nothing")) <$> routerOSSectionOrder)).
Definition demoCandidate (dns : string) : gostr := candidateText (demoSections dns).

Example demo_delta : dp_sections <$> BuildRouterOSDelta (demoCandidate "/ip/dns/set") (demoCandidate "/ip/dns/get") defaultRatio = Some [bs "dns"].
Proof. vm_compute. reflexivity. Qed.

Lemma BuildRouterOSDelta_switches_witness :
  exists plan, BuildRouterOSDelta (demoCandidate "/ip/dns/set") (demoCandidate "/ip/dns/get") defaultRatio = Some plan /\ importable (dp_rollback plan).
Proof.
  destruct (fmap_Some_1 _ _ _ demo_delta) as (plan & E & _). exists plan. split; [exact E|].
  destruct (BuildRouterOSDelta_switches _ _ _ plan E) as (previous & desired & _ & _ & _ & _ & _ & _ & _ & _ & _ & _ & _ & H). exact H.
Defined.
