(* ===== verification/CandidateStore.v ===== *)
(** * The store of runtime candidates

    Models [internal/runtimeconfig/candidate.go] on the file tree and the operations
    of [Recovery]: candidates are complete directories of artifacts under one root,
    activation copies the artifacts that differ to their destinations after a copy
    of what was there, rollback puts that back, and a committed candidate is copied
    to the last-known-good directory.  Candidates carry clean absolute paths, which
    is what [candidateFromManifest] makes.  Where the source ranges over a Go map,
    the model takes the keys in order: the loops either look only or stop at the
    first failure, and every failure is the same error.  The platform is the
    systems of the appliance, not Windows. *)

From Stdlib Require Import String.
From S2P Require Import Prelude GoBase GoSort GoText GoRegexp GoPath Recovery.
Open Scope Z_scope.
Open Scope io_scope.

Definition maxCandidateArtifactBytes : Z := Z.shiftl 32 20.
Definition maxCandidateTotalBytes : Z := Z.shiftl 64 20.
Definition candidateRevisionPattern : re := full (rep 64 (Class is_hex)).
Definition is_artifact_byte (b : byte) : bool := is_digit09 b || is_lower b || existsb (fun c => is_byte c b) (bs "._-").
Definition candidateArtifactPattern : re :=
  full (Cat (Class (fun b => is_digit09 b || is_lower b)) (rep_more 63 (Class is_artifact_byte))).

Record CandidateStore := Store { cs_root : path; cs_lkg : path; cs_destinations : gmap gostr path }.
Record RuntimeCandidate := Candidate { rc_Revision : gostr; rc_Directory : path; rc_Files : gmap gostr path }.
Record ActivationReceipt := Receipt {
  ar_candidate : RuntimeCandidate; ar_previous : path; ar_previousPresent : gmap gostr bool; ar_changed : list gostr }.
Record candidateManifest := Manifest { cm_Artifacts : gmap gostr gostr; cm_Revision : gostr }.

(** What the code takes from outside: where the symbolic link at a path leads in
    the end, the size reported for a directory, the pieces in which the system
    copies a file, the digest in hexadecimal, and the JSON form of a manifest, which
    reads as exactly one document. *)
Class Platform := {
  linkTarget : path -> option path;
  dirSize : path -> Z;
  pieces : gostr -> list gostr;
  hexSHA256 : gostr -> gostr;
  marshalManifest : candidateManifest -> option gostr;
  unmarshalManifest : gostr -> option candidateManifest;
}.

(** [Changed] copies the list. *)
Definition Changed (receipt : ActivationReceipt) : list gostr := ar_changed receipt.

(** ** Operations of [os] that follow a final link *)

(** The order of [sort.Strings]. *)
Fixpoint less_text (a b : gostr) : bool :=
  match a, b with
  | _, [] => false
  | [], _ :: _ => true
  | x :: a, y :: b => (bval x <? bval y) || ((bval x =? bval y) && less_text a b)
  end.
Definition sort_strings (l : list gostr) : list gostr := sort_stable less_text l.
Definition sortedKeys {A} (m : gmap gostr A) : list gostr := sort_strings (map_to_list m).*1.

(** The result of an operation as a value. *)
Definition attempt {A} (m : M A) : M (A + ioerr) := fun w => let '(w, r) := m w in (w, inl r).

Section Files.
Context `{!Platform}.

Definition statAt (t : tree) (p : path) : found :=
  match lstat t p with
  | Found Symlink q =>
      match linkTarget q with
      | Some r => match lstat t r with Found Symlink _ => OtherError | x => x end
      | None => NotExist
      end
  | x => x
  end.
Definition Stat (p : path) : M (node * path) :=
  look (fun t => match statAt t p with Found n q => inl (n, q) | NotExist => inr ErrNotExist | OtherError => inr Err end).
(** An open file, as what can be read from it. *)
Definition Open (p : path) : M node := let* s := Stat p in ret s.1.
Definition sizeOf (s : node * path) : Z := match s.1 with File _ body => Z.of_nat (length body) | _ => dirSize s.2 end.
Definition isRegular (n : node) : bool := match n with File _ _ => true | _ => false end.

(** Nothing is below a path. *)
Definition emptyDir (t : tree) (p : path) : bool :=
  forallb (fun q => bool_decide (q = p) || negb (bool_decide (p `prefix_of` q))) (map_to_list t).*1.
(** [os.Remove]: an empty directory goes too. *)
Definition Remove (p : path) : M unit :=
  change (fun t => match t !! p with
                   | Some Dir => if emptyDir t p then inl (delete p t) else inr Err
                   | Some _ => inl (delete p t)
                   | None => inr ErrNotExist
                   end).

(** ** Copying and comparing *)

Definition copyFileAtomic (source destination : path) : M unit :=
  let* input := Open source in
  mkdirAll (dirOf destination) ;;
  let* temporary := createTemp (dirOf destination) (baseOf destination) in
  finally
    (chmod temporary mode600 ;;
     (match input with File _ body => appendAll temporary (pieces body) | _ => fail Err end) ;;
     syncFile temporary ;;
     closeFile temporary ;;
     rename temporary destination ;;
     syncDirectory (dirOf destination))
    (removeFile temporary).

Definition compareBuffer : nat := Z.to_nat (Z.shiftl 128 10).
Inductive readErr := ReadOk | ReadEOF | ReadErr.
(** One [Read]: the bytes, the error and what is left. *)
Definition readChunk (failed : bool) (src : node) (rest : gostr) : gostr * readErr * gostr :=
  if failed then ([], ReadErr, rest)
  else match src with
       | File _ _ => match rest with [] => ([], ReadEOF, []) | _ => (take compareBuffer rest, ReadOk, drop compareBuffer rest) end
       | _ => ([], ReadErr, rest)
       end.
Fixpoint compareLoop (fuel : nat) (left right : node) (leftRest rightRest : gostr) : M bool :=
  match fuel with
  | O => fail Err
  | S fuel =>
      let* leftFailed := fault in
      let* rightFailed := fault in
      let '(leftBytes, leftErr, leftRest) := readChunk leftFailed left leftRest in
      let '(rightBytes, rightErr, rightRest) := readChunk rightFailed right rightRest in
      if negb (bool_decide (leftBytes = rightBytes)) then ret false
      else match leftErr, rightErr with
           | ReadEOF, ReadEOF => ret true
           | ReadErr, _ | _, ReadErr => fail Err
           | _, _ => compareLoop fuel left right leftRest rightRest
           end
  end.
Definition bodyOf (n : node) : gostr := match n with File _ body => body | _ => [] end.
Definition filesEqual (first second : path) : M bool :=
  let* leftInfo := Stat first in
  let* rightInfo := Stat second in
  if negb (sizeOf leftInfo =? sizeOf rightInfo) then ret false
  else
    let* leftFile := Open first in
    let* rightFile := Open second in
    compareLoop (S (length (bodyOf leftFile))) leftFile rightFile (bodyOf leftFile) (bodyOf rightFile).

Definition hashRegularFile (p : path) (limit : Z) : M gostr :=
  let* file := Open p in
  look (fun _ => inl tt) ;;
  match file with
  | File _ body => if limit <? Z.of_nat (length body) then fail Err else look (fun _ => inl (hexSHA256 body))
  | _ => fail Err
  end.

(** ** Trees of the store *)

Definition pathWithin (root candidate : path) : bool := match relTo root candidate with Some _ => true | None => false end.
Definition removeManagedTree (root target : path) : M unit :=
  if bool_decide (root = target) || negb (pathWithin root target) then fail Err
  else
    let* info := Lstat target in
    match info with
    | NotExist => ret tt
    | OtherError | Found Symlink _ => fail Err
    | Found _ _ => removeAll target
    end.

(** [os.Rename] of a directory takes everything below with it. *)
Definition movedPath (p q x : path) : path := if bool_decide (p `prefix_of` x) then q ++ drop (length p) x else x.
Definition moveTree (p q : path) (t : tree) : tree :=
  list_to_map ((fun e => (movedPath p q e.1, e.2)) <$> map_to_list (delete q t)).
Definition renameManagedPath (p q : path) : M unit :=
  change (fun t =>
    match t !! p, at_ t q with
    | None, _ => inr ErrNotExist
    | Some Dir, None | Some Dir, Some Dir =>
        if bool_decide (p `prefix_of` q) || negb (emptyDir t q) || negb (bool_decide (at_ t (dirOf q) = Some Dir)) then inr Err else inl (moveTree p q t)
    | Some _, Some Dir | Some Dir, Some _ => inr Err
    | Some n, _ => inl (<[q:=n]> (delete p t))
    end).

Definition writePrivateFile (p : path) (body : gostr) : M unit :=
  change (fun t => match at_ t p, at_ t (dirOf p) with None, Some Dir => inl (<[p := File mode600 []]> t) | _, _ => inr Err end) ;;
  appendAll p (pieces body) ;;
  syncFile p ;;
  closeFile p.

Fixpoint freshDirName (t : tree) (dir : path) (prefix : gostr) (names : list gostr) : option (gostr * list gostr) :=
  match names with
  | [] => None
  | rnd :: names =>
      if bool_decide (t !! (dir ++ [prefix ++ rnd]) = None) && emptyDir t (dir ++ [prefix ++ rnd]) then Some (prefix ++ rnd, names)
      else freshDirName t dir prefix names
  end.
Definition MkdirTemp (dir : path) (prefix : gostr) : M path :=
  let* failed := fault in
  if failed then fail Err
  else fun w =>
    match freshDirName (w_tree w) dir prefix (w_names w), at_ (w_tree w) dir with
    | Some (name, names), Some Dir =>
        let p := dir ++ [name] in
        let t := <[p:=Dir]> (w_tree w) in
        (World t (w_faults w) names (w_history w ++ [t]) (w_cwd w), inl p)
    | _, _ => (w, inr Err)
    end.
(** [os.ReadDir]: the entries by name. *)
Definition entryOf (dir : path) (e : path * node) : option (gostr * node) :=
  match relTo dir e.1 with Some [name] => Some (name, e.2) | _ => None end.
Definition ReadDir (dir : path) : M (list (gostr * node)) :=
  look (fun t => match at_ t dir with
                 | Some Dir => inl (sort_stable (fun a b => less_text a.1 b.1) (omap (entryOf dir) (map_to_list t)))
                 | Some _ => inr Err
                 | None => inr ErrNotExist
                 end).
End Files.

(** ** The store *)

(** [filepath.Base]. *)
Fixpoint trimSlashes (r : gostr) : gostr := match r with b :: r' => if bool_decide (b = sep) then trimSlashes r' else r | [] => [] end.
Definition Base (s : gostr) : gostr :=
  match s with
  | [] => dot
  | _ => match rev (trimSlashes (rev s)) with [] => bs "/" | s => default [] (last (parts s)) end
  end.
(** [filepath.Join] of a clean path and a name. *)
Definition Join (p : path) (name : gostr) : path := joinClean p name.
(** A Go map read at a key; the code reads these maps only at keys they have. *)
Definition pathAt (m : gmap gostr path) (name : gostr) : path := default [] (m !! name).
Definition previousRuntime : gostr := bs ".previous-runtime".

Fixpoint addDestinations (root : path) (l : list (gostr * gostr)) (seen : gmap path gostr) (normalized : gmap gostr path) : M (gmap gostr path) :=
  match l with
  | [] => ret normalized
  | (name, destination) :: l =>
      if negb (MatchString candidateArtifactPattern name) || negb (bool_decide (Base name = name)) || bool_decide (name = bs "manifest.json") then fail Err
      else if bool_decide (destination = []) then fail Err
      else
        let* absolute := cleanRoot destination in
        if pathWithin root absolute then fail Err
        else if bool_decide (is_Some (seen !! absolute)) then fail Err
        else addDestinations root l (<[absolute := name]> seen) (<[name := absolute]> normalized)
  end.
Definition NewCandidateStore (stateRoot : gostr) (destinations : gmap gostr gostr) : M CandidateStore :=
  let* stateRoot := cleanRoot stateRoot in
  if bool_decide (destinations = ∅) then fail Err
  else
    let root := stateRoot ++ [bs "runtime-candidates"] in
    let* normalized := addDestinations root (map_to_list destinations) ∅ ∅ in
    ret (Store root (stateRoot ++ [bs "runtime-lkg"]) normalized).

Definition candidateFromManifest (directory : path) (manifest : candidateManifest) : RuntimeCandidate :=
  Candidate (cm_Revision manifest) directory (map_imap (fun name _ => Some (Join directory name)) (cm_Artifacts manifest)).

Section Store.
Context `{!Platform} (store : CandidateStore).

Fixpoint forEach {A} (f : A -> M unit) (l : list A) : M unit :=
  match l with [] => ret tt | x :: l => f x ;; forEach f l end.

Definition validateArtifact (want : path) (candidate : RuntimeCandidate) (name : gostr) : M unit :=
  let p := pathAt (rc_Files candidate) name in
  if negb (bool_decide (is_Some (cs_destinations store !! name))) || negb (bool_decide (p = Join want name)) then fail Err
  else
    let* info := attempt (Stat p) in
    match info with inl (File _ _, _) => ret tt | _ => fail Err end.
Definition validateCandidate (candidate : RuntimeCandidate) : M unit :=
  if negb (MatchString candidateRevisionPattern (rc_Revision candidate)) then fail Err
  else
    let want := Join (cs_root store) (rc_Revision candidate) in
    if negb (bool_decide (rc_Directory candidate = want)) then fail Err
    else forEach (validateArtifact want candidate) (sortedKeys (rc_Files candidate)).

(** *** Activation *)

(** The loop that collects the changed artifacts. *)
Fixpoint changedArtifacts (candidate : RuntimeCandidate) (names changed : list gostr) : M (list gostr) :=
  match names with
  | [] => ret changed
  | name :: names =>
      let* equal := attempt (filesEqual (pathAt (rc_Files candidate) name) (pathAt (cs_destinations store) name)) in
      match equal with
      | inl true => changedArtifacts candidate names changed
      | inl false | inr ErrNotExist => changedArtifacts candidate names (changed ++ [name])
      | inr Err => fail Err
      end
  end.
(** The loop that copies what is there. *)
Fixpoint backUp (previous : path) (names : list gostr) (present : gmap gostr bool) : M (gmap gostr bool) :=
  match names with
  | [] => ret present
  | name :: names =>
      let destination := pathAt (cs_destinations store) name in
      let* info := attempt (Stat destination) in
      match info with
      | inl (File _ _, _) => copyFileAtomic destination (Join previous name) ;; backUp previous names (<[name := true]> present)
      | inl _ => fail Err
      | inr ErrNotExist => backUp previous names present
      | inr Err => fail Err
      end
  end.

Definition isPresent (receipt : ActivationReceipt) (name : gostr) : bool := default false (ar_previousPresent receipt !! name).
(** One artifact of a rollback: whether it failed. *)
Definition rollbackArtifact (receipt : ActivationReceipt) (name : gostr) : M bool :=
  match cs_destinations store !! name with
  | None => ret true
  | Some destination =>
      if isPresent receipt name then
        let* r := attempt (copyFileAtomic (Join (ar_previous receipt) name) destination) in
        ret (match r with inl _ => false | inr _ => true end)
      else
        let* r := attempt (Remove destination) in
        ret (match r with inr Err => true | _ => false end)
  end.
Fixpoint rollbackArtifacts (receipt : ActivationReceipt) (names : list gostr) (failures : bool) : M bool :=
  match names with
  | [] => ret failures
  | name :: names => let* failed := rollbackArtifact receipt name in rollbackArtifacts receipt names (failures || failed)
  end.
Definition rollbackLocked (receipt : ActivationReceipt) : M unit :=
  let* failures := rollbackArtifacts receipt (ar_changed receipt) false in
  if failures then fail Err else removeManagedTree (rc_Directory (ar_candidate receipt)) (ar_previous receipt).

(** The loop that publishes; on a failure the rollback's own error is dropped. *)
Definition publishArtifact (receipt : ActivationReceipt) (name : gostr) : M unit :=
  let* r := attempt (copyFileAtomic (pathAt (rc_Files (ar_candidate receipt)) name) (pathAt (cs_destinations store) name)) in
  match r with
  | inl _ => ret tt
  | inr _ => attempt (rollbackLocked receipt) ;; fail Err
  end.

Definition ActivateAfter (candidate : RuntimeCandidate) (validate : option (list gostr -> M unit)) : M ActivationReceipt :=
  validateCandidate candidate ;;
  let previous := Join (rc_Directory candidate) previousRuntime in
  let* changed := changedArtifacts candidate (sortedKeys (rc_Files candidate)) [] in
  if bool_decide (changed = []) then ret (Receipt candidate previous ∅ changed)
  else
    (match validate with Some validate => validate changed | None => ret tt end) ;;
    removeManagedTree (rc_Directory candidate) previous ;;
    mkdirAll previous ;;
    let* present := backUp previous changed ∅ in
    let receipt := Receipt candidate previous present changed in
    forEach (publishArtifact receipt) changed ;;
    ret receipt.
Definition Activate (candidate : RuntimeCandidate) : M ActivationReceipt := ActivateAfter candidate None.

(** [None] for the empty path of an artifact that was absent. *)
Definition restoring (receipt : ActivationReceipt) : gmap gostr (option path) :=
  list_to_map ((fun name => (name, if isPresent receipt name then Some (Join (ar_previous receipt) name) else None)) <$> ar_changed receipt).
Definition RollbackAfter (receipt : ActivationReceipt) (prepare : option (gmap gostr (option path) -> M unit)) : M unit :=
  (match prepare with Some prepare => prepare (restoring receipt) | None => ret tt end) ;;
  rollbackLocked receipt.
Definition Rollback (receipt : ActivationReceipt) : M unit := RollbackAfter receipt None.

Definition commitArtifact (candidate : RuntimeCandidate) (name : gostr) : M unit :=
  let source := pathAt (rc_Files candidate) name in
  let* equal := attempt (filesEqual source (Join (cs_lkg store) name)) in
  match equal with
  | inl true => ret tt
  | inr Err => fail Err
  | _ => copyFileAtomic source (Join (cs_lkg store) name)
  end.
Definition CommitLastKnownGood (candidate : RuntimeCandidate) : M unit :=
  validateCandidate candidate ;;
  mkdirAll (cs_lkg store) ;;
  forEach (commitArtifact candidate) (sortedKeys (rc_Files candidate)) ;;
  removeManagedTree (rc_Directory candidate) (Join (rc_Directory candidate) previousRuntime).

(** *** Loading and preparing *)

Definition verifyArtifact (directory : path) (manifest : candidateManifest) (rendered : option (gmap gostr gostr)) (name : gostr) : M unit :=
  match cm_Artifacts manifest !! name with
  | None => fail Err
  | Some expected =>
      if negb (MatchString candidateRevisionPattern expected) then fail Err
      else if match rendered with Some digests => negb (bool_decide (default [] (digests !! name) = expected)) | None => false end then fail Err
      else
        let* info := Lstat (Join directory name) in
        match info with
        | Found (File _ _) _ =>
            let* actual := hashRegularFile (Join directory name) maxCandidateArtifactBytes in
            if negb (bool_decide (actual = expected)) then fail Err else ret tt
        | _ => fail Err
        end
  end.
Definition loadLocked (revision : gostr) (rendered : option (gmap gostr gostr)) : M RuntimeCandidate :=
  if negb (MatchString candidateRevisionPattern revision) then fail Err
  else
    let directory := Join (cs_root store) revision in
    let* info := Lstat directory in
    match info with
    | Found Dir _ =>
        let manifestPath := Join directory (bs "manifest.json") in
        let* manifestStat := Lstat manifestPath in
        match manifestStat with
        | Found (File _ _) _ =>
            let* file := Open manifestPath in
            look (fun _ => inl tt) ;;
            match file with
            | File _ body =>
                if Z.shiftl 1 20 <? Z.of_nat (length body) then fail Err
                else
                  look (fun _ => inl tt) ;;
                  match unmarshalManifest body with
                  | None => fail Err
                  | Some manifest =>
                      look (fun _ => inl tt) ;;
                      if negb (bool_decide (cm_Revision manifest = revision))
                         || negb (bool_decide (Datatypes.length (map_to_list (cm_Artifacts manifest)) = Datatypes.length (map_to_list (cs_destinations store))))
                      then fail Err
                      else
                        forEach (verifyArtifact directory manifest rendered) (sortedKeys (cs_destinations store)) ;;
                        ret (candidateFromManifest directory manifest)
                  end
            | _ => fail Err
            end
        | _ => fail Err
        end
    | _ => fail Err
    end.
Definition Load (revision : gostr) : M RuntimeCandidate := loadLocked revision None.

Definition pruneEntry (revision : gostr) (entry : gostr * node) : M unit :=
  let '(name, n) := entry in
  if bool_decide (name = revision) then ret tt
  else
    let managedTemporary := bool_decide (bs ".next-" `prefix_of` name) || bool_decide (name = bs ".previous") in
    if negb (match n with Dir => true | _ => false end) || (negb (MatchString candidateRevisionPattern name) && negb managedTemporary) then ret tt
    else removeManagedTree (cs_root store) (cs_root store ++ [name]).   (* the name of an entry is one component *)
Definition pruneExcept (revision : gostr) : M unit :=
  let* entries := ReadDir (cs_root store) in forEach (pruneEntry revision) entries.

Definition totalBytes (artifacts : gmap gostr gostr) : Z := foldr (fun e n => Z.of_nat (length e.2) + n) 0 (map_to_list artifacts).
Definition validArtifacts (artifacts : gmap gostr gostr) : bool :=
  forallb (fun e => bool_decide (is_Some (cs_destinations store !! e.1)) && (Z.of_nat (length e.2) <=? maxCandidateArtifactBytes)) (map_to_list artifacts)
  && (totalBytes artifacts <=? maxCandidateTotalBytes).
Definition oldName : gostr := bs ".previous".

(** From the staging directory on. *)
Definition publishStaging (revision : gostr) (manifest : candidateManifest) (staging : path) : M RuntimeCandidate :=
  let directory := Join (cs_root store) revision in
  let old := Join (cs_root store) oldName in
  removeManagedTree (cs_root store) old ;;
  let* info := Lstat directory in
  let* hadOld := match info with
                 | Found Dir _ => renameManagedPath directory old ;; ret true
                 | NotExist => ret false
                 | _ => fail Err
                 end in
  let* r := attempt (renameManagedPath staging directory) in
  match r with
  | inr e => (if hadOld then attempt (renameManagedPath old directory) ;; ret tt else ret tt) ;; fail e
  | inl _ =>
      syncDirectory (cs_root store) ;;
      (if hadOld then removeManagedTree (cs_root store) old else ret tt) ;;
      pruneExcept revision ;;
      ret (candidateFromManifest directory manifest)
  end.
Definition fillStaging (manifest : candidateManifest) (artifacts : gmap gostr gostr) (staging : path) : M unit :=
  look (fun _ => inl tt) ;;
  forEach (fun name => writePrivateFile (Join staging name) (default [] (artifacts !! name))) (sortedKeys artifacts) ;;
  match marshalManifest manifest with
  | None => fail Err
  | Some body => writePrivateFile (Join staging (bs "manifest.json")) body ;; syncDirectory staging
  end.
Definition Prepare (revision : gostr) (artifacts : gmap gostr gostr) : M RuntimeCandidate :=
  if negb (MatchString candidateRevisionPattern revision) then fail Err
  else if bool_decide (artifacts = ∅) then fail Err
  else if negb (bool_decide (Datatypes.length (map_to_list artifacts) = Datatypes.length (map_to_list (cs_destinations store)))) then fail Err
  else if negb (validArtifacts artifacts) then fail Err
  else
    let digests := hexSHA256 <$> artifacts in
    let manifest := Manifest digests revision in
    let* loaded := attempt (loadLocked revision (Some digests)) in
    match loaded with
    | inl candidate => pruneExcept revision ;; ret candidate
    | inr _ =>
        mkdirAll (cs_root store) ;;
        let* staging := MkdirTemp (cs_root store) (bs ".next-") in
        finally (fillStaging manifest artifacts staging ;; publishStaging revision manifest staging) (removeAll staging)
    end.
End Store.
