(* ===== verification/CandidateSafety.v ===== *)
(** * Candidates: activation and rollback under faults and crashes

    With the logic of [RecoverySafety], for [CandidateStore]: whatever operations
    fail and wherever the program stops, a destination holds its old bytes or the
    candidate's, the old bytes stay at the destination or in the backup, and a
    rollback that succeeds puts everything back. *)

From Stdlib Require Import String.
From S2P Require Import Prelude GoBase GoSort GoText GoRegexp GoPath Recovery RecoverySafety CandidateStore.
Open Scope Z_scope.
Open Scope io_scope.

(** ** More of the logic *)

Lemma safe_attempt {A : Type} (I P : tree -> Prop) (m : M A) (Q : A -> tree -> Prop) :
  safe I P m Q -> safe I P (attempt m) (fun r t => match r with inl a => Q a t | inr _ => I t end).
Proof.
  intros H w w' r E Hp. unfold attempt in E. destruct (m w) as [w1 r1] eqn:Em. injection E as <- <-.
  destruct (H _ _ _ Em Hp) as [Hh Hr]. split; [done|]. by destruct r1.
Qed.
(** From the weaker of two invariants to the stronger one. *)
Lemma safe_inv {A : Type} (I P : tree -> Prop) (m : M A) (Q : A -> tree -> Prop) (K : tree -> Prop) :
  safe K P m Q -> (forall t, K t -> I t) -> safe I P m Q.
Proof. intros H Hk. eapply safe_weaken; eauto. Qed.
Lemma safe_pre {A : Type} (I P P' : tree -> Prop) (m : M A) (Q : A -> tree -> Prop) :
  safe I P m Q -> (forall t, P' t -> P t) -> safe I P' m Q.
Proof. intros H Hp. eapply safe_weaken; eauto. Qed.
Lemma safe_post {A : Type} (I P : tree -> Prop) (m : M A) (Q Q' : A -> tree -> Prop) :
  safe I P m Q -> (forall a t, Q a t -> Q' a t) -> safe I P m Q'.
Proof. intros H Hq. eapply safe_weaken; eauto. Qed.
Lemma safe_forEach {A : Type} (I : tree -> Prop) (f : A -> M unit) (S : list A -> tree -> Prop) l : forall done,
  (forall done x, x ∈ l -> safe I (S done) (f x) (fun _ => S (done ++ [x]))) ->
  safe I (S done) (forEach f l) (fun _ => S (done ++ l)).
Proof.
  induction l as [|x l IH]; intros done Hf; cbn [forEach].
  - apply safe_ret. intros t. by rewrite app_nil_r.
  - eapply safe_bind; [apply Hf; by left|]. intros ?. cbn. eapply safe_post; [apply IH; intros; apply Hf; by right|].
    intros ? t. by rewrite <- app_assoc.
Qed.
(** An operation that leaves the files alone. *)
Definition readOnly {A : Type} (m : M A) : Prop := forall w w' r, m w = (w', r) -> w_tree w' = w_tree w /\ w_history w' = w_history w.
Lemma safe_readOnly {A : Type} (I P : tree -> Prop) (m : M A) : readOnly m -> (forall t, P t -> I t) -> safe I P m (fun _ => P).
Proof.
  intros Hr Hi w w' r E Hp. destruct (Hr _ _ _ E) as [Et Eh]. rewrite Et. split; [exists []; by rewrite app_nil_r|]. destruct r; auto.
Qed.
Lemma readOnly_ret {A : Type} (a : A) : readOnly (ret a).
Proof. by intros w w' r [= <- <-]. Qed.
Lemma readOnly_fail {A : Type} e : readOnly (fail (A:=A) e).
Proof. by intros w w' r [= <- <-]. Qed.
Lemma readOnly_bind {A B : Type} (m : M A) (k : A -> M B) : readOnly m -> (forall a, readOnly (k a)) -> readOnly (bind m k).
Proof.
  intros Hm Hk w w' r E. unfold bind in E. destruct (m w) as [w1 [a|e]] eqn:Em; destruct (Hm _ _ _ Em) as [E1 E2].
  - destruct (Hk a _ _ _ E). split; congruence.
  - injection E as <- <-. done.
Qed.
Lemma readOnly_fault : readOnly fault.
Proof. by intros w w' r [= <- <-]. Qed.
Lemma readOnly_look {A : Type} (f : tree -> A + ioerr) : readOnly (look f).
Proof. apply readOnly_bind; [apply readOnly_fault|]. intros []; [apply readOnly_fail|]. by intros w w' r [= <- <-]. Qed.
Lemma readOnly_attempt {A : Type} (m : M A) : readOnly m -> readOnly (attempt m).
Proof. intros H w w' r E. unfold attempt in E. destruct (m w) as [w1 r1] eqn:Em. injection E as <- <-. by apply (H _ _ _ Em). Qed.
Lemma readOnly_Lstat l : readOnly (Lstat l).
Proof. apply readOnly_bind; [apply readOnly_fault|]. intros []; [apply readOnly_ret|]. by intros w w' r [= <- <-]. Qed.
Lemma readOnly_forEach {A : Type} (f : A -> M unit) l : (forall x, readOnly (f x)) -> readOnly (forEach f l).
Proof. intros H. induction l as [|x l IH]; [apply readOnly_ret|]. apply readOnly_bind; [apply H|]. intros ?. apply IH. Qed.

Lemma removeEach_safe (I P : tree -> Prop) l :
  (forall t, P t -> I t) -> Forall (fun p => forall t, P t -> P (delete p t)) l -> safe I P (removeEach l) (fun _ => P).
Proof.
  intros Hi Hl. induction Hl as [|p l Hp Hl IH]; simpl; [by apply safe_ret|]. eapply safe_bind; [|intros ?; apply IH].
  apply safe_change; [done|]. intros t t' Ht [= <-]. auto.
Qed.
Lemma removeAll_safe (I P : tree -> Prop) root :
  (forall t, P t -> I t) -> (forall p t, root `prefix_of` p -> P t -> P (delete p t)) -> safe I P (removeAll root) (fun _ => P).
Proof.
  intros Hi Hd w w' r E Hp. unfold removeAll in E. eapply removeEach_safe; [exact Hi| |exact E|exact Hp].
  apply Forall_forall. intros p Hp'. apply list_elem_of_filter in Hp' as [Hp' _]. auto.
Qed.
Lemma removeManagedTree_safe (I P : tree -> Prop) root target :
  (forall t, P t -> I t) -> (forall p t, target `prefix_of` p -> P t -> P (delete p t)) ->
  safe I P (removeManagedTree root target) (fun _ => P).
Proof.
  intros Hi Hd. unfold removeManagedTree. apply safe_if; intros _; [by apply safe_fail|].
  eapply safe_bind; [apply (safe_readOnly I P); [apply readOnly_Lstat|done]|]. cbn.
  intros [[]| |]; try (by apply safe_fail); try (by apply safe_ret); by apply removeAll_safe.
Qed.

Section Reads.
Context `{!Platform}.

Lemma readOnly_Stat p : readOnly (Stat p).
Proof. apply readOnly_look. Qed.
Lemma readOnly_Open p : readOnly (Open p).
Proof. apply readOnly_bind; [apply readOnly_Stat|]. intros ?. apply readOnly_ret. Qed.
Lemma readOnly_compareLoop fuel left right : forall l r, readOnly (compareLoop fuel left right l r).
Proof.
  induction fuel as [|fuel IH]; intros l r; cbn [compareLoop]; [apply readOnly_fail|].
  apply readOnly_bind; [apply readOnly_fault|]. intros f1. apply readOnly_bind; [apply readOnly_fault|]. intros f2.
  destruct (readChunk f1 left l) as [[lb le] lr], (readChunk f2 right r) as [[rb re] rr].
  case_bool_decide; cbn [negb]; [|apply readOnly_ret].
  destruct le, re; first [apply readOnly_fail|apply readOnly_ret|apply IH].
Qed.
Lemma readOnly_filesEqual p q : readOnly (filesEqual p q).
Proof.
  apply readOnly_bind; [apply readOnly_Stat|]. intros l. apply readOnly_bind; [apply readOnly_Stat|]. intros r.
  destruct (negb _); [apply readOnly_ret|]. apply readOnly_bind; [apply readOnly_Open|]. intros lf.
  apply readOnly_bind; [apply readOnly_Open|]. intros rf. apply readOnly_compareLoop.
Qed.
Lemma readOnly_validateCandidate store candidate : readOnly (validateCandidate store candidate).
Proof.
  unfold validateCandidate. destruct (negb _); [apply readOnly_fail|]. destruct (negb _); [apply readOnly_fail|].
  apply readOnly_forEach. intros name. unfold validateArtifact. destruct (_ || _); [apply readOnly_fail|].
  apply readOnly_bind; [apply readOnly_attempt, readOnly_Stat|]. intros [[[] ?]|]; first [apply readOnly_fail|apply readOnly_ret].
Qed.

(** The results of looking. *)
Lemma look_result {A : Type} (f : tree -> A + ioerr) w w' r : look f w = (w', r) -> r = inr Err \/ r = f (w_tree w).
Proof.
  unfold look, bind, fault, fail. destruct (default false _); [intros [= <- <-]; by left|intros [= <- <-]; by right].
Qed.
Lemma Stat_result p w w' r : Stat p w = (w', r) ->
  match r with inl (n, q) => statAt (w_tree w) p = Found n q | inr ErrNotExist => statAt (w_tree w) p = NotExist | inr Err => True end.
Proof. intros E. apply look_result in E as [-> | ->]; [done|]. by destruct (statAt _ p). Qed.
Lemma Open_result p w w' n : Open p w = (w', inl n) -> exists q, statAt (w_tree w) p = Found n q.
Proof.
  unfold Open, bind. destruct (Stat p w) as [w1 [[n1 q]|e]] eqn:E; [|done]. intros [= <- <-]. exists q. exact (Stat_result _ _ _ _ E).
Qed.

(** Two files found equal have the same bytes. *)
Lemma compareLoop_equal fuel m b m' b' : forall l r w w', (length l < fuel)%nat ->
  compareLoop fuel (File m b) (File m' b') l r w = (w', inl true) -> l = r.
Proof.
  assert (Hpos : (0 < compareBuffer)%nat) by (unfold compareBuffer; change (Z.shiftl 128 10) with 131072; lia).
  induction fuel as [|fuel IH]; intros l r w w' Hf; cbn [compareLoop]; [done|]. unfold bind, fault. cbn -[take drop readChunk].
  generalize (default false (head (w_faults w))), (default false (head (tail (w_faults w)))). intros f1 f2.
  unfold readChunk. destruct f1, f2; cbn -[take drop]; try done; try (destruct l; done); try (destruct r; done).
  all: try (case_bool_decide; cbn; [|done]; try done).
  all: destruct l as [|x l]; destruct r as [|y r]; cbn -[take drop]; try done; try (case_bool_decide; cbn -[take drop]; done).
  case_bool_decide as Eb; cbn -[take drop]; [|done]. intros E. apply IH in E.
  - by rewrite <- (take_drop compareBuffer (x :: l)), <- (take_drop compareBuffer (y :: r)), Eb, E.
  - rewrite length_drop. cbn in Hf |- *. lia.
Qed.
End Reads.

(** ** Copies *)

(** The system copies all of a file. *)
Class PlatformLaws `{!Platform} := { concat_pieces body : concat (pieces body) = body }.

Section CopyFile.
Context {P0 : Platform} {P1 : PlatformLaws}.
Context (I : tree -> Prop) (dst : path) (J : gostr -> tree -> Prop) (Htol : tolerates I dst).

Lemma copyTail_safe tmp n :
  temporaryOf dst tmp -> (forall m body, n = File m body -> placeable I dst J body) ->
  safe (during I dst J tmp) (copying I dst tmp [])
    (chmod tmp mode600 ;; ((match n with File _ body => appendAll tmp (pieces body) | _ => fail Err end) ;;
     syncFile tmp ;; closeFile tmp ;; rename tmp dst ;; syncDirectory (dirOf dst)))
    (fun _ t => exists body, placed I dst J tmp body t).
Proof using P1.
  intros Ht Hpl. eapply safe_bind; [by apply writeFile_safe with (body' := [])|]. intros ?.
  destruct n as [|m body|]; try (eapply safe_bind with (R := fun _ _ => False); [apply safe_fail, copying_during|by intros ? ? ? ? ? []]).
  eapply safe_bind; [apply appendAll_safe|]. intros ?. rewrite concat_pieces. cbn [app].
  eapply safe_bind; [apply safe_look; [apply copying_during|intros ? ? H _; exact H]|]. intros ?.
  eapply safe_bind; [apply safe_look; [apply copying_during|intros ? ? H _; exact H]|]. intros ?.
  eapply safe_bind; [apply rename_safe; [done|by eapply Hpl]|]. intros ?. unfold syncDirectory.
  eapply safe_bind; [apply safe_look; [apply placed_during|intros ? ? H _; exact H]|]. intros ?.
  apply safe_look; [apply placed_during|]. eauto.
Qed.

Lemma copyFile_safe src :
  (forall t m body q, I t -> statAt t src = Found (File m body) q -> placeable I dst J body) ->
  safe I I (copyFileAtomic src dst) (fun _ t => I t /\ exists body, J body t).
Proof using P1 Htol.
  intros HJ. unfold copyFileAtomic.
  eapply safe_bind with (R := fun n t => I t /\ exists t0 q, I t0 /\ statAt t0 src = Found n q).
  { intros w w' r E Hi. destruct (readOnly_Open _ _ _ _ E) as [Et Eh]. rewrite Et, Eh.
    split; [exists []; by rewrite app_nil_r|]. destruct r as [n|]; [|done]. split; [done|]. apply Open_result in E as [q E]. eauto. }
  intros n. eapply safe_bind; [apply safe_keep, mkdirAll_safe, (tol_dir _ _ Htol)|]. intros ?.
  eapply safe_bind; [apply safe_keep, (createTemp_safe I dst Htol)|]. intros tmp.
  apply safe_assume. intros (t0 & q & Hi0 & Hs0).
  eapply safe_pre with (P := fun t => copying I dst tmp [] t /\ temporaryOf dst tmp); [|tauto]. apply safe_assume. intros Ht.
  eapply (safe_finally_remove (during I dst J tmp)); [apply (copyTail_safe tmp n Ht); intros m body ->; by eapply HJ| | | |].
  - intros t [[b Hb]|(b & u & Hu & Hd & Hx & Hy & -> & Hn & Hi & Hj)]; [by eapply copying_inv|done].
  - intros t [[b (u & Hu & Hd & Hn & ->)]|(b & u & Hu & Hd & Hx & Hy & -> & Hn & Hi & Hj)] _.
    + by rewrite delete_insert_id.
    + by rewrite delete_id.
  - intros ? t [body Hp]. by eapply placed_during.
  - intros ? t [body Hp]. destruct Hp as (u & Hu & Hd & Hx & Hy & E & Hn & Hi & Hj). rewrite delete_id by done. eauto 10.
Qed.
End CopyFile.

(** ** The arrangement of a store *)

Definition bodyAt (t : tree) (p : path) : option gostr := match t !! p with Some (File _ body) => Some body | _ => None end.
(** The same node, or files with the same bytes. *)
Definition sameFile (a b : option node) : Prop := a = b \/ exists m m' body, a = Some (File m body) /\ b = Some (File m' body).
Definition simpleName (name : gostr) : Prop := parts name = [name] /\ proper name /\ head name <> Some x2e.

Lemma Join_simple p name : simpleName name -> Join p name = p ++ [name].
Proof. intros (Hp & Hn & _). unfold Join, joinClean. rewrite Hp. cbn. by apply cleanStep_proper. Qed.
Lemma Join_previous p : Join p previousRuntime = p ++ [previousRuntime].
Proof. unfold Join, joinClean. change (parts previousRuntime) with [previousRuntime]. cbn [cleanFrom foldl]. apply cleanStep_proper. by_decide. Qed.

(** What the configuration of the appliance satisfies; the first four are what
    [NewCandidateStore] establishes. *)
Record arranged (store : CandidateStore) : Prop := {
  arr_simple name d : cs_destinations store !! name = Some d -> simpleName name;
  arr_proper name d : cs_destinations store !! name = Some d -> Forall proper d;
  arr_outside name d : cs_destinations store !! name = Some d -> ~ cs_root store `prefix_of` d;
  arr_root : Forall proper (cs_root store);
  arr_apart name name' d d' : cs_destinations store !! name = Some d -> cs_destinations store !! name' = Some d' -> d `prefix_of` d' -> name = name';
  arr_above name d : cs_destinations store !! name = Some d -> ~ d `prefix_of` cs_root store;
  arr_visible name d : cs_destinations store !! name = Some d -> head (baseOf d) <> Some x2e;
}.

(** ** Invariants of an activation *)

Lemma sameFile_refl a : sameFile a a.
Proof. by left. Qed.
Lemma sameFile_bodyAt t d n m body : sameFile (t !! d) n -> n = Some (File m body) -> bodyAt t d = Some body.
Proof. unfold bodyAt. intros [->|(m1 & m2 & b & -> & ->)] E; [by rewrite E|]. by injection E as -> ->. Qed.
Lemma bodyAt_file t p body : bodyAt t p = Some body <-> exists m, t !! p = Some (File m body).
Proof.
  unfold bodyAt. split; [|by intros [m ->]]. destruct (t !! p) as [[|m b|]|]; try done. intros [= <-]. eauto.
Qed.
Lemma bodyAt_insert_ne t x n p : x <> p -> bodyAt (<[x:=n]> t) p = bodyAt t p.
Proof. intros H. unfold bodyAt. by rewrite lookup_insert_ne. Qed.
Lemma at_delete_ne t x q : q <> x -> at_ (delete x t) q = at_ t q.
Proof. intros H. destruct q; [done|]. cbn. by apply lookup_delete_ne. Qed.
Lemma at_delete t x q : at_ (delete x t) q <> None -> at_ t q <> None.
Proof. destruct q as [|c q]; [done|]. cbn. intros H. destruct (decide (x = c :: q)) as [->|Hn]; [by rewrite lookup_delete_eq in H|by rewrite lookup_delete_ne in H]. Qed.
Lemma prefix_comparable {A : Type} (a b c : list A) : a `prefix_of` c -> b `prefix_of` c -> a `prefix_of` b \/ b `prefix_of` a.
Proof. intros Ha Hb. by eapply prefix_weak_total. Qed.
Lemma take_prefix {A : Type} i (l : list A) : take i l `prefix_of` l.
Proof. exists (drop i l). by rewrite take_drop. Qed.

Section Arrangement.
Context (store : CandidateStore) (Harr : arranged store).
Local Abbreviation dest := (cs_destinations store).

(** The way to a destination is made of directories. *)
Definition ways (t : tree) : Prop :=
  forall name d, dest !! name = Some d -> forall i k, (k < i)%nat -> (i <= length d)%nat -> at_ t (take i d) <> None -> at_ t (take k d) = Some Dir.
(** Not on the way to a destination, which itself may be meant. *)
Definition offWay (t : tree) (x : path) : Prop :=
  forall name d i, dest !! name = Some d -> (i < length d)%nat -> take i d = x -> at_ t x = None.

Lemma ways_insert t x n : ways t -> x <> [] -> at_ t (dirOf x) = Some Dir -> offWay t x -> ways (<[x:=n]> t).
Proof.
  intros Hw Hx Hd Ho name d Hn i k Hk Hi Hat.
  assert (Hlen : forall j, (j <= length d)%nat -> length (take j d) = j) by (intros; by rewrite length_take_le).
  destruct (decide (x = take i d)) as [->|Hne].
  - rewrite at_insert_ne; [|intros E; apply (f_equal length) in E; rewrite !Hlen in E; lia].
    destruct i as [|i]; [lia|]. rewrite dirOf_take in Hd by lia. destruct (decide (k = i)) as [->|Hki]; [done|].
    apply (Hw name d Hn i k); [lia|lia|congruence].
  - rewrite at_insert_ne in Hat by done. pose proof (Hw name d Hn i k Hk Hi Hat) as Hdir.
    rewrite at_insert_ne; [done|]. intros ->. by rewrite (Ho name d k Hn) in Hdir by (lia || done).
Qed.
Lemma ways_delete t x : ways t -> (forall name d i, dest !! name = Some d -> (i < length d)%nat -> take i d <> x) -> ways (delete x t).
Proof.
  intros Hw Ho name d Hn i k Hk Hi Hat. rewrite at_delete_ne by (apply (Ho name d); [done|lia]).
  apply (Hw name d Hn i k Hk Hi). by eapply at_delete.
Qed.
Lemma ways_wf t : wellFormed t -> ways t.
Proof.
  intros Hw name d Hn i k Hk Hi Hat. destruct (take i d) as [|c p] eqn:E.
  { apply (f_equal length) in E. rewrite length_take_le in E by lia. cbn in E. lia. }
  destruct (at_ t (c :: p)) as [n|] eqn:En; [|done]. pose proof (Hw (c :: p) n En k) as H. rewrite <- E, take_take, length_take_le in H by lia.
  rewrite Nat.min_l in H by lia. apply H. lia.
Qed.

(** A place inside the store, or on the way to one, is no destination. *)
Lemma store_not_dest name d x y : dest !! name = Some d -> x `prefix_of` y -> cs_root store `prefix_of` y -> x <> d.
Proof using Harr.
  intros Hn Hx Hy ->. destruct (prefix_comparable _ _ _ Hx Hy) as [H|H]; [by apply (arr_above _ Harr name d)|by apply (arr_outside _ Harr name d)].
Qed.
Lemma store_offWay t x : cs_root store `prefix_of` x -> offWay t x.
Proof using Harr.
  intros Hx name d i Hn Hi <-. exfalso. apply (arr_outside _ Harr name d Hn). etrans; [exact Hx|apply take_prefix].
Qed.
Lemma store_way x name d i : cs_root store `prefix_of` x -> dest !! name = Some d -> (i < length d)%nat -> take i d <> x.
Proof using Harr. intros Hx Hn Hi <-. apply (arr_outside _ Harr name d Hn). etrans; [exact Hx|apply take_prefix]. Qed.
Lemma dest_way name d name' d' i : dest !! name = Some d -> dest !! name' = Some d' -> (i < length d')%nat -> take i d' <> d.
Proof using Harr.
  intros Hn Hn' Hi E. assert (name = name') as <-. { apply (arr_apart _ Harr name name' d d'); [done|done|]. rewrite <- E. apply take_prefix. }
  rewrite Hn in Hn'. injection Hn' as <-. apply (f_equal length) in E. rewrite length_take in E. lia.
Qed.
Lemma dest_inj name name' d : dest !! name = Some d -> dest !! name' = Some d -> name = name'.
Proof using Harr. intros H1 H2. by apply (arr_apart _ Harr name name' d d). Qed.

(** The temporaries of a copy to a destination. *)
Lemma temporary_hidden d tmp : temporaryOf d tmp -> head (baseOf tmp) = Some x2e.
Proof. intros [rnd ->]. unfold baseOf. by rewrite last_snoc. Qed.
Lemma temporary_not_dest d tmp name d' : temporaryOf d tmp -> dest !! name = Some d' -> tmp <> d'.
Proof using Harr. intros Ht Hn ->. apply (arr_visible _ Harr name d' Hn). by apply (temporary_hidden d). Qed.
Lemma temporary_outside d tmp name x : temporaryOf d tmp -> dest !! name = Some d -> cs_root store `prefix_of` dirOf x -> tmp <> x.
Proof using Harr.
  intros Ht Hn Hx <-. rewrite (temporary_dir _ _ Ht) in Hx. apply (arr_outside _ Harr name d Hn). etrans; [exact Hx|].
  unfold dirOf. apply take_prefix.
Qed.
End Arrangement.

(** What [validateCandidate] checks apart from the files. *)
Definition managed (store : CandidateStore) (candidate : RuntimeCandidate) : Prop :=
  simpleName (rc_Revision candidate) /\ rc_Directory candidate = cs_root store ++ [rc_Revision candidate] /\
  forall name p, rc_Files candidate !! name = Some p -> is_Some (cs_destinations store !! name) /\ p = rc_Directory candidate ++ [name].

Section Activation.
Context (store : CandidateStore) (Harr : arranged store) (candidate : RuntimeCandidate) (Hman : managed store candidate).
Context (t0 : tree).
Local Abbreviation dest := (cs_destinations store).
Local Abbreviation files := (rc_Files candidate).
Local Abbreviation dir := (rc_Directory candidate).
Definition previousDir : path := dir ++ [previousRuntime].
Definition backup (name : gostr) : path := previousDir ++ [name].

Definition sources (t : tree) : Prop := forall name p, files !! name = Some p -> t !! p = t0 !! p.
(** The candidate's files are files and no destination is a link. *)
Definition startable : Prop :=
  (forall name p, files !! name = Some p -> exists m body, t0 !! p = Some (File m body)) /\
  (forall name d, dest !! name = Some d -> t0 !! d <> Some Symlink) /\ ways store t0.
Context (Hstart : startable).

Record untouched (t : tree) : Prop := {
  un_dest name d : dest !! name = Some d -> t !! d = t0 !! d;
  un_sources : sources t;
  un_ways : ways store t }.
Definition oldOrNew (t : tree) (name : gostr) (d : path) : Prop :=
  sameFile (t !! d) (t0 !! d) \/ exists p body, files !! name = Some p /\ bodyAt t0 p = Some body /\ t !! d = Some (File mode600 body).
Definition backed (names : list gostr) (t : tree) : Prop :=
  forall name d m body, name ∈ names -> dest !! name = Some d -> t0 !! d = Some (File m body) -> bodyAt t (backup name) = Some body.

(** While artifacts are published or put back. *)
Record inProgress (changed : list gostr) (t : tree) : Prop := {
  ip_dest name d : dest !! name = Some d -> oldOrNew t name d;
  ip_rest name d : dest !! name = Some d -> name ∉ changed -> t !! d = t0 !! d;
  ip_kept name d m body : dest !! name = Some d -> name ∈ changed -> t0 !! d = Some (File m body) ->
    bodyAt t (backup name) = Some body \/ (sameFile (t !! d) (t0 !! d) /\ t !! backup name = None);
  ip_sources : sources t;
  ip_ways : ways store t }.

(** What holds wherever the program stops. *)
Record crashSafe (t : tree) : Prop := {
  cr_dest name d : dest !! name = Some d -> oldOrNew t name d;
  cr_kept name d m body : dest !! name = Some d -> t0 !! d = Some (File m body) ->
    bodyAt t d = Some body \/ bodyAt t (backup name) = Some body;
  cr_sources : sources t }.

Lemma untouched_crashSafe t : untouched t -> crashSafe t.
Proof.
  intros [Hd Hs _]. split; [| |done].
  - intros name d Hn. left. rewrite (Hd name d Hn). apply sameFile_refl.
  - intros name d m body Hn E. left. unfold bodyAt. by rewrite (Hd name d Hn), E.
Qed.
Lemma inProgress_crashSafe changed t : inProgress changed t -> crashSafe t.
Proof.
  intros [Hd Hr Hk Hs _]. split; [done| |done]. intros name d m body Hn E. destruct (decide (name ∈ changed)) as [Hc|Hc].
  - destruct (Hk name d m body Hn Hc E) as [H|[H _]]; [by right|left]. by eapply sameFile_bodyAt.
  - left. unfold bodyAt. by rewrite (Hr name d Hn Hc), E.
Qed.

(** *** Places *)

Lemma dir_root : cs_root store `prefix_of` dir.
Proof using Hman. destruct Hman as (_ & -> & _). by apply prefix_app_r. Qed.
Lemma previous_root : cs_root store `prefix_of` previousDir.
Proof using Hman. etrans; [apply dir_root|]. by apply prefix_app_r. Qed.
Lemma backup_root name : cs_root store `prefix_of` backup name.
Proof using Hman. etrans; [apply previous_root|]. by apply prefix_app_r. Qed.
Lemma source_place name p : files !! name = Some p -> p = dir ++ [name] /\ simpleName name.
Proof using Harr Hman. destruct Hman as (_ & _ & H). intros E. destruct (H _ _ E) as [[d Hd] ->]. split; [done|]. by eapply arr_simple. Qed.
Lemma source_root name p : files !! name = Some p -> cs_root store `prefix_of` dirOf p.
Proof using Harr Hman. intros E. destruct (source_place _ _ E) as [-> _]. unfold dirOf. rewrite length_app. cbn. rewrite Nat.add_sub, take_app_length. apply dir_root. Qed.
Lemma dest_not_backup name d x : dest !! name = Some d -> d <> backup x.
Proof using Harr Hman. intros Hn E. by apply (store_not_dest store Harr name d (backup x) (backup x) Hn); [|apply backup_root|]. Qed.
Lemma dest_not_source name d name' p : dest !! name = Some d -> files !! name' = Some p -> d <> p.
Proof using Harr Hman.
  intros Hn Hf ->. apply (arr_outside _ Harr name p Hn). etrans; [by apply (source_root name')|]. unfold dirOf. apply take_prefix.
Qed.
Lemma below_previous_not_source x name p : previousDir `prefix_of` x -> files !! name = Some p -> x <> p.
Proof using Harr Hman.
  intros [s ->] Hf E. destruct (source_place _ _ Hf) as [-> (_ & _ & Hv)]. unfold previousDir in E. rewrite <- app_assoc in E.
  apply app_inv_head in E. injection E as E _. apply Hv. by rewrite <- E.
Qed.
Lemma backup_inj name name' : backup name = backup name' -> name = name'.
Proof. unfold backup. intros E. apply app_inv_head in E. congruence. Qed.

(** *** Changes to the tree *)

Lemma untouched_insert t x n : untouched t -> x <> [] -> at_ t (dirOf x) = Some Dir -> offWay store t x ->
  (forall name d, dest !! name = Some d -> x <> d) -> (forall name p, files !! name = Some p -> x <> p) -> untouched (<[x:=n]> t).
Proof.
  intros [Hd Hs Hw] Hx Hdir Ho Hnd Hns. split.
  - intros name d Hn. rewrite lookup_insert_ne by eauto. eauto.
  - intros name p Hf. rewrite lookup_insert_ne by eauto. eauto.
  - by apply ways_insert.
Qed.
Lemma untouched_delete t x : previousDir `prefix_of` x -> untouched t -> untouched (delete x t).
Proof using Harr Hman.
  intros Hx [Hd Hs Hw]. assert (Hr : cs_root store `prefix_of` x) by (etrans; [apply previous_root|done]). split.
  - intros name d Hn. rewrite lookup_delete_ne; [by eapply Hd|]. by apply (store_not_dest store Harr name d x x).
  - intros name p Hf. rewrite lookup_delete_ne; [by eapply Hs|]. by eapply below_previous_not_source.
  - apply ways_delete; [done|]. intros. by eapply store_way.
Qed.
Lemma inProgress_insert changed t x n : inProgress changed t -> x <> [] -> t !! x = None -> at_ t (dirOf x) = Some Dir ->
  (forall name d, dest !! name = Some d -> x <> d) -> (forall name, x <> backup name) -> inProgress changed (<[x:=n]> t).
Proof using Hstart.
  intros [Hd Hr Hk Hs Hw] Hx Hnone Hdir Hnd Hnb. split.
  - intros name d Hn. unfold oldOrNew. rewrite lookup_insert_ne by eauto. by apply Hd.
  - intros name d Hn Hc. rewrite lookup_insert_ne by eauto. eauto.
  - intros name d m body Hn Hc E. rewrite bodyAt_insert_ne by auto. rewrite !lookup_insert_ne by eauto. eauto.
  - intros name p Hf. rewrite lookup_insert_ne; [eauto|]. intros ->. destruct Hstart as [Hfile _].
    destruct (Hfile name p Hf) as (m & body & E). by rewrite (Hs name p Hf), E in Hnone.
  - apply ways_insert; [done|done|done|]. intros name d i _ _ _. by rewrite at_lookup.
Qed.
(** A destination takes other bytes, or none. *)
Lemma inProgress_update changed t name d (n : option node) : inProgress changed t -> dest !! name = Some d -> name ∈ changed -> d <> [] ->
  at_ t (dirOf d) = Some Dir -> oldOrNew (partial_alter (fun _ => n) d t) name d ->
  (forall m body, t0 !! d = Some (File m body) -> bodyAt t (backup name) = Some body \/ sameFile n (t0 !! d)) ->
  inProgress changed (partial_alter (fun _ => n) d t).
Proof using Harr Hman.
  intros [Hd Hr Hk Hs Hw] Hn Hc Hnil Hdir Hnew Hkept.
  assert (Hother : forall q, q <> d -> partial_alter (fun _ => n) d t !! q = t !! q) by (intros; by rewrite lookup_partial_alter_ne).
  split.
  - intros name' d' Hn'. destruct (decide (name' = name)) as [->|Hne]; [rewrite Hn in Hn'; by injection Hn' as <-|].
    unfold oldOrNew. rewrite Hother; [by apply Hd|]. intros ->. by apply Hne, (dest_inj store Harr _ _ d).
  - intros name' d' Hn' Hc'. rewrite Hother; [eauto|]. intros ->. apply Hc'. by rewrite (dest_inj store Harr name' name d).
  - intros name' d' m body Hn' Hc' E. unfold bodyAt. rewrite !(Hother (backup name')) by (intros F; by apply (dest_not_backup name d name')).
    fold (bodyAt t (backup name')). destruct (decide (name' = name)) as [->|Hne].
    + rewrite Hn in Hn'. injection Hn' as <-. rewrite lookup_partial_alter_eq.
      destruct (Hk name d m body Hn Hc E) as [?|[_ ?]]; [by left|]. destruct (Hkept m body E) as [?|?]; [by left|by right].
    + rewrite Hother; [by eapply Hk|]. intros ->. by apply Hne, (dest_inj store Harr _ _ d).
  - intros name' p Hf. rewrite Hother; [eauto|]. intros <-. by eapply (dest_not_source name p).
  - destruct n as [n|].
    + change (ways store (<[d:=n]> t)). apply ways_insert; [done|done|done|]. intros name' d' i Hn' Hi E. by eapply dest_way in E.
    + change (ways store (delete d t)). apply ways_delete; [done|]. intros. by eapply dest_way.
Qed.
Lemma inProgress_delete changed t x : previousDir `prefix_of` x ->
  (inProgress changed t /\ forall name d, dest !! name = Some d -> name ∈ changed -> sameFile (t !! d) (t0 !! d)) ->
  inProgress changed (delete x t) /\ forall name d, dest !! name = Some d -> name ∈ changed -> sameFile (delete x t !! d) (t0 !! d).
Proof using Harr Hman.
  intros Hx [[Hd Hr Hk Hs Hw] Hback]. assert (Hroot : cs_root store `prefix_of` x) by (etrans; [apply previous_root|done]).
  assert (Hdest : forall name d, dest !! name = Some d -> delete x t !! d = t !! d)
    by (intros name d Hn; apply lookup_delete_ne; by apply (store_not_dest store Harr name d x x)).
  split; [|intros name d Hn Hc; rewrite (Hdest name d Hn); eauto]. split.
  - intros name d Hn. unfold oldOrNew. rewrite (Hdest name d Hn). by apply Hd.
  - intros name d Hn Hc. rewrite (Hdest name d Hn). eauto.
  - intros name d m body Hn Hc E. rewrite (Hdest name d Hn). destruct (decide (x = backup name)) as [->|Hne].
    + right. rewrite lookup_delete_eq. eauto.
    + unfold bodyAt. rewrite lookup_delete_ne by done. by eapply Hk.
  - intros name p Hf. rewrite lookup_delete_ne; [eauto|]. by eapply below_previous_not_source.
  - apply ways_delete; [done|]. intros. by eapply store_way.
Qed.

(** *** What reads return *)

Lemma dest_some name d : dest !! name = Some d -> d <> [].
Proof using Harr. intros Hn ->. apply (arr_above _ Harr name [] Hn). by exists (cs_root store). Qed.
Lemma files_proper name p : files !! name = Some p -> Forall proper p /\ p <> [].
Proof using Harr Hman.
  intros Hf. destruct (source_place _ _ Hf) as [-> (_ & Hn & _)]. destruct Hman as ((_ & Hr & _) & -> & _). split; [|apply snoc_ne].
  rewrite !Forall_app, !Forall_singleton. split_and!; [apply (arr_root _ Harr)|done|done].
Qed.
Lemma backup_proper name : proper name -> Forall proper (backup name).
Proof using Harr Hman.
  intros Hn. unfold backup, previousDir. destruct Hman as ((_ & Hr & _) & -> & _). rewrite !Forall_app, !Forall_singleton.
  split_and!; [apply (arr_root _ Harr)|done|by_decide|done].
Qed.

Context {P0 : Platform} {P1 : PlatformLaws}.

Lemma stat_node t p n q : Forall proper p -> p <> [] -> t !! p <> Some Symlink -> statAt t p = Found n q -> t !! p = Some n.
Proof.
  intros Hp Hn Hl H. unfold statAt in H. destruct (lstat t p) as [n' q'| |] eqn:E; [|done|done].
  pose proof (lstat_found _ _ _ _ Hp E) as Ha. rewrite at_lookup in Ha by done. destruct n'; by simplify_eq.
Qed.
Lemma lstat_absent t p : Forall proper p -> (at_ t p <> None -> forall k, (k < length p)%nat -> at_ t (take k p) = Some Dir) ->
  lstat t p = NotExist -> at_ t p = None.
Proof.
  intros Hp Hw H. destruct (at_ t p) as [n|] eqn:E; [|done]. unfold lstat in H.
  rewrite (lstatFrom_intro t [] p n) in H; [done|done|done|]. by apply Hw.
Qed.
Lemma stat_absent t p : Forall proper p -> p <> [] -> t !! p <> Some Symlink ->
  (at_ t p <> None -> forall k, (k < length p)%nat -> at_ t (take k p) = Some Dir) -> statAt t p = NotExist -> t !! p = None.
Proof.
  intros Hp Hn Hl Hw H. unfold statAt in H. rewrite <- at_lookup by done. destruct (lstat t p) as [n' q'| |] eqn:E; [|by apply lstat_absent|done].
  pose proof (lstat_found _ _ _ _ Hp E) as Ha. rewrite at_lookup in Ha by done. by destruct n'.
Qed.
Lemma stat_source t name p n q : sources t -> files !! name = Some p -> statAt t p = Found n q -> t0 !! p = Some n.
Proof using Harr Hman Hstart.
  intros Hs Hf H. destruct (files_proper _ _ Hf) as [Hp Hn]. rewrite <- (Hs name p Hf). apply (stat_node t p n q); [done|done| |done].
  rewrite (Hs name p Hf). destruct Hstart as [Hfile _]. destruct (Hfile name p Hf) as (m & body & ->). done.
Qed.
Lemma stat_dest t name d n q : t !! d = t0 !! d -> dest !! name = Some d -> statAt t d = Found n q -> t0 !! d = Some n.
Proof using Harr Hstart.
  intros E Hn H. rewrite <- E. apply (stat_node t d n q); [by apply (arr_proper _ Harr name)|by apply (dest_some name)| |done].
  rewrite E. destruct Hstart as (_ & Hl & _). by apply (Hl name).
Qed.
Lemma stat_dest_absent t name d : t !! d = t0 !! d -> dest !! name = Some d -> ways store t -> statAt t d = NotExist -> t0 !! d = None.
Proof using Harr Hstart.
  intros E Hn Hw H. rewrite <- E. apply stat_absent; [by apply (arr_proper _ Harr name)|by apply (dest_some name)| | |done].
  - rewrite E. destruct Hstart as (_ & Hl & _). by apply (Hl name).
  - intros Ha k Hk. apply (Hw name d Hn (length d) k); [done|done|]. by rewrite firstn_all.
Qed.

(** *** The changed artifacts *)

Lemma compareLoop_files fuel : forall left right l r w w', compareLoop fuel left right l r w = (w', inl true) ->
  isRegular left = true /\ isRegular right = true.
Proof.
  induction fuel as [|fuel IH]; intros left right l r w w'; cbn [compareLoop]; [done|]. unfold bind, fault. cbn -[take drop readChunk].
  generalize (default false (head (w_faults w))), (default false (head (tail (w_faults w)))). intros f1 f2.
  destruct left as [|m b|], right as [|m' b'|]; cbn [isRegular]; try done; unfold readChunk; intros H; exfalso; revert H;
    destruct f1, f2; cbn -[take drop]; try done; repeat (case_bool_decide; cbn -[take drop]; try done); destruct l; destruct r; cbn -[take drop]; try done;
    repeat (case_bool_decide; cbn -[take drop]; try done).
Qed.
Lemma filesEqual_true p q w w' : filesEqual p q w = (w', inl true) ->
  exists m body x m' x', statAt (w_tree w) p = Found (File m body) x /\ statAt (w_tree w) q = Found (File m' body) x'.
Proof.
  unfold filesEqual, bind. destruct (Stat p w) as [w1 [li|]] eqn:E1; [|done]. destruct (Stat q w1) as [w2 [ri|]] eqn:E2; [|done].
  destruct (negb _); [done|]. destruct (Open p w2) as [w3 [lf|]] eqn:E3; [|done]. destruct (Open q w3) as [w4 [rf|]] eqn:E4; [|done].
  intros H. destruct (compareLoop_files _ _ _ _ _ _ _ H) as [Hl Hr]. destruct lf as [|m b|], rf as [|m' b'|]; try done.
  apply compareLoop_equal in H; [|cbn; lia]. cbn in H. subst b'.
  destruct (readOnly_Stat _ _ _ _ E1) as [T1 _], (readOnly_Stat _ _ _ _ E2) as [T2 _], (readOnly_Open _ _ _ _ E3) as [T3 _].
  apply Open_result in E3 as [x E3]. apply Open_result in E4 as [x' E4]. rewrite T3, T2, T1 in E4. rewrite T2, T1 in E3. exists m, b, x, m', x'. done.
Qed.
Lemma readOnly_changedArtifacts names : forall changed, readOnly (changedArtifacts store candidate names changed).
Proof.
  induction names as [|name names IH]; intros changed; [apply readOnly_ret|]. apply readOnly_bind; [apply readOnly_attempt, readOnly_filesEqual|].
  intros [[]|[]]; first [apply IH|apply readOnly_fail].
Qed.
(** The destination has the candidate's bytes already. *)
Definition upToDate (t : tree) (name : gostr) : Prop :=
  forall p d, files !! name = Some p -> dest !! name = Some d -> bodyAt t0 p <> None /\ bodyAt t d = bodyAt t0 p.
Lemma changedArtifacts_result names : forall changed w w' changed', untouched (w_tree w) ->
  changedArtifacts store candidate names changed w = (w', inl changed') ->
  (forall name, name ∈ names -> name ∈ changed' \/ upToDate t0 name) /\ changed ⊆ changed' /\ (forall name, name ∈ changed' -> name ∈ changed \/ name ∈ names).
Proof using Harr Hman Hstart P1.
  induction names as [|name names IH]; intros changed w w' changed' Hu H; cbn [changedArtifacts] in H.
  { injection H as <- <-. split_and!; [intros ? []%elem_of_nil|done|by left]. }
  unfold bind, attempt in H. destruct (filesEqual _ _ w) as [w1 r] eqn:E. destruct (readOnly_filesEqual _ _ _ _ _ E) as [Et _].
  assert (Hskip : forall changed1, changedArtifacts store candidate names changed1 w1 = (w', inl changed') ->
    changed ⊆ changed1 -> (forall x, x ∈ changed1 -> x ∈ changed \/ x = name) -> (name ∈ changed1 \/ upToDate t0 name) ->
    (forall x, x ∈ name :: names -> x ∈ changed' \/ upToDate t0 x) /\ changed ⊆ changed' /\ (forall x, x ∈ changed' -> x ∈ changed \/ x ∈ name :: names)).
  { intros changed1 H1 Hsub Hnew Hname. rewrite <- Et in Hu. destruct (IH _ _ _ _ Hu H1) as (I1 & I2 & I3). split_and!.
    - intros x Hx. apply elem_of_cons in Hx as [->|Hx]; [|by apply I1]. destruct Hname as [Hname|Hname]; [left; by apply I2|by right].
    - etrans; eauto.
    - intros x Hx. rewrite elem_of_cons. destruct (I3 x Hx) as [Hx'|Hx']; [|tauto]. destruct (Hnew x Hx'); tauto. }
  assert (Hadd : changedArtifacts store candidate names (changed ++ [name]) w1 = (w', inl changed') -> _)
    by (intros H1; apply (Hskip (changed ++ [name]) H1); [set_solver|intros x; rewrite elem_of_app, list_elem_of_singleton; tauto|left; set_solver]).
  destruct r as [[]|[]]; [|by apply Hadd|by apply Hadd|done].
  apply (Hskip changed H); [done|by left|]. right. intros p d Hf Hn. apply filesEqual_true in E as (m & body & x & m' & x' & E1 & E2).
  unfold pathAt in E1, E2. rewrite Hf in E1. rewrite Hn in E2. cbn in E1, E2.
  apply (stat_source _ name p) in E1; [|apply (un_sources _ Hu)|done]. apply (stat_dest _ name d) in E2; [|by apply (un_dest _ Hu name)|done].
  unfold bodyAt. by rewrite E1, E2.
Qed.

(** *** Backups *)

(** The record of what was there. *)
Definition recorded (present : gmap gostr bool) (names : list gostr) : Prop :=
  (forall name d, default false (present !! name) = true -> dest !! name = Some d -> exists m body, t0 !! d = Some (File m body)) /\
  (forall name d, name ∈ names -> dest !! name = Some d -> default false (present !! name) = false -> t0 !! d = None).

Lemma untouched_dir t x : untouched t -> x <> [] -> (exists y, x `prefix_of` y /\ cs_root store `prefix_of` y) ->
  at_ t x = None -> at_ t (dirOf x) = Some Dir -> untouched (<[x:=Dir]> t).
Proof using Harr Hman Hstart.
  intros Hu Hx (y & Hxy & Hy) Hnone Hdir. apply untouched_insert; [done|done|done|by intros ? ? ?| |].
  - intros name d Hn. by apply (store_not_dest store Harr name d x y).
  - intros name p Hf ->. destruct Hstart as [Hfile _]. destruct (Hfile name p Hf) as (m & body & E).
    by rewrite at_lookup, (un_sources _ Hu name p Hf), E in Hnone.
Qed.
Lemma backup_tolerates done name : tolerates (fun t => untouched t /\ backed done t) (backup name).
Proof using Harr Hman Hstart.
  assert (Hdir : dirOf (backup name) = previousDir) by (unfold dirOf, backup; rewrite length_app; cbn; by rewrite Nat.add_sub, take_app_length).
  split.
  - rewrite Hdir. intros k t Hk [Hu Hb] Hd Hnone. assert (Hx : take (S k) previousDir <> []) by (destruct previousDir; [cbn in Hk; lia|done]). split.
    + apply untouched_dir; [done|done|exists previousDir; split; [apply take_prefix|apply previous_root]|done|by rewrite dirOf_take].
    + intros x d m body Hin Hn E. rewrite bodyAt_insert_ne; [by eapply Hb|]. intros F.
      assert (L : length (take (S k) previousDir) = length (backup x)) by by rewrite F. unfold backup in L. rewrite length_app, length_take in L. cbn [length] in L. lia.
  - intros t tmp body Ht [Hu Hb] Hd Hnone. destruct (temporaryOf_ne _ _ Ht) as [_ Hnil]. pose proof (temporary_dir _ _ Ht) as Etd.
    assert (Hprev : previousDir `prefix_of` tmp) by (rewrite <- Hdir, <- Etd; unfold dirOf; apply take_prefix).
    assert (Hroot : cs_root store `prefix_of` tmp) by (etrans; [apply previous_root|done]). split.
    + apply untouched_insert; [done|done|by rewrite Etd|by apply store_offWay| |].
      * intros x d Hn. by apply (store_not_dest store Harr x d tmp tmp).
      * intros x p. by apply below_previous_not_source.
    + intros x d m b Hin Hn E. specialize (Hb x d m b Hin Hn E). rewrite bodyAt_insert_ne; [done|]. intros ->.
      apply bodyAt_file in Hb as [m' Hb]. congruence.
Qed.
Lemma backup_copy done name d : dest !! name = Some d ->
  safe (fun t => untouched t /\ backed done t) (fun t => untouched t /\ backed done t) (copyFileAtomic d (backup name))
    (fun _ t => untouched t /\ backed (done ++ [name]) t).
Proof using Harr Hman Hstart P1.
  intros Hn. eapply safe_post; [apply (copyFile_safe _ _ (fun _ t => backed (done ++ [name]) t) (backup_tolerates done name))|].
  2: { by intros ? t ([Hu _] & ? & ?). }
  intros t m body q [Hu Hb] E u [Hu' Hb'] Hdir Hnd Hnil. apply (stat_dest _ name) in E; [|by apply (un_dest _ Hu name)|done].
  assert (Hnew : backed (done ++ [name]) (<[backup name := File mode600 body]> u)).
  { intros x d' m' b Hin Hx Ex. destruct (decide (x = name)) as [->|Hne].
    - rewrite Hn in Hx. injection Hx as <-. unfold bodyAt. rewrite lookup_insert_eq. congruence.
    - rewrite bodyAt_insert_ne by (intros F; by apply backup_inj in F). apply elem_of_app in Hin as [Hin|Hin%list_elem_of_singleton]; [by eapply Hb'|done]. }
  split; [split|done].
  - apply untouched_insert; [done|done|done|apply store_offWay; [done|apply backup_root]| |].
    + intros x d' Hx F. by apply (dest_not_backup x d' name).
    + intros x p. apply below_previous_not_source. by apply prefix_app_r.
  - intros x d' m' b Hin. apply Hnew. set_solver.
Qed.

Lemma recorded_add present done name d m body : recorded present done -> dest !! name = Some d -> t0 !! d = Some (File m body) ->
  recorded (<[name := true]> present) (done ++ [name]).
Proof.
  intros [H1 H2] Hn E. split.
  - intros x d' Hx Hd. destruct (decide (x = name)) as [->|Hne]; [rewrite Hn in Hd; injection Hd as <-; eauto|].
    rewrite lookup_insert_ne in Hx by done. by eapply H1.
  - intros x d' Hin Hd Hx. destruct (decide (x = name)) as [->|Hne]; [by rewrite lookup_insert_eq in Hx|].
    rewrite lookup_insert_ne in Hx by done. apply elem_of_app in Hin as [Hin|Hin%list_elem_of_singleton]; [by eapply H2|done].
Qed.
Lemma recorded_skip present done name d : recorded present done -> dest !! name = Some d -> t0 !! d = None -> recorded present (done ++ [name]).
Proof.
  intros [H1 H2] Hn E. split; [done|]. intros x d' Hin Hd Hx. apply elem_of_app in Hin as [Hin|Hin%list_elem_of_singleton]; [by eapply H2|].
  subst x. congruence.
Qed.
Lemma backed_skip done name d t : backed done t -> dest !! name = Some d -> t0 !! d = None -> backed (done ++ [name]) t.
Proof.
  intros Hb Hn E x d' m body Hin Hd Ex. apply elem_of_app in Hin as [Hin|Hin%list_elem_of_singleton]; [by eapply Hb|]. subst x. congruence.
Qed.
Lemma safe_stat I P p : (forall t, P t -> I t) ->
  safe I P (attempt (Stat p)) (fun r t => P t /\ match r with inl (n, q) => statAt t p = Found n q | inr ErrNotExist => statAt t p = NotExist | inr Err => True end).
Proof.
  intros Hi w w' r E Hp. unfold attempt in E. destruct (Stat p w) as [w1 r1] eqn:Es. injection E as <- <-.
  destruct (readOnly_Stat _ _ _ _ Es) as [Et Eh]. rewrite Et, Eh. split; [exists []; by rewrite app_nil_r|]. split; [done|].
  exact (Stat_result _ _ _ _ Es).
Qed.

Lemma backUp_safe names : forall done present, (forall name, name ∈ names -> is_Some (dest !! name)) -> recorded present done ->
  safe untouched (fun t => untouched t /\ backed done t) (backUp store previousDir names present)
    (fun present t => (untouched t /\ backed (done ++ names) t) /\ recorded present (done ++ names)).
Proof using Harr Hman Hstart P1.
  induction names as [|name names IH]; intros done present Hn Hrec; cbn [backUp].
  { apply safe_ret. by rewrite app_nil_r. }
  destruct (Hn name) as [d Hd]; [by left|]. unfold pathAt. rewrite Hd. cbn [default].
  assert (Hnext : forall present, recorded present (done ++ [name]) ->
    safe untouched (fun t => untouched t /\ backed (done ++ [name]) t) (backUp store previousDir names present)
      (fun present t => (untouched t /\ backed (done ++ name :: names) t) /\ recorded present (done ++ name :: names))).
  { intros present' Hr. eapply safe_post; [apply IH; [intros; apply Hn; by right|exact Hr]|]. intros ? t. by rewrite <- app_assoc. }
  eapply safe_bind; [apply (safe_stat _ (fun t => untouched t /\ backed done t)); by intros t []|]. cbn beta.
  intros [[n q]|[]].
  - eapply safe_pre with (P := fun t => (untouched t /\ backed done t) /\ t0 !! d = Some n).
    2: { intros t [Ht E]. split; [done|]. apply (stat_dest _ name) in E; [done|by apply (un_dest _ (proj1 Ht) name)|done]. }
    apply safe_assume. intros E0. destruct n as [|m body|]; try (apply safe_fail; by intros t []).
    rewrite Join_simple by (by eapply arr_simple).
    eapply safe_bind; [eapply safe_inv; [by apply backup_copy|by intros t []]|]. intros ?. cbn beta. apply Hnext. by eapply recorded_add.
  - eapply safe_pre with (P := fun t => (untouched t /\ backed (done ++ [name]) t) /\ t0 !! d = None).
    2: { intros t [Ht E]. assert (E0 : t0 !! d = None). { eapply (stat_dest_absent t name); [by apply (un_dest _ (proj1 Ht) name)|done|apply (un_ways _ (proj1 Ht))|done]. }
         split; [|done]. split; [apply Ht|]. eapply backed_skip; [apply Ht|done|done]. }
    apply safe_assume. intros E0. apply Hnext. by eapply recorded_skip.
  - apply safe_fail. by intros t [[]].
Qed.
Lemma previous_mkdir : safe untouched untouched (mkdirAll previousDir) (fun _ => untouched).
Proof using Harr Hman Hstart.
  eapply safe_post; [apply mkdirAll_safe|by intros ? t []]. intros k t Hk Hu Hd Hnone.
  assert (Hx : take (S k) previousDir <> []) by (destruct previousDir; [cbn in Hk; lia|done]).
  apply untouched_dir; [done|done|exists previousDir; split; [apply take_prefix|apply previous_root]|done|by rewrite dirOf_take].
Qed.

(** *** Publication and rollback *)

Lemma dest_tolerates changed name d (K : tree -> Prop) : dest !! name = Some d ->
  (forall t x n, inProgress changed t -> K t -> t !! x = None -> (forall y d, dest !! y = Some d -> x <> d) -> (forall y, x <> backup y) -> K (<[x:=n]> t)) ->
  tolerates (fun t => inProgress changed t /\ K t) d.
Proof using Harr Hman Hstart.
  intros Hn HK. split.
  - intros k t Hk [Hp Hk'] Hd Hnone. rewrite length_dirOf in Hk.
    assert (Hlen : length (take (S k) (dirOf d)) = S k) by (rewrite length_take, length_dirOf; lia).
    assert (Hx : take (S k) (dirOf d) <> []) by (intros F; rewrite F in Hlen; done).
    assert (Hpre : take (S k) (dirOf d) = take (S k) d) by (symmetry; apply take_dirOf; lia).
    rewrite at_lookup in Hnone by done.
    assert (Hdest : forall y d', dest !! y = Some d' -> take (S k) (dirOf d) <> d') by (intros y d' Hy; rewrite Hpre; apply (dest_way store Harr y d' name d); [done|done|lia]).
    assert (Hbak : forall y, take (S k) (dirOf d) <> backup y) by (intros y; rewrite Hpre; apply (store_way store Harr _ name d); [apply backup_root|done|lia]).
    split; [|by apply HK]. apply inProgress_insert; try done. rewrite dirOf_take by (rewrite length_dirOf; lia). done.
  - intros t tmp body Ht [Hp Hk'] Hd Hnone. destruct (temporaryOf_ne _ _ Ht) as [_ Hnil].
    assert (Hdest : forall y d', dest !! y = Some d' -> tmp <> d') by (intros y d'; by apply (temporary_not_dest store Harr d)).
    assert (Hbak : forall y, tmp <> backup y).
    { intros y. apply (temporary_outside store Harr d tmp name); [done|done|]. unfold backup, dirOf. rewrite length_app. cbn [length].
      rewrite Nat.add_sub, take_app_length. apply previous_root. }
    split; [|by apply HK]. apply inProgress_insert; try done. by rewrite (temporary_dir _ _ Ht).
Qed.

Definition published (names : list gostr) (t : tree) : Prop := forall name, name ∈ names -> upToDate t name.
Definition restored (names : list gostr) (t : tree) : Prop := forall name d, name ∈ names -> dest !! name = Some d -> sameFile (t !! d) (t0 !! d).

Section Changed.
Context (changed : list gostr) (Hchanged : forall name, name ∈ changed -> is_Some (dest !! name) /\ is_Some (files !! name)).

Definition publishing (done : list gostr) (t : tree) : Prop := inProgress changed t /\ (backed changed t /\ published done t).
Lemma publish_copy done name p d : name ∈ changed -> files !! name = Some p -> dest !! name = Some d ->
  safe (publishing done) (publishing done) (copyFileAtomic p d) (fun _ => publishing (done ++ [name])).
Proof using Harr Hman Hstart P1.
  intros Hc Hf Hn. assert (Htol : tolerates (publishing done) d).
  { apply (dest_tolerates changed name d _ Hn). intros t x n Hp [Hb Hdone] Hnone Hnd Hnb. split.
    - intros y d' m body Hin Hy E. rewrite bodyAt_insert_ne by auto. by eapply Hb.
    - intros y Hy p' d' Hf' Hd'. rewrite bodyAt_insert_ne by eauto. by eapply Hdone. }
  eapply safe_post; [apply (copyFile_safe _ _ (fun _ => publishing (done ++ [name])) Htol)|by intros ? t (_ & ? & ?)].
  intros t m body q [Hp _] E u [Hu [Hb Hdone]] Hdir Hnd Hnil. apply (stat_source _ name) in E; [|apply (ip_sources _ _ Hp)|done].
  assert (Hbody : bodyAt t0 p = Some body) by (unfold bodyAt; by rewrite E).
  assert (Hip : inProgress changed (<[d := File mode600 body]> u)).
  { apply (inProgress_update changed u name d (Some (File mode600 body))); [done..| |].
    - right. exists p, body. split_and!; [done|done|]. apply lookup_partial_alter_eq.
    - intros m' b E'. left. by apply (Hb name d m'). }
  assert (Hb' : backed changed (<[d := File mode600 body]> u)).
  { intros y d' m' b Hin Hy Ey. rewrite bodyAt_insert_ne by (by apply (dest_not_backup name)). by eapply Hb. }
  assert (Hdone' : published (done ++ [name]) (<[d := File mode600 body]> u)).
  { intros y Hy p' d' Hf' Hd'. destruct (decide (y = name)) as [->|Hne].
    - rewrite Hf in Hf'. rewrite Hn in Hd'. injection Hf' as <-. injection Hd' as <-. unfold bodyAt at 2. by rewrite lookup_insert_eq, Hbody.
    - rewrite bodyAt_insert_ne by (intros ->; by apply Hne, (dest_inj store Harr _ _ d')).
      apply elem_of_app in Hy as [Hy|Hy%list_elem_of_singleton]; [by apply (Hdone y Hy p' d')|done]. }
  split; split; [done|split; [done|]|done|split; done]. intros y Hy. apply Hdone', elem_of_app. by left.
Qed.

Definition restoring_ (done : list gostr) (t : tree) : Prop := inProgress changed t /\ restored done t.
Lemma restored_insert done t x n : restored done t -> (forall y d, dest !! y = Some d -> x <> d) -> restored done (<[x:=n]> t).
Proof. intros H Hnd y d Hin Hy. rewrite lookup_insert_ne by eauto. eauto. Qed.
Lemma restored_update done t name d n : restored done t -> dest !! name = Some d -> sameFile n (t0 !! d) ->
  restored (done ++ [name]) (partial_alter (fun _ => n) d t).
Proof using Harr.
  intros H Hn Hs y d' Hin Hy. destruct (decide (d' = d)) as [->|Hne]; [by rewrite lookup_partial_alter_eq|].
  rewrite lookup_partial_alter_ne by done. apply elem_of_app in Hin as [Hin|Hin%list_elem_of_singleton]; [by apply (H y)|]. subst y. congruence.
Qed.
Lemma restored_app names names' t : restored (names ++ names') t -> restored names t.
Proof. intros H y d Hin. apply H, elem_of_app. by left. Qed.

Lemma rollback_copy done name d m0 old : name ∈ changed -> dest !! name = Some d -> t0 !! d = Some (File m0 old) ->
  safe (restoring_ done) (restoring_ done) (copyFileAtomic (backup name) d) (fun _ => restoring_ (done ++ [name])).
Proof using Harr Hman Hstart P1.
  intros Hc Hn E0. assert (Htol : tolerates (restoring_ done) d).
  { apply (dest_tolerates changed name d _ Hn). intros t x n Hp Hr Hnone Hnd Hnb. by apply restored_insert. }
  eapply safe_post; [apply (copyFile_safe _ _ (fun _ => restoring_ (done ++ [name])) Htol)|by intros ? t (_ & ? & ?)].
  intros t m body q [Hp _] E u [Hu Hr] Hdir Hnd Hnil.
  assert (body = old) as ->.
  { assert (Hsimple : simpleName name) by by eapply arr_simple.
    assert (Ha : t !! backup name = Some (File m body)).
    { apply (stat_node t _ _ q); [apply backup_proper, Hsimple|apply snoc_ne| |done]. intros F.
      destruct (ip_kept _ _ Hp name d m0 old Hn Hc E0) as [Hb|[_ Hb]]; [|congruence]. unfold bodyAt in Hb. by rewrite F in Hb. }
    destruct (ip_kept _ _ Hp name d m0 old Hn Hc E0) as [Hb|[_ Hb]]; [|congruence]. unfold bodyAt in Hb. rewrite Ha in Hb. congruence. }
  assert (Hsame : sameFile (Some (File mode600 old)) (t0 !! d)) by (right; eauto 10).
  assert (Hip : inProgress changed (<[d := File mode600 old]> u)).
  { apply (inProgress_update changed u name d (Some (File mode600 old))); [done..| |intros; by right]. left. by rewrite lookup_partial_alter_eq. }
  pose proof (restored_update done u name d _ Hr Hn Hsame) as Hres. split; split; [done|by eapply restored_app|done|done].
Qed.

Lemma inProgress_absent t name d : inProgress changed t -> dest !! name = Some d -> t0 !! d = None ->
  t !! d = None \/ exists body, t !! d = Some (File mode600 body).
Proof.
  intros Hp Hn E. destruct (ip_dest _ _ Hp name d Hn) as [[H|(m & m' & b & H & F)]|(p & body & _ & _ & H)]; [left; congruence|congruence|eauto].
Qed.
Lemma rollback_remove done name d : name ∈ changed -> dest !! name = Some d -> t0 !! d = None ->
  safe (restoring_ done) (restoring_ done) (attempt (Remove d))
    (fun r t => match r with inr Err => restoring_ done t | _ => restoring_ (done ++ [name]) t end).
Proof using Harr Hman.
  intros Hc Hn E0 w w' r E [Hp Hr]. unfold attempt, Remove, change, bind, fault in E. cbn in E.
  assert (Hsame : sameFile None (t0 !! d)) by (rewrite E0; apply sameFile_refl).
  destruct (default false _); cbn in E; [injection E as <- <-; cbn; split; [exists []; by rewrite app_nil_r|done]|].
  destruct (inProgress_absent _ name d Hp Hn E0) as [Hd|[body Hd]]; rewrite Hd in E; injection E as <- <-; cbn.
  - split; [exists []; by rewrite app_nil_r|]. split; [done|]. intros y d' Hin Hy.
    apply elem_of_app in Hin as [Hin|Hin%list_elem_of_singleton]; [by apply (Hr y)|]. subst y. rewrite Hn in Hy. injection Hy as <-. by rewrite Hd.
  - assert (Hnil : d <> []) by by eapply dest_some.
    assert (Hdir : at_ (w_tree w) (dirOf d) = Some Dir).
    { unfold dirOf. apply (ip_ways _ _ Hp name d Hn (length d)); [destruct d; [done|cbn; lia]|done|]. rewrite firstn_all, at_lookup by done. congruence. }
    assert (Hip : inProgress changed (delete d (w_tree w))).
    { apply (inProgress_update changed _ name d None); [done..| |intros; congruence]. left. rewrite lookup_partial_alter_eq. done. }
    pose proof (restored_update done _ name d None Hr Hn Hsame) as Hres.
    split; [eexists; split; [done|]; constructor; [|done]|]; (split; [done|]); [by eapply restored_app|done].
Qed.

Context (receipt : ActivationReceipt) (Hcand : ar_candidate receipt = candidate) (Hprev : ar_previous receipt = previousDir)
  (Hnames : ar_changed receipt = changed) (Hrec : recorded (ar_previousPresent receipt) changed).

Lemma rollbackArtifacts_safe names : forall done failures, names ⊆ changed ->
  safe (inProgress changed) (fun t => inProgress changed t /\ (failures = false -> restored done t)) (rollbackArtifacts store receipt names failures)
    (fun failed t => inProgress changed t /\ (failed = false -> restored (done ++ names) t)).
Proof using Harr Hman Hstart P1 Hchanged Hprev Hrec.
  induction names as [|name names IH]; intros done failures Hsub; cbn [rollbackArtifacts].
  { apply safe_ret. intros t. by rewrite app_nil_r. }
  assert (Hc : name ∈ changed) by (apply Hsub; by left). destruct (Hchanged name Hc) as [[d Hn] _].
  eapply safe_bind with (R := fun failed t => inProgress changed t /\ (failures || failed = false -> restored (done ++ [name]) t)).
  2: { intros failed. eapply safe_post; [apply IH; intros x Hx; apply Hsub; by right|]. intros ? t. by rewrite <- app_assoc. }
  unfold rollbackArtifact, isPresent. rewrite Hn, Hprev. destruct (default false (ar_previousPresent receipt !! name)) eqn:Ep.
  - destruct (proj1 Hrec name d Ep Hn) as (m & old & E0). rewrite Join_simple by (by eapply arr_simple).
    set (keep := if failures then [] else done).
    eapply safe_bind with (R := fun r t => match r with inl _ => restoring_ (keep ++ [name]) t | inr _ => restoring_ keep t end).
    { eapply safe_inv; [eapply safe_pre; [eapply safe_attempt, (rollback_copy keep name d m old); done|]|by intros t []].
      intros t [Hp Hr]. split; [done|]. unfold keep. destruct failures; [by intros ? ? []%elem_of_nil|auto]. }
    intros [[]|e]; apply safe_ret; intros t [Hp Hr]; (split; [done|]); unfold keep in Hr; destruct failures; done.
  - pose proof (proj2 Hrec name d Hc Hn Ep) as E0. set (keep := if failures then [] else done).
    eapply safe_bind with (R := fun r t => match r with inr Err => restoring_ keep t | _ => restoring_ (keep ++ [name]) t end).
    { eapply safe_inv; [eapply safe_pre; [apply (rollback_remove keep name d); done|]|by intros t []].
      intros t [Hp Hr]. split; [done|]. unfold keep. destruct failures; [by intros ? ? []%elem_of_nil|auto]. }
    intros [[]|[]]; apply safe_ret; intros t [Hp Hr]; (split; [done|]); unfold keep in Hr; destruct failures; done.
Qed.
Lemma rollbackLocked_safe : safe (inProgress changed) (inProgress changed) (rollbackLocked store receipt) (fun _ t => inProgress changed t /\ restored changed t).
Proof using Harr Hman Hstart P1 Hchanged Hcand Hprev Hnames Hrec.
  unfold rollbackLocked. rewrite Hnames, Hprev, Hcand.
  eapply safe_bind; [eapply safe_pre; [apply (rollbackArtifacts_safe changed []); done|]|].
  { intros t Hp. split; [done|]. by intros _ ? ? []%elem_of_nil. }
  intros failed. cbn [app]. apply safe_if; intros ->; [apply safe_fail; by intros t []|].
  eapply safe_weaken with (P := fun t => inProgress changed t /\ restored changed t); [apply (removeManagedTree_safe (inProgress changed))|done| |].
  - by intros t [].
  - intros x t Hx [Hp Hr]. destruct (inProgress_delete changed t x Hx) as [H1 H2]; [split; [done|]; intros; by apply (Hr name)|].
    split; [done|]. intros y d Hin Hy. by apply (H2 y).
  - intros t [Hp Hr]. auto.
  - intros ? t H. exact H.
Qed.
End Changed.

(** *** Activation *)

(** What a receipt stands for. *)
Record issued (receipt : ActivationReceipt) : Prop := {
  is_candidate : ar_candidate receipt = candidate;
  is_previous : ar_previous receipt = previousDir;
  is_changed name : name ∈ ar_changed receipt -> is_Some (dest !! name) /\ is_Some (files !! name);
  is_recorded : recorded (ar_previousPresent receipt) (ar_changed receipt) }.
(** The state after a successful activation. *)
Definition activated (receipt : ActivationReceipt) (t : tree) : Prop :=
  issued receipt /\ inProgress (ar_changed receipt) t /\ forall name, is_Some (files !! name) -> upToDate t name.

Lemma untouched_start : untouched t0.
Proof using Hstart. split; [done|done|apply Hstart]. Qed.
Lemma untouched_inProgress changed t : untouched t -> backed changed t -> inProgress changed t.
Proof.
  intros [Hd Hs Hw] Hb. split; [| | |done|done].
  - intros name d Hn. left. rewrite (Hd name d Hn). apply sameFile_refl.
  - intros name d Hn _. by apply (Hd name).
  - intros name d m body Hn Hc E. left. by eapply Hb.
Qed.

Lemma publish_safe receipt : issued receipt ->
  safe crashSafe (publishing (ar_changed receipt) []) (forEach (publishArtifact store receipt) (ar_changed receipt))
    (fun _ => publishing (ar_changed receipt) (ar_changed receipt)).
Proof using Harr Hman Hstart P1.
  intros [Hc Hp Hch Hrec]. apply (safe_forEach _ _ (publishing (ar_changed receipt)) (ar_changed receipt) []).
  intros done name Hin. destruct (Hch name Hin) as [[d Hn] [p Hf]]. unfold publishArtifact, pathAt. rewrite Hc, Hf, Hn. cbn [default].
  assert (Hcrash : forall done t, publishing (ar_changed receipt) done t -> crashSafe t) by (intros done' t [H _]; by eapply inProgress_crashSafe).
  eapply safe_bind; [eapply safe_inv; [apply safe_attempt, (publish_copy (ar_changed receipt) done name p d); done|apply Hcrash]|].
  intros [u|e]; [by apply safe_ret|].
  eapply safe_bind with (R := fun _ => crashSafe); [|intros ?; by apply safe_fail].
  eapply safe_weaken with (P := inProgress (ar_changed receipt)).
  - apply safe_attempt, (rollbackLocked_safe (ar_changed receipt) Hch receipt Hc Hp eq_refl Hrec).
  - intros t. apply inProgress_crashSafe.
  - by intros t [].
  - intros [?|?] t H; [apply (inProgress_crashSafe (ar_changed receipt)), H|by eapply inProgress_crashSafe].
Qed.

Lemma activate_changed_safe changed : (forall name, name ∈ changed -> is_Some (dest !! name) /\ is_Some (files !! name)) ->
  (forall name, is_Some (files !! name) -> name ∈ changed \/ upToDate t0 name) ->
  safe crashSafe untouched
    (removeManagedTree dir previousDir ;; mkdirAll previousDir ;;
     let* present := backUp store previousDir changed ∅ in
     forEach (publishArtifact store (Receipt candidate previousDir present changed)) changed ;; ret (Receipt candidate previousDir present changed))
    activated.
Proof using Harr Hman Hstart P1.
  intros Hch Hrest. eapply safe_bind; [eapply safe_inv; [apply (removeManagedTree_safe untouched untouched); [done|intros x t; apply untouched_delete]|apply untouched_crashSafe]|].
  intros ?. cbn beta. eapply safe_bind; [eapply safe_inv; [apply previous_mkdir|apply untouched_crashSafe]|]. intros ?. cbn beta.
  eapply safe_bind.
  { eapply safe_inv; [eapply safe_pre; [apply (backUp_safe changed [] ∅)|]|apply untouched_crashSafe].
    - intros name Hin. by apply Hch.
    - split; [intros name d Hx; by rewrite lookup_empty in Hx|]. by intros name d []%elem_of_nil.
    - intros t Hu. split; [done|]. by intros name d m body []%elem_of_nil. }
  intros present. cbn [app]. apply safe_assume. intros Hrec. set (receipt := Receipt candidate previousDir present changed).
  assert (Hissued : issued receipt) by (split; done).
  eapply safe_bind; [eapply safe_pre; [apply (publish_safe receipt Hissued)|]|].
  { intros t [Hu Hb]. split; [by apply untouched_inProgress|]. split; [done|]. by intros name []%elem_of_nil. }
  intros ?. apply safe_ret. intros t [Hp [_ Hpub]]. split; [done|]. split; [done|]. intros name Hname.
  destruct (Hrest name Hname) as [Hin|Hsame]; [by apply Hpub|]. intros p d Hf Hn. destruct (decide (name ∈ changed)) as [Hin|Hout]; [by apply (Hpub name)|].
  destruct (Hsame p d Hf Hn) as [H1 H2]. split; [done|]. rewrite <- H2. unfold bodyAt. by rewrite (ip_rest _ _ Hp name d Hn Hout).
Qed.
End Activation.

(** ** The theorems *)

Lemma sortedKeys_elem {A} (m : gmap gostr A) name : name ∈ sortedKeys m <-> is_Some (m !! name).
Proof.
  unfold sortedKeys, sort_strings. rewrite sort_stable_elem, list_elem_of_fmap. split.
  - intros ([k a] & -> & H%elem_of_map_to_list). by exists a.
  - intros [a H]. exists (name, a). by rewrite elem_of_map_to_list.
Qed.
Lemma forEach_all {A : Type} (f : A -> M unit) l : forall w w', forEach f l w = (w', inl tt) -> forall x, x ∈ l -> exists w1 w2, f x w1 = (w2, inl tt).
Proof.
  induction l as [|y l IH]; intros w w' H x Hx; [by apply elem_of_nil in Hx|]. cbn in H. unfold bind in H.
  destruct (f y w) as [w1 [[]|]] eqn:E; [|done]. apply elem_of_cons in Hx as [->|Hx]; [eauto|by eapply IH].
Qed.
Lemma artifact_simple c s : is_digit09 c || is_lower c = true -> forallb is_artifact_byte s = true -> simpleName (c :: s).
Proof.
  intros Hc Hs. assert (Hdot : c <> x2e) by (intros ->; discriminate Hc). split_and!.
  - apply Split_plain. intros Hin. apply elem_of_cons in Hin as [<-|Hin]; [discriminate Hc|].
    rewrite forallb_forall in Hs. specialize (Hs sep). rewrite <- list_elem_of_In in Hs. specialize (Hs Hin). discriminate Hs.
  - split_and!; [done|intros [= ->]; done|intros [= -> ]; done].
  - cbn. congruence.
Qed.
Lemma hex_artifact b : is_hex b = true -> is_digit09 b || is_lower b = true.
Proof. unfold is_hex, is_lower, in_range. intros H. apply orb_true_iff in H as [H|H]; [by rewrite H|]. apply orb_true_iff. right. apply andb_true_iff in H as [H1 H2]. lia. Qed.
Lemma revision_simple s : MatchString candidateRevisionPattern s = true -> simpleName s.
Proof.
  intros H. apply full_match in H as [p H]. apply match_rep in H as (u & -> & Hl & Hf & _). rewrite app_nil_r.
  destruct u as [|c u]; [done|]. cbn in Hf. apply andb_true_iff in Hf as [Hc Hf]. apply artifact_simple; [by apply hex_artifact|].
  rewrite forallb_forall in Hf |- *. intros b Hb. specialize (Hf b Hb). unfold is_artifact_byte. by rewrite hex_artifact.
Qed.

Section Theorems.
Context {P0 : Platform} {P1 : PlatformLaws} (store : CandidateStore) (Harr : arranged store).

Lemma validate_managed candidate w w' : validateCandidate store candidate w = (w', inl tt) -> managed store candidate.
Proof using Harr.
  unfold validateCandidate. destruct (MatchString _ _) eqn:Hr; cbn [negb]; [|done]. case_bool_decide as Hd; cbn [negb]; [|done].
  apply revision_simple in Hr. rewrite Join_simple in Hd by done. intros H. split_and!; [done|done|]. intros name p Hf.
  destruct (forEach_all _ _ _ _ H name) as (w1 & w2 & E). { apply sortedKeys_elem. by exists p. }
  unfold validateArtifact, pathAt in E. rewrite Hf in E. cbn [default] in E. case_bool_decide as Hn; cbn [negb orb] in E; [|done].
  case_bool_decide as Hp; cbn [negb orb] in E; [|done]. split; [done|]. destruct Hn as [d Hn].
  rewrite (Join_simple _ name) in Hp by (by eapply arr_simple). rewrite Join_simple, <- Hd in Hp by done. done.
Qed.

(** The trees a program passed through between two worlds, with the last one. *)
Definition passed (w w' : world) : list tree := drop (length (w_history w)) (w_history w') ++ [w_tree w'].
Lemma safe_passed {A : Type} (I P : tree -> Prop) (m : M A) Q w w' r : safe I P m Q -> m w = (w', r) -> P (w_tree w) ->
  (forall a t, Q a t -> I t) -> Forall I (passed w w') /\ match r with inl a => Q a (w_tree w') | inr _ => True end.
Proof.
  intros Hs E Hp Hq. destruct (Hs _ _ _ E Hp) as ((new & En & Fn) & Hr). unfold passed. rewrite En, drop_app_length.
  split; [|by destruct r]. apply Forall_app. split; [done|]. apply Forall_singleton. destruct r; eauto.
Qed.

Lemma ActivateAfter_safe candidate validate t0 : startable store candidate t0 -> (forall f l, validate = Some f -> readOnly (f l)) ->
  safe (crashSafe store candidate t0) (fun t => t = t0) (ActivateAfter store candidate validate) (fun r t => managed store candidate /\ activated store candidate t0 r t).
Proof using Harr P1.
  intros Hstart Hval. assert (Huc : forall t, t = t0 -> crashSafe store candidate t0 t).
  { intros t ->. by apply untouched_crashSafe, untouched_start. }
  unfold ActivateAfter. eapply safe_bind with (R := fun _ t => t = t0 /\ managed store candidate).
  { intros w w' r E Hw. destruct (readOnly_validateCandidate _ _ _ _ _ E) as [Et Eh]. rewrite Et, Eh. split; [exists []; by rewrite app_nil_r|].
    destruct r as [[]|]; [|by apply Huc]. split; [done|]. by eapply validate_managed. }
  intros ?. apply safe_assume. intros Hman. rewrite Join_previous. fold (previousDir candidate).
  eapply safe_bind with (R := fun changed t => t = t0 /\ (forall name, is_Some (rc_Files candidate !! name) -> name ∈ changed \/ upToDate store candidate t0 t0 name) /\
    forall name, name ∈ changed -> is_Some (rc_Files candidate !! name)).
  { intros w w' r E Hw. destruct (readOnly_changedArtifacts _ _ _ _ _ _ _ E) as [Et Eh]. rewrite Et, Eh. split; [exists []; by rewrite app_nil_r|].
    destruct r as [changed|]; [|by apply Huc]. split; [done|].
    apply (changedArtifacts_result store Harr candidate Hman t0 Hstart) in E as (H1 & _ & H3); [|rewrite Hw; by apply untouched_start].
    split; intros name Hname; [apply H1; by apply sortedKeys_elem|]. destruct (H3 name Hname) as [[]%elem_of_nil|H]. by apply sortedKeys_elem in H. }
  intros changed. apply safe_assume. intros [Hrest Hch].
  assert (Hch' : forall name, name ∈ changed -> is_Some (cs_destinations store !! name) /\ is_Some (rc_Files candidate !! name)).
  { intros name Hin. destruct (Hch name Hin) as [p Hp]. split; [|by exists p]. destruct Hman as (_ & _ & H). by destruct (H name p Hp). }
  apply safe_if; intros Hc.
  - apply bool_decide_eq_true in Hc. subst changed. apply safe_ret. intros t ->. split; [done|]. split; [|split].
    + split; [done|done|by intros ? []%elem_of_nil|]. split; cbn; [intros name d Hx; by rewrite lookup_empty in Hx|by intros ? ? []%elem_of_nil].
    + apply untouched_inProgress; [by apply untouched_start|]. by intros ? ? ? ? []%elem_of_nil.
    + intros name Hname. by destruct (Hrest name Hname) as [[]%elem_of_nil|].
  - eapply safe_bind with (R := fun _ t => t = t0).
    { apply safe_readOnly; [|exact Huc]. destruct validate as [f|]; [by apply (Hval f)|apply readOnly_ret]. }
    intros ?. eapply safe_weaken with (Q := fun r t => activated store candidate t0 r t); [by apply activate_changed_safe|done| |done].
    intros t ->. by apply untouched_start.
Qed.
End Theorems.
