(* ===== verification/CandidatePrepare.v ===== *)
(** * Candidates: construction, preparation and commit

    What [NewCandidateStore] establishes; [Prepare] and [Load]: a candidate's
    directory appears complete or not at all, and what is loaded has the digests of
    its manifest; and [CommitLastKnownGood]. *)

From Stdlib Require Import String.
From S2P Require Import Prelude GoBase GoSort GoText GoRegexp GoPath Recovery RecoverySafety CandidateStore CandidateSafety.
Open Scope Z_scope.
Open Scope io_scope.

(** ** Construction *)

Lemma match_rep_more n f : forall p s p' s', Matches (rep_more n (Class f)) p s p' s' -> exists u, s = u ++ s' /\ forallb f u = true.
Proof.
  induction n as [|n IH]; intros p s p' s'; cbn [rep_more].
  - inversion 1; subst. by exists [].
  - unfold opt. inversion 1 as [| | |? ? ? ? ? ? Ha|? ? ? ? ? ? Ha| | | | |]; subst; [|inversion Ha; subst; by exists []].
    inversion Ha as [| |? ? ? ? ? ? ? ? Hb Hc| | | | | | |]; subst. inversion Hb as [|? ? c| | | | | | | |]; subst.
    apply IH in Hc as (u & -> & Hu). exists (c :: u). split; [done|]. cbn. by apply andb_true_iff.
Qed.
Lemma match_name n g f p s p' s' : Matches (Cat (Class g) (rep_more n (Class f))) p s p' s' ->
  exists c u, s = c :: u ++ s' /\ g c = true /\ forallb f u = true.
Proof.
  inversion 1 as [| |? ? ? ? ? ? ? ? Ha Hb| | | | | | |]; subst. inversion Ha as [|? ? c| | | | | | | |]; subst.
  apply match_rep_more in Hb as (u & -> & Hu). by exists c, u.
Qed.
Lemma artifactName_simple name : MatchString candidateArtifactPattern name = true -> simpleName name.
Proof.
  intros H. apply full_match in H as [p H]. apply match_name in H as (c & u & -> & Hc & Hu). rewrite app_nil_r. by apply artifact_simple.
Qed.

(** A store as its constructor promises it. *)
Record wellBuilt (given : gmap gostr gostr) (store : CandidateStore) : Prop := {
  wb_names : dom (cs_destinations store) = dom given;
  wb_simple name d : cs_destinations store !! name = Some d -> simpleName name /\ name <> bs "manifest.json";
  wb_proper name d : cs_destinations store !! name = Some d -> Forall proper d;
  wb_outside name d : cs_destinations store !! name = Some d -> ~ cs_root store `prefix_of` d;
  wb_distinct name name' d : cs_destinations store !! name = Some d -> cs_destinations store !! name' = Some d -> name = name';
  wb_root : Forall proper (cs_root store) /\ Forall proper (cs_lkg store) /\ ~ cs_root store `prefix_of` cs_lkg store /\ ~ cs_lkg store `prefix_of` cs_root store }.

Definition accepted (root : path) (seen : gmap path gostr) (normalized : gmap gostr path) : Prop :=
  forall name d, normalized !! name = Some d ->
    seen !! d = Some name /\ simpleName name /\ name <> bs "manifest.json" /\ Forall proper d /\ ~ root `prefix_of` d.

Lemma addDestinations_spec root l : forall seen normalized w w' r, (forall c, w_cwd w = Some c -> Forall proper c) -> accepted root seen normalized ->
  addDestinations root l seen normalized w = (w', inl r) ->
  w' = w /\ (exists seen', accepted root seen' r) /\ dom r = dom normalized ∪ list_to_set l.*1.
Proof.
  induction l as [|[name destination] l IH]; intros seen normalized w w' r Hcwd Hacc; cbn [addDestinations].
  { intros [= <- <-]. split_and!; [done|eauto|]. cbn. by rewrite (right_id_L ∅ (∪)). }
  destruct (MatchString _ name) eqn:Hm; cbn [negb orb]; [|done]. case_bool_decide as Hbase; cbn [negb orb]; [|done].
  case_bool_decide as Hman; [done|]. case_bool_decide as Hempty; [done|]. unfold bind. rewrite cleanRoot_path.
  destruct (rootPath (w_cwd w) destination) as [d|] eqn:Ed; [|done]. apply rootPath_proper in Ed; [|done].
  unfold pathWithin, relTo. case_bool_decide as Hout; [done|]. case_bool_decide as Hseen; [done|].
  intros H. apply IH in H as (-> & Hacc' & Hdom); [|done|].
  - split_and!; [done|done|]. rewrite Hdom, dom_insert_L. cbn. set_solver.
  - intros name' d'. destruct (decide (name' = name)) as [->|Hne].
    + rewrite lookup_insert_eq. intros [= <-]. split_and!; [by rewrite lookup_insert_eq|by apply artifactName_simple|done|done|done].
    + rewrite lookup_insert_ne by done. intros Hn. destruct (Hacc name' d' Hn) as (Hs & Hrest). split; [|done].
      rewrite lookup_insert_ne; [done|]. intros ->. apply Hseen. by exists name'.
Qed.

(** C10: A store that was constructed is well formed.  Whenever [NewCandidateStore]
    succeeds, every given artifact has a destination; names are plain file names
    that cannot be mistaken for the manifest; destinations are clean absolute paths
    outside the candidates' directory, one for each artifact; and the
    last-known-good directory and the candidates' directory do not contain one
    another.  It looks at no file. *)
Theorem NewCandidateStore_wellBuilt stateRoot destinations w w' store
    (Hcwd : forall c, w_cwd w = Some c -> Forall proper c)
    (H : NewCandidateStore stateRoot destinations w = (w', inl store)) :
  w' = w /\ wellBuilt destinations store.
Proof.
  unfold NewCandidateStore in H. unfold bind at 1 in H. rewrite cleanRoot_path in H.
  destruct (rootPath (w_cwd w) stateRoot) as [s|] eqn:Es; [|done]. apply rootPath_proper in Es; [|done].
  case_bool_decide as Hempty; [done|]. unfold bind in H. destruct (addDestinations _ _ _ _ w) as [w1 [m|e]] eqn:E; [|done]. injection H as <- <-.
  apply addDestinations_spec in E as (-> & (seen & Hacc) & Hdom); [|done|by intros ? ?]. split; [done|]. split; cbn.
  - rewrite Hdom, dom_empty_L, (left_id_L ∅ (∪)), <- dom_list_to_map_L. by rewrite list_to_map_to_list.
  - intros name d Hn. by destruct (Hacc name d Hn) as (_ & ? & ? & _).
  - intros name d Hn. by destruct (Hacc name d Hn) as (_ & _ & _ & ? & _).
  - intros name d Hn. by destruct (Hacc name d Hn) as (_ & _ & _ & _ & ?).
  - intros name name' d Hn Hn'. destruct (Hacc name d Hn) as (E1 & _), (Hacc name' d Hn') as (E2 & _). congruence.
  - assert (Hne : forall a b (q : list gostr), s ++ [a] `prefix_of` s ++ b :: q -> a = b).
    { intros a b q [k Hk]. rewrite <- app_assoc in Hk. apply app_inv_head in Hk. by injection Hk. }
    split_and!; [apply Forall_app; split; [done|]; by_decide|apply Forall_app; split; [done|]; by_decide|intros F; apply Hne in F; discriminate F..].
Qed.

(** ** Moving a directory *)

Lemma emptyDir_spec t q : emptyDir t q = true -> forall y, y <> [] -> t !! (q ++ y) = None.
Proof.
  unfold emptyDir. rewrite forallb_forall. intros H y Hy. destruct (t !! (q ++ y)) as [n|] eqn:E; [|done]. exfalso.
  specialize (H (q ++ y)). rewrite <- list_elem_of_In in H. assert (Hin : q ++ y ∈ (map_to_list t).*1).
  { apply list_elem_of_fmap. exists (q ++ y, n). split; [done|]. by apply elem_of_map_to_list. }
  specialize (H Hin). apply orb_true_iff in H as [H|H].
  - apply bool_decide_eq_true in H. apply Hy. apply (app_inv_head q). by rewrite app_nil_r.
  - apply negb_true_iff, bool_decide_eq_false in H. apply H. by exists y.
Qed.
Lemma movedPath_below p q y : movedPath p q (p ++ y) = q ++ y.
Proof. unfold movedPath. rewrite bool_decide_true by by exists y. by rewrite drop_app_length. Qed.
Lemma movedPath_other p q x : ~ p `prefix_of` x -> movedPath p q x = x.
Proof. intros H. unfold movedPath. by rewrite bool_decide_false. Qed.

Section Move.
Context (p q : path) (t : tree) (Hempty : emptyDir t q = true).

Lemma moved_source k n : delete q t !! k = Some n -> ~ q `prefix_of` k.
Proof using Hempty.
  intros E [y ->]. destruct (decide (y = [])) as [->|Hy]; [by rewrite app_nil_r, lookup_delete_eq in E|].
  rewrite lookup_delete_ne in E by (intros F; apply Hy; apply (app_inv_head q); by rewrite app_nil_r). by rewrite emptyDir_spec in E.
Qed.
Lemma moved_nodup : NoDup ((fun e => (movedPath p q e.1, e.2)) <$> map_to_list (delete q t)).*1.
Proof using Hempty.
  rewrite <- list_fmap_compose. apply NoDup_fmap_2_strong; [|apply NoDup_map_to_list].
  intros [k n] [k' n'] H H' E. apply elem_of_map_to_list in H, H'. cbn in E. assert (k = k') as ->; [|congruence].
  pose proof (moved_source _ _ H) as Hk. pose proof (moved_source _ _ H') as Hk'.
  destruct (decide (p `prefix_of` k)) as [[y ->]|Hp], (decide (p `prefix_of` k')) as [[y' ->]|Hp'].
  - rewrite !movedPath_below in E. by apply app_inv_head in E as ->.
  - rewrite movedPath_below, movedPath_other in E by done. exfalso. apply Hk'. exists y. done.
  - rewrite movedPath_below, movedPath_other in E by done. exfalso. apply Hk. exists y'. done.
  - by rewrite !movedPath_other in E.
Qed.
Lemma moveTree_Some x n : moveTree p q t !! x = Some n <-> exists k, delete q t !! k = Some n /\ x = movedPath p q k.
Proof using Hempty.
  unfold moveTree. rewrite <- elem_of_list_to_map by apply moved_nodup. rewrite list_elem_of_fmap. split.
  - intros ([k m] & E & H). apply elem_of_map_to_list in H. cbn in E. injection E as -> ->. eauto.
  - intros (k & H & ->). exists (k, n). by rewrite elem_of_map_to_list.
Qed.
(** What was below [p] is below [q], nothing is left at [p], the rest stays. *)
Lemma moveTree_target y : ~ p `prefix_of` q -> ~ q `prefix_of` p -> moveTree p q t !! (q ++ y) = t !! (p ++ y).
Proof using Hempty.
  intros Hpq Hqp. apply option_eq. intros n. rewrite moveTree_Some. split.
  - intros (k & H & E). destruct (decide (p `prefix_of` k)) as [[z ->]|Hp].
    + rewrite movedPath_below in E. apply app_inv_head in E as ->. rewrite lookup_delete_ne in H; [done|]. intros ->. apply Hpq. by exists z.
    + rewrite movedPath_other in E by done. subst k. exfalso. apply (moved_source _ _ H). by exists y.
  - intros H. exists (p ++ y). rewrite movedPath_below, lookup_delete_ne; [done|]. intros ->. apply Hpq. by exists y.
Qed.
Lemma moveTree_source x : p `prefix_of` x -> ~ q `prefix_of` x -> moveTree p q t !! x = None.
Proof using Hempty.
  intros Hp Hq. destruct (moveTree p q t !! x) as [n|] eqn:E; [|done]. apply moveTree_Some in E as (k & H & ->). exfalso.
  destruct (decide (p `prefix_of` k)) as [[z ->]|Hk]; [apply Hq; rewrite movedPath_below; by exists z|]. by rewrite movedPath_other in Hp.
Qed.
Lemma moveTree_rest x : ~ p `prefix_of` x -> ~ q `prefix_of` x -> moveTree p q t !! x = t !! x.
Proof using Hempty.
  intros Hp Hq. apply option_eq. intros n. rewrite moveTree_Some. split.
  - intros (k & H & ->). destruct (decide (p `prefix_of` k)) as [[z ->]|Hk]; [exfalso; apply Hq; rewrite movedPath_below; by exists z|].
    rewrite movedPath_other in Hq |- * by done. rewrite lookup_delete_ne in H; [done|]. intros ->. by apply Hq.
  - intros H. exists x. rewrite movedPath_other, lookup_delete_ne; [done| |done]. intros ->. by apply Hq.
Qed.
End Move.

(** ** Subtrees *)

(** The subtree at a path. *)
Definition sub (p : path) (s : path -> option node) (t : tree) : Prop := forall y, t !! (p ++ y) = s y.
Definition nothing (y : path) : option node := None.
(** A directory with these files and nothing else. *)
Definition filled (files : gmap gostr gostr) (y : path) : option node :=
  match y with [] => Some Dir | [n] => File mode600 <$> files !! n | _ => None end.

Lemma sub_insert p s t x n : sub p s t -> ~ p `prefix_of` x -> sub p s (<[x:=n]> t).
Proof. intros H Hx y. rewrite lookup_insert_ne; [apply H|]. intros ->. apply Hx. by exists y. Qed.
Lemma sub_delete p s t x : sub p s t -> ~ p `prefix_of` x -> sub p s (delete x t).
Proof. intros H Hx y. rewrite lookup_delete_ne; [apply H|]. intros ->. apply Hx. by exists y. Qed.
Lemma sub_move p q r s t : emptyDir t q = true -> sub r s t -> (forall y, ~ p `prefix_of` r ++ y) -> (forall y, ~ q `prefix_of` r ++ y) -> sub r s (moveTree p q t).
Proof. intros He H Hp Hq y. rewrite moveTree_rest by done. apply H. Qed.

(** Siblings have nothing in common. *)
Lemma sibling_prefix (r : path) a b y : a <> b -> ~ r ++ [a] `prefix_of` (r ++ [b]) ++ y.
Proof. intros Hn [z E]. rewrite <- !app_assoc in E. apply app_inv_head in E. by injection E as -> _. Qed.
Lemma sibling_below (r : path) a b x : a <> b -> r ++ [a] `prefix_of` x -> ~ r ++ [b] `prefix_of` x.
Proof. intros Hn [y ->] H. by apply (sibling_prefix r b a y (not_eq_sym Hn)) in H. Qed.

(** ** Loading *)

Lemma forEach_readOnly {A : Type} (f : A -> M unit) l : (forall x, readOnly (f x)) -> forall w w', forEach f l w = (w', inl tt) ->
  forall x, x ∈ l -> exists w1 w2, w_tree w1 = w_tree w /\ f x w1 = (w2, inl tt).
Proof.
  intros Hf. induction l as [|y l IH]; intros w w' H x Hx; [by apply elem_of_nil in Hx|]. cbn in H. unfold bind in H.
  destruct (f y w) as [w1 [[]|]] eqn:E; [|done]. apply elem_of_cons in Hx as [->|Hx]; [eauto|].
  destruct (Hf _ _ _ _ E) as [Et _]. destruct (IH _ _ H x Hx) as (w2 & w3 & E2 & H2). exists w2, w3. split; [congruence|done].
Qed.
Lemma bind_inl {A B : Type} (m : M A) (k : A -> M B) w w' b : bind m k w = (w', inl b) -> exists w1 a, m w = (w1, inl a) /\ k a w1 = (w', inl b).
Proof. unfold bind. destruct (m w) as [w1 [a|e]]; [eauto|done]. Qed.
Lemma Lstat_found_ l w w1 n x : Forall proper l -> Lstat l w = (w1, inl (Found n x)) -> w_tree w1 = w_tree w /\ at_ (w_tree w) l = Some n.
Proof.
  intros Hp E. split; [by apply (readOnly_Lstat _ _ _ _ E)|]. unfold Lstat, bind, fault, ret in E. destruct (default false _); [done|].
  injection E as _ E. by eapply lstat_found.
Qed.

Section Loading.
Context {P0 : Platform} (store : CandidateStore) (given : gmap gostr gostr) (Hwb : wellBuilt given store).
Local Abbreviation dest := (cs_destinations store).

Lemma readOnly_hash p limit : readOnly (hashRegularFile p limit).
Proof.
  apply readOnly_bind; [apply readOnly_Open|]. intros n. apply readOnly_bind; [apply readOnly_look|]. intros ?.
  destruct n; try apply readOnly_fail. destruct (_ <? _); [apply readOnly_fail|apply readOnly_look].
Qed.
Lemma readOnly_verify directory manifest rendered name : readOnly (verifyArtifact directory manifest rendered name).
Proof.
  unfold verifyArtifact. destruct (_ !! name); [|apply readOnly_fail]. destruct (negb _); [apply readOnly_fail|].
  destruct (match rendered with Some _ => _ | None => _ end); [apply readOnly_fail|]. apply readOnly_bind; [apply readOnly_Lstat|].
  intros [[]| |]; try apply readOnly_fail. apply readOnly_bind; [apply readOnly_hash|]. intros ?. destruct (negb _); [apply readOnly_fail|apply readOnly_ret].
Qed.
Lemma readOnly_loadLocked revision rendered : readOnly (loadLocked store revision rendered).
Proof.
  unfold loadLocked. destruct (negb _); [apply readOnly_fail|]. apply readOnly_bind; [apply readOnly_Lstat|].
  intros [[]| |]; try apply readOnly_fail. apply readOnly_bind; [apply readOnly_Lstat|]. intros [[]| |]; try apply readOnly_fail.
  apply readOnly_bind; [apply readOnly_Open|]. intros file. apply readOnly_bind; [apply readOnly_look|]. intros ?.
  destruct file; try apply readOnly_fail. destruct (_ <? _); [apply readOnly_fail|]. apply readOnly_bind; [apply readOnly_look|]. intros ?.
  destruct (unmarshalManifest _); [|apply readOnly_fail]. apply readOnly_bind; [apply readOnly_look|]. intros ?.
  destruct (_ || _); [apply readOnly_fail|]. apply readOnly_bind; [apply readOnly_forEach; intros; apply readOnly_verify|]. intros ?. apply readOnly_ret.
Qed.

Lemma Open_regular p m body w w' n : Forall proper p -> p <> [] -> w_tree w !! p = Some (File m body) -> Open p w = (w', inl n) -> n = File m body.
Proof.
  intros Hp Hn E H. apply Open_result in H as [q H]. apply stat_node in H; [congruence|done|done|congruence].
Qed.
Lemma hash_result p m body limit w w' h : Forall proper p -> p <> [] -> w_tree w !! p = Some (File m body) ->
  hashRegularFile p limit w = (w', inl h) -> h = hexSHA256 body.
Proof.
  intros Hp Hn E H. unfold hashRegularFile in H. apply bind_inl in H as (w1 & n & Ho & H). apply (Open_regular p m body) in Ho as ->; [|done..].
  apply bind_inl in H as (w2 & u & _ & H). destruct (_ <? _); [done|]. apply look_result in H as [H|H]; [done|]. by injection H.
Qed.
Lemma verify_result directory manifest rendered name w w' : Forall proper directory -> simpleName name ->
  verifyArtifact directory manifest rendered name w = (w', inl tt) ->
  exists m body, w_tree w !! (directory ++ [name]) = Some (File m body) /\ cm_Artifacts manifest !! name = Some (hexSHA256 body) /\
    forall digests, rendered = Some digests -> default [] (digests !! name) = hexSHA256 body.
Proof.
  intros Hd Hs H. unfold verifyArtifact in H. destruct (cm_Artifacts manifest !! name) as [expected|] eqn:Ee; [|done].
  destruct (negb (MatchString _ _)); [done|]. destruct (match rendered with Some _ => _ | None => _ end) eqn:Er; [done|].
  rewrite Join_simple in H by done. assert (Hp : Forall proper (directory ++ [name])) by (apply Forall_app; split; [done|]; apply Forall_singleton, Hs).
  apply bind_inl in H as (w1 & f & Hl & H). destruct f as [[|m body|] x| |]; try done. apply Lstat_found_ in Hl as [Et Ha]; [|done].
  rewrite at_lookup in Ha by apply snoc_ne. apply bind_inl in H as (w2 & h & Hh & H).
  apply (hash_result _ m body) in Hh; [|done|apply snoc_ne|congruence]. subst h. case_bool_decide as Eq; [|done]. exists m, body.
  split_and!; [done|congruence|]. intros digests ->. apply negb_false_iff, bool_decide_eq_true in Er. congruence.
Qed.

(** What a loaded candidate is. *)
Definition verifiedCandidate (revision : gostr) (t : tree) (candidate : RuntimeCandidate) : Prop :=
  managed store candidate /\ rc_Revision candidate = revision /\ dom (rc_Files candidate) = dom dest /\
  exists m text manifest, t !! (cs_root store ++ [revision; bs "manifest.json"]) = Some (File m text) /\ unmarshalManifest text = Some manifest /\
    cm_Revision manifest = revision /\
    forall name p, rc_Files candidate !! name = Some p -> exists m body, t !! p = Some (File m body) /\ cm_Artifacts manifest !! name = Some (hexSHA256 body).

Lemma candidateFiles directory manifest name : rc_Files (candidateFromManifest directory manifest) !! name = (fun _ => Join directory name) <$> cm_Artifacts manifest !! name.
Proof. cbn. rewrite map_lookup_imap. by destruct (cm_Artifacts manifest !! name). Qed.
Lemma same_names {A B : Type} (m : gmap gostr A) (m' : gmap gostr B) :
  length (map_to_list m) = length (map_to_list m') -> dom m' ⊆ dom m -> dom m = dom m'.
Proof.
  intros Hl Hs. symmetry. apply set_subseteq_size_eq; [done|]. rewrite !size_dom, <- !length_map_to_list. lia.
Qed.
Lemma loadLocked_verified revision rendered w w' candidate : loadLocked store revision rendered w = (w', inl candidate) ->
  verifiedCandidate revision (w_tree w) candidate /\
  forall digests name p, rendered = Some digests -> rc_Files candidate !! name = Some p ->
    exists m body, w_tree w !! p = Some (File m body) /\ default [] (digests !! name) = hexSHA256 body.
Proof using Hwb.
  intros H. unfold loadLocked in H. destruct (MatchString _ revision) eqn:Hr; [cbn [negb] in H|done]. apply revision_simple in Hr.
  rewrite (Join_simple _ revision) in H by done. destruct (wb_root _ _ Hwb) as [Hroot _].
  assert (Hd : Forall proper (cs_root store ++ [revision])) by (apply Forall_app; split; [done|]; apply Forall_singleton, Hr).
  assert (Hms : simpleName (bs "manifest.json")) by (split; [reflexivity|split; [split; [|split]; discriminate|discriminate]]).
  rewrite (Join_simple _ (bs "manifest.json")) in H by done.
  assert (Hm : Forall proper ((cs_root store ++ [revision]) ++ [bs "manifest.json"])) by (apply Forall_app; split; [done|]; apply Forall_singleton, Hms).
  apply bind_inl in H as (w1 & f1 & E1 & H). destruct f1 as [[] q1| |]; try done. apply Lstat_found_ in E1 as [T1 _]; [|done].
  apply bind_inl in H as (w2 & f2 & E2 & H). destruct f2 as [[|m text|] q2| |]; try done. apply Lstat_found_ in E2 as [T2 A2]; [|done].
  rewrite at_lookup in A2 by apply snoc_ne. apply bind_inl in H as (w3 & file & E3 & H). destruct (readOnly_Open _ _ _ _ E3) as [T3 _].
  apply (Open_regular _ m text) in E3 as ->; [|done|apply snoc_ne|congruence].
  apply bind_inl in H as (w4 & ? & E4 & H). destruct (readOnly_look _ _ _ _ E4) as [T4 _]. destruct (_ <? _); [done|].
  apply bind_inl in H as (w5 & ? & E5 & H). destruct (readOnly_look _ _ _ _ E5) as [T5 _].
  destruct (unmarshalManifest text) as [manifest|] eqn:Eu; [|done].
  apply bind_inl in H as (w6 & ? & E6 & H). destruct (readOnly_look _ _ _ _ E6) as [T6 _].
  case_bool_decide as Hrev; [cbn [negb orb] in H|done]. case_bool_decide as Hlen; [cbn [negb orb] in H|done].
  apply bind_inl in H as (w7 & [] & E7 & H). injection H as _ <-. assert (T : w_tree w6 = w_tree w) by congruence.
  assert (Hall : forall name, is_Some (dest !! name) -> exists m body, w_tree w !! ((cs_root store ++ [revision]) ++ [name]) = Some (File m body) /\
    cm_Artifacts manifest !! name = Some (hexSHA256 body) /\ forall digests, rendered = Some digests -> default [] (digests !! name) = hexSHA256 body).
  { intros name Hn. destruct (forEach_readOnly _ _ ltac:(intros; apply readOnly_verify) _ _ E7 name) as (v1 & v2 & Tv & Hv); [by apply sortedKeys_elem|].
    rewrite <- T, <- Tv. eapply verify_result; [done| |exact Hv]. destruct Hn as [d Hn]. by eapply (wb_simple _ _ Hwb). }
  assert (Hdom : dom (cm_Artifacts manifest) = dom dest).
  { apply same_names; [done|]. intros name Hn. apply elem_of_dom in Hn. destruct (Hall name Hn) as (? & ? & _ & Ha & _). apply elem_of_dom. by rewrite Ha. }
  assert (Hfile : forall name p, rc_Files (candidateFromManifest (cs_root store ++ [revision]) manifest) !! name = Some p ->
    is_Some (dest !! name) /\ p = (cs_root store ++ [revision]) ++ [name]).
  { intros name p Hf. rewrite candidateFiles in Hf. destruct (cm_Artifacts manifest !! name) as [digest0|] eqn:Ea; [|done]. injection Hf as <-.
    assert (Hn : is_Some (dest !! name)) by (apply elem_of_dom; rewrite <- Hdom; apply elem_of_dom; by rewrite Ea). split; [done|].
    apply Join_simple. destruct Hn as [d Hn]. by eapply (wb_simple _ _ Hwb). }
  split; [split; [|split; [done|split]]|].
  - split; [cbn; by rewrite Hrev|split; [cbn; by rewrite Hrev|done]].
  - rewrite <- Hdom. apply set_eq. intros name. by rewrite !elem_of_dom, candidateFiles, fmap_is_Some.
  - exists m, text, manifest. rewrite <- app_assoc, T1 in A2. split_and!; [exact A2|done|done|].
    intros name p Hf. destruct (Hfile name p Hf) as [Hn ->]. destruct (Hall name Hn) as (m' & body & ? & ? & _). eauto.
  - intros digests name p Hren Hf. destruct (Hfile name p Hf) as [Hn ->]. destruct (Hall name Hn) as (m' & body & ? & _ & Hd'). eauto.
Qed.
End Loading.

(** ** Preparing *)

Lemma safe_finally {A : Type} (I P : tree -> Prop) (m : M A) (Q : A -> tree -> Prop) cleanup :
  safe I P m Q -> (forall a t, Q a t -> I t) -> safe I I cleanup (fun _ => I) -> (forall a, safe (Q a) (Q a) cleanup (fun _ => Q a)) ->
  safe I P (finally m cleanup) Q.
Proof.
  intros Hm Hq Hi Hc w w' r E Hp. unfold finally in E. destruct (m w) as [w1 r1] eqn:E1. destruct (cleanup w1) as [w2 r2] eqn:E2. injection E as <- <-.
  destruct (Hm _ _ _ E1 Hp) as ((n1 & H1 & F1) & Hr). destruct r1 as [a|e].
  - destruct (Hc a _ _ _ E2 Hr) as ((n2 & H2 & F2) & Hr2). split; [|by destruct r2].
    exists (n1 ++ n2). rewrite H2, H1, app_assoc. split; [done|]. apply Forall_app. split; [done|]. eapply Forall_impl; [exact F2|]. apply Hq.
  - destruct (Hi _ _ _ E2 Hr) as ((n2 & H2 & F2) & Hr2). split; [|by destruct r2].
    exists (n1 ++ n2). rewrite H2, H1, app_assoc. split; [done|]. by apply Forall_app.
Qed.

Section Preparing.
Context {P0 : Platform} {P1 : PlatformLaws} (store : CandidateStore) (given : gmap gostr gostr) (Hwb : wellBuilt given store).
Context (revision : gostr) (Hrev : simpleName revision) (artifacts : gmap gostr gostr) (text : gostr) (t0 : tree).
Local Abbreviation root := (cs_root store).
Local Abbreviation directory := (root ++ [revision]).

Definition old (y : path) : option node := t0 !! (directory ++ y).
Definition whole : path -> option node := filled (<[bs "manifest.json" := text]> artifacts).
(** Outside the candidates' directory at most the way to it is made. *)
Definition outside (t : tree) : Prop :=
  forall x, ~ root `prefix_of` x -> t !! x = t0 !! x \/ (t0 !! x = None /\ t !! x = Some Dir /\ x `prefix_of` root).
Definition base (s : path -> option node) (t : tree) : Prop := sub directory s t /\ outside t.
(** The candidate's directory is the old one, absent, or complete. *)
Definition wholeOrOld (t : tree) : Prop := base old t \/ base nothing t \/ base whole t.

Lemma outside_insert t x n : outside t -> root `prefix_of` x -> outside (<[x:=n]> t).
Proof. intros H Hx y Hy. rewrite lookup_insert_ne by (by intros ->). by apply H. Qed.
Lemma outside_delete t x : outside t -> root `prefix_of` x -> outside (delete x t).
Proof. intros H Hx y Hy. rewrite lookup_delete_ne by (by intros ->). by apply H. Qed.
Lemma outside_move t p q : outside t -> root `prefix_of` p -> root `prefix_of` q -> emptyDir t q = true -> outside (moveTree p q t).
Proof.
  intros H Hp Hq He x Hx. rewrite moveTree_rest; [by apply H|done| |]; intros F; apply Hx; [exact (transitivity Hp F)|exact (transitivity Hq F)].
Qed.
Lemma below_root name x : root ++ [name] `prefix_of` x -> root `prefix_of` x.
Proof. intros H. etrans; [|exact H]. by apply prefix_app_r. Qed.
Lemma base_insert s t x name n : base s t -> name <> revision -> root ++ [name] `prefix_of` x -> base s (<[x:=n]> t).
Proof. intros [H Ho] Hn Hx. split; [apply sub_insert; [done|by eapply sibling_below]|apply outside_insert; [done|by eapply below_root]]. Qed.
Lemma base_delete s t x name : base s t -> name <> revision -> root ++ [name] `prefix_of` x -> base s (delete x t).
Proof. intros [H Ho] Hn Hx. split; [apply sub_delete; [done|by eapply sibling_below]|apply outside_delete; [done|by eapply below_root]]. Qed.
Lemma hidden_ne name : head name = Some x2e -> name <> revision.
Proof using Hrev. intros H ->. by apply Hrev. Qed.

(** *** Writing the staging directory *)

Section Staging.
Context (label : gostr) (Hlabel : head label = Some x2e).
Local Abbreviation staging := (root ++ [label]).
Definition staged (files : gmap gostr gostr) (t : tree) : Prop := base old t /\ sub staging (filled files) t.

Lemma staged_insert files name body t : staged files t -> staged (<[name := body]> files) (<[staging ++ [name] := File mode600 body]> t).
Proof using Hrev Hlabel.
  intros [Hb Hs]. split; [eapply base_insert; [done|by apply hidden_ne|by apply prefix_app_r]|].
  intros y. destruct (decide (y = [name])) as [->|Hy].
  - rewrite lookup_insert_eq. cbn. by rewrite lookup_insert_eq.
  - rewrite lookup_insert_ne by (intros E; apply app_inv_head in E; congruence). rewrite Hs.
    destruct y as [|n [|? ?]]; [done| |done]. cbn. rewrite lookup_insert_ne; [done|congruence].
Qed.
Lemma staged_append files name l : forall body,
  safe (base old) (staged (<[name := body]> files)) (appendAll (staging ++ [name]) l) (fun _ => staged (<[name := body ++ concat l]> files)).
Proof using Hrev Hlabel.
  induction l as [|c l IH]; intros body; cbn [appendAll concat].
  { apply safe_ret. intros t. by rewrite app_nil_r. }
  eapply safe_bind; [|intros ?; rewrite app_assoc; apply IH]. apply safe_change; [by intros t []|]. intros t t' Hs E.
  rewrite (proj2 Hs [name]) in E. cbn in E. rewrite lookup_insert_eq in E. cbn in E. injection E as <-.
  apply (staged_insert _ name (body ++ c)) in Hs. rewrite insert_insert_eq in Hs. split; [apply Hs|done].
Qed.
Lemma write_staged files name body :
  safe (base old) (staged files) (writePrivateFile (staging ++ [name]) body) (fun _ => staged (<[name := body]> files)).
Proof using Hrev Hlabel P1.
  eapply safe_bind with (R := fun _ => staged (<[name := []]> files)).
  { apply safe_change; [by intros t []|]. intros t t' Hs E. destruct (at_ t (staging ++ [name])); [done|].
    destruct (at_ t (dirOf (staging ++ [name]))) as [[]|]; try done. injection E as <-.
    apply (staged_insert _ name []) in Hs. split; [apply Hs|done]. }
  intros ?. eapply safe_bind; [apply staged_append|]. intros ?. cbn [app]. rewrite concat_pieces.
  eapply safe_bind with (R := fun _ => staged (<[name := body]> files)); [apply safe_look; [by intros t []|by intros]|]. intros ?.
  apply safe_look; [by intros t []|by intros].
Qed.
Lemma sync_dir (I P : tree -> Prop) p : (forall t, P t -> I t) -> safe I P (syncDirectory p) (fun _ => P).
Proof. intros Hi. eapply safe_bind with (R := fun _ => P); [apply safe_look; auto|]. intros ?. apply safe_look; auto. Qed.
Context (Hlabel' : label <> oldName).

Lemma fillStaging_safe manifest : (forall b, marshalManifest manifest = Some b -> b = text) -> (forall name, is_Some (artifacts !! name) -> is_Some (cs_destinations store !! name)) ->
  safe (base old) (staged ∅) (fillStaging manifest artifacts staging)
    (fun _ t => staged (<[bs "manifest.json" := text]> artifacts) t /\ marshalManifest manifest = Some text).
Proof using Hrev Hlabel P1 Hwb.
  intros Hm Hsub. set (part := fun done => list_to_map ((fun n => (n, default [] (artifacts !! n))) <$> done) : gmap gostr gostr).
  assert (Hcrash : forall files t, staged files t -> base old t) by (by intros files t []).
  eapply safe_bind with (R := fun _ => staged ∅); [apply safe_look; [apply Hcrash|by intros]|]. intros ?.
  eapply safe_bind with (R := fun _ => staged artifacts).
  - eapply safe_weaken with (Q := fun _ => staged (part ([] ++ sortedKeys artifacts))); [apply (safe_forEach _ _ (fun done => staged (part done)) _ [])|done|done|].
    + intros done name Hin. apply sortedKeys_elem, Hsub in Hin. destruct Hin as [d Hd].
      rewrite Join_simple by (by eapply (wb_simple _ _ Hwb)).
      assert (Hadd : part (done ++ [name]) = <[name := default [] (artifacts !! name)]> (part done)).
      { apply map_eq. intros n. unfold part. rewrite assoc_lookup. destruct (decide (n = name)) as [->|Hne].
        - rewrite lookup_insert_eq, decide_True; [done|]. apply elem_of_app. right. by apply list_elem_of_singleton.
        - rewrite lookup_insert_ne, assoc_lookup by done. apply decide_ext. rewrite elem_of_app, list_elem_of_singleton. tauto. }
      rewrite Hadd. apply write_staged.
    + assert (Hall : part ([] ++ sortedKeys artifacts) = artifacts); [|by rewrite Hall].
      apply map_eq. intros n. unfold part. cbn [app]. rewrite assoc_lookup. case_decide as Hn; rewrite sortedKeys_elem in Hn.
      * destruct Hn as [b ->]. done.
      * symmetry. by apply eq_None_not_Some.
  - intros ?. destruct (marshalManifest manifest) as [b|]; [|apply safe_fail, Hcrash]. pose proof (Hm b eq_refl) as ->.
    rewrite Join_simple by (split; [reflexivity|split; [split; [|split]; discriminate|discriminate]]).
    eapply safe_bind; [apply write_staged|]. intros ?. eapply safe_post; [apply sync_dir, Hcrash|]. by intros ? t H.
Qed.

(** *** Putting it in place *)

Lemma sibling_apart a b : a <> b -> ~ root ++ [a] `prefix_of` root ++ [b].
Proof. intros Hn H. apply (sibling_prefix root a b [] Hn). by rewrite app_nil_r. Qed.
(** A rename of one entry of the root to another. *)
Lemma rename_entry a b t t' : a <> b -> t !! (root ++ [a]) = Some Dir ->
  (match t !! (root ++ [a]), at_ t (root ++ [b]) with
   | None, _ => inr ErrNotExist
   | Some Dir, None | Some Dir, Some Dir =>
       if bool_decide (root ++ [a] `prefix_of` root ++ [b]) || negb (emptyDir t (root ++ [b])) || negb (bool_decide (at_ t (dirOf (root ++ [b])) = Some Dir)) then inr Err
       else inl (moveTree (root ++ [a]) (root ++ [b]) t)
   | Some _, Some Dir | Some Dir, Some _ => inr Err
   | Some n, _ => inl (<[root ++ [b] := n]> (delete (root ++ [a]) t))
   end) = inl t' ->
  t' = moveTree (root ++ [a]) (root ++ [b]) t /\ emptyDir t (root ++ [b]) = true.
Proof.
  intros Hn Ha E. rewrite Ha in E. destruct (at_ t (root ++ [b])) as [[]|]; try done;
    (destruct (bool_decide (_ `prefix_of` _)); [done|]; destruct (emptyDir t (root ++ [b])); [|done]; cbn [negb orb] in E;
     destruct (negb _); [done|]; by injection E as <-).
Qed.
Lemma rename_other a b c s t : c <> a -> c <> b -> emptyDir t (root ++ [b]) = true -> sub (root ++ [c]) s t -> sub (root ++ [c]) s (moveTree (root ++ [a]) (root ++ [b]) t).
Proof. intros Ha Hb He Hs. apply sub_move; [done|done|intros y; by apply sibling_prefix, not_eq_sym|intros y; by apply sibling_prefix, not_eq_sym]. Qed.
Lemma rename_to a b s t : a <> b -> emptyDir t (root ++ [b]) = true -> sub (root ++ [a]) s t -> sub (root ++ [b]) s (moveTree (root ++ [a]) (root ++ [b]) t).
Proof. intros Hn He Hs y. rewrite moveTree_target; [apply Hs|done|by apply sibling_apart|by apply sibling_apart, not_eq_sym]. Qed.
Lemma rename_away a b t : a <> b -> emptyDir t (root ++ [b]) = true -> sub (root ++ [a]) nothing (moveTree (root ++ [a]) (root ++ [b]) t).
Proof. intros Hn He y. apply moveTree_source; [done|by apply prefix_app_r|by apply sibling_prefix, not_eq_sym]. Qed.
Lemma rename_outside a b t : outside t -> emptyDir t (root ++ [b]) = true -> outside (moveTree (root ++ [a]) (root ++ [b]) t).
Proof. intros Ho He. apply outside_move; [done|by apply prefix_app_r|by apply prefix_app_r|done]. Qed.
Local Abbreviation files := (<[bs "manifest.json" := text]> artifacts).
Definition oldAside (t : tree) : Prop := base nothing t /\ sub staging (filled files) t /\ sub (root ++ [oldName]) old t /\ old [] = Some Dir.

Lemma remove_entry (P I : tree -> Prop) name : (forall t, P t -> I t) -> (forall x t, root ++ [name] `prefix_of` x -> P t -> P (delete x t)) ->
  safe I P (removeManagedTree root (root ++ [name])) (fun _ => P).
Proof. intros Hi Hd. by apply removeManagedTree_safe. Qed.
Lemma Lstat_directory (P I : tree -> Prop) : (forall t, P t -> I t) ->
  safe I P (Lstat directory) (fun f t => P t /\ match f with Found n _ => t !! directory = Some n | _ => True end).
Proof using Hwb Hrev.
  intros Hi w w' r E Hp. destruct (readOnly_Lstat _ _ _ _ E) as [Et Eh]. rewrite Et, Eh. split; [exists []; by rewrite app_nil_r|].
  destruct r as [f|]; [|by apply Hi]. split; [done|]. destruct f as [n x| |]; try done. apply Lstat_found_ in E as [_ E].
  - by rewrite at_lookup in E by apply snoc_ne.
  - destruct (wb_root _ _ Hwb) as [Hr _]. apply Forall_app. split; [done|]. apply Forall_singleton, Hrev.
Qed.
Lemma previous_ne : oldName <> revision.
Proof using Hrev. apply hidden_ne. reflexivity. Qed.

Lemma move_aside : safe wholeOrOld (fun t => staged files t /\ t !! directory = Some Dir) (renameManagedPath directory (root ++ [oldName])) (fun _ => oldAside).
Proof using Hrev Hlabel Hlabel'.
  apply safe_change; [intros t [[Hb _] _]; by left|]. intros t t' [[[Hd Ho] Hs] Hdir] E.
  apply rename_entry in E as [-> He]; [|apply not_eq_sym, previous_ne|done].
  assert (H : oldAside (moveTree directory (root ++ [oldName]) t)).
  { split; [split; [apply rename_away; [apply not_eq_sym, previous_ne|done]|by apply rename_outside]|split].
    - by apply rename_other; [apply hidden_ne| | |].
    - split; [apply rename_to; [apply not_eq_sym, previous_ne|done|done]|]. by rewrite <- (Hd []), app_nil_r. }
  split; [right; left; apply H|done].
Qed.
(** A change that fails changes nothing. *)
Lemma attempt_change (I P Q : tree -> Prop) f : (forall t, P t -> I t) -> (forall t t', P t -> f t = inl t' -> I t' /\ Q t') ->
  safe I P (attempt (change f)) (fun r t => match r with inl _ => Q t | inr _ => P t end).
Proof.
  intros Hi H w w' r E Hp. unfold attempt, change, bind, fault in E. cbn in E. destruct (default false _); cbn in E.
  { injection E as <- <-. cbn. split; [exists []; by rewrite app_nil_r|done]. }
  destruct (f (w_tree w)) as [t|e] eqn:F; injection E as <- <-; cbn.
  - destruct (H _ _ Hp F). split; [exists [t]; auto|done].
  - split; [exists []; by rewrite app_nil_r|done].
Qed.
Lemma move_in (P : tree -> Prop) : (forall t, P t -> wholeOrOld t /\ outside t /\ sub staging (filled files) t) ->
  safe wholeOrOld P (attempt (renameManagedPath staging directory)) (fun r t => match r with inl _ => base whole t | inr _ => P t end).
Proof using Hrev Hlabel.
  intros HP. apply attempt_change; [intros t Ht; by apply HP|]. intros t t' Ht E. destruct (HP t Ht) as (_ & Ho & Hs).
  apply rename_entry in E as [-> He]; [|by apply hidden_ne|by rewrite <- (app_nil_r staging), Hs].
  assert (H : base whole (moveTree staging directory t)) by (split; [apply rename_to; [by apply hidden_ne|done|done]|by apply rename_outside]).
  split; [by right; right|done].
Qed.
Lemma move_back : safe wholeOrOld oldAside (attempt (renameManagedPath (root ++ [oldName]) directory)) (fun _ => wholeOrOld).
Proof using Hrev.
  eapply safe_post; [apply attempt_change with (Q := wholeOrOld); [intros t [Hb _]; by right; left|]|].
  - intros t t' ([_ Ho] & _ & Hold & Hdir) F. apply rename_entry in F as [-> He]; [|apply previous_ne|by rewrite <- (app_nil_r (_ ++ _)), Hold].
    assert (H : base old (moveTree (root ++ [oldName]) directory t)) by (split; [apply rename_to; [apply previous_ne|done|done]|by apply rename_outside]).
    split; by left.
  - intros [?|?] t H; [exact H|right; left; apply H].
Qed.

Lemma prune_safe (I P : tree -> Prop) : (forall t, P t -> I t) ->
  (forall name x t, name <> revision -> root ++ [name] `prefix_of` x -> P t -> P (delete x t)) -> safe I P (pruneExcept store revision) (fun _ => P).
Proof.
  intros Hi Hd. eapply safe_bind; [apply (safe_readOnly I P); [apply readOnly_look|done]|]. intros entries. cbn beta.
  apply (safe_forEach I (pruneEntry store revision) (fun _ => P) entries []). intros _ [name n] _. unfold pruneEntry.
  case_bool_decide as Hn; [by apply safe_ret|]. destruct (_ || _); [by apply safe_ret|]. apply remove_entry; [done|]. intros x t. by apply Hd.
Qed.
Lemma staged_delete t x : root ++ [oldName] `prefix_of` x -> staged files t -> staged files (delete x t).
Proof using Hrev Hlabel'.
  intros Hx [Hb Hs]. split; [eapply base_delete; [done|apply previous_ne|done]|]. apply sub_delete; [done|].
  eapply sibling_below; [|exact Hx]. by apply not_eq_sym.
Qed.
Lemma publishStaging_safe manifest : safe wholeOrOld (staged files) (publishStaging store revision manifest staging)
  (fun candidate t => candidate = candidateFromManifest directory manifest /\ base whole t).
Proof using Hwb Hrev Hlabel Hlabel'.
  unfold publishStaging. rewrite (Join_simple _ revision) by done.
  assert (Hjoin : Join root oldName = root ++ [oldName]).
  { unfold Join, joinClean. change (GoPath.parts oldName) with [oldName]. cbn [cleanFrom foldl]. apply cleanStep_proper. by_decide. }
  rewrite Hjoin. clear Hjoin. assert (Hst : forall t, staged files t -> wholeOrOld t) by (intros t [Hb _]; by left).
  eapply safe_bind; [apply (remove_entry (staged files)); [done|intros x t; apply staged_delete]|]. intros ?. cbn beta.
  eapply safe_bind; [apply (Lstat_directory (staged files)); done|]. intros info. cbn beta.
  eapply safe_bind with (R := fun (hadOld : bool) t => if hadOld then oldAside t else staged files t).
  { destruct info as [[] x| |]; try (apply safe_fail; intros t [Ht _]; auto); [|by apply safe_ret; intros t []].
    eapply safe_bind; [apply move_aside|]. intros ?. by apply safe_ret. }
  intros hadOld. eapply safe_bind.
  { apply (move_in (fun t => if hadOld then oldAside t else staged files t)). intros t Ht. destruct hadOld.
    - destruct Ht as (Hb & Hs & _). split_and!; [by right; left|apply Hb|done].
    - split_and!; [by apply Hst|apply Ht|apply Ht]. }
  intros [u|e]; cbn beta.
  - assert (Hw : forall t, base whole t -> wholeOrOld t) by (intros t H; by right; right).
    eapply safe_bind; [apply (sync_dir wholeOrOld (base whole)); exact Hw|]. intros ?. cbn beta.
    eapply safe_bind with (R := fun _ => base whole).
    { destruct hadOld; [|by apply safe_ret]. apply remove_entry; [exact Hw|]. intros x t Hx H. eapply base_delete; [exact H|apply previous_ne|exact Hx]. }
    intros ?. eapply safe_bind with (R := fun _ => base whole); [apply prune_safe; [exact Hw|]|intros ?; by apply safe_ret].
    intros name x t Hn Hx H. by eapply base_delete.
  - eapply safe_bind with (R := fun _ => wholeOrOld); [|intros ?; by apply safe_fail]. destruct hadOld; [|by apply safe_ret].
    eapply safe_bind; [apply move_back|]. intros ?. by apply safe_ret.
Qed.
End Staging.

(** *** The whole of [Prepare] *)

Lemma base_start : base old t0.
Proof. split; [done|]. by left. Qed.
Lemma root_mkdir : safe (base old) (base old) (mkdirAll root) (fun _ => base old).
Proof.
  eapply safe_post; [apply mkdirAll_safe|by intros ? t []]. intros k t Hk [Hs Ho] Hd Hnone.
  assert (Hx : take (S k) root <> []) by (destruct root; [cbn in Hk; lia|done]). rewrite at_lookup in Hnone by done. split.
  - apply sub_insert; [done|]. intros F%prefix_length. rewrite length_app, length_take in F. cbn [length] in F. lia.
  - intros x Hroot. destruct (decide (x = take (S k) root)) as [->|Hne]; [|rewrite lookup_insert_ne by done; by apply Ho].
    right. rewrite lookup_insert_eq. split_and!; [|done|apply take_prefix]. destruct (Ho _ Hroot) as [E|(? & E & _)]; congruence.
Qed.
Lemma freshDirName_spec t dir prefix names name rest : freshDirName t dir prefix names = Some (name, rest) ->
  t !! (dir ++ [name]) = None /\ emptyDir t (dir ++ [name]) = true /\ exists rnd, name = prefix ++ rnd.
Proof.
  induction names as [|rnd names IH]; cbn [freshDirName]; [done|]. destruct (_ && _) eqn:E; [|exact IH]. intros H. injection H as <- _.
  apply andb_true_iff in E as [E1%bool_decide_eq_true E2]. eauto.
Qed.
Definition stagingAt (p : path) : Prop := exists rnd, p = root ++ [bs ".next-" ++ rnd].
Lemma MkdirTemp_safe : safe (base old) (base old) (MkdirTemp root (bs ".next-"))
  (fun p t => (base old t /\ sub p (filled ∅) t) /\ stagingAt p).
Proof using Hrev.
  eapply safe_bind; [apply safe_fault|]. intros []; [apply safe_fail; by intros t|].
  intros w w' r E Hb. destruct (freshDirName _ _ _ _) as [[name rest]|] eqn:Ef; [|injection E as <- <-; split; [exists []; by rewrite app_nil_r|done]].
  destruct (at_ (w_tree w) root) as [[]|]; try (injection E as <- <-; split; [exists []; by rewrite app_nil_r|done]).
  injection E as <- <-. cbn. apply freshDirName_spec in Ef as (Hnone & He & rnd & ->).
  assert (Hb' : base old (<[root ++ [bs ".next-" ++ rnd] := Dir]> (w_tree w))) by (apply (base_insert old _ _ (bs ".next-" ++ rnd)); [done|apply hidden_ne; reflexivity|done]).
  split; [eexists; split; [done|]; by constructor|]. split; [split; [done|]|by exists rnd].
  intros y. destruct (decide (y = [])) as [->|Hy]; [by rewrite app_nil_r, lookup_insert_eq|].
  rewrite lookup_insert_ne by (intros F; apply Hy, (app_inv_head (root ++ [bs ".next-" ++ rnd])); by rewrite app_nil_r).
  rewrite emptyDir_spec by done. destruct y as [|n [|? ?]]; [done| |done]. cbn. by rewrite lookup_empty.
Qed.

Local Abbreviation manifest := (Manifest (hexSHA256 <$> artifacts) revision).
(** The new directory, or the old one found good. *)
Definition prepared (candidate : RuntimeCandidate) (t : tree) : Prop :=
  (base whole t /\ candidate = candidateFromManifest directory manifest /\ marshalManifest manifest = Some text) \/
  (base old t /\ verifiedCandidate store revision t0 candidate /\
   forall name p, rc_Files candidate !! name = Some p -> exists m body, t0 !! p = Some (File m body) /\ default [] ((hexSHA256 <$> artifacts) !! name) = hexSHA256 body).

Lemma Prepare_safe : (forall b, marshalManifest manifest = Some b -> b = text) ->
  safe wholeOrOld (fun t => t = t0) (Prepare store revision artifacts)
    (fun candidate t => prepared candidate t /\ forall name, is_Some (artifacts !! name) <-> is_Some (cs_destinations store !! name)).
Proof using Hwb Hrev P1.
  intros Htext. unfold Prepare. assert (Hold : forall t, base old t -> wholeOrOld t) by (intros t H; by left).
  assert (Hstart : forall t, t = t0 -> wholeOrOld t) by (intros t ->; apply Hold, base_start).
  apply safe_if; intros _; [by apply safe_fail|]. apply safe_if; intros _; [by apply safe_fail|].
  apply safe_if; intros Hlen; [by apply safe_fail|]. apply negb_false_iff, bool_decide_eq_true in Hlen.
  apply safe_if; intros Hvalid; [by apply safe_fail|]. apply negb_false_iff in Hvalid.
  assert (Hnames : forall name, is_Some (artifacts !! name) <-> is_Some (cs_destinations store !! name)).
  { assert (Hsub : dom artifacts ⊆ dom (cs_destinations store)).
    { intros name Hn. apply elem_of_dom in Hn as [body Hn]. apply elem_of_dom. unfold validArtifacts in Hvalid. apply andb_true_iff in Hvalid as [Hv _].
      rewrite forallb_forall in Hv. specialize (Hv (name, body)). rewrite <- list_elem_of_In, elem_of_map_to_list in Hv. specialize (Hv Hn).
      apply andb_true_iff in Hv as [Hv _]. by apply bool_decide_eq_true in Hv. }
    intros name. rewrite <- !elem_of_dom. by rewrite <- (same_names (cs_destinations store) artifacts (eq_sym Hlen) Hsub). }
  eapply safe_bind with (R := fun loaded t => t = t0 /\ match loaded with inl candidate => verifiedCandidate store revision t0 candidate /\
    (forall name p, rc_Files candidate !! name = Some p -> exists m body, t0 !! p = Some (File m body) /\ default [] ((hexSHA256 <$> artifacts) !! name) = hexSHA256 body)
    | inr _ => True end).
  { intros w w' r E Hw. unfold attempt in E. destruct (loadLocked _ _ _ w) as [w1 r1] eqn:El. injection E as <- <-.
    destruct (readOnly_loadLocked _ _ _ _ _ _ El) as [Et Eh]. rewrite Et, Eh. split; [exists []; by rewrite app_nil_r|]. split; [done|].
    destruct r1 as [candidate|]; [|done]. apply (loadLocked_verified store given Hwb) in El as [Hv Hd]. rewrite Hw in Hv, Hd. split; [done|].
    intros name p Hf. by apply (Hd (hexSHA256 <$> artifacts)). }
  intros [candidate|e]; apply safe_assume; intros Hl.
  - eapply safe_bind with (R := fun _ => base old); [eapply safe_pre; [apply (prune_safe wholeOrOld (base old)); [done|]|intros t ->; apply base_start]|].
    + intros name x t Hn Hx H. by eapply base_delete.
    + intros ?. apply safe_ret. intros t Hb. split; [|done]. right. by destruct Hl.
  - eapply safe_bind; [eapply safe_inv; [eapply safe_pre; [apply root_mkdir|intros t ->; apply base_start]|exact Hold]|]. intros ?. cbn beta.
    eapply safe_bind; [eapply safe_inv; [apply MkdirTemp_safe|exact Hold]|]. intros staging. cbn beta. apply safe_assume. intros [rnd ->].
    assert (Hlabel : head (bs ".next-" ++ rnd) = Some x2e) by reflexivity. assert (Hother : bs ".next-" ++ rnd <> oldName) by (intros F; discriminate F).
    eapply safe_post with (Q := fun candidate t => candidate = candidateFromManifest directory manifest /\ (base whole t /\ marshalManifest manifest = Some text)).
    2: { intros candidate t (-> & Hb & Hm). split; [|done]. left. done. }
    apply safe_finally.
    + eapply safe_bind; [eapply safe_inv; [apply (fillStaging_safe _ Hlabel manifest Htext); intros name Hn; by apply Hnames|exact Hold]|]. intros ?. cbn beta.
      apply safe_assume. intros Hm. eapply safe_post; [apply publishStaging_safe; done|]. by intros candidate t [-> Hb].
    + intros candidate t (_ & Hb & _). by right; right.
    + apply removeAll_safe; [done|]. intros x t Hx. intros [H|[H|H]]; [left|right; left|right; right]; (eapply base_delete; [exact H|by apply hidden_ne|exact Hx]).
    + intros candidate. apply removeAll_safe; [done|]. intros x t Hx (-> & H & Hm). split_and!; [done| |done].
      eapply base_delete; [exact H|by apply hidden_ne|exact Hx].
Qed.
End Preparing.

(** ** Committing *)

Section Commit.
Context {P0 : Platform} {P1 : PlatformLaws} (store : CandidateStore) (given : gmap gostr gostr) (Hwb : wellBuilt given store).
Context (candidate : RuntimeCandidate) (Hman : managed store candidate) (t0 : tree).
Local Abbreviation files := (rc_Files candidate).
Local Abbreviation lkg := (cs_lkg store).

(** The candidate's files are files, and no link is in the place of one. *)
Definition committable : Prop :=
  (forall name p, files !! name = Some p -> exists m body, t0 !! p = Some (File m body)) /\
  (forall name, is_Some (files !! name) -> t0 !! (lkg ++ [name]) <> Some Symlink).
Context (Hcom : committable).

(** Every artifact is in the last-known-good directory. *)
Definition allGood (t : tree) : Prop := forall name p, files !! name = Some p -> bodyAt t (lkg ++ [name]) = bodyAt t0 p.
(** What may be different at a path that is not the place of an artifact: a
    directory made on the way to the last-known-good directory, a new temporary
    file of one of the artifacts beside it, and, once every artifact is in place,
    a removed part of the activation's backup. *)
Definition commitMay (t : tree) (x : path) : Prop :=
  (t0 !! x = None /\ t !! x = Some Dir /\ x `prefix_of` lkg) \/
  (t0 !! x = None /\ exists name body, is_Some (files !! name) /\ temporaryOf (lkg ++ [name]) x /\ t !! x = Some (File mode600 body)) \/
  (previousDir candidate `prefix_of` x /\ t !! x = None /\ allGood t).
(** Nothing else changes. *)
Definition commitFrame (t : tree) : Prop :=
  forall x, (forall name, is_Some (files !! name) -> x <> lkg ++ [name]) -> t !! x = t0 !! x \/ commitMay t x.
Definition goodOrOld (done : list gostr) (t : tree) : Prop :=
  commitFrame t /\ forall name p, files !! name = Some p ->
    (t !! (lkg ++ [name]) = t0 !! (lkg ++ [name]) \/ bodyAt t (lkg ++ [name]) = bodyAt t0 p) /\ (name ∈ done -> bodyAt t (lkg ++ [name]) = bodyAt t0 p).

Lemma file_simple name p : files !! name = Some p -> simpleName name /\ p = rc_Directory candidate ++ [name] /\ Forall proper p.
Proof using Hwb Hman.
  destruct Hman as (Hr & Hd & Hf). intros E. destruct (Hf _ _ E) as [[d Hn] ->]. destruct (wb_simple _ _ Hwb name d Hn) as [Hs _].
  split_and!; [done|done|]. rewrite Hd, !Forall_app, !Forall_singleton. destruct (wb_root _ _ Hwb) as [H _]. split_and!; [done|apply Hr|apply Hs].
Qed.
Lemma store_not_lkg x : cs_root store `prefix_of` x -> ~ lkg `prefix_of` x.
Proof using Hwb. intros H1 H2. destruct (wb_root _ _ Hwb) as (_ & _ & H3 & H4). destruct (prefix_comparable _ _ _ H1 H2); auto. Qed.
Lemma root_previous : cs_root store `prefix_of` previousDir candidate.
Proof using Hman. destruct Hman as (_ & Hd & _). unfold previousDir. rewrite Hd, <- app_assoc. by apply prefix_app_r. Qed.
Lemma commit_source done t name p m body q : goodOrOld done t -> files !! name = Some p -> statAt t p = Found (File m body) q -> bodyAt t0 p = Some body.
Proof using Hwb Hman Hcom.
  intros [Hf _] E H. destruct (file_simple _ _ E) as (Hs & Hp & Hpr). destruct (proj1 Hcom name p E) as (m0 & b0 & E0).
  assert (Hroot : cs_root store `prefix_of` p). { destruct Hman as (_ & Hd & _). rewrite Hp, Hd, <- app_assoc. by apply prefix_app_r. }
  assert (Et : t !! p = t0 !! p).
  { destruct (Hf p) as [?|[(? & _)|[(? & _)|(Hpre & _)]]]; [|done|congruence|congruence|].
    - intros n _ ->. apply (store_not_lkg _ Hroot). by apply prefix_app_r.
    - exfalso. rewrite Hp in Hpre. destruct Hpre as [z F]. unfold previousDir in F. rewrite <- app_assoc in F.
      apply app_inv_head in F. injection F as F _. destruct Hs as (_ & _ & Hh). apply Hh. by rewrite F. }
  apply stat_node in H; [|done|rewrite Hp; apply snoc_ne|congruence]. unfold bodyAt. rewrite <- Et, H. done.
Qed.

Lemma allGood_insert t x n : (forall name, is_Some (files !! name) -> x <> lkg ++ [name]) -> allGood t -> allGood (<[x:=n]> t).
Proof. intros Hne Hg name p E. unfold bodyAt at 1. rewrite lookup_insert_ne by (apply Hne; by exists p). by apply Hg. Qed.
Lemma good_insert done t x n : goodOrOld done t -> t !! x = None -> (forall name, is_Some (files !! name) -> x <> lkg ++ [name]) ->
  ~ previousDir candidate `prefix_of` x ->
  ((n = Dir /\ x `prefix_of` lkg) \/ (exists name body, is_Some (files !! name) /\ temporaryOf (lkg ++ [name]) x /\ n = File mode600 body)) ->
  goodOrOld done (<[x:=n]> t).
Proof.
  intros [Hf Hg] Hnone Hne Hprev Hn. split.
  - intros y Hy. destruct (decide (y = x)) as [->|Hyx].
    + right. unfold commitMay. rewrite lookup_insert_eq.
      assert (E : t0 !! x = None).
      { destruct (Hf x Hy) as [E|[(E & _)|[(E & _)|(? & _)]]]; [by rewrite <- E|done|done|done]. }
      destruct Hn as [[-> ?]|(m & body & ? & ? & ->)]; [by left|]. right. left. split; [done|]. by exists m, body.
    + unfold commitMay. rewrite lookup_insert_ne by done.
      destruct (Hf y Hy) as [?|[?|[?|(? & ? & ?)]]]; [by left|right; by left|right; right; by left|right; right; right].
      split_and!; [done|done|by apply allGood_insert].
  - intros name p E. unfold bodyAt. rewrite lookup_insert_ne by (apply Hne; by exists p). by apply Hg.
Qed.
Lemma lkg_way_not_previous x y : x `prefix_of` y -> lkg `prefix_of` y -> ~ previousDir candidate `prefix_of` x.
Proof using Hwb Hman.
  intros Hx Hl Hp. apply (store_not_lkg y); [|done]. etrans; [apply root_previous|]. by etrans.
Qed.
Lemma good_tolerates done name p : files !! name = Some p -> tolerates (goodOrOld done) (lkg ++ [name]).
Proof using Hwb Hman.
  intros E. assert (Hdir : dirOf (lkg ++ [name]) = lkg) by (unfold dirOf; rewrite length_app; cbn; by rewrite Nat.add_sub, take_app_length). split.
  - rewrite Hdir. intros k t Hk Hg Hd Hnone. assert (Hx : take (S k) lkg <> []) by (destruct lkg; [cbn in Hk; lia|done]). rewrite at_lookup in Hnone by done.
    apply good_insert; [done|done| |apply (lkg_way_not_previous _ lkg); [apply take_prefix|done]|left; split; [done|apply take_prefix]].
    intros n _ F. apply (f_equal length) in F. rewrite length_take, length_app in F. cbn [length] in F. lia.
  - intros t tmp body Ht Hg Hd Hnone.
    assert (Hpre : lkg `prefix_of` tmp) by (rewrite <- Hdir, <- (temporary_dir _ _ Ht); unfold dirOf; apply take_prefix).
    apply good_insert; [done|done| |by apply (lkg_way_not_previous _ tmp)|right; exists name, body; by split_and!; [exists p|..]].
    intros n [q Hn] F. destruct (file_simple _ _ Hn) as [(_ & _ & Hh) _]. apply Hh. pose proof (temporary_hidden _ _ Ht) as H. rewrite F in H. unfold baseOf in H. by rewrite last_snoc in H.
Qed.
Lemma commit_copy done name p : files !! name = Some p ->
  safe (goodOrOld done) (goodOrOld done) (copyFileAtomic p (lkg ++ [name])) (fun _ => goodOrOld (done ++ [name])).
Proof using Hwb Hman Hcom P1.
  intros E. eapply safe_post; [apply (copyFile_safe _ _ (fun _ => goodOrOld (done ++ [name])) (good_tolerates done name p E))|by intros ? t (_ & ? & ?)].
  intros t m body q Hg H u Hu Hdir Hnd Hnil. pose proof (commit_source done t name p m body q Hg E H) as Hbody. destruct Hu as [Hf Hu].
  assert (Hf' : commitFrame (<[lkg ++ [name] := File mode600 body]> u)).
  { intros x Hx. assert (Hne : lkg ++ [name] <> x) by (intros F; apply (Hx name); [by exists p|done]).
    unfold commitMay. rewrite lookup_insert_ne by done.
    destruct (Hf x Hx) as [?|[?|[?|(? & ? & Hall)]]]; [by left|right; by left|right; right; by left|right; right; right].
    split_and!; [done|done|]. intros n src En. destruct (decide (n = name)) as [->|Hn].
    - rewrite E in En. injection En as <-. unfold bodyAt at 1. by rewrite lookup_insert_eq, Hbody.
    - rewrite bodyAt_insert_ne by (intros F; apply app_inv_head in F; congruence). by apply Hall. }
  assert (Hnew : goodOrOld (done ++ [name]) (<[lkg ++ [name] := File mode600 body]> u)).
  { split; [done|]. intros n r En. destruct (decide (n = name)) as [->|Hne].
    - rewrite E in En. injection En as <-. unfold bodyAt at 1 3. rewrite lookup_insert_eq, Hbody. split; [by right|done].
    - assert (Hp : lkg ++ [name] <> lkg ++ [n]) by (intros F; apply app_inv_head in F; congruence).
      rewrite bodyAt_insert_ne, lookup_insert_ne by done. destruct (Hu n r En) as [H1 H2]. split; [done|]. intros Hin.
      apply elem_of_app in Hin as [Hin|Hin%list_elem_of_singleton]; [by apply H2|done]. }
  split; [|done]. split; [done|]. intros n r En. destruct (proj2 Hnew n r En) as [H1 H2]. split; [done|]. intros Hin. apply H2, elem_of_app. by left.
Qed.
Lemma commit_artifact done name : is_Some (files !! name) ->
  safe (goodOrOld []) (goodOrOld done) (commitArtifact store candidate name) (fun _ => goodOrOld (done ++ [name])).
Proof using Hwb Hman Hcom P1.
  intros [p E]. destruct (file_simple _ _ E) as (Hs & Hp & Hpr). unfold commitArtifact, pathAt. rewrite E, Join_simple by done. cbn [default].
  assert (Hweak : forall t, goodOrOld done t -> goodOrOld [] t).
  { intros t [Hf Hg]. split; [done|]. intros n r En. destruct (Hg n r En). split; [done|]. by intros []%elem_of_nil. }
  eapply safe_bind with (R := fun r t => goodOrOld done t /\ (r = inl true -> bodyAt t (lkg ++ [name]) = bodyAt t0 p)).
  { intros w w' r H Hg. unfold attempt in H. destruct (filesEqual _ _ w) as [w1 r1] eqn:Ef. injection H as <- <-.
    destruct (readOnly_filesEqual _ _ _ _ _ Ef) as [Et Eh]. rewrite Et, Eh. split; [exists []; by rewrite app_nil_r|]. split; [done|]. intros [= ->].
    apply filesEqual_true in Ef as (m & body & x & m' & x' & H1 & H2). rewrite (commit_source done _ name p m body x Hg E H1).
    destruct Hg as [Hf Hg]. apply stat_node in H2; [by unfold bodyAt; rewrite H2| |apply snoc_ne|].
    - destruct (wb_root _ _ Hwb) as (_ & Hl & _). apply Forall_app. split; [done|]. apply Forall_singleton, Hs.
    - destruct (proj1 (Hg name p E)) as [-> | Hb]; [apply (proj2 Hcom); by exists p|]. intros F. unfold bodyAt at 1 in Hb. rewrite F in Hb.
      destruct (proj1 Hcom name p E) as (? & ? & E0). unfold bodyAt in Hb. by rewrite E0 in Hb. }
  intros r. destruct r as [[]|[]].
  - apply safe_ret. intros t [[Hf Hg] Hb]. split; [done|]. intros n q En. destruct (Hg n q En) as [H1 H2]. split; [done|]. intros Hin.
    apply elem_of_app in Hin as [Hin|Hin%list_elem_of_singleton]; [by apply H2|]. subst n. rewrite E in En. injection En as <-. by apply Hb.
  - eapply safe_inv; [eapply safe_pre; [by apply (commit_copy done)|by intros t []]|done].
  - eapply safe_inv; [eapply safe_pre; [by apply (commit_copy done)|by intros t []]|done].
  - apply safe_fail. intros t [H _]. by apply Hweak.
Qed.
Lemma commit_safe : safe (goodOrOld []) (goodOrOld [])
  (mkdirAll lkg ;; forEach (commitArtifact store candidate) (sortedKeys files) ;; removeManagedTree (rc_Directory candidate) (previousDir candidate))
  (fun _ => goodOrOld (sortedKeys files)).
Proof using Hwb Hman Hcom P1.
  eapply safe_bind with (R := fun _ => goodOrOld []).
  { eapply safe_post; [apply mkdirAll_safe|by intros ? t []]. intros k t Hk Hg Hd Hnone.
    assert (Hx : take (S k) lkg <> []) by (destruct lkg; [cbn in Hk; lia|done]). rewrite at_lookup in Hnone by done.
    apply good_insert; [done|done| |apply (lkg_way_not_previous _ lkg); [apply take_prefix|done]|left; split; [done|apply take_prefix]].
    intros n _ F. apply (f_equal length) in F. rewrite length_take, length_app in F. cbn [length] in F. lia. }
  intros ?. eapply safe_bind; [apply (safe_forEach _ _ goodOrOld (sortedKeys files) [])|].
  { intros done name Hin. apply commit_artifact. by apply sortedKeys_elem. }
  intros ?. cbn [app]. apply removeManagedTree_safe.
  - intros t [Hf Hg]. split; [done|]. intros n r En. destruct (Hg n r En). split; [done|]. by intros []%elem_of_nil.
  - intros x t Hx [Hf Hg].
    assert (Hne : forall n, x <> lkg ++ [n]).
    { intros n ->. apply (store_not_lkg (lkg ++ [n])); [|by apply prefix_app_r]. etrans; [apply root_previous|done]. }
    assert (Hbody : forall n r, files !! n = Some r -> bodyAt (delete x t) (lkg ++ [n]) = bodyAt t (lkg ++ [n])).
    { intros n r _. unfold bodyAt. by rewrite lookup_delete_ne. }
    assert (Hall : allGood (delete x t)).
    { intros n r En. rewrite (Hbody n r En). apply (Hg n r En). apply sortedKeys_elem. by exists r. }
    split.
    + intros y Hy. unfold commitMay. destruct (decide (y = x)) as [->|Hyx]; [right; right; right; by rewrite lookup_delete_eq|].
      rewrite lookup_delete_ne by done.
      destruct (Hf y Hy) as [?|[?|[?|(? & ? & _)]]]; [by left|right; by left|right; right; by left|right; right; by right].
    + intros n r En. rewrite (Hbody n r En). destruct (Hg n r En) as [H1 H2]. split; [|done].
      rewrite lookup_delete_ne by done. done.
Qed.
End Commit.

(** A removed tree is gone. *)
Lemma removeEach_done l : forall w w', removeEach l w = (w', inl tt) ->
  forall x, w_tree w' !! x = if bool_decide (x ∈ l) then None else w_tree w !! x.
Proof.
  induction l as [|p l IH]; intros w w' E x.
  { injection E as <-. rewrite bool_decide_eq_false_2; [done|apply not_elem_of_nil]. }
  cbn [removeEach] in E. apply bind_inl in E as (w1 & [] & E1 & E2). rewrite (IH _ _ E2 x).
  unfold change, bind, fault, fail in E1. destruct (default false _); [done|]. injection E1 as <-. cbn [w_tree].
  destruct (decide (x = p)) as [->|Hx].
  - rewrite (bool_decide_eq_true_2 (p ∈ p :: l)) by (by left). rewrite lookup_delete_eq. by case_bool_decide.
  - rewrite lookup_delete_ne by done. rewrite (bool_decide_ext (x ∈ p :: l) (x ∈ l)); [done|]. rewrite elem_of_cons. tauto.
Qed.
Lemma removeManagedTree_done root target w w' : removeManagedTree root target w = (w', inl tt) ->
  lstat (w_tree w') target = NotExist \/ forall x, target `prefix_of` x -> w_tree w' !! x = None.
Proof.
  unfold removeManagedTree. destruct (_ || _); [done|]. intros E. apply bind_inl in E as (w1 & info & E1 & E2).
  unfold Lstat, bind, fault, ret in E1. destruct (default false _); injection E1 as <- <-; [done|]. cbn [w_tree] in E2.
  assert (Hall : forall w, removeAll target w = (w', inl tt) -> forall x, target `prefix_of` x -> w_tree w' !! x = None).
  { intros v Ev x Hx. rewrite (removeEach_done _ _ _ Ev x). case_bool_decide as Hin; [done|].
    apply eq_None_not_Some. intros [n Hn]. apply Hin, list_elem_of_filter. split; [done|].
    apply list_elem_of_fmap. exists (x, n). split; [done|]. by apply elem_of_map_to_list. }
  destruct (lstat (w_tree w) target) as [[]| |] eqn:El; try done; try (right; by apply (Hall _ E2)).
  left. injection E2 as <-. done.
Qed.

(** ** A run of the constructor *)

Definition sampleWorld : world := World ∅ [] [] [] (Some [bs "srv"]).
Definition sampleGiven : gmap gostr gostr := {[ bs "xray.json" := bs "/run/xray.json"; bs "nginx.conf" := bs "nginx/../nginx.conf" ]}.
Lemma sample_built : exists store, NewCandidateStore (bs "/state/") sampleGiven sampleWorld = (sampleWorld, inl store) /\
  cs_destinations store !! bs "nginx.conf" = Some [bs "srv"; bs "nginx.conf"].
Proof. eexists. split; vm_compute; reflexivity. Qed.
Lemma NewCandidateStore_wellBuilt_witness : exists store, wellBuilt sampleGiven store /\ cs_destinations store !! bs "nginx.conf" = Some [bs "srv"; bs "nginx.conf"].
Proof.
  destruct sample_built as (store & E & Hn). exists store. split; [|exact Hn].
  refine (proj2 (NewCandidateStore_wellBuilt (bs "/state/") sampleGiven sampleWorld sampleWorld store _ E)).
  intros c [= <-]. unfold proper. by_decide.
Defined.
