(* ===== verification/CandidateCorrect.v ===== *)
(** * Candidates: the theorems

    Activation, rollback and commit of [CandidateStore] as the appliance uses them,
    with concrete runs. *)

From Stdlib Require Import String.
From S2P Require Import Prelude GoBase GoSort GoText GoRegexp GoPath Recovery RecoverySafety CandidateStore CandidateSafety CandidatePrepare.
Open Scope Z_scope.
Open Scope io_scope.

Section Claims.
Context {P0 : Platform} {P1 : PlatformLaws} (store : CandidateStore) (Harr : arranged store).

Lemma RollbackAfter_safe candidate t0 receipt prepare : managed store candidate -> startable store candidate t0 -> issued store candidate t0 receipt ->
  (forall f l, prepare = Some f -> readOnly (f l)) ->
  safe (inProgress store candidate t0 (ar_changed receipt)) (inProgress store candidate t0 (ar_changed receipt)) (RollbackAfter store receipt prepare)
    (fun _ t => inProgress store candidate t0 (ar_changed receipt) t /\ restored store t0 (ar_changed receipt) t).
Proof using Harr P1.
  intros Hman Hstart [Hc Hp Hch Hrec] Hprep. eapply safe_bind.
  { apply safe_readOnly; [|intros t H; exact H]. destruct prepare as [f|]; [by apply (Hprep f)|apply readOnly_ret]. }
  intros ?. by apply (rollbackLocked_safe store Harr candidate Hman t0 Hstart (ar_changed receipt) Hch receipt Hc Hp eq_refl Hrec).
Qed.

(** Rollbacks of one receipt that failed. *)
Inductive failedRollbacks (receipt : ActivationReceipt) : world -> world -> list tree -> Prop :=
| rollbacks_none w : failedRollbacks receipt w w []
| rollbacks_more prepare w w1 w2 e l :
    (forall f l, prepare = Some f -> readOnly (f l)) ->
    RollbackAfter store receipt prepare w = (w1, inr e) -> failedRollbacks receipt w1 w2 l -> failedRollbacks receipt w w2 (passed w w1 ++ l).

Lemma failedRollbacks_progress candidate t0 receipt w w' l : managed store candidate -> startable store candidate t0 -> issued store candidate t0 receipt ->
  failedRollbacks receipt w w' l -> inProgress store candidate t0 (ar_changed receipt) (w_tree w) ->
  inProgress store candidate t0 (ar_changed receipt) (w_tree w') /\ Forall (inProgress store candidate t0 (ar_changed receipt)) l.
Proof using Harr P1.
  intros Hman Hstart Hissued Hr. induction Hr as [w|prepare w w1 w2 e l Hprep E _ IH]; intros Hp; [done|].
  pose proof (RollbackAfter_safe candidate t0 receipt prepare Hman Hstart Hissued Hprep) as Hs.
  destruct (Hs _ _ _ E Hp) as [_ H1]. destruct (IH H1) as [H2 H3]. split; [done|]. apply Forall_app. split; [|done].
  by eapply (safe_passed _ _ _ _ w w1 (inr e)) in E as [E _]; [exact E|exact Hs|exact Hp|intros ? t []].
Qed.
End Claims.

(** C5: Activation is safe at every instant.  Whatever operations fail and wherever
    the program stops during [ActivateAfter], every destination holds its old bytes
    or the candidate's, complete; a file that was at a destination is still there or
    in the backup; and the candidate is unharmed.  When activation succeeds every
    artifact of the candidate is in place, and the receipt records exactly what was
    there. *)
Theorem activation_crash_safe {P0 : Platform} {P1 : PlatformLaws} store candidate validate w w' r
    (Harr : arranged store) (Hstart : startable store candidate (w_tree w)) (Hval : forall f l, validate = Some f -> readOnly (f l))
    (H : ActivateAfter store candidate validate w = (w', r)) :
  Forall (crashSafe store candidate (w_tree w)) (passed w w') /\
  match r with inl receipt => managed store candidate /\ activated store candidate (w_tree w) receipt (w_tree w') | inr _ => True end.
Proof.
  apply (safe_passed _ (fun t => t = w_tree w) _ _ w w' r (ActivateAfter_safe store Harr candidate validate (w_tree w) Hstart Hval) H eq_refl).
  intros receipt t (_ & _ & Hp & _). by eapply inProgress_crashSafe.
Qed.

(** C6: Rollback undoes activation.  After a successful activation, and after any
    number of rollbacks that failed part of the way, a rollback that succeeds leaves
    every managed destination with the bytes it had before the activation, and
    absent where it was absent; and at every instant in between each destination
    holds old or new bytes and the old bytes are not lost. *)
Theorem activation_rollback_roundtrip {P0 : Platform} {P1 : PlatformLaws} store candidate validate prepare w w1 w2 w3 receipt failed
    (Harr : arranged store) (Hstart : startable store candidate (w_tree w))
    (Hval : forall f l, validate = Some f -> readOnly (f l)) (Hprep : forall f l, prepare = Some f -> readOnly (f l))
    (Hact : ActivateAfter store candidate validate w = (w1, inl receipt)) (Hfail : failedRollbacks store receipt w1 w2 failed)
    (Hroll : RollbackAfter store receipt prepare w2 = (w3, inl tt)) :
  (forall name d, cs_destinations store !! name = Some d -> sameFile (w_tree w3 !! d) (w_tree w !! d)) /\
  Forall (crashSafe store candidate (w_tree w)) (passed w w1 ++ failed ++ passed w2 w3).
Proof.
  pose proof (ActivateAfter_safe store Harr candidate validate (w_tree w) Hstart Hval) as Ha.
  destruct (safe_passed _ (fun t => t = w_tree w) _ _ w w1 (inl receipt) Ha Hact eq_refl) as [F1 (Hman & Hissued & Hp & _)].
  { intros receipt' t (_ & _ & Hp & _). by eapply inProgress_crashSafe. }
  destruct (failedRollbacks_progress store Harr candidate (w_tree w) receipt w1 w2 failed Hman Hstart Hissued Hfail Hp) as [Hp2 F2].
  pose proof (RollbackAfter_safe store Harr candidate (w_tree w) receipt prepare Hman Hstart Hissued Hprep) as Hr.
  destruct (safe_passed _ _ _ _ w2 w3 (inl tt) Hr Hroll Hp2) as [F3 [Hp3 Hres]]; [by intros ? t []|]. split.
  - intros name d Hn. destruct (decide (name ∈ ar_changed receipt)) as [Hin|Hout]; [by apply (Hres name)|].
    rewrite (ip_rest _ _ _ _ _ Hp3 name d Hn Hout). apply sameFile_refl.
  - rewrite !Forall_app. split_and!; [done|eapply Forall_impl; [exact F2|]|eapply Forall_impl; [exact F3|]]; intros t; apply inProgress_crashSafe.
Qed.

(** A candidate that is loaded has been verified: its directory, its manifest and
    the digest of every artifact. *)
Theorem Load_verifies {P0 : Platform} store given revision w w' candidate (Hwb : wellBuilt given store)
    (H : Load store revision w = (w', inl candidate)) : w_tree w' = w_tree w /\ verifiedCandidate store revision (w_tree w) candidate.
Proof.
  split; [by apply (readOnly_loadLocked _ _ _ _ _ _ H)|]. by apply (loadLocked_verified store given Hwb) in H as [H _].
Qed.

Lemma whole_verified {P0 : Platform} store given revision artifacts text t0 t : wellBuilt given store -> simpleName revision ->
  (forall name, is_Some (artifacts !! name) <-> is_Some (cs_destinations store !! name)) ->
  unmarshalManifest text = Some (Manifest (hexSHA256 <$> artifacts) revision) ->
  base store revision t0 (whole artifacts text) t ->
  verifiedCandidate store revision t (candidateFromManifest (cs_root store ++ [revision]) (Manifest (hexSHA256 <$> artifacts) revision)) /\
  forall name body, artifacts !! name = Some body -> t !! ((cs_root store ++ [revision]) ++ [name]) = Some (File mode600 body).
Proof.
  intros Hwb Hrev Hnames Hjson [Hs _]. set (candidate := candidateFromManifest _ _).
  assert (Hbody : forall name body, artifacts !! name = Some body -> t !! ((cs_root store ++ [revision]) ++ [name]) = Some (File mode600 body)).
  { intros name body E. rewrite Hs. cbn. rewrite lookup_insert_ne; [by rewrite E|]. intros <-.
    destruct (proj1 (Hnames _) (mk_is_Some _ _ E)) as [d Hd]. by destruct (wb_simple _ _ Hwb _ _ Hd). }
  assert (Hfile : forall name p, rc_Files candidate !! name = Some p -> exists body, artifacts !! name = Some body /\
    is_Some (cs_destinations store !! name) /\ p = (cs_root store ++ [revision]) ++ [name]).
  { intros name p Hf. unfold candidate in Hf. rewrite candidateFiles in Hf. cbn [cm_Artifacts] in Hf. rewrite lookup_fmap in Hf.
    destruct (artifacts !! name) as [body|] eqn:E; [|done]. injection Hf as <-. destruct (proj1 (Hnames name) (mk_is_Some _ _ E)) as [d Hd].
    exists body. split_and!; [done|by exists d|]. apply Join_simple. by eapply (wb_simple _ _ Hwb). }
  split; [|done]. split_and!; [split_and!; [done|done|]|done| |].
  - intros name p Hf. by destruct (Hfile name p Hf) as (? & _ & ? & ?).
  - apply set_eq. intros name. unfold candidate. rewrite !elem_of_dom, candidateFiles, fmap_is_Some. cbn [cm_Artifacts].
    rewrite lookup_fmap, fmap_is_Some. apply Hnames.
  - exists mode600, text, (Manifest (hexSHA256 <$> artifacts) revision). split_and!; [|done|done|].
    + change (cs_root store ++ [revision; bs "manifest.json"]) with (cs_root store ++ [revision] ++ [bs "manifest.json"]).
      rewrite app_assoc, Hs. cbn. by rewrite lookup_insert_eq.
    + intros name p Hf. destruct (Hfile name p Hf) as (body & E & _ & ->). exists mode600, body. rewrite (Hbody name body E). cbn. by rewrite lookup_fmap, E.
Qed.

(** What [Prepare] passes through. *)
Definition preparing {P0 : Platform} (store : CandidateStore) (revision : gostr) (artifacts : gmap gostr gostr) (t0 : tree) : tree -> Prop :=
  wholeOrOld store revision artifacts (default [] (marshalManifest (Manifest (hexSHA256 <$> artifacts) revision))) t0.

(** C7: A candidate appears complete or not at all.  Whatever fails and wherever the
    program stops during [Prepare], the candidate's directory is exactly as it was,
    or absent, or holds exactly the rendered artifacts and their manifest; and
    nothing outside the candidates' directory changes but the way to it.  When
    [Prepare] succeeds, the candidate passes the verification of [Load], belongs to
    the store, and every artifact's file has the digest of the rendered bytes. *)
Theorem Prepare_atomic {P0 : Platform} {P1 : PlatformLaws} store given revision artifacts w w' r (Hwb : wellBuilt given store)
    (Hjson : forall m b, marshalManifest m = Some b -> unmarshalManifest b = Some m)
    (H : Prepare store revision artifacts w = (w', r)) :
  Forall (preparing store revision artifacts (w_tree w)) (passed w w') /\
  match r with
  | inl candidate => verifiedCandidate store revision (w_tree w') candidate /\
      forall name body, artifacts !! name = Some body ->
        exists p m stored, rc_Files candidate !! name = Some p /\ w_tree w' !! p = Some (File m stored) /\ hexSHA256 stored = hexSHA256 body
  | inr _ => True
  end.
Proof.
  destruct (MatchString candidateRevisionPattern revision) eqn:Hr.
  2: { unfold Prepare in H. rewrite Hr in H. injection H as <- <-. unfold passed. rewrite drop_all. split; [|done]. constructor; [|done]. left. apply base_start. }
  apply revision_simple in Hr. unfold preparing. set (text := default [] _).
  assert (Htext : forall b, marshalManifest (Manifest (hexSHA256 <$> artifacts) revision) = Some b -> b = text) by (intros b E; unfold text; by rewrite E).
  destruct (safe_passed _ _ _ _ w w' r (Prepare_safe store given Hwb revision Hr artifacts text (w_tree w) Htext) H eq_refl) as [F Hres].
  { intros candidate t [[(Hb & _)|(Hb & _)] _]; [by right; right|by left]. }
  split; [done|]. destruct r as [candidate|e]; [|done]. destruct Hres as [[(Hb & -> & Hm)|(Hb & Hv & Hd)] Hnames].
  - destruct (whole_verified store given revision artifacts text (w_tree w) (w_tree w') Hwb Hr Hnames (Hjson _ _ Hm) Hb) as [Hver Hfiles].
    split; [done|]. intros name body E. exists ((cs_root store ++ [revision]) ++ [name]), mode600, body. split_and!; [|by apply Hfiles|done].
    rewrite candidateFiles. cbn [cm_Artifacts]. rewrite lookup_fmap, E. cbn. f_equal. apply Join_simple.
    destruct (proj1 (Hnames name) (mk_is_Some _ _ E)) as [d Hn]. by eapply (wb_simple _ _ Hwb).
  - destruct Hv as (Hman & Hrev & Hdom & m & txt & manifest & E1 & E2 & E3 & E4).
    assert (Hat : forall y, w_tree w' !! ((cs_root store ++ [revision]) ++ y) = w_tree w !! ((cs_root store ++ [revision]) ++ y)) by apply Hb.
    assert (Hsame : forall name p, rc_Files candidate !! name = Some p -> w_tree w' !! p = w_tree w !! p).
    { intros name p Hf. destruct Hman as (_ & Hdir & Hin). destruct (Hin name p Hf) as [_ ->]. rewrite Hdir, Hrev. apply Hat. }
    split.
    + split_and!; [done|done|done|]. exists m, txt, manifest. split_and!; [|done|done|].
      * rewrite <- E1. change (cs_root store ++ [revision; bs "manifest.json"]) with (cs_root store ++ [revision] ++ [bs "manifest.json"]). by rewrite app_assoc, Hat.
      * intros name p Hf. rewrite (Hsame name p Hf). by apply E4.
    + intros name body E. assert (Hn : is_Some (rc_Files candidate !! name)) by (apply elem_of_dom; rewrite Hdom; apply elem_of_dom, Hnames; by exists body).
      destruct Hn as [p Hf]. destruct (Hd name p Hf) as (m' & stored & Hp & Hh). exists p, m', stored. rewrite (Hsame name p Hf). split_and!; [done|done|].
      by rewrite lookup_fmap, E in Hh.
Qed.

(** C9: Committing a candidate makes it the last known good.  Wherever
    [CommitLastKnownGood] stops, the place of each artifact in the
    last-known-good directory holds what it held before or the candidate's bytes,
    complete; and every other path is unchanged, but for directories made on the
    way to that directory, new temporary files of the artifacts in it, and, only
    once every artifact is in place, removed parts of the activation's backup.
    When it succeeds, every artifact of the candidate is in the directory, byte
    for byte, and the backup is gone.  The candidate's files must be files and no
    link may be in the place of an artifact. *)
Theorem CommitLastKnownGood_complete {P0 : Platform} {P1 : PlatformLaws} store given candidate w w' r
    (Harr : arranged store) (Hwb : wellBuilt given store) (Hcom : committable store candidate (w_tree w))
    (H : CommitLastKnownGood store candidate w = (w', r)) :
  Forall (goodOrOld store candidate (w_tree w) []) (passed w w') /\
  match r with
  | inl _ =>
      (forall name p, rc_Files candidate !! name = Some p -> bodyAt (w_tree w') (cs_lkg store ++ [name]) = bodyAt (w_tree w) p) /\
      (lstat (w_tree w') (previousDir candidate) = NotExist \/
       forall x, previousDir candidate `prefix_of` x -> w_tree w' !! x = None)
  | inr _ => True
  end.
Proof.
  assert (Hstart : goodOrOld store candidate (w_tree w) [] (w_tree w)).
  { split; [by left|]. intros name p _. split; [by left|]. by intros []%elem_of_nil. }
  assert (Hs : safe (goodOrOld store candidate (w_tree w) []) (fun t => t = w_tree w) (CommitLastKnownGood store candidate)
    (fun _ => goodOrOld store candidate (w_tree w) (sortedKeys (rc_Files candidate)))).
  { unfold CommitLastKnownGood. rewrite Join_previous. fold (previousDir candidate).
    eapply safe_bind with (R := fun _ t => t = w_tree w /\ managed store candidate).
    { intros v v' q E Hv. destruct (readOnly_validateCandidate _ _ _ _ _ E) as [Et Eh]. rewrite Et, Eh, Hv. split; [exists []; by rewrite app_nil_r|].
      destruct q as [[]|]; [|done]. split; [done|]. by eapply validate_managed. }
    intros ?. apply safe_assume. intros Hman. eapply safe_pre; [by apply (commit_safe store given Hwb)|]. by intros t ->. }
  destruct (safe_passed _ _ _ _ w w' r Hs H eq_refl) as [F Hres].
  { intros ? t [Hf Hg]. split; [done|]. intros n q En. destruct (Hg n q En). split; [done|]. by intros []%elem_of_nil. }
  split; [done|]. destruct r as [[]|]; [|done]. split.
  - intros name p Hf. destruct Hres as [_ Hg]. apply (Hg name p Hf). apply sortedKeys_elem. by exists p.
  - unfold CommitLastKnownGood in H. rewrite Join_previous in H. apply bind_inl in H as (w1 & _ & _ & H).
    apply bind_inl in H as (w2 & _ & _ & H). apply bind_inl in H as (w3 & _ & _ & H). by eapply removeManagedTree_done.
Qed.

(** ** Runs *)

(** A manifest as bytes, for the runs: its number in binary. *)
Fixpoint bitsOf (n : positive) : gostr := match n with xH => [] | xO n => x30 :: bitsOf n | xI n => x31 :: bitsOf n end.
Fixpoint ofBits (s : gostr) : positive := match s with [] => xH | b :: s => if bool_decide (b = x31) then xI (ofBits s) else xO (ofBits s) end.
Lemma ofBits_bitsOf n : ofBits (bitsOf n) = n.
Proof. induction n as [n IH|n IH|]; cbn; [by rewrite IH|by rewrite IH|done]. Qed.
Definition manifestPair (m : candidateManifest) : gmap gostr gostr * gostr := (cm_Artifacts m, cm_Revision m).
Definition demoMarshal (m : candidateManifest) : option gostr := Some (bitsOf (encode (manifestPair m))).
Definition demoUnmarshal (s : gostr) : option candidateManifest := (fun p => Manifest p.1 p.2) <$> decode (A:=gmap gostr gostr * gostr) (ofBits s).

(** A platform without links that copies three bytes at a time. *)
Fixpoint inThrees (s : gostr) : list gostr :=
  match s with a :: b :: c :: s => [a; b; c] :: inThrees s | [] => [] | s => [s] end.
Lemma concat_inThrees s : concat (inThrees s) = s.
Proof.
  induction s as [s IH] using (induction_ltof1 _ (@length _)). destruct s as [|a [|b [|c s]]]; try done.
  cbn. rewrite IH; [done|]. unfold ltof. cbn. lia.
Qed.
Definition demoDigest (s : gostr) : gostr := repeat x61 (64 - length s) ++ ((fun b => if ascii_space b then x62 else x63) <$> take 64 s).
Definition demoPlatform : Platform := {|
  linkTarget _ := None; dirSize _ := 4096; pieces := inThrees; hexSHA256 := demoDigest; marshalManifest := demoMarshal; unmarshalManifest := demoUnmarshal |}.
#[local] Existing Instance demoPlatform.
#[local] Instance demoLaws : PlatformLaws.
Proof. split. apply concat_inThrees. Qed.

Definition demoRoot : path := [bs "state"; bs "runtime-candidates"].
Definition demoRevision : gostr := repeat x61 64.
Definition demoStore : CandidateStore :=
  Store demoRoot [bs "state"; bs "runtime-lkg"] {[ bs "xray.json" := [bs "run"; bs "xray.json"]; bs "nginx.conf" := [bs "run"; bs "nginx"; bs "nginx.conf"] ]}.
Definition demoDirectory : path := demoRoot ++ [demoRevision].
Definition demoCandidate : RuntimeCandidate :=
  Candidate demoRevision demoDirectory {[ bs "xray.json" := demoDirectory ++ [bs "xray.json"]; bs "nginx.conf" := demoDirectory ++ [bs "nginx.conf"] ]}.
Definition demoTree : tree :=
  {[ [bs "state"] := Dir; demoRoot := Dir; demoDirectory := Dir; [bs "run"] := Dir;
     demoDirectory ++ [bs "xray.json"] := File mode600 (bs "new xray"); demoDirectory ++ [bs "nginx.conf"] := File mode600 (bs "new nginx");
     [bs "run"; bs "xray.json"] := File 420 (bs "old xray") ]}.
Definition demoWorld (faults : list bool) : world := World demoTree faults [bs "1"; bs "2"; bs "3"; bs "4"; bs "5"; bs "6"; bs "7"; bs "8"] [] (Some []).


Ltac demo_dest H := cbv [cs_destinations demoStore rc_Files demoCandidate] in H; apply lookup_insert_Some in H as [[<- <-]|[_ H]]; [|apply lookup_singleton_Some in H as [<- <-]].
Lemma demo_arranged : arranged demoStore.
Proof.
  split.
  - intros name d H. demo_dest H; (split; [reflexivity|split; [split; [|split]; discriminate|discriminate]]).
  - intros name d H. demo_dest H; unfold proper; by_decide.
  - intros name d H. demo_dest H; by_decide.
  - unfold proper. by_decide.
  - intros name name' d d' H H' Hp. pose proof (bool_decide_eq_true_2 (d `prefix_of` d') Hp) as Hb. demo_dest H; demo_dest H'; first [reflexivity|vm_compute in Hb; discriminate Hb].
  - intros name d H. demo_dest H; by_decide.
  - intros name d H. demo_dest H; by_decide.
Qed.
Lemma demo_startable : startable demoStore demoCandidate demoTree.
Proof.
  split; [|split].
  - intros name p H. demo_dest H; eexists _, _; vm_compute; reflexivity.
  - intros name d H. demo_dest H; by_decide.
  - intros name d H i k Hk Hi Hat. demo_dest H.
    + destruct k as [|[|k]]; [reflexivity|vm_compute; reflexivity|cbn in Hi; lia].
    + destruct k as [|[|[|k]]]; [reflexivity|vm_compute; reflexivity| |cbn in Hi; lia].
      exfalso. assert (i = 3%nat) as -> by (cbn in Hi; lia). apply Hat. vm_compute. reflexivity.
Qed.

(** Every operation from the fifty-first on fails: in the middle of publication. *)
Definition brokenWorld : world := demoWorld (repeat false 50 ++ repeat true 200).
Definition brokenRun : world * (ActivationReceipt + ioerr) := ActivateAfter demoStore demoCandidate None brokenWorld.
Lemma noCallback {A : Type} (f : A -> M unit) l : None = Some f -> readOnly (f l).
Proof. done. Qed.

Lemma broken_gives : ActivateAfter demoStore demoCandidate None brokenWorld = (brokenRun.1, brokenRun.2).
Proof. unfold brokenRun. apply surjective_pairing. Qed.
Lemma activation_crash_safe_witness : Forall (crashSafe demoStore demoCandidate (w_tree brokenWorld)) (passed brokenWorld brokenRun.1).
Proof.
  exact (proj1 (activation_crash_safe demoStore demoCandidate None brokenWorld brokenRun.1 brokenRun.2
    demo_arranged demo_startable (fun f l => noCallback f l) broken_gives)).
Defined.

(** When a publication fails and putting back what was published fails too,
    activation reports only the first error: one artifact is the candidate's, the
    other the old one, and no receipt tells it. *)
Theorem failed_activation_left_mixed :
  is_Some (match brokenRun.2 with inl _ => None | inr e => Some e end) /\
  bodyAt (w_tree brokenRun.1) [bs "run"; bs "nginx"; bs "nginx.conf"] = Some (bs "new nginx") /\
  bodyAt (w_tree brokenRun.1) [bs "run"; bs "xray.json"] = Some (bs "old xray").
Proof. split_and!; [eexists; vm_compute; reflexivity|vm_compute; reflexivity|vm_compute; reflexivity]. Qed.

(** An activation, a rollback one of whose copies fails, and another rollback. *)
Definition roundWorld : world := demoWorld (repeat false 68 ++ [true]).
Definition activateRun : world * (ActivationReceipt + ioerr) := ActivateAfter demoStore demoCandidate None roundWorld.
Definition noReceipt : ActivationReceipt := Receipt demoCandidate [] ∅ [].
Definition demoReceipt : ActivationReceipt := match activateRun.2 with inl r => r | inr _ => noReceipt end.
Definition failedRun : world * (unit + ioerr) := RollbackAfter demoStore demoReceipt None activateRun.1.
Definition rollbackRun : world * (unit + ioerr) := RollbackAfter demoStore demoReceipt None failedRun.1.
Definition succeeded {A : Type} (r : A + ioerr) : bool := match r with inl _ => true | inr _ => false end.
Lemma demoRuns : (succeeded activateRun.2, succeeded failedRun.2, succeeded rollbackRun.2) = (true, false, true).
Proof. vm_compute. reflexivity. Qed.
Lemma activate_gives : ActivateAfter demoStore demoCandidate None roundWorld = (activateRun.1, inl demoReceipt).
Proof.
  pose proof (f_equal (fun x => x.1.1) demoRuns) as H. cbn [fst] in H. unfold demoReceipt. change (ActivateAfter demoStore demoCandidate None roundWorld) with activateRun.
  destruct activateRun as [w [r|e]]; [reflexivity|discriminate H].
Qed.
Lemma failed_gives : exists e, RollbackAfter demoStore demoReceipt None activateRun.1 = (failedRun.1, inr e).
Proof.
  pose proof (f_equal (fun x => x.1.2) demoRuns) as H. cbn [fst snd] in H. change (RollbackAfter demoStore demoReceipt None activateRun.1) with failedRun.
  destruct failedRun as [w [r|e]]; [discriminate H|eauto].
Qed.
Lemma rollback_gives : RollbackAfter demoStore demoReceipt None failedRun.1 = (rollbackRun.1, inl tt).
Proof.
  pose proof (f_equal snd demoRuns) as H. cbn [snd] in H. change (RollbackAfter demoStore demoReceipt None failedRun.1) with rollbackRun.
  destruct rollbackRun as [w [[]|e]]; [reflexivity|discriminate H].
Qed.

Lemma demo_xray_destination : cs_destinations demoStore !! bs "xray.json" = Some [bs "run"; bs "xray.json"].
Proof. vm_compute. reflexivity. Qed.
Lemma activation_rollback_roundtrip_witness : sameFile (w_tree rollbackRun.1 !! [bs "run"; bs "xray.json"]) (w_tree roundWorld !! [bs "run"; bs "xray.json"]).
Proof.
  destruct failed_gives as [e Hf].
  exact (proj1 (activation_rollback_roundtrip demoStore demoCandidate None None roundWorld activateRun.1 failedRun.1 rollbackRun.1
    demoReceipt (passed activateRun.1 failedRun.1 ++ []) demo_arranged demo_startable (fun f l => noCallback f l) (fun f l => noCallback f l) activate_gives
    (rollbacks_more demoStore demoReceipt None activateRun.1 failedRun.1 failedRun.1 e [] (fun f l => noCallback f l) Hf (rollbacks_none _ _ _)) rollback_gives) _ _ demo_xray_destination).
Defined.

(** *** Preparation and commit *)

Definition demoGiven : gmap gostr gostr := {[ bs "xray.json" := bs "/run/xray.json"; bs "nginx.conf" := bs "/run/nginx/nginx.conf" ]}.
Lemma demo_wellBuilt : wellBuilt demoGiven demoStore.
Proof.
  split.
  - by_decide.
  - intros name d H. demo_dest H; (split; [split; [reflexivity|split; [split; [|split]; discriminate|discriminate]]|discriminate]).
  - intros name d H. demo_dest H; unfold proper; by_decide.
  - intros name d H. demo_dest H; by_decide.
  - intros name name' d H H'. by apply (arr_apart _ demo_arranged name name' d d).
  - unfold proper. by_decide.
Qed.
Lemma demo_json m b : marshalManifest m = Some b -> unmarshalManifest b = Some m.
Proof.
  intros [= <-]. cbn. unfold demoUnmarshal. rewrite ofBits_bitsOf, decode_encode. by destruct m.
Qed.

(** The directory of the revision exists already, without a manifest. *)
Definition demoArtifacts : gmap gostr gostr := {[ bs "xray.json" := bs "next xray"; bs "nginx.conf" := bs "next nginx" ]}.
Definition prepareRun : world * (RuntimeCandidate + ioerr) := Prepare demoStore demoRevision demoArtifacts (demoWorld []).
Lemma prepare_succeeds : succeeded prepareRun.2 = true.
Proof. vm_compute. reflexivity. Qed.
Lemma prepare_gives : exists candidate, Prepare demoStore demoRevision demoArtifacts (demoWorld []) = (prepareRun.1, inl candidate).
Proof.
  pose proof prepare_succeeds as H. change (Prepare demoStore demoRevision demoArtifacts (demoWorld [])) with prepareRun.
  destruct prepareRun as [w [candidate|e]]; [eauto|discriminate H].
Qed.
Lemma Prepare_atomic_witness : exists candidate, verifiedCandidate demoStore demoRevision (w_tree prepareRun.1) candidate.
Proof.
  destruct prepare_gives as [candidate E]. exists candidate.
  exact (proj1 (proj2 (Prepare_atomic demoStore demoGiven demoRevision demoArtifacts (demoWorld []) prepareRun.1 (inl candidate) demo_wellBuilt demo_json E))).
Defined.

Lemma demo_committable : committable demoStore demoCandidate demoTree.
Proof.
  split.
  - apply demo_startable.
  - intros name [p H]. demo_dest H; by_decide.
Qed.
Definition commitRun : world * (unit + ioerr) := CommitLastKnownGood demoStore demoCandidate (demoWorld []).
Lemma commit_succeeds : succeeded commitRun.2 = true.
Proof. vm_compute. reflexivity. Qed.
Lemma commit_gives : CommitLastKnownGood demoStore demoCandidate (demoWorld []) = (commitRun.1, inl tt).
Proof.
  pose proof commit_succeeds as H. change (CommitLastKnownGood demoStore demoCandidate (demoWorld [])) with commitRun.
  destruct commitRun as [w [[]|e]]; [reflexivity|discriminate H].
Qed.
Lemma demo_nginx_source : rc_Files demoCandidate !! bs "nginx.conf" = Some (demoDirectory ++ [bs "nginx.conf"]).
Proof. vm_compute. reflexivity. Qed.
Lemma CommitLastKnownGood_complete_witness :
  bodyAt (w_tree commitRun.1) (cs_lkg demoStore ++ [bs "nginx.conf"]) = bodyAt (w_tree (demoWorld [])) (demoDirectory ++ [bs "nginx.conf"]).
Proof.
  exact (proj1 (proj2 (CommitLastKnownGood_complete demoStore demoGiven demoCandidate (demoWorld []) commitRun.1 (inl tt) demo_arranged demo_wellBuilt demo_committable commit_gives)) _ _ demo_nginx_source).
Defined.
