(* ===== verification/Watchdog.v ===== *)
(** * The runtime watchdog

    Models [internal/watchdog/watchdog.go], [deep_checks.go] and
    [core_recovery.go] with the readiness lease of
    [internal/runtimeproof/lease.go].  The watchdog checks the appliance in
    cycles: it publishes a readiness lease while everything is verified,
    withdraws it otherwise, and restarts the container after a streak of failed
    cycles within an hourly budget.  Files are part of the state; what a cycle
    reads from the clock, the processes, the API and the probes is its
    observation. *)

From Stdlib Require Import String.
From S2P Require Import Prelude GoBase GoText ApplyGuard.
Open Scope Z_scope.

(** ** Settings *)

Definition defaultInterval : Z := 5.
Definition defaultFailureThreshold : Z := 3.
Definition defaultRecoveryThreshold : Z := 3.
Definition defaultRestartBudget : Z := 6.
Definition defaultDeepInterval : Z := 30.
Definition defaultStartupGrace : Z := 210.
Definition controlPlaneThreshold : Z := 24.
Definition deepProbeTimeout : Z := 15 * second.

Record settings := Settings {
  se_interval : Z; se_failureThreshold : Z; se_recoveryThreshold : Z; se_restartBudget : Z; se_deepInterval : Z; se_startupGrace : Z }.

Definition boundedInt (value : gostr) (fallback minimum maximum : Z) : Z :=
  if (5 <? length value)%nat then fallback
  else match ParseInt value 64 with
       | Some parsed => if (parsed <? minimum) || (maximum <? parsed) then fallback else parsed
       | None => fallback
       end.

(** [strings.Trim] with the two quote characters. *)
Definition is_quote (b : byte) : bool := bool_decide (b = x22) || bool_decide (b = x27).
Fixpoint trim_quotes_left (s : gostr) : gostr :=
  match s with b :: r => if is_quote b then trim_quotes_left r else s | [] => [] end.
Definition trim_quotes (s : gostr) : gostr := rev (trim_quotes_left (rev (trim_quotes_left s))).

Definition parse_setting (result : gmap gostr gostr) (raw : gostr) : gmap gostr gostr :=
  let line := TrimSpace raw in
  match line with
  | [] => result
  | b :: _ =>
      if bool_decide (b = x23) then result
      else match Cut line x3d with
           | None => result
           | Some (key, value) => <[TrimSpace key := trim_quotes (TrimSpace value)]> result
           end
  end.
Definition parseSettingsFile (data : gostr) : gmap gostr gostr := foldl parse_setting ∅ (Split data x0a).

Definition kInterval := bs "SB_WATCHDOG_INTERVAL_SECONDS".
Definition kFailure := bs "SB_WATCHDOG_FAILURE_THRESHOLD".
Definition kRecovery := bs "SB_WATCHDOG_RECOVERY_THRESHOLD".
Definition kRestarts := bs "SB_WATCHDOG_MAX_RESTARTS_PER_HOUR".
Definition kDeep := bs "SB_WATCHDOG_DEEP_PROBE_INTERVAL_SECONDS".
Definition kGrace := bs "SB_WATCHDOG_STARTUP_GRACE_SECONDS".

(** [envOr]: an unset or empty variable gives the fallback. *)
Definition envOr (getenv : gostr -> gostr) (name fallback : gostr) : gostr :=
  match getenv name with [] => fallback | v => v end.

(** [loadSettings]: the environment, overridden by the settings file except for
    the startup grace. *)
Definition loadSettings (getenv : gostr -> gostr) (file : option gostr) : settings :=
  let parsed := match file with Some data => parseSettingsFile data | None => ∅ end in
  let value key fallback :=
    match parsed !! key with
    | Some v => if bool_decide (key = kGrace) then envOr getenv key fallback else v
    | None => envOr getenv key fallback
    end in
  Settings
    (boundedInt (value kInterval (Itoa defaultInterval)) defaultInterval 5 300 * second)
    (boundedInt (value kFailure (Itoa defaultFailureThreshold)) defaultFailureThreshold 1 20)
    (boundedInt (value kRecovery (Itoa defaultRecoveryThreshold)) defaultRecoveryThreshold 1 20)
    (boundedInt (value kRestarts (Itoa defaultRestartBudget)) defaultRestartBudget 1 60)
    (boundedInt (value kDeep (Itoa defaultDeepInterval)) defaultDeepInterval 10 300 * second)
    (boundedInt (value kGrace (Itoa defaultStartupGrace)) defaultStartupGrace 0 300 * second).

(** ** Reasons and failure classes *)

Inductive reason :=
| ApiConfigured | ApiReady | CoreProcess | CoreConfig | CoreStartup | DeepProbe | ListenerInventory
| TcpListenerInventory | UdpListenerInventory | TcpListener | UdpListener | DnsLaneConfig | DnsLaneInventory
| DnsLaneTcp | DnsLaneUdp | TproxyPolicyRule | TproxyLocalRoute | TransparentNft.

Inductive failureClass := NoClass | ControlPlane | DataPlane.
#[export] Instance failureClass_eq_dec : EqDecision failureClass.
Proof. solve_decision. Defined.

Definition apiReason (r : reason) : bool := match r with ApiConfigured | ApiReady => true | _ => false end.
Definition controlPlaneOnlyFailure (reasons : list reason) : bool :=
  match reasons with [] => false | _ => forallb apiReason reasons end.
Definition classifyFailure (reasons : list reason) : failureClass :=
  if controlPlaneOnlyFailure reasons then ControlPlane else DataPlane.
Definition nextFailureStreak (previous : failureClass) (count : Z) (reasons : list reason) : failureClass * Z :=
  let current := classifyFailure reasons in
  if negb (bool_decide (current = previous)) then (current, 1) else (current, count +w 1).
Definition failureThresholdForReasons (base : Z) (reasons : list reason) : Z :=
  if negb (controlPlaneOnlyFailure reasons) then base
  else if base <? controlPlaneThreshold then controlPlaneThreshold else base.

Definition recoverySuccessThreshold (configured : Z) (leasePublished liveLease : bool) : Z :=
  if leasePublished && liveLease then 1 else if negb leasePublished then 1 else configured.

(** ** The recovery window of the core *)

Record coreRecoveryWindow := CoreRecoveryWindow { cr_generation : gostr; cr_deadline : option Z }.
Definition verified (w : coreRecoveryWindow) (generation : gostr) : coreRecoveryWindow :=
  match generation with [] => w | _ => CoreRecoveryWindow generation None end.

Definition restartReason (r : reason) : bool :=
  match r with
  | CoreStartup | CoreProcess | TcpListener | UdpListener | TproxyPolicyRule | TproxyLocalRoute | TransparentNft => true
  | _ => false
  end.

Definition deferFailures (w : coreRecoveryWindow) (now maximum : Z) (generation : gostr) (reasons : list reason)
    : bool * coreRecoveryWindow :=
  if bool_decide (cr_generation w = []) || (maximum <=? 0) || match reasons with [] => true | _ => false end
  then (false, w)
  else
    match cr_deadline w with
    | None =>
        if bool_decide (generation = cr_generation w) then (false, w)
        else
          let w := CoreRecoveryWindow (cr_generation w) (Some (now + maximum)) in
          (before now (now + maximum) && forallb restartReason reasons, w)
    | Some deadline => (before now deadline && forallb restartReason reasons, w)
    end.

(** ** Deep checks *)

Record listener := Listener { ln_udp : bool; ln_port : Z }.

(** The cache a probe worker starts from, and what it reports. *)
Record probeCache := ProbeCache {
  pc_configFile : gostr; pc_listenerSig : gostr; pc_dnsFile : gostr; pc_dnsSig : gostr;
  pc_listeners : list listener; pc_dnsPorts : list Z }.
Definition emptyCache : probeCache := ProbeCache [] [] [] [] [] [].
Record probeReport := ProbeReport {
  pr_cache : probeCache; pr_reasons : list reason; pr_healthy : bool; pr_uncertain : bool }.

(** What one run of the probe finds: the signatures of the two files ([None]
    when one cannot be read), the parsed inventories, the socket tables ([None]
    on an error), the independent check of a missing listener ([None] on an
    error), and the three commands as (failed, valid). *)
Record probeEnv := ProbeEnv {
  pv_config : option (gostr * gostr); pv_parsedListeners : option (list listener);
  pv_tcpPorts : option (list Z); pv_udpPorts : option (list Z); pv_probe : bool -> Z -> option bool;
  pv_dns : option (gostr * gostr); pv_parsedPorts : option (list Z);
  pv_rule : bool * bool; pv_route : bool * bool; pv_nft : bool * bool }.

(** [verifyMissingListener] (a port found by the probe is added to the table,
    so that asking again agrees). *)
Definition verifyMissingListener (env : probeEnv) (udp : bool) (port : Z) : option bool :=
  let ports := if udp then pv_udpPorts env else pv_tcpPorts env in
  if bool_decide (port ∈ default [] ports) then Some true else pv_probe env udp port.

(** Reasons with the flag that tells an uncertain one (an error) from a finding. *)
Definition checkListener (env : probeEnv) (udp : bool) (port : Z) (r : reason) : list (reason * bool) :=
  match verifyMissingListener env udp port with
  | Some true => []
  | Some false => [(r, false)]
  | None => [(r, true)]
  end.
Definition markCommand (r : reason) (outcome : bool * bool) : list (reason * bool) :=
  let '(failed, valid) := outcome in
  if failed then [(r, true)] else if valid then [] else [(r, false)].

Definition runDeepProbe (c : probeCache) (env : probeEnv) : probeReport :=
  let '(c, m1) :=
    match pv_config env with
    | None => (c, [(CoreConfig, false)])
    | Some (file, sig) =>
        if negb (bool_decide (sig = pc_listenerSig c)) then
          match pv_parsedListeners env with
          | None => (c, [(ListenerInventory, false)])
          | Some l => (ProbeCache file sig (pc_dnsFile c) (pc_dnsSig c) l (pc_dnsPorts c), [])
          end
        else (ProbeCache file (pc_listenerSig c) (pc_dnsFile c) (pc_dnsSig c) (pc_listeners c) (pc_dnsPorts c), [])
    end in
  let m2 := match pv_tcpPorts env with None => [(TcpListenerInventory, true)] | Some _ => [] end in
  let m3 := match pv_udpPorts env with None => [(UdpListenerInventory, true)] | Some _ => [] end in
  let m4 := concat ((fun l => checkListener env (ln_udp l) (ln_port l) (if ln_udp l then UdpListener else TcpListener))
                      <$> pc_listeners c) in
  let '(c, m5) :=
    match pv_dns env with
    | None => (c, [(DnsLaneConfig, false)])
    | Some (file, sig) =>
        if negb (bool_decide (sig = pc_dnsSig c)) then
          match pv_parsedPorts env with
          | None => (c, [(DnsLaneInventory, false)])
          | Some ports => (ProbeCache (pc_configFile c) (pc_listenerSig c) file sig (pc_listeners c) ports, [])
          end
        else (ProbeCache (pc_configFile c) (pc_listenerSig c) file (pc_dnsSig c) (pc_listeners c) (pc_dnsPorts c), [])
    end in
  let m6 := concat ((fun port => checkListener env false port DnsLaneTcp ++ checkListener env true port DnsLaneUdp)
                      <$> pc_dnsPorts c) in
  let marks := m1 ++ m2 ++ m3 ++ m4 ++ m5 ++ m6 ++ markCommand TproxyPolicyRule (pv_rule env)
               ++ markCommand TproxyLocalRoute (pv_route env) ++ markCommand TransparentNft (pv_nft env) in
  let reasons := marks.*1 in
  ProbeReport c reasons (bool_decide (length reasons = 0%nat))
    (negb (bool_decide (length reasons = 0%nat))
     && bool_decide (length (filter (fun m => m.2 = true) marks) = length reasons)).

Record deepTask := DeepTask { dt_identity : gostr; dt_epoch : nat; dt_started : Z; dt_settings : settings; dt_cache : probeCache }.
Record deepChecks := DeepChecks {
  dc_identity : gostr; dc_epoch : nat; dc_proof : option probeReport; dc_verifiedAt : option Z; dc_next : option Z;
  dc_reasons : list reason; dc_task : option deepTask }.
Definition newDeepChecks : deepChecks := DeepChecks [] 0 None None None [] None.

Definition reset (d : deepChecks) : deepChecks := DeepChecks [] (S (dc_epoch d)) None None None [] (dc_task d).

(** [accept] of a finished probe. *)
Definition accept (d : deepChecks) (task : deepTask) (report : probeReport) (now : Z) : deepChecks :=
  let d := DeepChecks (dc_identity d) (dc_epoch d) (dc_proof d) (dc_verifiedAt d) (dc_next d) (dc_reasons d) None in
  if negb (Nat.eqb (dt_epoch task) (dc_epoch d)) || negb (bool_decide (dt_identity task = dc_identity d))
     || bool_decide (dc_identity d = [])
  then d
  else if pr_healthy report then
    DeepChecks (dc_identity d) (dc_epoch d) (Some report) (Some (dt_started task))
      (Some (dt_started task + se_deepInterval (dt_settings task))) (pr_reasons report) None
  else
    DeepChecks (dc_identity d) (dc_epoch d)
      (if negb (pr_uncertain report) || match dc_proof d with None => true | Some _ => false end then Some report else dc_proof d)
      (dc_verifiedAt d) (Some (now + se_interval (dt_settings task))) (pr_reasons report) None.

(** Receive a result when the worker has one; its report is what the probe
    computes from the snapshot of the cache. *)
Definition receive (d : deepChecks) (result : option probeEnv) (now : Z) : deepChecks :=
  match dc_task d, result with
  | Some task, Some env => accept d task (runDeepProbe (dt_cache task) env) now
  | _, _ => d
  end.

Definition observe (d : deepChecks) (identity : gostr) (current : settings) (now : Z) (result : option probeEnv)
    : (bool * list reason * bool) * deepChecks :=
  let d := if negb (bool_decide (identity = dc_identity d)) then
             let d := reset d in
             DeepChecks identity (dc_epoch d) (dc_proof d) (dc_verifiedAt d) (dc_next d) (dc_reasons d) (dc_task d)
           else d in
  let d := receive d result now in
  if bool_decide (identity = []) then ((false, [], false), d)
  else
    let d :=
      match dc_task d with
      | Some _ => d
      | None =>
          if match dc_next d with None => true | Some next => negb (before now next) end then
            DeepChecks (dc_identity d) (dc_epoch d) (dc_proof d) (dc_verifiedAt d) (dc_next d) (dc_reasons d)
              (Some (DeepTask identity (dc_epoch d) now current (match dc_proof d with Some r => pr_cache r | None => emptyCache end)))
          else d
      end in
    match dc_proof d with
    | None =>
        let pending := match dc_task d with
                       | Some task => bool_decide (dt_identity task = identity) && (0 <=? time_sub now (dt_started task))
                                      && (time_sub now (dt_started task) <? deepProbeTimeout)
                       | None => false end in
        ((false, [], pending), d)
    | Some proof =>
        let fresh := match dc_verifiedAt d with
                     | Some at_ => let age := time_sub now at_ in (0 <=? age) && (age <? se_deepInterval current + deepProbeTimeout)
                     | None => false end in
        if pr_healthy proof && fresh then ((true, [], false), d) else ((false, dc_reasons d, false), d)
    end.

(** [deepProbeIdentity]: the generation with the stamps of the two configuration
    files; [None] is a file that is missing, irregular or empty. *)
Fixpoint identity_loop (acc : gostr) (stats : list (option (Z * Z))) : gostr :=
  match stats with
  | [] => acc
  | None :: _ => []
  | Some (mtime, size) :: stats => identity_loop (acc ++ [x7c] ++ FormatInt mtime ++ [x3a] ++ FormatInt size) stats
  end.
Definition deepProbeIdentity (generation : gostr) (stats : list (option (Z * Z))) : gostr :=
  match generation with [] => [] | _ => identity_loop generation stats end.

(** ** The readiness lease ([runtimeproof/lease.go]) *)

Definition ReadinessLeaseTTL (intervalSeconds : Z) : Z :=
  if intervalSeconds <=? 5 then 15 else if 448 <=? intervalSeconds then 900 else (intervalSeconds *w 2) +w 5.

Definition ReadinessLeaseAge (body : option gostr) (now : Z) : option Z :=
  match body with
  | None => None
  | Some body =>
      let text := TrimSpace body in
      if (12 <? length text)%nat then None
      else match ParseInt text 64 with
           | Some issued => let age := unix now -w issued in if age <? 0 then None else Some age
           | None => None
           end
  end.

Definition liveLease (marker : option gostr) (current : settings) (now : Z) : bool :=
  match ReadinessLeaseAge marker now with
  | Some age => age <=? ReadinessLeaseTTL (Z.quot (se_interval current) second)
  | None => false
  end.

Definition leaseBody (now : Z) : gostr := FormatInt (unix now) ++ [x0a].

(** ** The restart history *)

(** The stamps of a history file; lines that are not integers are skipped. *)
Definition parse_stamps (data : gostr) : list Z := omap (fun line => ParseInt (TrimSpace line) 64) (Split data x0a).
Definition timestampBody (values : list Z) : gostr := concat ((fun v => FormatInt v ++ [x0a]) <$> values).
Definition hour : Z := 3600 * second.
Definition recentStamp (now v : Z) : bool := (unix (now - hour) <? v) && (v <=? unix now).

(** The result of file operations in a cycle: whether reading the history fails
    although it exists, whether writing succeeds. *)
Record fileIO := FileIO { io_readFails : bool; io_writes : bool }.

(** [pruneRestarts] on the count and the history file. *)
Definition pruneRestarts (io : fileIO) (now restarts : Z) (file : option gostr) : Z * option gostr :=
  if io_readFails io then (restarts, file)
  else
    let data := default [] file in
    let valid := filter (fun v => recentStamp now v = true) (parse_stamps data) in
    let normalized := timestampBody valid in
    let file' :=
      match file with
      | None => match valid with [] => file | _ => if io_writes io then Some normalized else file end
      | Some data => if bool_decide (data = normalized) then file else if io_writes io then Some normalized else file
      end in
    (Z.of_nat (length valid), file').

(** [recordRestart]: the new count and history; the evidence file is written
    afterwards. *)
Definition recordRestart (io : fileIO) (now restarts : Z) (file : option gostr) : Z * option gostr :=
  let data := if io_readFails io then [] else default [] file in
  let values := parse_stamps data ++ [unix now] in
  if io_writes io then (restarts +w 1, Some (timestampBody values)) else (restarts, file).

(** ** A cycle of [Run] *)

Record readiness := Readiness { rd_Configured : bool; rd_Ready : bool; rd_ApplyRecoveryPending : bool }.

Record observation := Observation {
  ob_now : Z; ob_now1 : Z; ob_now2 : Z; ob_now3 : Z;      (* successive readings of the clock *)
  ob_alive : Z -> bool;                                   (* processExists *)
  ob_guard : option (option gostr);                       (* the guard file as another process left it since the
                                                             last cycle (Some None: removed); None: untouched *)
  ob_ready : option readiness;                            (* None: the request failed *)
  ob_generation : gostr; ob_process : bool;               (* xrayProcessState *)
  ob_configFile : bool; ob_stats : list (option (Z * Z));
  ob_result : option probeEnv;                            (* a finished deep check *)
  ob_removes : bool; ob_publishes : bool;                 (* the lease can be removed, written *)
  ob_prune1 : fileIO; ob_prune2 : fileIO; ob_record : fileIO;
  ob_cancelled : bool;                                    (* ctx is done at the end of the cycle *)
  ob_late : option probeEnv; ob_lateAt : Z;               (* a deep check that finishes during the wait *)
}.

Record watchdog := MkWatchdog {
  wd_restarts : Z; wd_failures : Z; wd_successes : Z; wd_leasePublished : bool; wd_class : failureClass;
  wd_core : coreRecoveryWindow; wd_deep : deepChecks;
  wd_marker : option gostr; wd_guard : option gostr; wd_history : option gostr }.

Inductive status := Starting | Applying | RecoveryPending | Healthy | Recovering | Degraded | Tripped.
Inductive action :=
| WatchdogStart | ApplyInProgress | RouterosRollbackGuard | AwaitingConfiguration | DeepProbePending | DataplaneReady
| ReadinessHysteresis | CoreRestartPending | ControlPlaneProbeFailed | DataplaneProbeFailed | RestartBudgetExhausted
| ContainerRestart.
Record post := Post { po_state : status; po_healthy : bool; po_failures : Z; po_restarts : Z; po_budget : Z; po_action : action }.

Inductive verdict := Continue | Stop | Terminate.

Definition clearLease (o : observation) (w : watchdog) : watchdog :=
  MkWatchdog (wd_restarts w) (wd_failures w) (wd_successes w) (wd_leasePublished w) (wd_class w) (wd_core w) (wd_deep w)
    (if ob_removes o then None else wd_marker w) (wd_guard w) (wd_history w).
Definition with_counts (w : watchdog) (failures successes : Z) (published : bool) (class : failureClass) : watchdog :=
  MkWatchdog (wd_restarts w) failures successes published class (wd_core w) (wd_deep w) (wd_marker w) (wd_guard w) (wd_history w).
Definition with_deep (w : watchdog) (d : deepChecks) : watchdog :=
  MkWatchdog (wd_restarts w) (wd_failures w) (wd_successes w) (wd_leasePublished w) (wd_class w) (wd_core w) d
    (wd_marker w) (wd_guard w) (wd_history w).
Definition with_core (w : watchdog) (c : coreRecoveryWindow) : watchdog :=
  MkWatchdog (wd_restarts w) (wd_failures w) (wd_successes w) (wd_leasePublished w) (wd_class w) c (wd_deep w)
    (wd_marker w) (wd_guard w) (wd_history w).
Definition with_marker (w : watchdog) (m : option gostr) : watchdog :=
  MkWatchdog (wd_restarts w) (wd_failures w) (wd_successes w) (wd_leasePublished w) (wd_class w) (wd_core w) (wd_deep w)
    m (wd_guard w) (wd_history w).
Definition with_guard (w : watchdog) (g : option gostr) : watchdog :=
  MkWatchdog (wd_restarts w) (wd_failures w) (wd_successes w) (wd_leasePublished w) (wd_class w) (wd_core w) (wd_deep w)
    (wd_marker w) g (wd_history w).
Definition with_history (w : watchdog) (h : Z * option gostr) : watchdog :=
  MkWatchdog h.1 (wd_failures w) (wd_successes w) (wd_leasePublished w) (wd_class w) (wd_core w) (wd_deep w)
    (wd_marker w) (wd_guard w) h.2.

Definition postState (w : watchdog) (current : settings) (s : status) (healthy : bool) (failures : Z) (a : action) : post :=
  Post s healthy failures (wd_restarts w) (se_restartBudget current) a.

(** The state of a cycle that holds back: no lease, no streak, no deep proof. *)
Definition holdBack (o : observation) (w : watchdog) : watchdog :=
  with_deep (with_counts (clearLease o w) 0 0 false NoClass) (reset (wd_deep w)).
Definition afterWait (o : observation) : verdict := if ob_cancelled o then Stop else Continue.

(** The guard file at the start of a cycle: an apply writes, refreshes and
    removes it while the watchdog waits. *)
Definition guardFile (w : watchdog) (o : observation) : option gostr := default (wd_guard w) (ob_guard o).
(** [applyActive]; a guard that is not active is removed by [cycle]. *)
Definition applyActive (w : watchdog) (o : observation) : bool :=
  match guardFile w o with Some data => active data (ob_now o) (ob_alive o) | None => false end.

(** The shallow checks. *)
Definition shallowReasons (o : observation) : list reason :=
  (match ob_ready o with Some r => if rd_Configured r then [] else [ApiConfigured] | None => [ApiConfigured] end)
  ++ (match ob_ready o with Some r => if rd_Ready r then [] else [ApiReady] | None => [ApiReady] end)
  ++ (if negb (bool_decide (ob_generation o = [])) || ob_process o then [] else [CoreProcess])
  ++ (if ob_configFile o then [] else [CoreConfig])
  ++ (if bool_decide (ob_generation o = []) then [CoreStartup] else []).

(** The checks of a cycle that does not hold back: the state after the probes,
    the reasons, and whether a first deep check is pending. *)
Definition check (current : settings) (o : observation) (w : watchdog) : watchdog * list reason * bool :=
  let generation := ob_generation o in
  let w := if negb (bool_decide (generation = cr_generation (wd_core w)))
           then with_counts (clearLease o w) (wd_failures w) (wd_successes w) false (wd_class w) else w in
  let identity := deepProbeIdentity generation (ob_stats o) in
  let w := if negb (bool_decide (identity = dc_identity (wd_deep w)))
           then with_counts (clearLease o w) (wd_failures w) (wd_successes w) false (wd_class w) else w in
  let '(healthy, deepReasons, initialProbe, d) := observe (wd_deep w) identity current (ob_now1 o) (ob_result o) in
  let w := with_deep w d in
  if healthy then (w, shallowReasons o, initialProbe)
  else
    let w := if initialProbe then w else clearLease o w in
    (w, shallowReasons o ++ match deepReasons with [] => [DeepProbe] | _ => deepReasons end, initialProbe).

Definition is_deepProbe (reasons : list reason) : bool := match reasons with [DeepProbe] => true | _ => false end.

(** What a cycle does about the reasons it found. *)
Definition react (current : settings) (o : observation) (w : watchdog) (reasons : list reason) (initialProbe : bool)
    : watchdog * list post * verdict :=
  if initialProbe && is_deepProbe reasons then (w, [postState w current Starting false 0 DeepProbePending], afterWait o)
  else
    match reasons with
    | [] =>
        let w := with_core w (verified (wd_core w) (ob_generation o)) in
        let w := with_counts w 0 (wd_successes w +w 1) (wd_leasePublished w) NoClass in
        let threshold := recoverySuccessThreshold (se_recoveryThreshold current) (wd_leasePublished w)
                           (liveLease (wd_marker w) current (ob_now2 o)) in
        if threshold <=? wd_successes w then
          let w := if ob_publishes o
                   then with_counts (with_marker w (Some (leaseBody (ob_now3 o)))) (wd_failures w) (wd_successes w) true (wd_class w)
                   else w in
          (w, [postState w current Healthy true 0 DataplaneReady], afterWait o)
        else (w, [postState w current Recovering true 0 ReadinessHysteresis], afterWait o)
    | _ =>
        let '(deferred, core) := deferFailures (wd_core w) (ob_now2 o) (se_startupGrace current) (ob_generation o) reasons in
        let w := with_core w core in
        if deferred then
          let w := with_counts (clearLease o w) 0 0 false NoClass in
          (w, [postState w current Recovering false 0 CoreRestartPending], afterWait o)
        else
          let '(class, failures) := nextFailureStreak (wd_class w) (wd_failures w) reasons in
          let w := with_counts w failures 0 (wd_leasePublished w) class in
          let threshold := failureThresholdForReasons (se_failureThreshold current) reasons in
          let lastAction := if controlPlaneOnlyFailure reasons then ControlPlaneProbeFailed else DataplaneProbeFailed in
          let p1 := postState w current Degraded false failures lastAction in
          if threshold <=? failures then
            let w := clearLease o w in
            let w := with_history w (pruneRestarts (ob_prune2 o) (ob_now1 o) (wd_restarts w) (wd_history w)) in
            if se_restartBudget current <=? wd_restarts w then
              let p2 := postState w current Degraded false failures RestartBudgetExhausted in
              (with_counts w 0 (wd_successes w) (wd_leasePublished w) (wd_class w), [p1; p2], afterWait o)
            else
              let w := with_history w (recordRestart (ob_record o) (ob_now1 o) (wd_restarts w) (wd_history w)) in
              (w, [p1; postState w current Tripped false failures ContainerRestart], Terminate)
          else (w, [p1], afterWait o)
    end.

Definition cycle (current : settings) (w : watchdog) (o : observation) : watchdog * list post * verdict :=
  let w := with_history w (pruneRestarts (ob_prune1 o) (ob_now o) (wd_restarts w) (wd_history w)) in
  if applyActive w o then
    let w := holdBack o (with_guard w (guardFile w o)) in (w, [postState w current Applying true 0 ApplyInProgress], afterWait o)
  else
    let w := with_guard w None in
    match ob_ready o with
    | Some (Readiness _ _ true) =>
        let w := holdBack o w in (w, [postState w current RecoveryPending false 0 RouterosRollbackGuard], afterWait o)
    | Some (Readiness false _ false) =>
        let w := holdBack o w in (w, [postState w current Starting true 0 AwaitingConfiguration], afterWait o)
    | _ =>
        let '(w, reasons, initialProbe) := check current o w in
        let '(w, posts, v) := react current o w reasons initialProbe in
        match v with
        | Terminate => (w, posts, v)
        | _ => (with_deep w (receive (wd_deep w) (ob_late o) (ob_lateAt o)), posts, v)
        end
    end.

(** The state before the first cycle: the lease is cleared and the history pruned. *)
Definition start (o : observation) (marker guard history : option gostr) : watchdog :=
  let w := MkWatchdog 0 0 0 false NoClass (CoreRecoveryWindow [] None) newDeepChecks marker guard history in
  let w := clearLease o w in
  with_history w (pruneRestarts (ob_prune1 o) (ob_now o) (wd_restarts w) (wd_history w)).

(** The cycles of [Run] over a sequence of observations: the state, the posts of
    every cycle and, when the loop ended, how.  Leaving the loop removes the lease. *)
Fixpoint loop (current : settings) (w : watchdog) (os : list observation) : watchdog * list (list post) * option verdict :=
  match os with
  | [] => (w, [], None)
  | o :: os =>
      let '(w, posts, v) := cycle current w o in
      match v with
      | Continue => let '(w, rest, v) := loop current w os in (w, posts :: rest, v)
      | _ => (clearLease o w, [posts], Some v)
      end
  end.
