(* ===== verification/WatchdogSafety.v ===== *)
(** * Safety of the runtime watchdog

    Theorems about the cycles of [Watchdog]: a restart needs an uninterrupted
    streak of failures and stays within the hourly budget, the readiness lease
    is only published on verified evidence, and deep checks never revive an
    outdated proof. *)

From Stdlib Require Import String.
From S2P Require Import Prelude GoBase GoText ApplyGuard Watchdog.
Open Scope Z_scope.

(** ** The restart history *)

Lemma newline_not_int n : i64 n -> x0a ∉ FormatInt n.
Proof.
  intros Hn. destruct (FormatInt_bytes n Hn) as [_ H]. rewrite Forall_forall in H. intros Hin.
  specialize (H _ Hin). vm_compute in H. done.
Qed.

Lemma parse_stamps_body vs : Forall i64 vs -> parse_stamps (timestampBody vs) = vs.
Proof.
  unfold parse_stamps, timestampBody. induction 1 as [|v vs Hv _ IH]; [done|].
  rewrite fmap_cons. cbn [concat]. rewrite <- (assoc_L (++)). cbn [app]. rewrite Split_line by (by apply newline_not_int).
  destruct (FormatInt_bytes v Hv) as [Hne Hb]. cbn [omap list_omap].
  rewrite TrimSpace_int, ParseInt_FormatInt by done. f_equal. exact IH.
Qed.

Lemma parse_stamps_i64 data : Forall i64 (parse_stamps data).
Proof.
  unfold parse_stamps. induction (Split data x0a) as [|l ls IH]; simpl; [constructor|].
  destruct (ParseInt (TrimSpace l) 64) as [v|] eqn:E; [|done]. constructor; [|done].
  apply ParseInt_range in E; [|lia]. unfold i64, min_i64, max_i64. lia.
Qed.

(** The restarts of the hour before [now] that a history file records. *)
Definition recent (now : Z) (file : option gostr) : list Z :=
  filter (fun v => recentStamp now v = true) (parse_stamps (default [] file)).

Lemma recent_i64 now file : Forall i64 (recent now file).
Proof.
  unfold recent. apply Forall_forall. intros v [_ Hv]%list_elem_of_filter.
  pose proof (parse_stamps_i64 (default [] file)) as H. rewrite Forall_forall in H. by apply H.
Qed.

Lemma filter_idem now (vs : list Z) : filter (fun v => recentStamp now v = true) (filter (fun v => recentStamp now v = true) vs)
  = filter (fun v => recentStamp now v = true) vs.
Proof. apply filter_all. apply Forall_forall. intros v [H _]%list_elem_of_filter. done. Qed.

Lemma pruneRestarts_spec io now restarts file :
  io_readFails io = false ->
  (pruneRestarts io now restarts file).1 = Z.of_nat (length (recent now file)) /\
  recent now (pruneRestarts io now restarts file).2 = recent now file.
Proof.
  intros Hr. unfold pruneRestarts. rewrite Hr. split; [done|]. simpl.
  fold (recent now file).
  assert (Hn : recent now (Some (timestampBody (recent now file))) = recent now file).
  { unfold recent at 1. simpl. rewrite parse_stamps_body by apply recent_i64. apply filter_idem. }
  destruct file as [data|].
  - case_bool_decide; [done|]. destruct (io_writes io); done.
  - destruct (recent now None) as [|v vs] eqn:E; [by rewrite E|]. destruct (io_writes io); done.
Qed.

Lemma recentStamp_now now : recentStamp now (unix now) = true.
Proof.
  unfold recentStamp. apply andb_true_iff. split; [|by apply Z.leb_refl].
  apply Z.ltb_lt. unfold unix, hour. replace (now - 3600 * second) with (now + (- 3600) * second) by lia.
  rewrite Z.div_add by (unfold second; lia). lia.
Qed.

(** The stamps of the hour after recording a restart. *)
Lemma recordRestart_recent io now restarts file :
  io_readFails io = false -> io_writes io = true -> i64 (unix now) ->
  recent now (recordRestart io now restarts file).2 = recent now file ++ [unix now].
Proof.
  intros Hr Hw Hn. unfold recordRestart. rewrite Hr, Hw. unfold recent. simpl.
  rewrite parse_stamps_body; [|apply Forall_app; split; [apply parse_stamps_i64|by constructor]].
  by rewrite filter_app, (filter_cons_True _ (unix now)) by apply recentStamp_now.
Qed.

(** ** Deep checks *)

(** The first answer of a sequence of receptions. *)
Fixpoint first_answer (rs : list (option probeEnv)) : option probeEnv :=
  match rs with [] => None | Some env :: _ => Some env | None :: rs => first_answer rs end.

Lemma first_answer_app rs env rest : first_answer rs = Some env -> first_answer (rs ++ rest) = Some env.
Proof. induction rs as [|[e|] rs IH]; simpl; auto. done. Qed.

Lemma first_answer_none rs r : Forall (.= None) rs -> first_answer (rs ++ [r]) = r.
Proof. induction 1 as [|x rs -> _ IH]; simpl; [by destruct r|done]. Qed.

(** The invariant of the deep checks.  [began identity task answers] says that
    [task] was started for [identity], which did not change since, and that
    [answers] was received since its start: a task of the current epoch has no
    answer yet, and a healthy proof is the report of the first answer to a task,
    whose start is the time the proof counts from. *)
Definition history_of := gostr -> deepTask -> list (option probeEnv) -> Prop.
Record deep_inv (began : history_of) (d : deepChecks) : Prop := {
  di_task task : dc_task d = Some task -> (dt_epoch task <= dc_epoch d)%nat /\
    (dt_epoch task = dc_epoch d -> dt_identity task = dc_identity d /\
       exists answers, began (dc_identity d) task answers /\ Forall (.= None) answers);
  di_proof report : dc_proof d = Some report -> pr_healthy report = true ->
    exists task answers env, began (dc_identity d) task answers /\ first_answer answers = Some env /\
      report = runDeepProbe (dt_cache task) env /\ dc_verifiedAt d = Some (dt_started task);
}.

(** A history one reception later. *)
Definition received (began : history_of) (result : option probeEnv) : history_of :=
  fun identity task answers => exists before, began identity task before /\ answers = before ++ [result].

Lemma deep_inv_mono (P Q : history_of) d :
  (forall task answers, P (dc_identity d) task answers -> Q (dc_identity d) task answers) -> deep_inv P d -> deep_inv Q d.
Proof.
  intros HPQ [H1 H2]. split.
  - intros task Ht. destruct (H1 task Ht) as [? H]. split; [done|]. intros E. destruct (H E) as (? & ans & ? & ?). eauto.
  - intros r Hr Hh. destruct (H2 r Hr Hh) as (task & ans & env & ? & ?). eauto 10.
Qed.

Lemma deep_inv_epoch P Q identity d : deep_inv P d ->
  deep_inv Q (DeepChecks identity (S (dc_epoch d)) None None None [] (dc_task d)).
Proof. intros [H1 _]. split; simpl; [|done]. intros task Ht. destruct (H1 task Ht). split; [lia|]. intros. lia. Qed.

Lemma deep_inv_reset P Q d : deep_inv P d -> deep_inv Q (reset d).
Proof. apply deep_inv_epoch. Qed.

Lemma receive_identity d result now : dc_identity (receive d result now) = dc_identity d.
Proof.
  unfold receive. destruct (dc_task d), result; try done. unfold accept. simpl.
  destruct (_ || _); [done|]. by destruct (pr_healthy _).
Qed.

Lemma deep_inv_receive began d result now : deep_inv began d -> deep_inv (received began result) (receive d result now).
Proof.
  intros Hd.
  assert (Hkeep : forall report, dc_proof d = Some report -> pr_healthy report = true ->
    exists task answers env, received began result (dc_identity d) task answers /\ first_answer answers = Some env /\
      report = runDeepProbe (dt_cache task) env /\ dc_verifiedAt d = Some (dt_started task)).
  { intros r Hr Hh. destruct (di_proof _ _ Hd r Hr Hh) as (task & ans & env & Hb & Hf & ? & ?).
    exists task, (ans ++ [result]), env. split; [by exists ans|]. split; [by apply first_answer_app|done]. }
  unfold receive. destruct (dc_task d) as [task|] eqn:Et; [|by split; [rewrite Et|]].
  destruct (di_task _ _ Hd task Et) as [He Hcur]. destruct result as [env|].
  2: { split; [|done]. rewrite Et. intros t [= <-]. split; [done|]. intros E. destruct (Hcur E) as (? & ans & ? & ?). split; [done|].
       exists (ans ++ [None]). split; [by exists ans|]. apply Forall_app. by repeat constructor. }
  unfold accept. simpl. destruct (_ || _) eqn:E; [by split|]. bool_prop.
  destruct Hcur as (_ & ans & Hb & Hn); [done|].
  assert (Hnew : received began (Some env) (dc_identity d) task (ans ++ [Some env]) /\ first_answer (ans ++ [Some env]) = Some env)
    by (split; [by exists ans|by apply first_answer_none]).
  destruct Hnew as [Hnew Hfirst].
  destruct (pr_healthy _) eqn:Eh; split; simpl; try done.
  - intros r [= <-] _. eauto 10.
  - intros r Hr Hh. destruct (negb (pr_uncertain _) || _); [injection Hr as <-; congruence|]. by apply Hkeep.
Qed.

(** A history of the identity [identity] during a cycle that received [result]
    and may have started [task] at [now]. *)
Definition observing (began : history_of) (identity : gostr) (now : Z) (result : option probeEnv) (d : deepChecks) : history_of :=
  fun id task answers => id = identity /\
    (received began result id task answers \/ (dc_task d = Some task /\ dt_started task = now /\ answers = [])).

Lemma deep_inv_observe began d identity current now result :
  deep_inv began d ->
  let d' := (observe d identity current now result).2 in
  dc_identity d' = identity /\ deep_inv (observing began identity now result d') d'.
Proof.
  intros Hd. unfold observe.
  set (d1 := if negb (bool_decide (identity = dc_identity d)) then _ else d).
  assert (H1 : deep_inv began d1 /\ dc_identity d1 = identity).
  { unfold d1. case_bool_decide as E; simpl; [split; [done|congruence]|]. split; [|done]. by apply (deep_inv_epoch began). }
  destruct H1 as [H1 Hid]. pose proof (deep_inv_receive began d1 result now H1) as H2.
  pose proof (receive_identity d1 result now) as Hid2. rewrite Hid in Hid2.
  set (d2 := receive d1 result now) in *.
  assert (Hobs : forall d', deep_inv (received began result) d' -> dc_identity d' = identity ->
    deep_inv (observing began identity now result d') d').
  { intros d' H' Hid'. eapply deep_inv_mono; [|exact H']. intros task ans Hr. split; [done|]. by left. }
  case_bool_decide as Ei; [split; [done|by apply Hobs]|].
  set (d3 := match dc_task d2 with Some _ => d2 | None => _ end).
  assert (H3 : dc_identity d3 = identity /\ deep_inv (observing began identity now result d3) d3).
  { unfold d3. destruct (dc_task d2) eqn:Et; [split; [done|by apply Hobs]|].
    destruct (match dc_next d2 with None => _ | Some _ => _ end); [|split; [done|by apply Hobs]].
    split; [done|]. split; simpl.
    - intros task [= <-]. simpl. split; [lia|]. intros _. split; [done|]. exists []. split; [|constructor]. split; [done|]. right. done.
    - intros r Hr Hh. destruct (di_proof _ _ H2 r Hr Hh) as (task & ans & env & Hb & Hf & Hrest).
      exists task, ans, env. split; [|done]. split; [done|]. by left. }
  destruct (dc_proof d3) as [proof|]; [|done]. destruct (_ && _); done.
Qed.

(** A probe without reasons passed every check. *)
Definition probe_passed (c : probeCache) (env : probeEnv) : Prop :=
  is_Some (pv_config env) /\ is_Some (pv_dns env) /\ is_Some (pv_tcpPorts env) /\ is_Some (pv_udpPorts env) /\
  (forall l, l ∈ pc_listeners (pr_cache (runDeepProbe c env)) -> verifyMissingListener env (ln_udp l) (ln_port l) = Some true) /\
  (forall port, port ∈ pc_dnsPorts (pr_cache (runDeepProbe c env)) ->
     verifyMissingListener env false port = Some true /\ verifyMissingListener env true port = Some true) /\
  pv_rule env = (false, true) /\ pv_route env = (false, true) /\ pv_nft env = (false, true).

Lemma checkListener_nil env udp port r : checkListener env udp port r = [] -> verifyMissingListener env udp port = Some true.
Proof. unfold checkListener. destruct (verifyMissingListener env udp port) as [[]|]; done. Qed.

Lemma markCommand_nil r o : markCommand r o = [] -> o = (false, true).
Proof. destruct o as [[] []]; simpl; done. Qed.

Lemma concat_fmap_nil {A B} (f : A -> list B) l : concat (f <$> l) = [] -> forall x, x ∈ l -> f x = [].
Proof.
  induction l as [|y l IH]; intros H x Hx; [by apply elem_of_nil in Hx|]. rewrite fmap_cons in H. simpl in H.
  apply app_eq_nil in H as [H1 H2]. apply elem_of_cons in Hx as [->|Hx]; auto.
Qed.

Lemma healthy_passed c env : pr_healthy (runDeepProbe c env) = true -> probe_passed c env.
Proof.
  unfold probe_passed, runDeepProbe.
  destruct (match pv_config env with None => _ | Some _ => _ end) as [c1 m1] eqn:E1.
  destruct (match pv_dns env with None => _ | Some _ => _ end) as [c2 m5] eqn:E5. simpl.
  intros H. apply bool_decide_eq_true, length_zero_iff_nil, fmap_nil_inv in H.
  repeat (apply app_eq_nil in H as [?H H]).
  assert (Hl : pc_listeners c2 = pc_listeners c1).
  { destruct (pv_dns env) as [[file sig]|]; [|by simplify_eq]. case_bool_decide; simpl in E5; [by simplify_eq|].
    destruct (pv_parsedPorts env); by simplify_eq. }
  split; [by destruct (pv_config env) as [[]|]; [eauto|simplify_eq]|].
  split; [by destruct (pv_dns env) as [[]|]; [eauto|simplify_eq]|].
  split; [by destruct (pv_tcpPorts env); eauto|]. split; [by destruct (pv_udpPorts env); eauto|].
  split; [|split; [|split; [|split]]].
  - intros l Hin. rewrite Hl in Hin. eapply checkListener_nil.
    eapply (concat_fmap_nil (fun l => checkListener env (ln_udp l) (ln_port l) (if ln_udp l then UdpListener else TcpListener)));
      [eassumption|done].
  - intros port Hin.
    assert (Hp : checkListener env false port DnsLaneTcp ++ checkListener env true port DnsLaneUdp = []).
    { eapply (concat_fmap_nil (fun port => checkListener env false port DnsLaneTcp ++ checkListener env true port DnsLaneUdp));
        [eassumption|done]. }
    apply app_eq_nil in Hp as [P1 P2]. split; by eapply checkListener_nil.
  - by eapply markCommand_nil.
  - by eapply markCommand_nil.
  - by eapply markCommand_nil.
Qed.

(** What a healthy observation rests on: a task begun for this identity before
    this cycle, whose first answer passed. *)
Lemma observe_healthy began d identity current now result rs i d' :
  deep_inv began d -> observe d identity current now result = ((true, rs, i), d') ->
  identity <> [] /\
  exists task answers env, began identity task answers /\ first_answer (answers ++ [result]) = Some env /\
    probe_passed (dt_cache task) env /\ 0 <= time_sub now (dt_started task) < se_deepInterval current + deepProbeTimeout.
Proof.
  intros Hd Ho. pose proof (deep_inv_observe began d identity current now result Hd) as Hd'. rewrite Ho in Hd'.
  destruct Hd' as [_ Hd']. simpl in Hd'. unfold observe in Ho.
  set (d1 := if negb (bool_decide (identity = dc_identity d)) then _ else d) in Ho.
  set (d2 := receive d1 result now) in *. case_bool_decide as Ei; [simplify_eq|].
  set (d3 := match dc_task d2 with Some _ => d2 | None => _ end) in Ho.
  destruct (dc_proof d3) as [proof|] eqn:Ep; [|simplify_eq]. destruct (pr_healthy proof && _) eqn:Ef; [|simplify_eq].
  injection Ho as <- <- <-. bool_prop. split; [done|].
  destruct (di_proof _ _ Hd' _ Ep) as (task & ans & env & [-> Hb] & Hf & -> & Hv); [done|].
  destruct Hb as [(bef & Hb & ->)|(_ & _ & ->)]; [|done].
  rewrite Hv in *. bool_prop. exists task, bef, env.
  split; [done|]. split; [done|]. split; [by apply healthy_passed|lia].
Qed.

(** ** What a cycle counts *)

Inductive label := LFail (c : failureClass) | LPending | LOther.

(** A cycle that holds back: an apply is in progress (it may have begun since
    the last cycle), a recovery is pending, or nothing is configured yet. *)
Definition held_back (w : watchdog) (o : observation) : bool :=
  match guardFile w o with Some data => active data (ob_now o) (ob_alive o) | None => false end
  || match ob_ready o with Some (Readiness _ _ true) | Some (Readiness false _ false) => true | _ => false end.


(** The state of a cycle after its first look at the restart history. *)
Definition pruned (w : watchdog) (o : observation) : watchdog :=
  with_history w (pruneRestarts (ob_prune1 o) (ob_now o) (wd_restarts w) (wd_history w)).

(** A cycle that holds back, and one that does not. *)
Lemma cycle_held current w o : held_back w o = true ->
  exists g p, cycle current w o = (holdBack o (with_guard (pruned w o) g), [p], afterWait o) /\ po_state p <> Healthy.
Proof.
  unfold held_back, cycle. fold (pruned w o). change (applyActive (pruned w o) o) with (applyActive w o). unfold applyActive.
  destruct (match guardFile w o with Some _ => _ | None => _ end); simpl; [intros _; by eexists _, _|].
  destruct (ob_ready o) as [[[] ? []]|]; intros H; try done; by eexists _, _.
Qed.

Lemma cycle_checked current w o : held_back w o = false ->
  cycle current w o =
    let '(w1, reasons, i) := check current o (with_guard (pruned w o) None) in
    let '(w2, posts, v) := react current o w1 reasons i in
    match v with Terminate => (w2, posts, v) | _ => (with_deep w2 (receive (wd_deep w2) (ob_late o) (ob_lateAt o)), posts, v) end.
Proof.
  unfold held_back, cycle. fold (pruned w o). change (applyActive (pruned w o) o) with (applyActive w o). unfold applyActive.
  destruct (match guardFile w o with Some _ => _ | None => _ end); simpl; [done|].
  by destruct (ob_ready o) as [[[] ? []]|].
Qed.

Definition classThreshold (current : settings) (c : failureClass) : Z :=
  match c with ControlPlane => Z.max controlPlaneThreshold (se_failureThreshold current) | _ => se_failureThreshold current end.

Lemma threshold_class current reasons :
  failureThresholdForReasons (se_failureThreshold current) reasons = classThreshold current (classifyFailure reasons).
Proof.
  unfold failureThresholdForReasons, classifyFailure. destruct (controlPlaneOnlyFailure reasons); simpl; [|done].
  unfold controlPlaneThreshold. case_tests.
Qed.


Definition next_count (w : watchdog) (c : failureClass) : Z :=
  if bool_decide (c = wd_class w) then wd_failures w +w 1 else 1.

(** The part of [react] after a failure that is not deferred. *)
Definition trip (current : settings) (o : observation) (w : watchdog) (reasons : list reason) : watchdog * list post * verdict :=
  let c := classifyFailure reasons in
  let n := next_count w c in
  let w := with_counts w n 0 (wd_leasePublished w) c in
  let p1 := postState w current Degraded false n
              (if controlPlaneOnlyFailure reasons then ControlPlaneProbeFailed else DataplaneProbeFailed) in
  if classThreshold current c <=? n then
    let w := clearLease o w in
    let w := with_history w (pruneRestarts (ob_prune2 o) (ob_now1 o) (wd_restarts w) (wd_history w)) in
    if se_restartBudget current <=? wd_restarts w then
      (with_counts w 0 (wd_successes w) (wd_leasePublished w) (wd_class w),
       [p1; postState w current Degraded false n RestartBudgetExhausted], afterWait o)
    else
      let w := with_history w (recordRestart (ob_record o) (ob_now1 o) (wd_restarts w) (wd_history w)) in
      (w, [p1; postState w current Tripped false n ContainerRestart], Terminate)
  else (w, [p1], afterWait o).

Lemma react_failure current o w r rs i :
  i && is_deepProbe (r :: rs) = false ->
  react current o w (r :: rs) i =
    let '(deferred, core) := deferFailures (wd_core w) (ob_now2 o) (se_startupGrace current) (ob_generation o) (r :: rs) in
    if deferred then
      let w := with_counts (clearLease o (with_core w core)) 0 0 false NoClass in
      (w, [postState w current Recovering false 0 CoreRestartPending], afterWait o)
    else trip current o (with_core w core) (r :: rs).
Proof.
  intros Hi. unfold react, trip. rewrite Hi. destruct (deferFailures _ _ _ _ _) as [[] core]; [done|].
  rewrite threshold_class. unfold nextFailureStreak, next_count. by destruct (bool_decide_reflect (classifyFailure (r :: rs) = wd_class w)) as [E|E];
    [rewrite bool_decide_eq_true_2 by done|rewrite bool_decide_eq_false_2 by done].
Qed.




(** ** Streaks *)

#[export] Instance label_eq_dec : EqDecision label.
Proof. solve_decision. Defined.













(** ** Settings *)

Lemma boundedInt_range value fallback lo hi : lo <= fallback <= hi -> lo <= boundedInt value fallback lo hi <= hi.
Proof. intros. unfold boundedInt. destruct (_ <? _)%nat; [done|]. destruct (ParseInt value 64); [|done]. case_tests; lia. Qed.


Lemma leaseTTL_covers s : 5 <= s <= 300 -> 2 * s + 5 <= ReadinessLeaseTTL s <= 900.
Proof.
  intros. unfold ReadinessLeaseTTL. case_tests. rewrite (wrap_i64_id (s * 2)) by (unfold min_i64, max_i64; lia). nowrap. lia.
Qed.

(** Whatever the environment and the settings file contain, the watchdog
    runs with an interval of 5 to 300 s, thresholds of 1 to 20, a budget of 1 to
    60 restarts per hour, a deep-check interval of 10 to 300 s and a startup
    grace of at most 300 s; and a lease lives at least two intervals and five
    seconds, so that one that is renewed every cycle does not lapse between two cycles. *)
Theorem loadSettings_bounds (getenv : gostr -> gostr) (file : option gostr) :
  let s := loadSettings getenv file in
  5 * second <= se_interval s <= 300 * second /\
  1 <= se_failureThreshold s <= 20 /\ 1 <= se_recoveryThreshold s <= 20 /\ 1 <= se_restartBudget s <= 60 /\
  10 * second <= se_deepInterval s <= 300 * second /\ 0 <= se_startupGrace s <= 300 * second /\
  2 * se_interval s + 5 * second <= ReadinessLeaseTTL (Z.quot (se_interval s) second) * second <= 900 * second.
Proof.
  assert (Hb : forall v f lo hi, lo <= f <= hi -> lo * second <= boundedInt v f lo hi * second <= hi * second).
  { intros v f lo hi H. pose proof (boundedInt_range v f lo hi H). unfold second. nia. }
  assert (Hl : forall v, let i := boundedInt v defaultInterval 5 300 in
    2 * (i * second) + 5 * second <= ReadinessLeaseTTL (Z.quot (i * second) second) * second <= 900 * second).
  { intros v i. rewrite Z.quot_mul by done. pose proof (leaseTTL_covers i (boundedInt_range v defaultInterval 5 300 ltac:(unfold defaultInterval; lia))).
    unfold second. nia. }
  unfold loadSettings. cbv zeta. cbn [se_interval se_failureThreshold se_recoveryThreshold se_restartBudget se_deepInterval se_startupGrace].
  split; [|split; [|split; [|split; [|split; [|split]]]]]; [apply Hb|apply boundedInt_range..|apply Hb|apply (Hb _ _ 0)|apply Hl];
    unfold defaultInterval, defaultFailureThreshold, defaultRecoveryThreshold, defaultRestartBudget, defaultDeepInterval,
      defaultStartupGrace; lia.
Qed.

(** ** Restarts *)


Lemma react_terminate current o w reasons i w' posts :
  react current o w reasons i = (w', posts, Terminate) ->
  wd_marker w' = (if ob_removes o then None else wd_marker w) /\
  exists restarts h, pruneRestarts (ob_prune2 o) (ob_now1 o) (wd_restarts w) (wd_history w) = (restarts, h) /\
    restarts < se_restartBudget current /\
    wd_history w' = (recordRestart (ob_record o) (ob_now1 o) restarts h).2.
Proof.
  assert (Ha : afterWait o <> Terminate) by (unfold afterWait; by destruct (ob_cancelled o)).
  destruct (i && is_deepProbe reasons) eqn:Hi; [unfold react; rewrite Hi; intros [= _ _ E]; congruence|].
  destruct reasons as [|r rs].
  { unfold react. rewrite Hi. destruct (_ <=? _); intros [= _ _ E]; congruence. }
  rewrite react_failure by done. destruct (deferFailures _ _ _ _ _) as [[] core]; [intros [= _ _ E]; congruence|].
  unfold trip. case_tests; intros HE; try (injection HE as _ _ E; congruence). injection HE as <- _. split; [done|]. simpl in *.
  destruct (pruneRestarts _ _ _ _) as [restarts h] eqn:Ep. exists restarts, h. split; [done|]. split; [simpl in *; lia|done].
Qed.

Lemma cycle_react current w o w' posts v :
  cycle current w o = (w', posts, v) -> v = Terminate ->
  exists w1 reasons i, check current o (with_guard (pruned w o) None) = (w1, reasons, i) /\ react current o w1 reasons i = (w', posts, v).
Proof.
  assert (Ha : afterWait o <> Terminate) by (unfold afterWait; by destruct (ob_cancelled o)).
  destruct (held_back w o) eqn:Eh; [destruct (cycle_held current w o Eh) as (g & p & -> & _); intros [= _ _ E]; congruence|].
  rewrite cycle_checked by done.
  destruct (check current o (with_guard (pruned w o) None)) as [[w1 reasons] i].
  destruct (react current o w1 reasons i) as [[w2 ps] v2] eqn:Er.
  intros E Hv. destruct v2; injection E as <- <- <-; try done; eauto.
Qed.

(** C24: a restart respects the hourly budget, when the restart history can be
    read and written: the history after the restart records it, and holds at
    most as many restarts of the last hour as the budget allows; and the
    readiness lease is withdrawn first when it can be removed. When the history
    cannot be written the container is ended all the same and the restart goes
    unrecorded. *)
Theorem restart_within_budget (current : settings) (w : watchdog) (o : observation) (w' : watchdog) (posts : list post)
    (Hrun : cycle current w o = (w', posts, Terminate))
    (Hprune : io_readFails (ob_prune2 o) = false)
    (Hrecord : io_readFails (ob_record o) = false /\ io_writes (ob_record o) = true)
    (Htime : i64 (unix (ob_now1 o))) :
  unix (ob_now1 o) ∈ recent (ob_now1 o) (wd_history w') /\
  Z.of_nat (length (recent (ob_now1 o) (wd_history w'))) <= se_restartBudget current /\
  (ob_removes o = true -> wd_marker w' = None).
Proof.
  destruct (cycle_react _ _ _ _ _ _ Hrun eq_refl) as (w1 & reasons & i & _ & Hr).
  apply react_terminate in Hr as (Hm & restarts & h & Hp & Hb & Hh). destruct Hrecord as [Hr Hw].
  destruct (pruneRestarts_spec (ob_prune2 o) (ob_now1 o) (wd_restarts w1) (wd_history w1) Hprune) as [Hc He].
  rewrite Hp in Hc, He. simpl in Hc, He. rewrite Hh. rewrite recordRestart_recent, He by done.
  split; [apply elem_of_app; right; by apply list_elem_of_singleton|]. split.
  - rewrite length_app. simpl. lia.
  - intros E. by rewrite Hm, E.
Qed.

(** ** The readiness lease *)

(** The deep check of a cycle. *)
Definition observed_deep (current : settings) (w : watchdog) (o : observation) : (bool * list reason * bool) * deepChecks :=
  observe (wd_deep w) (deepProbeIdentity (ob_generation o) (ob_stats o)) current (ob_now1 o) (ob_result o).

Lemma check_shape current o w w1 reasons i h dr ip d :
  check current o w = (w1, reasons, i) -> observed_deep current w o = ((h, dr, ip), d) ->
  wd_deep w1 = d /\ i = ip /\
  reasons = shallowReasons o ++ (if h then [] else match dr with [] => [DeepProbe] | _ => dr end) /\
  (wd_marker w1 = wd_marker w \/ wd_marker w1 = None) /\
  (h = false -> ip = false -> ob_removes o = true -> wd_marker w1 = None).
Proof.
  unfold check, observed_deep. set (w2 := if negb (bool_decide (ob_generation o = _)) then _ else w).
  assert (H2 : wd_deep w2 = wd_deep w /\ (wd_marker w2 = wd_marker w \/ wd_marker w2 = None))
    by (unfold w2; case_match; [simpl; destruct (ob_removes o); auto|auto]).
  set (w3 := if negb (bool_decide (deepProbeIdentity _ _ = _)) then _ else w2).
  assert (H3 : wd_deep w3 = wd_deep w /\ (wd_marker w3 = wd_marker w \/ wd_marker w3 = None))
    by (destruct H2; unfold w3; case_match; [simpl; destruct (ob_removes o); auto|auto]).
  destruct H3 as [-> Hm]. intros H Ho. rewrite Ho in H. destruct h.
  - injection H as <- <- <-. rewrite app_nil_r. split; [done|]. split; [done|]. split; [done|]. by split.
  - injection H as <- <- <-. destruct ip; simpl.
    + split; [done|]. split; [done|]. split; [done|]. by split.
    + split; [done|]. split; [done|]. split; [done|]. destruct (ob_removes o); split; auto. done.
Qed.

Lemma react_deep current o w reasons i w' posts v :
  react current o w reasons i = (w', posts, v) -> wd_deep w' = wd_deep w.
Proof.
  destruct (i && is_deepProbe reasons) eqn:Hi; [unfold react; rewrite Hi; by intros [= <- _ _]|].
  destruct reasons as [|r rs].
  { unfold react. rewrite Hi. destruct (_ <=? _), (ob_publishes o); by intros [= <- _ _]. }
  rewrite react_failure by done. destruct (deferFailures _ _ _ _ _) as [[] core]; [by intros [= <- _ _]|].
  unfold trip. destruct (_ <=? _); [|by intros [= <- _ _]]. destruct (_ <=? _); by intros [= <- _ _].
Qed.

(** A marker after [react] was there before, or is the lease of a cycle without reasons. *)
Lemma react_marker current o w reasons i w' posts v b :
  react current o w reasons i = (w', posts, v) -> wd_marker w' = Some b -> wd_marker w <> Some b ->
  reasons = [] /\ b = leaseBody (ob_now3 o) /\ po_state <$> posts = [Healthy].
Proof.
  assert (Hc : (if ob_removes o then None else wd_marker w) = Some b -> wd_marker w <> Some b -> False)
    by (destruct (ob_removes o); congruence).
  destruct (i && is_deepProbe reasons) eqn:Hi; [unfold react; rewrite Hi; intros [= <- _ _]; done|].
  destruct reasons as [|r rs].
  { unfold react. rewrite Hi. destruct (_ <=? _), (ob_publishes o); intros [= <- <- _]; simpl; try done.
    by intros [= <-]. }
  rewrite react_failure by done.
  destruct (deferFailures _ _ _ _ _) as [[] core]; [intros [= <- _ _] Hm Hn; by destruct (Hc Hm Hn)|].
  unfold trip. destruct (_ <=? _); [|by intros [= <- _ _]].
  destruct (_ <=? _); intros [= <- _ _] Hm Hn; by destruct (Hc Hm Hn).
Qed.

Lemma shallowReasons_nil o :
  shallowReasons o = [] -> (exists p, ob_ready o = Some (Readiness true true p)) /\ ob_generation o <> [] /\ ob_configFile o = true.
Proof.
  unfold shallowReasons. destruct (ob_ready o) as [[[] [] p]|]; try done. simpl.
  destruct (negb (bool_decide (ob_generation o = [])) || ob_process o); [|done].
  destruct (ob_configFile o); [|done]. case_bool_decide; [done|]. eauto.
Qed.

(** The cycles of a run with the states they started from. *)
Fixpoint trace (current : settings) (w : watchdog) (os : list observation) : list (watchdog * observation) :=
  match os with
  | [] => []
  | o :: os => (w, o) :: match cycle current w o with (w', _, Continue) => trace current w' os | _ => [] end
  end.

(** A cycle that checked the core and the configuration files [identity]. *)
Definition checked (identity : gostr) (c : watchdog * observation) : Prop :=
  held_back c.1 c.2 = false /\ deepProbeIdentity (ob_generation c.2) (ob_stats c.2) = identity.
(** The answers the cycles of a run could receive, in their order. *)
Definition answers_in (cs : list (watchdog * observation)) : list (option probeEnv) :=
  concat ((fun c => [ob_result c.2; ob_late c.2]) <$> cs).

(** [task] was started in a cycle of the run [cs], and every cycle from there on
    checked [identity]; [answers] was received since. *)
Definition began_in (current : settings) (cs : list (watchdog * observation)) : history_of :=
  fun identity task answers => exists pre w1 o1 mid, cs = pre ++ (w1, o1) :: mid /\
    dc_task (observed_deep current w1 o1).2 = Some task /\ dt_started task = ob_now1 o1 /\
    Forall (checked identity) ((w1, o1) :: mid) /\ answers = ob_late o1 :: answers_in mid.

Lemma began_in_step current cs w o identity task answers :
  checked identity (w, o) ->
  received (observing (began_in current cs) identity (ob_now1 o) (ob_result o) (observed_deep current w o).2) (ob_late o) identity task answers ->
  began_in current (cs ++ [(w, o)]) identity task answers.
Proof.
  intros Hc (bef & (_ & [(bef2 & (pre & w1 & o1 & mid & -> & Ht & Hs & Hf & ->) & ->)|(Ht & Hs & ->)]) & ->).
  - exists pre, w1, o1, (mid ++ [(w, o)]). split; [by rewrite <- (assoc_L (++))|]. split; [done|]. split; [done|].
    split; [rewrite app_comm_cons; apply Forall_app; split; [done|]; by constructor|].
    unfold answers_in. rewrite fmap_app, concat_app. simpl. by rewrite <- (assoc_L (++)).
  - exists cs, w, o, []. do 3 (split; [done|]). split; [by constructor|done].
Qed.

Lemma observe_deep_react current w o w1 reasons i w2 posts v :
  check current o (with_guard (pruned w o) None) = (w1, reasons, i) -> react current o w1 reasons i = (w2, posts, v) ->
  wd_deep w2 = (observed_deep current w o).2.
Proof.
  intros Ec Er. apply react_deep in Er. rewrite Er.
  change (observed_deep current w o) with (observed_deep current (with_guard (pruned w o) None) o).
  destruct (observed_deep current (with_guard (pruned w o) None) o) as [[[h dr] ip] d] eqn:Ed.
  by destruct (check_shape _ _ _ _ _ _ _ _ _ _ Ec Ed) as (Hd & _).
Qed.

Lemma deep_inv_cycle current cs w o w' posts :
  deep_inv (began_in current cs) (wd_deep w) -> cycle current w o = (w', posts, Continue) ->
  deep_inv (began_in current (cs ++ [(w, o)])) (wd_deep w').
Proof.
  intros Hd. destruct (held_back w o) eqn:Eh.
  { destruct (cycle_held current w o Eh) as (g & p & -> & _). intros [= <- _ _]. by apply (deep_inv_reset (began_in current cs)). }
  rewrite cycle_checked by done. destruct (check current o (with_guard (pruned w o) None)) as [[w1 reasons] i] eqn:Ec.
  destruct (react current o w1 reasons i) as [[w2 ps] v2] eqn:Er. pose proof (observe_deep_react _ _ _ _ _ _ _ _ _ Ec Er) as Hw2.
  intros E. assert (E2 : v2 = Continue /\ w' = with_deep w2 (receive (wd_deep w2) (ob_late o) (ob_lateAt o))) by (by destruct v2; simplify_eq).
  destruct E2 as [_ ->]. simpl. rewrite Hw2.
  destruct (deep_inv_observe _ _ (deepProbeIdentity (ob_generation o) (ob_stats o)) current (ob_now1 o) (ob_result o) Hd) as [Hid Hi].
  fold (observed_deep current w o) in Hid, Hi. eapply deep_inv_mono; [|apply deep_inv_receive; exact Hi].
  rewrite receive_identity, Hid. intros task ans. by apply began_in_step.
Qed.

Lemma deep_inv_loop current os : forall before w w' posts,
  deep_inv (began_in current before) (wd_deep w) -> loop current w os = (w', posts, None) ->
  deep_inv (began_in current (before ++ trace current w os)) (wd_deep w').
Proof.
  induction os as [|o os IH]; intros before w w' posts Hd Hl; simpl in Hl |- *.
  { injection Hl as <- _. by rewrite app_nil_r. }
  destruct (cycle current w o) as [[w1 ps] v] eqn:Ec. destruct v; try done.
  destruct (loop current w1 os) as [[w2 rest] v] eqn:El. injection Hl as <- <- ->.
  change (before ++ (w, o) :: trace current w1 os) with (before ++ [(w, o)] ++ trace current w1 os).
  rewrite (assoc_L (++)). eapply IH; [by eapply deep_inv_cycle|done].
Qed.

Lemma cycle_lease current w o w' posts v b :
  cycle current w o = (w', posts, v) -> wd_marker w' = Some b -> wd_marker w <> Some b ->
  b = leaseBody (ob_now3 o) /\ po_state <$> posts = [Healthy] /\ held_back w o = false /\
  ob_ready o = Some (Readiness true true false) /\ ob_generation o <> [] /\ ob_configFile o = true /\
  (observed_deep current w o).1.1.1 = true.
Proof.
  intros Hc Hm Hn. assert (Hh : (if ob_removes o then None else wd_marker w) <> Some b) by (by destruct (ob_removes o)).
  destruct (held_back w o) eqn:Eh.
  { destruct (cycle_held current w o Eh) as (g & p & E & _). rewrite E in Hc. injection Hc as <- _ _. done. }
  rewrite cycle_checked in Hc by done. destruct (check current o (with_guard (pruned w o) None)) as [[w1 reasons] i] eqn:Ec.
  change (observed_deep current w o) with (observed_deep current (with_guard (pruned w o) None) o).
  destruct (observed_deep current (with_guard (pruned w o) None) o) as [[[h dr] ip] d] eqn:Ed.
  destruct (check_shape _ _ _ _ _ _ _ _ _ _ Ec Ed) as (_ & _ & Hr & Hmk & _). simpl in Hmk |- *.
  assert (Hn1 : wd_marker w1 <> Some b) by (destruct Hmk as [->| ->]; done).
  destruct (react current o w1 reasons i) as [[w2 ps] v2] eqn:Er.
  assert (Hw2 : wd_marker w2 = Some b /\ ps = posts) by (destruct v2; injection Hc as <- <- _; done). destruct Hw2 as [Hw2 ->].
  destruct (react_marker _ _ _ _ _ _ _ _ _ Er Hw2 Hn1) as (Hnil & Hb & Hst). rewrite Hr in Hnil.
  apply app_eq_nil in Hnil as [Hs Hd]. apply shallowReasons_nil in Hs as ((p & Hready) & Hgen & Hcfg).
  split; [done|]. split; [done|]. split; [done|]. unfold held_back in Eh. rewrite Hready in Eh.
  destruct p; [by rewrite orb_true_r in Eh|]. split; [done|]. split; [done|]. split; [done|]. destruct h; [done|]. by destruct dr.
Qed.

(** Posts of a cycle that withdraws the lease. *)
Definition withdraws (a : action) : bool :=
  match a with
  | ApplyInProgress | RouterosRollbackGuard | AwaitingConfiguration | CoreRestartPending | RestartBudgetExhausted | ContainerRestart => true
  | _ => false
  end.

Lemma react_withdraws current o w reasons i w' posts v :
  react current o w reasons i = (w', posts, v) -> existsb withdraws (po_action <$> posts) = true -> ob_removes o = true ->
  wd_marker w' = None.
Proof.
  destruct (i && is_deepProbe reasons) eqn:Hi; [unfold react; rewrite Hi; intros [= <- <- _]; done|].
  destruct reasons as [|r rs].
  { unfold react. rewrite Hi. destruct (_ <=? _), (ob_publishes o); intros [= <- <- _]; done. }
  rewrite react_failure by done. intros H Hp Hr.
  destruct (deferFailures _ _ _ _ _) as [[] core]; [injection H as <- _ _; simpl; by rewrite Hr|].
  unfold trip in H. destruct (_ <=? _).
  - destruct (_ <=? _); injection H as <- _ _; simpl; by rewrite Hr.
  - injection H as _ <- _. destruct (apiReason r && forallb apiReason rs); discriminate Hp.
Qed.

Lemma cycle_withdraws current w o w' posts v :
  cycle current w o = (w', posts, v) -> existsb withdraws (po_action <$> posts) = true -> ob_removes o = true ->
  wd_marker w' = None.
Proof.
  intros Hc Hp Hr. destruct (held_back w o) eqn:Eh.
  { destruct (cycle_held current w o Eh) as (g & p & E & _). rewrite E in Hc. injection Hc as <- _ _. simpl. by rewrite Hr. }
  rewrite cycle_checked in Hc by done. destruct (check current o (with_guard (pruned w o) None)) as [[w1 reasons] i].
  destruct (react current o w1 reasons i) as [[w2 ps] v2] eqn:Er.
  destruct v2; injection Hc as <- <- _; exact (react_withdraws _ _ _ _ _ _ _ _ Er Hp Hr).
Qed.

(** C23: the readiness lease rests on verified evidence.  A cycle that changes
    the lease file into [b] writes its own time there, reports healthy, found no
    apply in progress, an API that is configured, ready and without pending
    recovery, and a core with its configuration; and an earlier cycle [o1] of the
    run started a deep check less than a deep interval and the probe timeout
    ago, every cycle since then found the very core generation and
    configuration files of this one and none held back, and the first answer
    received since then, the report of that check, passed every test.  A cycle
    that reports an apply, a pending rollback, no configuration, a deferred core
    restart, a restart or an exhausted budget leaves no lease when the file can
    be removed. *)
Theorem lease_rests_on_evidence (current : settings) (o0 : observation) (marker guard history : option gostr)
    (os : list observation) (w : watchdog) (history_posts : list (list post)) (o : observation) (w' : watchdog)
    (posts : list post) (v : verdict)
    (Hrun : loop current (start o0 marker guard history) os = (w, history_posts, None))
    (Hcycle : cycle current w o = (w', posts, v)) :
  (forall b, wd_marker w' = Some b -> wd_marker w <> Some b ->
     let identity := deepProbeIdentity (ob_generation o) (ob_stats o) in
     b = leaseBody (ob_now3 o) /\ po_state <$> posts = [Healthy] /\ held_back w o = false /\
     ob_ready o = Some (Readiness true true false) /\ ob_generation o <> [] /\ ob_configFile o = true /\ identity <> [] /\
     exists pre w1 o1 mid task env,
       trace current (start o0 marker guard history) os = pre ++ (w1, o1) :: mid /\
       Forall (fun c => held_back c.1 c.2 = false /\ deepProbeIdentity (ob_generation c.2) (ob_stats c.2) = identity) ((w1, o1) :: mid) /\
       dc_task (observed_deep current w1 o1).2 = Some task /\ dt_started task = ob_now1 o1 /\
       first_answer (ob_late o1 :: answers_in mid ++ [ob_result o]) = Some env /\ probe_passed (dt_cache task) env /\
       0 <= time_sub (ob_now1 o) (ob_now1 o1) < se_deepInterval current + deepProbeTimeout) /\
  (existsb withdraws (po_action <$> posts) = true -> ob_removes o = true -> wd_marker w' = None).
Proof.
  split; [|by eapply cycle_withdraws]. intros b Hm Hn identity.
  destruct (cycle_lease _ _ _ _ _ _ _ Hcycle Hm Hn) as (Hb & Hp & Hg & Hr & Hgen & Hcfg & Hh).
  do 6 (split; [done|]).
  assert (Hinv : deep_inv (began_in current (trace current (start o0 marker guard history) os)) (wd_deep w))
    by (apply (deep_inv_loop current os [] _ _ _) with (2 := Hrun); by split).
  destruct (observed_deep current w o) as [[[h dr] ip] d'] eqn:Ed. simpl in Hh. subst h.
  destruct (observe_healthy _ _ _ _ _ _ _ _ _ Hinv Ed) as (Hid & task & ans & env & Hbegan & Hf & Hpass & Hfresh).
  split; [done|]. destruct Hbegan as (pre & w1 & o1 & mid & Htr & Ht & Hs & Hall & ->). rewrite Hs in Hfresh.
  by exists pre, w1, o1, mid, task, env.
Qed.

(** ** Concrete runs *)

Definition demo_settings : settings := loadSettings (fun _ => []) None.
Definition demo_env : probeEnv :=
  ProbeEnv (Some (bs "1|2", bs "c0")) (Some [Listener false 443]) (Some [443; 5300]) (Some [5300]) (fun _ _ => Some false)
    (Some (bs "1|3", bs "d0")) (Some [5300]) (false, true) (false, true) (false, true).
Definition demo_io : fileIO := FileIO false true.
Definition demo_obs (t : Z) (ready : bool) (result : option probeEnv) : observation :=
  Observation (t * second) (t * second) (t * second) (t * second) (fun _ => false) None
    (if ready then Some (Readiness true true false) else None) (if ready then bs "g1" else []) ready ready
    [Some (1, 2); Some (1, 3)] result true true demo_io demo_io demo_io false None (t * second).
Definition demo_start : watchdog := start (demo_obs 0 false None) (Some (bs "0")) None None.
Definition demo_waiting : watchdog := (loop demo_settings demo_start [demo_obs 10 true None]).1.1.


Definition demo_tripping : watchdog :=
  (loop demo_settings demo_start [demo_obs 10 false None; demo_obs 15 false None]).1.1.

Lemma restart_within_budget_witness :
  20 ∈ recent (20 * second) (wd_history (cycle demo_settings demo_tripping (demo_obs 20 false None)).1.1) /\
  Z.of_nat (length (recent (20 * second) (wd_history (cycle demo_settings demo_tripping (demo_obs 20 false None)).1.1))) <= 6 /\
  (true = true -> wd_marker (cycle demo_settings demo_tripping (demo_obs 20 false None)).1.1 = None).
Proof.
  apply (restart_within_budget demo_settings demo_tripping (demo_obs 20 false None) _
    (cycle demo_settings demo_tripping (demo_obs 20 false None)).1.2).
  - vm_compute. reflexivity.
  - reflexivity.
  - split; reflexivity.
  - split; vm_compute; discriminate.
Defined.

Lemma lease_rests_on_evidence_witness :
  let o := demo_obs 15 true (Some demo_env) in
  let w' := (cycle demo_settings demo_waiting o).1.1 in
  wd_marker w' = Some (leaseBody (15 * second)) /\
  exists pre w1 o1 mid task env, trace demo_settings demo_start [demo_obs 10 true None] = pre ++ (w1, o1) :: mid /\
    dc_task (observed_deep demo_settings w1 o1).2 = Some task /\ dt_started task = ob_now1 o1 /\ probe_passed (dt_cache task) env.
Proof.
  intros o w'.
  destruct (lease_rests_on_evidence demo_settings (demo_obs 0 false None) (Some (bs "0")) None None
    [demo_obs 10 true None] demo_waiting (loop demo_settings demo_start [demo_obs 10 true None]).1.2 o w'
    (cycle demo_settings demo_waiting o).1.2 Continue) as [H1 H2].
  - vm_compute. reflexivity.
  - vm_compute. reflexivity.
  - assert (Hm : wd_marker w' = Some (leaseBody (15 * second))) by (vm_compute; reflexivity).
    split; [exact Hm|].
    destruct (H1 _ Hm) as (_ & _ & _ & _ & _ & _ & _ & pre & w1 & o1 & mid & task & env & Htr & _ & Ht & Hs & _ & Hp & _);
      [vm_compute; discriminate|].
    exists pre, w1, o1, mid, task, env. split; [exact Htr|]. split; [exact Ht|]. split; [exact Hs|exact Hp].
Defined.
