(* ===== verification/HealthModel.v ===== *)
(** * Health data and candidate ranking of the agent

    Models the data of [internal/agent/health.go] that the selection logic
    reads and writes, and the ranking helpers of
    [internal/agent/health_logic.go], [health_pair.go] and [health_failover.go].
    A node is named by its tag.  A Go map is a [gmap]; reading a missing key
    gives the zero value, as [mget] does.  A [*int] is an [option Z]. *)

From Stdlib Require Import String.
From S2P Require Import Prelude GoBase GoSort GoText GoFloat GoTime.
Open Scope Z_scope.

Definition mget {A} (zero : A) (m : gmap gostr A) (k : gostr) : A := default zero (m !! k).
Abbreviation geti := (mget 0).
Abbreviation getb := (mget false).
Abbreviation getp := (mget (@None Z)).
Abbreviation getf := (mget fzero).
Abbreviation getl := (mget []).

Definition block : gostr := bs "block".
Definition best : gostr := bs "best".
Definition priority : gostr := bs "priority".

(** ** Data *)

Record healthSample := HealthSample { hs_At : f64; hs_ObservedAt : f64; hs_OK : bool; hs_DelayMS : option Z }.
Definition zeroSample : healthSample := HealthSample fzero fzero false None.

(** [probeEvidence] without the per-target details; [None] as [ObservedAt] is
    the zero time. *)
Inductive probeFailureClass := FailureNone | FailureTimeout | FailureFatal | FailureTLS | FailureDNS | FailureTransient.
Record probeEvidence := ProbeEvidence {
  pe_QualityUnmeasured : bool; pe_PrimaryQualityFailed : bool; pe_ObservedAt : option Z; pe_Deferred : bool;
  pe_LocalFailure : bool; pe_OK : bool; pe_ResponseDelayMS : option Z; pe_DelayMS : option Z;
  pe_Failure : probeFailureClass;
}.
Definition zeroEvidence : probeEvidence := ProbeEvidence false false None false false false None None FailureNone.

Inductive comparisonResult := Win | Loss | Inconclusive.
Inductive comparisonReason :=
  PairIncomplete | PairSkew | ActiveHttpsFailed | CandidateQuality | Better | NotBetter.
Record optimizationComparison := OptimizationComparison {
  oc_ActiveSampleAt : f64; oc_CandidateSampleAt : f64;
  oc_ActiveResponseMS : option Z; oc_CandidateResponseMS : option Z;
  oc_ImprovementMS : Z; oc_At : gostr; oc_Candidate : gostr;
  oc_Result : comparisonResult; oc_Reason : comparisonReason;
  oc_ActiveDelayMS : option Z; oc_CandidateDelayMS : option Z;
}.

Record effectivePolicySettings := PolicySettings {
  ps_mode : gostr; ps_failureThreshold : Z; ps_recoveryThreshold : Z; ps_improvement : Z; ps_active : Z;
  ps_backup : Z; ps_shortlist : Z; ps_batch : Z; ps_liveness : Z; ps_failureRetry : Z; ps_blockRecovery : Z;
}.

(** The part of [policyHealthState] that selection works on. *)
Record policyHealthState := PolicyHealthState {
  st_Selected : gostr;
  st_Failures : gmap gostr Z; st_AvailabilityFailures : gmap gostr Z; st_Recoveries : gmap gostr Z;
  st_Samples : gmap gostr (list healthSample);
  st_LastProbeAt : gmap gostr f64;
  st_ScanQueue : list gostr;
  st_OptimizationBaseline : gostr; st_OptimizationCandidate : gostr; st_OptimizationChecks : Z;
  st_OptimizationLastResult : option optimizationComparison;
  st_MedianDelayMS : gmap gostr (option Z);
  st_QualityOK : gmap gostr bool; st_AvailabilityOK : gmap gostr bool;
  st_Shortlist : list gostr; st_PreflightClosed : gmap gostr bool;
  st_RuntimeSelected : gostr; st_RuntimeConfirmed : bool; st_UnderlayFailure : gostr;
}.

(** ** Settings *)

Definition optimizationConfirmations : Z := 2.
Definition healthFailureConfirmations : Z := 3.
Definition healthRecoveryConfirmations : Z := 3.
Definition activeLivenessSeconds : Z := 3.
Definition failureRetrySeconds : Z := 2.
Definition outageRetrySeconds : Z := 15.

Definition defaultInt (value fallback min max : Z) : Z :=
  if (value <? min) || (max <? value) then fallback else value.

(** The configured numbers of [healthPolicy] that [policySettings] reads. *)
Record healthPolicy := HealthPolicy {
  hp_SwitchImprovementMS : Z; hp_ActiveCheckSeconds : Z; hp_ProbeBatchSize : Z; hp_ActiveLivenessSeconds : Z }.

Definition policySettings (policy : healthPolicy) (mode : gostr) : effectivePolicySettings :=
  let active := defaultInt (hp_ActiveCheckSeconds policy) 60 1 3600 in
  let batch := defaultInt (hp_ProbeBatchSize policy) 10 1 64 in
  let liveness := defaultInt (hp_ActiveLivenessSeconds policy) activeLivenessSeconds 2 30 in
  PolicySettings mode healthFailureConfirmations healthRecoveryConfirmations
    (defaultInt (hp_SwitchImprovementMS policy) 50 0 30000) active (Z.max (active *w 2) 120) batch batch
    liveness (Z.min failureRetrySeconds liveness) outageRetrySeconds.

(** ** Lists of candidates *)

Definition contains (values : list gostr) (needle : gostr) : bool := bool_decide (needle ∈ values).

Fixpoint candidateIndex (values : list gostr) (value : gostr) : Z :=
  match values with
  | [] => 0
  | v :: values => if bool_decide (v = value) then 0 else 1 + candidateIndex values value
  end.

Fixpoint unique_loop (seen : gset gostr) (values : list gostr) : list gostr :=
  match values with
  | [] => []
  | v :: values =>
      if bool_decide (v <> [] /\ v <> block /\ v ∉ seen) then v :: unique_loop ({[v]} ∪ seen) values
      else unique_loop seen values
  end.
Definition uniqueCandidates (values : list gostr) : list gostr := unique_loop ∅ values.

Definition without (values removed : list gostr) : list gostr := filter (fun v => contains removed v = false) values.

Definition withoutClosedCandidates (candidates : list gostr) (closed : gmap gostr bool) : list gostr :=
  filter (fun c => getb closed c = false) candidates.

(** ** Ranking *)

Definition candidateDelay (candidate : gostr) (medians : gmap gostr (option Z)) : Z :=
  match getp medians candidate with Some d => if 0 <? d then d else 0 | None => 0 end.

(** The position map of [rankCandidates]: the last index of a value. *)
Fixpoint positions_loop (index : Z) (values : list gostr) (m : gmap gostr Z) : gmap gostr Z :=
  match values with
  | [] => m
  | v :: values => positions_loop (index + 1) values (<[v:=index]> m)
  end.
Definition positions (values : list gostr) : gmap gostr Z := positions_loop 0 values ∅.

Definition rank_less (mode : gostr) (groups : gmap gostr Z) (medians : gmap gostr (option Z)) (pos : gmap gostr Z)
    (left right : gostr) : bool :=
  if bool_decide (mode = priority) then
    if negb (geti groups left =? geti groups right) then geti groups left <? geti groups right
    else geti pos left <? geti pos right
  else
    let leftDelay := candidateDelay left medians in
    let rightDelay := candidateDelay right medians in
    if negb (Bool.eqb (0 <? leftDelay) (0 <? rightDelay)) then 0 <? leftDelay
    else if (0 <? leftDelay) && negb (leftDelay =? rightDelay) then leftDelay <? rightDelay
    else geti pos left <? geti pos right.

Definition rankCandidates (values : list gostr) (mode : gostr) (groups : gmap gostr Z)
    (medians : gmap gostr (option Z)) : list gostr :=
  sort_stable (rank_less mode groups medians (positions values)) values.

(** [medianInt] on a non-empty list; the index cannot be out of range. *)
Definition medianInt (values : list Z) : Z :=
  let l := sort_ints values in
  let n := length l in
  let at_ i := default 0 (l !! i) in
  if Nat.odd n then at_ (n / 2)%nat else Z.quot (at_ (n / 2 - 1)%nat +w at_ (n / 2)%nat) 2.

Definition sample_delays (samples : list healthSample) : list Z :=
  omap (fun s => if hs_OK s then hs_DelayMS s else None) samples.

Fixpoint sampleMedians (samples : gmap gostr (list healthSample)) (candidates : list gostr) : gmap gostr (option Z) :=
  match candidates with
  | [] => ∅
  | c :: candidates =>
      let result := sampleMedians samples candidates in
      match sample_delays (getl samples c) with
      | [] => result
      | delays => <[c := Some (medianInt delays)]> result
      end
  end.

Definition latestQualityObservation (item : policyHealthState) (node : gostr) : healthSample * f64 :=
  match last (getl (st_Samples item) node) with
  | None => (zeroSample, fzero)
  | Some sample => if fgt (hs_ObservedAt sample) fzero then (sample, hs_ObservedAt sample) else (sample, hs_At sample)
  end.

(** [float64(t.UnixNano()) / float64(time.Second)]. *)
Definition unix_float (t : Z) : f64 := fdiv (f64_of_Z (wrap_i64 t)) (f64_of_Z second).
Definition probeObservationTime (now : Z) (evidence : probeEvidence) : Z := default now (pe_ObservedAt evidence).
Definition qualityObservationAt (now : Z) (evidence : probeEvidence) : f64 :=
  unix_float (probeObservationTime now evidence).

Definition positive (d : option Z) : bool := match d with Some d => 0 <? d | None => false end.

Definition qualitySampleAge (now : Z) (item : policyHealthState) (candidate : gostr) : f64 * bool :=
  match last (getl (st_Samples item) candidate) with
  | None => (fzero, false)
  | Some sample =>
      let age := fsub (f64_of_Z (unix now)) (hs_At sample) in
      (age, fgt (hs_At sample) fzero && fge age fzero && hs_OK sample && positive (hs_DelayMS sample))
  end.

(** ** Emergency ranking and planning ([health_failover.go]) *)

(** What one candidate contributes to the ranking of an emergency. *)
Definition emergencyDelay (now : Z) (measured : gmap gostr probeEvidence) (item : policyHealthState)
    (p : effectivePolicySettings) (candidate : gostr) : option (option Z) :=
  let cached :=
    let '(sample, at_) := latestQualityObservation item candidate in
    let age := fsub (unix_float now) at_ in
    if hs_OK sample && positive (hs_DelayMS sample) && fgt at_ fzero && fge age fzero
       && fle age (f64_of_Z (ps_backup p))
    then Some (hs_DelayMS sample) else None in
  match measured !! candidate with
  | Some evidence =>
      if negb (pe_OK evidence) || pe_LocalFailure evidence || pe_PrimaryQualityFailed evidence then None
      else if positive (pe_DelayMS evidence) && negb (pe_QualityUnmeasured evidence) then Some (pe_DelayMS evidence)
      else cached
  | None => cached
  end.

Fixpoint emergencyRankingDelays (now : Z) (candidates : list gostr) (measured : gmap gostr probeEvidence)
    (item : policyHealthState) (p : effectivePolicySettings) : gmap gostr (option Z) :=
  match candidates with
  | [] => ∅
  | c :: candidates =>
      let delays := emergencyRankingDelays now candidates measured item p in
      match emergencyDelay now measured item p c with Some d => <[c:=d]> delays | None => delays end
  end.

Definition knownFreshReserves (now : Z) (selected : gostr) (candidates : list gostr) (mode : gostr)
    (groups : gmap gostr Z) (item : policyHealthState) (p : effectivePolicySettings) : list gostr :=
  let delays := emergencyRankingDelays now candidates ∅ item p in
  let fresh := filter (fun c => c <> selected /\ getb (st_PreflightClosed item) c = false /\ getp delays c <> None)
                 candidates in
  rankCandidates fresh mode groups delays.

Definition knownFreshReserve (now : Z) (selected : gostr) (candidates : list gostr) (mode : gostr)
    (groups : gmap gostr Z) (item : policyHealthState) (p : effectivePolicySettings) : gostr :=
  match knownFreshReserves now selected candidates mode groups item p with c :: _ => c | [] => [] end.

(** Append the targets that are not there yet while the batch has room: the
    loops of [prioritizeEmergencyReserve] and [emergencyProbePlan]. *)
Fixpoint fill_batch (skip : list gostr -> gostr -> bool) (batch : Z) (result targets : list gostr) : list gostr :=
  match targets with
  | [] => result
  | t :: targets =>
      if batch <=? Z.of_nat (length result) then result
      else fill_batch skip batch (if skip result t then result else result ++ [t]) targets
  end.

Definition prioritizeEmergencyReserve (targets : list gostr) (reserve : gostr) (closed : gmap gostr bool) (batch : Z)
    : list gostr :=
  if bool_decide (reserve = []) || getb closed reserve || (batch <=? 0) then targets
  else fill_batch (fun _ t => bool_decide (t = reserve)) batch [reserve] targets.

Definition emergencyProbePlan (now : Z) (selected : gostr) (targets candidates : list gostr) (groups : gmap gostr Z)
    (item : policyHealthState) (p : effectivePolicySettings) : list gostr * list gostr :=
  let open := withoutClosedCandidates candidates (st_PreflightClosed item) in
  if negb (bool_decide (ps_mode p = best)) then
    (prioritizeEmergencyReserve targets (knownFreshReserve now selected open (ps_mode p) groups item p)
       (st_PreflightClosed item) (ps_batch p), [])
  else
    let fresh := knownFreshReserves now selected open (ps_mode p) groups item p in
    match fresh with
    | [] => (targets, [])
    | _ =>
        let result := take (Z.to_nat (Z.min (Z.of_nat (length fresh)) (Z.max 1 (ps_batch p -w 1)))) fresh in
        let result := fill_batch contains (ps_batch p) result targets in
        (result, filter (fun c => contains result c = true) fresh)
    end.

(** [emergencyChoice.ready]: the candidate to take now, if any. *)
Record emergencyChoice := EmergencyChoice { ec_preferred : list gostr; ec_firstSuccess : gostr; ec_expired : bool }.

Fixpoint ready_loop (preferred : list gostr) (measured : gmap gostr probeEvidence) (expired pending : bool)
    : (option (gostr * probeEvidence)) + bool :=
  match preferred with
  | [] => inr pending
  | c :: preferred =>
      match measured !! c with
      | None => ready_loop preferred measured expired true
      | Some evidence =>
          if pe_OK evidence then
            if pending && negb expired then inl None else inl (Some (c, evidence))
          else ready_loop preferred measured expired pending
      end
  end.

Definition ready (choice : emergencyChoice) (measured : gmap gostr probeEvidence) : gostr * probeEvidence :=
  match ready_loop (ec_preferred choice) measured (ec_expired choice) false with
  | inl (Some result) => result
  | inl None => ([], zeroEvidence)
  | inr pending =>
      if negb (bool_decide (ec_firstSuccess choice = [])) && (negb pending || ec_expired choice)
      then (ec_firstSuccess choice, mget zeroEvidence measured (ec_firstSuccess choice))
      else ([], zeroEvidence)
  end.

(** Failure thresholds. *)
Definition failureConfirmationThreshold (evidence : probeEvidence) (configured : Z) : Z :=
  match pe_Failure evidence with
  | FailureFatal | FailureTLS => 1
  | FailureTimeout => Z.min configured 2
  | _ => configured
  end.
Definition startupFailureConfirmationThreshold (evidence : probeEvidence) (configured : Z) (warm : bool) : Z :=
  let threshold := failureConfirmationThreshold evidence configured in
  if warm && negb (match pe_Failure evidence with FailureTLS => true | _ => false end)
     && (1 <? configured) && (threshold <? 2)
  then 2 else threshold.

(** ** The rank order *)

(** The key a candidate is ranked by: in priority mode its group and position;
    otherwise measured before unmeasured, then the delay, then the position. *)
Definition rank_key (mode : gostr) (groups : gmap gostr Z) (medians : gmap gostr (option Z)) (pos : gmap gostr Z)
    (c : gostr) : Z * Z * Z :=
  if bool_decide (mode = priority) then (geti groups c, 0, geti pos c)
  else (if 0 <? candidateDelay c medians then 0 else 1, candidateDelay c medians, geti pos c).

Lemma candidateDelay_nonneg c medians : 0 <= candidateDelay c medians.
Proof. unfold candidateDelay. destruct (getp medians c) as [d|]; [|lia]. case_tests. Qed.

Lemma rank_less_key mode groups medians pos a b :
  rank_less mode groups medians pos a b = lex3 (rank_key mode groups medians pos a) (rank_key mode groups medians pos b).
Proof.
  pose proof (candidateDelay_nonneg a medians). pose proof (candidateDelay_nonneg b medians).
  unfold rank_less, rank_key. case_bool_decide; simpl.
  - case_tests; simpl; try done; apply eq_sym; case_tests.
  - destruct (Z.ltb_spec 0 (candidateDelay a medians)), (Z.ltb_spec 0 (candidateDelay b medians));
      simpl; case_tests; simpl; try done; apply eq_sym; case_tests.
Qed.

Lemma rank_order mode groups medians pos : weak_order (rank_less mode groups medians pos).
Proof. eapply weak_order_lex3. intros a b. apply rank_less_key. Qed.

Lemma rank_elem values mode groups medians c : c ∈ rankCandidates values mode groups medians <-> c ∈ values.
Proof. apply sort_stable_elem. Qed.

Lemma rank_perm values mode groups medians : rankCandidates values mode groups medians ≡ₚ values.
Proof. apply sort_stable_perm. Qed.

(** The first of a ranking: no other candidate has a smaller key. *)
Lemma rank_head values mode groups medians c r :
  rankCandidates values mode groups medians = c :: r ->
  c ∈ values /\ forall d, d ∈ values ->
    lex3 (rank_key mode groups medians (positions values) d) (rank_key mode groups medians (positions values) c) = false.
Proof.
  intros E. destruct (sort_stable_head _ _ _ _ (rank_order mode groups medians (positions values)) E) as [Hc Hd].
  split; [done|]. intros d Hin. rewrite <- rank_less_key. by apply Hd.
Qed.

(** In best mode the head has the smallest measured delay. *)
Lemma rank_head_delay values mode groups medians c r d :
  mode <> priority -> rankCandidates values mode groups medians = c :: r -> d ∈ values ->
  0 < candidateDelay d medians ->
  0 < candidateDelay c medians <= candidateDelay d medians.
Proof.
  intros Hm E Hd Hp. destruct (rank_head _ _ _ _ _ _ E) as [_ H]. specialize (H d Hd).
  unfold rank_key in H. rewrite bool_decide_eq_false_2 in H by done. rewrite (proj2 (Z.ltb_lt 0 _) Hp) in H.
  pose proof (candidateDelay_nonneg c medians).
  apply not_true_iff_false in H. rewrite lex3_spec in H.
  destruct (Z.ltb_spec 0 (candidateDelay c medians)); lia.
Qed.

(** ** Batches *)

Lemma fill_batch_sub skip batch result targets c :
  c ∈ fill_batch skip batch result targets -> c ∈ result \/ c ∈ targets.
Proof.
  revert result. induction targets as [|t targets IH]; simpl; intros result H; [by left|].
  destruct (_ <=? _); [by left|]. apply IH in H as [H|H]; [|set_solver].
  destruct (skip result t); [by left|]. set_solver.
Qed.

Lemma fill_batch_prefix skip batch result targets : prefix result (fill_batch skip batch result targets).
Proof.
  revert result. induction targets as [|t targets IH]; simpl; intros result; [done|].
  destruct (_ <=? _); [done|]. etransitivity; [|apply IH]. destruct (skip result t); [done|by apply prefix_app_r].
Qed.

Lemma fill_batch_length skip batch result targets :
  Z.of_nat (length result) <= batch -> Z.of_nat (length (fill_batch skip batch result targets)) <= batch.
Proof.
  revert result. induction targets as [|t targets IH]; simpl; intros result H; [done|].
  destruct (Z.leb_spec batch (Z.of_nat (length result))); [done|]. apply IH.
  destruct (skip result t); [done|]. rewrite length_app. simpl. lia.
Qed.

Lemma fill_batch_nodup batch result targets :
  NoDup result -> NoDup (fill_batch contains batch result targets).
Proof.
  revert result. induction targets as [|t targets IH]; simpl; intros result H; [done|].
  destruct (_ <=? _); [done|]. apply IH. destruct (contains result t) eqn:E; [done|].
  unfold contains in E. bool_prop. apply NoDup_app. split; [done|]. split; [|apply NoDup_singleton]. set_solver.
Qed.

Lemma fill_reserve_nodup reserve batch result targets :
  NoDup result -> NoDup targets -> reserve ∈ result -> (forall t, t ∈ targets -> t ∈ result -> t = reserve) ->
  NoDup (fill_batch (fun _ t => bool_decide (t = reserve)) batch result targets).
Proof.
  revert result. induction targets as [|t targets IH]; simpl; intros result Hr Ht Hin Hd; [done|].
  destruct (_ <=? _); [done|]. apply NoDup_cons in Ht as [Hnt Ht]. case_bool_decide as E.
  - apply IH; try done. set_solver.
  - apply IH; try done; [|set_solver|set_solver].
    apply NoDup_app. split; [done|]. split; [|apply NoDup_singleton].
    intros x Hx ->%list_elem_of_singleton. apply E. apply Hd; set_solver.
Qed.

(** A batch with room left has taken every target. *)
Lemma fill_batch_complete batch result targets t :
  Z.of_nat (length (fill_batch contains batch result targets)) < batch -> t ∈ targets ->
  t ∈ fill_batch contains batch result targets.
Proof.
  revert result. induction targets as [|u targets IH]; simpl; intros result Hlen Ht; [by apply elem_of_nil in Ht|].
  destruct (Z.leb_spec batch (Z.of_nat (length result))); [lia|].
  apply elem_of_cons in Ht as [->|Ht]; [|by apply IH].
  destruct (fill_batch_prefix contains batch (if contains result u then result else result ++ [u]) targets) as [k Hk].
  rewrite Hk. apply elem_of_app. left. unfold contains. case_bool_decide; [done|]. set_solver.
Qed.

(** *** Fresh reserves *)

Lemma emergencyRankingDelays_lookup now candidates measured item p c :
  emergencyRankingDelays now candidates measured item p !! c =
  if bool_decide (c ∈ candidates) then emergencyDelay now measured item p c else None.
Proof.
  induction candidates as [|x l IH]; simpl; [by rewrite lookup_empty|].
  destruct (decide (c = x)) as [->|Hne].
  - rewrite (bool_decide_eq_true_2 (x ∈ x :: l)) by set_solver.
    destruct (emergencyDelay now measured item p x) as [d|] eqn:E; [by rewrite lookup_insert_eq|].
    rewrite IH. case_bool_decide; congruence.
  - assert (Hd : bool_decide (c ∈ x :: l) = bool_decide (c ∈ l)) by (apply bool_decide_ext; set_solver).
    rewrite Hd. destruct (emergencyDelay now measured item p x); [rewrite lookup_insert_ne by done|]; apply IH.
Qed.

Lemma emergencyDelay_positive now measured item p c d :
  emergencyDelay now measured item p c = Some d -> positive d = true.
Proof.
  unfold emergencyDelay. destruct (latestQualityObservation item c) as [sample at_].
  intros H. repeat (case_match; simplify_eq); bool_prop; try done.
Qed.

Lemma knownFreshReserves_elem now selected candidates mode groups item p c :
  c ∈ knownFreshReserves now selected candidates mode groups item p <->
  c ∈ candidates /\ c <> selected /\ getb (st_PreflightClosed item) c = false /\
  (exists d, emergencyDelay now ∅ item p c = Some (Some d) /\ 0 < d).
Proof.
  unfold knownFreshReserves. rewrite rank_elem, list_elem_of_filter. unfold mget at 2.
  rewrite emergencyRankingDelays_lookup. split.
  - intros [(Hs & Hc & Hd) Hin]. rewrite bool_decide_eq_true_2 in Hd by done. split; [done|]. split; [done|].
    split; [done|]. destruct (emergencyDelay now ∅ item p c) as [[d|]|] eqn:E; simpl in Hd; [|done..].
    exists d. split; [done|]. apply emergencyDelay_positive in E. simpl in E. by bool_prop.
  - intros (Hin & Hs & Hc & d & Hd & Hp). rewrite bool_decide_eq_true_2 by done. rewrite Hd. simpl. done.
Qed.

Lemma knownFreshReserves_nodup now selected candidates mode groups item p :
  NoDup candidates -> NoDup (knownFreshReserves now selected candidates mode groups item p).
Proof.
  intros H. unfold knownFreshReserves. rewrite rank_perm. by apply NoDup_filter.
Qed.

Lemma open_nodup candidates closed : NoDup candidates -> NoDup (withoutClosedCandidates candidates closed).
Proof. intros H. by apply NoDup_filter. Qed.

Lemma take_of_nat_min {A} (l : list A) k :
  0 <= k -> Z.of_nat (length (take (Z.to_nat (Z.min (Z.of_nat (length l)) k)) l)) <= k.
Proof. intros. rewrite length_take. lia. Qed.

(** The plan of one emergency batch in best mode: a prefix of the fresh
    reserves and then targets. *)
Lemma best_plan now selected targets candidates groups item p f fs :
  ps_mode p = best -> 1 <= ps_batch p <= max_i64 ->
  knownFreshReserves now selected (withoutClosedCandidates candidates (st_PreflightClosed item)) best groups item p = f :: fs ->
  exists k, (1 <= k)%nat /\ Z.of_nat k <= Z.max 1 (ps_batch p - 1) /\
    (emergencyProbePlan now selected targets candidates groups item p).1 =
    fill_batch contains (ps_batch p) (take k (f :: fs)) targets.
Proof.
  intros Hm Hb Hf. unfold emergencyProbePlan. rewrite Hm. rewrite bool_decide_eq_true_2 by done. simpl negb. cbv iota.
  rewrite Hf. rewrite wrap_i64_id by (unfold min_i64, max_i64 in *; lia).
  exists (Z.to_nat (Z.min (Z.of_nat (length (f :: fs))) (Z.max 1 (ps_batch p - 1)))).
  simpl length. split; [lia|]. split; [lia|]. done.
Qed.

Lemma plan_cases now selected targets candidates groups item p :
  1 <= ps_batch p <= max_i64 -> NoDup candidates -> NoDup targets -> Z.of_nat (length targets) <= ps_batch p ->
  let plan := emergencyProbePlan now selected targets candidates groups item p in
  NoDup plan.1 /\ Z.of_nat (length plan.1) <= ps_batch p /\
  (forall c, c ∈ plan.1 -> c ∈ targets \/
     (c ∈ candidates /\ c <> selected /\ getb (st_PreflightClosed item) c = false /\
      exists d, emergencyDelay now ∅ item p c = Some (Some d) /\ 0 < d)).
Proof.
  intros Hb Hc Ht Hlen plan. set (open := withoutClosedCandidates candidates (st_PreflightClosed item)).
  assert (Hfresh : forall m c, c ∈ knownFreshReserves now selected open m groups item p ->
    c ∈ candidates /\ c <> selected /\ getb (st_PreflightClosed item) c = false /\
    exists d, emergencyDelay now ∅ item p c = Some (Some d) /\ 0 < d).
  { intros m c. rewrite knownFreshReserves_elem. intros (Hin & H). apply list_elem_of_filter in Hin as [_ Hin]. done. }
  destruct (decide (ps_mode p = best)) as [Hm|Hm].
  - destruct (knownFreshReserves now selected open best groups item p) as [|f fs] eqn:Hf.
    + assert (E : plan = (targets, [])).
      { unfold plan, emergencyProbePlan. rewrite Hm, bool_decide_eq_true_2 by done. simpl negb. cbv iota. fold open.
        by rewrite Hf. }
      rewrite E. simpl. split; [done|]. split; [done|]. by left.
    + destruct (best_plan now selected targets candidates groups item p f fs Hm Hb Hf) as (k & Hk1 & Hk2 & E).
      fold plan in E. rewrite E.
      assert (Hnd : NoDup (take k (f :: fs))).
      { apply (NoDup_app (take k (f :: fs)) (drop k (f :: fs))). rewrite take_drop, <- Hf.
        by apply knownFreshReserves_nodup, open_nodup. }
      split; [by apply fill_batch_nodup|]. split.
      { apply fill_batch_length. rewrite length_take. lia. }
      intros c [Hin|Hin]%fill_batch_sub; [right|by left]. apply (Hfresh best). rewrite Hf.
      rewrite <- (take_drop k (f :: fs)). apply elem_of_app. by left.
  - assert (E : plan.1 = prioritizeEmergencyReserve targets
      (knownFreshReserve now selected open (ps_mode p) groups item p) (st_PreflightClosed item) (ps_batch p)).
    { unfold plan, emergencyProbePlan. by rewrite bool_decide_eq_false_2. }
    rewrite E. unfold prioritizeEmergencyReserve, knownFreshReserve.
    destruct (knownFreshReserves now selected open (ps_mode p) groups item p) as [|r l] eqn:Hf; simpl.
    { split; [done|]. split; [done|]. by left. }
    destruct (_ || _) eqn:Ec. { split; [done|]. split; [done|]. by left. }
    split; [apply fill_reserve_nodup; [apply NoDup_singleton|done|set_solver|set_solver]|]. split.
    { apply fill_batch_length. simpl. lia. }
    intros c [Hin|Hin]%fill_batch_sub; [right|by left]. apply (Hfresh (ps_mode p)). rewrite Hf. set_solver.
Qed.

(** ** The claims *)

(** [rankCandidates] returns the same candidates in the order of their keys
    (group and position in priority mode; measured before unmeasured, faster
    before slower, then position otherwise), and in best mode its head has the
    smallest measured delay of all. *)
Theorem rankCandidates_correct (values : list gostr) (mode : gostr) (groups : gmap gostr Z) (medians : gmap gostr (option Z)) :
  let ranked := rankCandidates values mode groups medians in
  let key := rank_key mode groups medians (positions values) in
  ranked ≡ₚ values /\ ordered (fun a b => lex3 (key a) (key b)) ranked /\
  (forall c r d, mode <> priority -> ranked = c :: r -> d ∈ values -> 0 < candidateDelay d medians ->
     0 < candidateDelay c medians <= candidateDelay d medians).
Proof.
  intros ranked key. split; [apply rank_perm|]. split.
  - pose proof (sort_stable_ordered _ values (rank_order mode groups medians (positions values))) as H.
    unfold ordered in *. eapply (Sorted.StronglySorted_ind (fun l => Sorted.StronglySorted _ l)); [..|exact H].
    + constructor.
    + intros a l _ IH Hl. constructor; [exact IH|]. eapply Forall_impl; [exact Hl|]. intros b Hb. simpl in Hb |- *.
      by rewrite rank_less_key in Hb.
  - intros c r d Hm E Hd Hp. exact (rank_head_delay _ _ _ _ _ _ _ Hm E Hd Hp).
Qed.

(** an emergency batch stays within the configured batch size and probes no
    node twice; besides the scheduled targets it contains only candidates other
    than the failed one, not known to be closed, whose cached measurement is
    positive and recent. *)
Theorem emergencyProbePlan_bounded (now : Z) (selected : gostr) (targets candidates : list gostr)
    (groups : gmap gostr Z) (item : policyHealthState) (p : effectivePolicySettings) :
  1 <= ps_batch p <= max_i64 -> NoDup candidates -> NoDup targets -> Z.of_nat (length targets) <= ps_batch p ->
  let plan := emergencyProbePlan now selected targets candidates groups item p in
  NoDup plan.1 /\ Z.of_nat (length plan.1) <= ps_batch p /\
  (forall c, c ∈ plan.1 -> c ∈ targets \/
     (c ∈ candidates /\ c <> selected /\ getb (st_PreflightClosed item) c = false /\
      exists d, emergencyDelay now ∅ item p c = Some (Some d) /\ 0 < d)).
Proof. apply plan_cases. Qed.

(** A state with fresh measurements of two reserves. *)
Definition demo_sample (delay : Z) : healthSample :=
  HealthSample (f64_of_Z 1000) (f64_of_Z 1000) true (Some delay).
Definition demo_item : policyHealthState :=
  PolicyHealthState (bs "a") ∅ ∅ ∅
    (<[bs "b" := [demo_sample 90]]> (<[bs "c" := [demo_sample 40]]> ∅)) ∅ [] [] [] 0 None ∅ ∅ ∅ [] ∅ (bs "a") true [].
Definition demo_settings : effectivePolicySettings := policySettings (HealthPolicy 50 60 3 3) best.

Example emergencyProbePlan_bounded_witness :
  emergencyProbePlan (1050 * second) (bs "a") [bs "d"; bs "e"] [bs "a"; bs "b"; bs "c"; bs "d"; bs "e"] ∅ demo_item demo_settings
    = ([bs "c"; bs "b"; bs "d"], [bs "c"; bs "b"]) /\
  NoDup (emergencyProbePlan (1050 * second) (bs "a") [bs "d"; bs "e"] [bs "a"; bs "b"; bs "c"; bs "d"; bs "e"] ∅
           demo_item demo_settings).1.
Proof.
  split; [vm_compute; reflexivity|].
  apply (emergencyProbePlan_bounded (1050 * second) (bs "a") [bs "d"; bs "e"]
    [bs "a"; bs "b"; bs "c"; bs "d"; bs "e"] ∅ demo_item demo_settings).
  - vm_compute. split; discriminate.
  - apply (bool_decide_unpack _). vm_compute. exact I.
  - apply (bool_decide_unpack _). vm_compute. exact I.
  - vm_compute. discriminate.
Defined.
