(* ===== verification/HealthSelect.v ===== *)
(** * Selection of the active node

    Models the decision logic of [internal/agent/health_logic.go]: the desired
    node of a policy ([selectDesired]), the pairwise comparison of the active
    node with a faster reserve ([compareOptimization],
    [regularOptimizationComparison]) and the gate that requires two independent
    wins before a planned switch ([gatePlannedOptimization]), with the shortlist
    and the replacement of a removed node. *)

From Stdlib Require Import String.
From S2P Require Import Prelude GoBase GoSort GoText GoFloat GoTime HealthModel.
Open Scope Z_scope.

Set Default Proof Using "Type".

(** ** Candidate groups *)

Record healthGroup := HealthGroup { hg_Selector : gostr; hg_Members : list gostr }.

(** The group index of every candidate; the selectors and labels that
    [candidateGroups] also returns are left out. *)
Fixpoint group_members (candidates : list gostr) (index : Z) (members : list gostr) (indices : gmap gostr Z) : gmap gostr Z :=
  match members with
  | [] => indices
  | m :: members =>
      group_members candidates index members
        (if contains candidates m then match indices !! m with Some _ => indices | None => <[m:=index]> indices end else indices)
  end.
Fixpoint group_loop (candidates : list gostr) (index : Z) (groups : list healthGroup) (indices : gmap gostr Z) : gmap gostr Z :=
  match groups with
  | [] => indices
  | g :: groups => group_loop candidates (index + 1) groups (group_members candidates index (hg_Members g) indices)
  end.
Fixpoint group_rest (mode : gostr) (index : Z) (candidates : list gostr) (indices : gmap gostr Z) : gmap gostr Z :=
  match candidates with
  | [] => indices
  | c :: candidates =>
      group_rest mode (index + 1) candidates
        (match indices !! c with
         | Some _ => indices
         | None => <[c := if bool_decide (mode = priority) then index else 0]> indices
         end)
  end.
Definition candidateGroups (groups : list healthGroup) (candidates : list gostr) (mode : gostr) : gmap gostr Z :=
  group_rest mode 0 candidates (group_loop candidates 0 groups ∅).

(** ** Shortlist and replacement *)

Definition workingShortlist (selected : gostr) (candidates : list gostr) (mode : gostr) (groups : gmap gostr Z)
    (item : policyHealthState) (p : effectivePolicySettings) : list gostr :=
  let eligible := filter (fun c => getb (st_AvailabilityOK item) c = true /\ getb (st_QualityOK item) c = true /\
      geti (st_AvailabilityFailures item) c = 0 /\ ps_recoveryThreshold p <= geti (st_Recoveries item) c) candidates in
  let ranked := rankCandidates eligible mode groups (st_MedianDelayMS item) in
  let result := if contains candidates selected && getb (st_AvailabilityOK item) selected then [selected] else [] in
  (fix loop (ranked result : list gostr) : list gostr :=
     match ranked with
     | [] => result
     | c :: ranked =>
         if Z.of_nat (length result) =? ps_shortlist p then result
         else loop ranked (if bool_decide (c = selected) then result else result ++ [c])
     end) ranked result.

Definition knownReserve (candidates : list gostr) (item : policyHealthState) (p : effectivePolicySettings) (c : gostr) : bool :=
  contains candidates c && getb (st_AvailabilityOK item) c &&
  (geti (st_AvailabilityFailures item) c <? ps_failureThreshold p) && (0 <? geti (st_Recoveries item) c).

Definition knownHealthyReplacement (candidates : list gostr) (mode : gostr) (groups : gmap gostr Z)
    (item : policyHealthState) (p : effectivePolicySettings) : gostr :=
  let fallback :=
    let available := filter (fun c => knownReserve candidates item p c = true) candidates in
    match rankCandidates available mode groups (st_MedianDelayMS item) with c :: _ => c | [] => [] end in
  if bool_decide (mode = best) then
    match filter (fun c => knownReserve candidates item p c = true) (st_Shortlist item) with c :: _ => c | [] => fallback end
  else fallback.

(** ** A faster reserve *)

Definition meaningfullyBetter (selected : gostr) (candidates : list gostr) (delays : gmap gostr (option Z))
    (p : effectivePolicySettings) : gostr :=
  match getp delays selected with
  | None => []
  | Some current =>
      if current <=? 0 then []
      else
        let qualified := filter (fun c =>
          match getp delays c with Some d => (0 <? d) && (ps_improvement p <? current -w d) | None => false end = true) candidates in
        let delay c := default 0 (getp delays c) in
        match sort_stable (fun a b => delay a <? delay b) qualified with c :: _ => c | [] => [] end
  end.

Section Code.
(** The lenient scanner of [time.Parse]. *)
Context (lenient : gostr -> option Z).

Definition freshComparisonAt (now : Z) (comparison : option optimizationComparison) (p : effectivePolicySettings) : bool :=
  match comparison with
  | None => false
  | Some comparison =>
      match ParseRFC3339 lenient (oc_At comparison) with
      | None => false
      | Some at_ =>
          let age := time_sub now at_ in
          (0 <=? age) && (age <=? (Z.max (ps_active p *w 2) 120) *w second)
      end
  end.

(** ** Comparisons *)

Definition freshOptimizationWin (selected candidate : gostr) (measured : gmap gostr probeEvidence)
    (p : effectivePolicySettings) : bool :=
  match measured !! selected, measured !! candidate with
  | Some a, Some c =>
      if negb (pe_OK a) || negb (pe_OK c) || bool_decide (pe_DelayMS a = None) || bool_decide (pe_DelayMS c = None) then false
      else bool_decide (meaningfullyBetter selected [candidate]
             (<[candidate := pe_DelayMS c]> (<[selected := pe_DelayMS a]> ∅)) p = candidate)
  | _, _ => false
  end.

Definition compareOptimization (now : Z) (selected candidate : gostr) (measured : gmap gostr probeEvidence)
    (candidateQuality candidateAvailable : bool) (p : effectivePolicySettings) : optimizationComparison :=
  let active := mget zeroEvidence measured selected in
  let reserve := mget zeroEvidence measured candidate in
  let '(result, reason) :=
    if bool_decide (measured !! selected = None) || bool_decide (measured !! candidate = None) then (Inconclusive, PairIncomplete)
    else if negb (pe_OK active) || bool_decide (pe_DelayMS active = None) then (Loss, ActiveHttpsFailed)
    else if negb (pe_OK reserve) || bool_decide (pe_DelayMS reserve = None) || negb candidateQuality || negb candidateAvailable
      then (Loss, CandidateQuality)
    else if freshOptimizationWin selected candidate measured p then (Win, Better)
    else (Loss, NotBetter) in
  OptimizationComparison (f64_of_Z (unix now)) (f64_of_Z (unix now)) (pe_ResponseDelayMS active) (pe_ResponseDelayMS reserve)
    (ps_improvement p) (FormatRFC3339 now) candidate result reason (pe_DelayMS active) (pe_DelayMS reserve).

Definition with_times (c : optimizationComparison) (activeAt candidateAt : f64) : optimizationComparison :=
  OptimizationComparison activeAt candidateAt (oc_ActiveResponseMS c) (oc_CandidateResponseMS c) (oc_ImprovementMS c)
    (oc_At c) (oc_Candidate c) (oc_Result c) (oc_Reason c) (oc_ActiveDelayMS c) (oc_CandidateDelayMS c).
Definition with_result (c : optimizationComparison) (result : comparisonResult) (reason : comparisonReason)
    : optimizationComparison :=
  OptimizationComparison (oc_ActiveSampleAt c) (oc_CandidateSampleAt c) (oc_ActiveResponseMS c) (oc_CandidateResponseMS c)
    (oc_ImprovementMS c) (oc_At c) (oc_Candidate c) result reason (oc_ActiveDelayMS c) (oc_CandidateDelayMS c).

Definition evidence_of (s : healthSample) : probeEvidence :=
  ProbeEvidence false false None false false (hs_OK s) None (hs_DelayMS s) FailureNone.
Definition with_delay (e : probeEvidence) (d : option Z) : probeEvidence :=
  ProbeEvidence (pe_QualityUnmeasured e) (pe_PrimaryQualityFailed e) (pe_ObservedAt e) (pe_Deferred e) (pe_LocalFailure e)
    (pe_OK e) (pe_ResponseDelayMS e) d (pe_Failure e).

Definition optimizationPairSkew : f64 := f64_of_Z 10.

Definition regularOptimizationComparison (now : Z) (selected candidate : gostr) (measured : gmap gostr probeEvidence)
    (item : policyHealthState) (quality available : bool) (p : effectivePolicySettings) : option optimizationComparison :=
  match measured !! candidate with
  | None => None
  | Some evidence =>
      let candidateAt := qualityObservationAt now evidence in
      let both := {[candidate := evidence]} in
      let '(both, activeAt, complete) :=
        match measured !! selected with
        | Some active => (<[selected := active]> both, qualityObservationAt now active, true)
        | None =>
            let '(last, at_) := latestQualityObservation item selected in
            if bool_decide (st_OptimizationBaseline item = selected) && bool_decide (st_OptimizationCandidate item = candidate)
               && fgt (hs_ObservedAt last) fzero && fle (hs_ObservedAt last) candidateAt
            then (<[selected := evidence_of last]> both, at_, true) else (both, at_, false)
        end in
      let latest := with_times (compareOptimization now selected candidate both quality available p) activeAt candidateAt in
      if negb complete || fgt (fabs (fsub candidateAt activeAt)) optimizationPairSkew then
        Some (with_result latest Inconclusive (if complete then PairSkew else PairIncomplete))
      else
        match oc_Result latest with
        | Win =>
            let medians := sampleMedians (st_Samples item) [selected; candidate] in
            let both := map_imap (fun node e =>
              Some (if pe_OK e && negb (bool_decide (pe_DelayMS e = None)) && negb (pe_QualityUnmeasured e)
                       && negb (bool_decide (getp medians node = None))
                    then with_delay e (getp medians node) else e)) both in
            Some (with_times (compareOptimization now selected candidate both quality available p) activeAt candidateAt)
        | _ => Some latest
        end
  end.

(** ** The gate of planned switches *)

Inductive switchReason :=
| NoReason | FreshPathAvailable | ActiveUnavailable | AllCandidatesUnavailable | ActiveDegraded
| HigherPriorityRecovered | MeaningfullyFaster.
#[export] Instance switchReason_eq_dec : EqDecision switchReason.
Proof. solve_decision. Defined.

Definition isPlannedOptimization (reason : switchReason) : bool := bool_decide (reason = MeaningfullyFaster).

Definition with_optimization (item : policyHealthState) (baseline candidate : gostr) (checks : Z)
    (last : option optimizationComparison) : policyHealthState :=
  PolicyHealthState (st_Selected item) (st_Failures item) (st_AvailabilityFailures item) (st_Recoveries item)
    (st_Samples item) (st_LastProbeAt item) (st_ScanQueue item) baseline candidate checks last (st_MedianDelayMS item)
    (st_QualityOK item) (st_AvailabilityOK item) (st_Shortlist item) (st_PreflightClosed item) (st_RuntimeSelected item)
    (st_RuntimeConfirmed item) (st_UnderlayFailure item).
Definition clearOptimizationCandidate (item : policyHealthState) : policyHealthState :=
  with_optimization item [] [] 0 (st_OptimizationLastResult item).
Definition with_last (item : policyHealthState) (last : option optimizationComparison) : policyHealthState :=
  with_optimization item (st_OptimizationBaseline item) (st_OptimizationCandidate item) (st_OptimizationChecks item) last.

Definition pairReason (r : comparisonReason) : bool := match r with PairIncomplete | PairSkew => true | _ => false end.
Definition is_win (r : comparisonResult) : bool := match r with Win => true | _ => false end.
Definition is_inconclusive (r : comparisonResult) : bool := match r with Inconclusive => true | _ => false end.

Definition gatePlannedOptimization (now : Z) (selected desired : gostr) (reason : switchReason)
    (comparison : option optimizationComparison) (item : policyHealthState) (p : effectivePolicySettings)
    : gostr * switchReason * policyHealthState :=
  if negb (bool_decide (desired = selected)) && negb (isPlannedOptimization reason)
  then (desired, reason, clearOptimizationCandidate item)
  else if negb (bool_decide (st_OptimizationBaseline item = [])) && negb (bool_decide (st_OptimizationBaseline item = selected))
  then (selected, NoReason, clearOptimizationCandidate item)
  else
    match comparison with
    | None =>
        (selected, NoReason,
         if negb (bool_decide (st_OptimizationCandidate item = []))
            && negb (freshComparisonAt now (st_OptimizationLastResult item) p)
         then clearOptimizationCandidate item else item)
    | Some comparison =>
        if negb (bool_decide (desired = selected)) && isPlannedOptimization reason
           && is_inconclusive (oc_Result comparison) && fgt (oc_CandidateSampleAt comparison) fzero
           && freshComparisonAt now (Some comparison) p && pairReason (oc_Reason comparison)
        then
          (selected, NoReason,
           if negb (bool_decide (st_OptimizationCandidate item = desired))
              || negb (bool_decide (st_OptimizationBaseline item = selected))
              || negb (freshComparisonAt now (st_OptimizationLastResult item) p)
           then with_optimization item selected desired 0 (Some comparison)
           else if st_OptimizationChecks item =? 0 then with_last item (Some comparison) else item)
        else if negb (is_win (oc_Result comparison)) || negb (bool_decide (oc_Candidate comparison = desired))
        then (selected, NoReason, with_last (clearOptimizationCandidate item) (Some comparison))
        else if fle (oc_ActiveSampleAt comparison) fzero || fle (oc_CandidateSampleAt comparison) fzero
        then (selected, NoReason, item)
        else
          let previous := st_OptimizationLastResult item in
          let stale := match previous with
                       | None => true
                       | Some prev => negb (freshComparisonAt now previous p) || fle (oc_ActiveSampleAt prev) fzero
                                      || fle (oc_CandidateSampleAt prev) fzero
                       end in
          let item := if negb (bool_decide (st_OptimizationCandidate item = desired)) || stale
                      then with_optimization item selected desired 0 previous else item in
          let repeated := match previous with
                          | None => false
                          | Some prev => bool_decide (oc_At prev = oc_At comparison)
                                         || fle (oc_ActiveSampleAt comparison) (oc_ActiveSampleAt prev)
                                         || fle (oc_CandidateSampleAt comparison) (oc_CandidateSampleAt prev)
                          end in
          if (0 <? st_OptimizationChecks item) && repeated then (selected, NoReason, item)
          else
            let item := with_optimization item (st_OptimizationBaseline item) (st_OptimizationCandidate item)
                          (st_OptimizationChecks item +w 1) (Some comparison) in
            if st_OptimizationChecks item <? optimizationConfirmations then (selected, NoReason, item)
            else (desired, MeaningfullyFaster, clearOptimizationCandidate item)
    end.

(** ** The desired node *)

Definition fresh (measured : gmap gostr probeEvidence) (c : gostr) : bool :=
  match measured !! c with Some e => pe_OK e && negb (pe_LocalFailure e) | None => false end.

(** A reserve that may replace a working active node. *)
Definition stableReserve (now : Z) (selected : gostr) (medians : gmap gostr (option Z)) (quality available : gmap gostr bool)
    (item : policyHealthState) (p : effectivePolicySettings) (c : gostr) : bool :=
  let '(age, recentQuality) := qualitySampleAge now item c in
  let freshForSoftSwitch := recentQuality && fle age (f64_of_Z (Z.min (ps_backup p) (Z.max (ps_active p *w 2) 120))) in
  negb (bool_decide (c = selected)) && getb quality c
  && (getb available c && (ps_recoveryThreshold p <=? geti (st_Recoveries item) c) && negb (bool_decide (getp medians c = None)))
  && (geti (st_AvailabilityFailures item) c =? 0) && freshForSoftSwitch.

(** A stable reserve that is also faster than the active node by its latest sample and measured or pending. *)
Definition measuredReserve (selected : gostr) (measured : gmap gostr probeEvidence) (item : policyHealthState)
    (p : effectivePolicySettings) (c : gostr) : bool :=
  let latest n := last (getl (st_Samples item) n) in
  let slower :=
    match latest selected, latest c with
    | Some active, Some reserve =>
        match hs_DelayMS active, hs_DelayMS reserve with
        | Some a, Some r => a -w r <=? ps_improvement p
        | _, _ => true
        end
    | _, _ => false
    end in
  let pending := bool_decide (c = st_OptimizationCandidate item) && (0 <? st_OptimizationChecks item) in
  let measuredNow := match measured !! c with
                     | Some e => pe_OK e && negb (bool_decide (pe_DelayMS e = None)) && negb (pe_QualityUnmeasured e)
                     | None => false end in
  negb slower && (pending || measuredNow).

Definition higherPriority (groups : gmap gostr Z) (candidates : list gostr) (selected c : gostr) : bool :=
  (geti groups c <? geti groups selected)
  || ((geti groups c =? geti groups selected) && (candidateIndex candidates c <? candidateIndex candidates selected)).

Definition selectedFailed (selected : gostr) (candidates : list gostr) (item : policyHealthState) (p : effectivePolicySettings) : bool :=
  bool_decide (selected = block) || negb (contains candidates selected)
  || (ps_failureThreshold p <=? geti (st_AvailabilityFailures item) selected).

Definition selectDesired (now : Z) (mode selected : gostr) (candidates : list gostr) (groups : gmap gostr Z)
    (medians : gmap gostr (option Z)) (measured : gmap gostr probeEvidence) (quality available : gmap gostr bool)
    (item : policyHealthState) (p : effectivePolicySettings) : gostr * switchReason :=
  let rank values := rankCandidates values mode groups medians in
  let rankEmergency values := rankCandidates values mode groups (emergencyRankingDelays now values measured item p) in
  if bool_decide (selected = block) then
    match rankEmergency (filter (fun c => fresh measured c = true) candidates) with
    | c :: _ => (c, FreshPathAvailable)
    | [] => (selected, NoReason)
    end
  else if selectedFailed selected candidates item p then
    match rankEmergency (filter (fun c => c <> selected /\ fresh measured c = true) candidates) with
    | c :: _ => (c, ActiveUnavailable)
    | [] => (block, AllCandidatesUnavailable)
    end
  else
    let stable := filter (fun c => stableReserve now selected medians quality available item p c = true) candidates in
    let priorityReturn :=
      if bool_decide (mode = priority) then
        match rank (filter (fun c => higherPriority groups candidates selected c = true) stable) with c :: _ => c | [] => [] end
      else [] in
    if (ps_failureThreshold p <=? geti (st_Failures item) selected) && negb (bool_decide (stable = []))
    then (match rank stable with c :: _ => c | [] => [] end, ActiveDegraded)
    else if negb (bool_decide (priorityReturn = [])) then (priorityReturn, HigherPriorityRecovered)
    else if negb (bool_decide (mode = priority)) then
      let measuredStable := filter (fun c => measuredReserve selected measured item p c = true) stable in
      let pending := st_OptimizationCandidate item in
      let first :=
        if (0 <? st_OptimizationChecks item) && bool_decide (st_OptimizationBaseline item = selected)
           && freshComparisonAt now (st_OptimizationLastResult item) p && contains measuredStable pending
        then meaningfullyBetter selected [pending] medians p else [] in
      if negb (bool_decide (first = [])) then (first, MeaningfullyFaster)
      else
        let better := meaningfullyBetter selected measuredStable medians p in
        if negb (bool_decide (better = [])) then (better, MeaningfullyFaster) else (selected, NoReason)
    else (selected, NoReason).
End Code.

(** ** Facts *)

Lemma meaningfullyBetter_spec selected candidates delays p c :
  meaningfullyBetter selected candidates delays p = c -> c <> [] ->
  exists current d, getp delays selected = Some current /\ getp delays c = Some d /\ c ∈ candidates /\
    0 < current /\ 0 < d /\ ps_improvement p < current -w d /\
    forall c' d', c' ∈ candidates -> getp delays c' = Some d' -> 0 < d' -> ps_improvement p < current -w d' -> d <= d'.
Proof.
  unfold meaningfullyBetter. destruct (getp delays selected) as [current|]; [|congruence].
  destruct (Z.leb_spec current 0); [congruence|].
  set (q := filter _ _). set (delay := fun x => default 0 (getp delays x)).
  destruct (sort_stable _ q) as [|x r] eqn:E; [congruence|]. intros <- _.
  destruct (sort_stable_head _ _ _ _ (weak_order_key delay _ ltac:(done)) E) as [Hx Hmin].
  apply list_elem_of_filter in Hx as [Hq Hin]. destruct (getp delays x) as [d|] eqn:Ed; [|done]. bool_prop.
  exists current, d. do 6 (split; [done|]). intros c' d' Hc' Hd' Hp Hi.
  assert (Hq' : c' ∈ q) by (apply list_elem_of_filter; split; [|done]; rewrite Hd'; apply andb_true_iff; split; by apply Z.ltb_lt).
  specialize (Hmin c' Hq'). unfold delay in Hmin. rewrite Hd', Ed in Hmin. simpl in Hmin. bool_prop. done.
Qed.

Lemma rank_first values mode groups medians d :
  d ∈ values -> exists c r, rankCandidates values mode groups medians = c :: r /\ c ∈ values.
Proof.
  intros Hd. destruct (rankCandidates values mode groups medians) as [|c r] eqn:E.
  - apply sort_stable_nil in E. subst. by apply elem_of_nil in Hd.
  - exists c, r. split; [done|]. apply (rank_head _ _ _ _ _ _ E).
Qed.

(** *** The specification of the decision, in terms of the state and the probes *)

(** The probe of this round reached the node, and no failure of this host
    explains the result. *)
Definition usable (measured : gmap gostr probeEvidence) (c : gostr) : Prop :=
  exists e, measured !! c = Some e /\ pe_OK e = true /\ pe_LocalFailure e = false.

(** The active node is gone from the configuration or unreachable. *)
Definition active_failed (selected : gostr) (candidates : list gostr) (item : policyHealthState) (p : effectivePolicySettings) : Prop :=
  selected ∉ candidates \/ ps_failureThreshold p <= geti (st_AvailabilityFailures item) selected.

(** A reserve that may replace a reachable active node: qualified, available
    with enough recoveries in a row and no failure, with a known delay, and with
    a latest sample that succeeded and is at most the smaller of the backup
    interval and twice the active interval (but 120 s at least) old. *)
Record qualified (now : Z) (selected : gostr) (medians : gmap gostr (option Z)) (quality available : gmap gostr bool)
    (item : policyHealthState) (p : effectivePolicySettings) (c : gostr) : Prop := {
  ql_other : c <> selected;
  ql_quality : getb quality c = true;
  ql_available : getb available c = true;
  ql_recovered : ps_recoveryThreshold p <= geti (st_Recoveries item) c;
  ql_delay : is_Some (getp medians c);
  ql_failures : geti (st_AvailabilityFailures item) c = 0;
  ql_sample : exists sample delay, last (getl (st_Samples item) c) = Some sample /\ hs_OK sample = true /\
    hs_DelayMS sample = Some delay /\ 0 < delay /\ fgt (hs_At sample) fzero = true /\
    let age := fsub (f64_of_Z (unix now)) (hs_At sample) in
    fge age fzero = true /\ fle age (f64_of_Z (Z.min (ps_backup p) (Z.max (ps_active p *w 2) 120))) = true;
}.

(** [c] comes before the active node: an earlier group, or the same group and
    an earlier place in the list. *)
Definition preferred_to (groups : gmap gostr Z) (candidates : list gostr) (selected c : gostr) : Prop :=
  geti groups c < geti groups selected \/
  geti groups c = geti groups selected /\ candidateIndex candidates c < candidateIndex candidates selected.

(** [c] is faster than the active node by more than the configured improvement:
    by the medians, and by the latest samples when both nodes have one; and it
    was measured in this round or already won a comparison. *)
Record faster (selected : gostr) (medians : gmap gostr (option Z)) (measured : gmap gostr probeEvidence)
    (item : policyHealthState) (p : effectivePolicySettings) (c : gostr) : Prop := {
  fa_median : exists current delay, getp medians selected = Some current /\ getp medians c = Some delay /\
    0 < current /\ 0 < delay /\ ps_improvement p < current -w delay;
  fa_sample active reserve : last (getl (st_Samples item) selected) = Some active -> last (getl (st_Samples item) c) = Some reserve ->
    exists a r, hs_DelayMS active = Some a /\ hs_DelayMS reserve = Some r /\ ps_improvement p < a -w r;
  fa_measured : (c = st_OptimizationCandidate item /\ 0 < st_OptimizationChecks item) \/
    exists e, measured !! c = Some e /\ pe_OK e = true /\ is_Some (pe_DelayMS e) /\ pe_QualityUnmeasured e = false;
}.

(** The decisions that are justified, and by what. *)
Inductive desired_ok (now : Z) (mode selected : gostr) (candidates : list gostr)
    (groups : gmap gostr Z) (medians : gmap gostr (option Z)) (measured : gmap gostr probeEvidence)
    (quality available : gmap gostr bool) (item : policyHealthState) (p : effectivePolicySettings)
    : gostr -> switchReason -> Prop :=
| keep_selected :
    selected <> block -> ~ active_failed selected candidates item p ->
    (forall c, c ∈ candidates -> qualified now selected medians quality available item p c ->
       geti (st_Failures item) selected < ps_failureThreshold p /\
       (mode = priority -> ~ preferred_to groups candidates selected c) /\
       (mode <> priority -> ~ faster selected medians measured item p c)) ->
    desired_ok now mode selected candidates groups medians measured quality available item p selected NoReason
| stay_blocked :
    selected = block -> (forall c, c ∈ candidates -> ~ usable measured c) ->
    desired_ok now mode selected candidates groups medians measured quality available item p selected NoReason
| leave_block d :
    selected = block -> d ∈ candidates -> usable measured d ->
    desired_ok now mode selected candidates groups medians measured quality available item p d FreshPathAvailable
| fail_over d :
    selected <> block -> active_failed selected candidates item p ->
    d ∈ candidates -> d <> selected -> usable measured d ->
    desired_ok now mode selected candidates groups medians measured quality available item p d ActiveUnavailable
| fail_closed :
    selected <> block -> active_failed selected candidates item p ->
    (forall c, c ∈ candidates -> c <> selected -> ~ usable measured c) ->
    desired_ok now mode selected candidates groups medians measured quality available item p block AllCandidatesUnavailable
| soft_switch d r :
    selected <> block -> ~ active_failed selected candidates item p ->
    d ∈ candidates -> qualified now selected medians quality available item p d ->
    (r = ActiveDegraded /\ ps_failureThreshold p <= geti (st_Failures item) selected \/
     r = HigherPriorityRecovered /\ mode = priority /\ preferred_to groups candidates selected d \/
     r = MeaningfullyFaster /\ mode <> priority /\ faster selected medians measured item p d) ->
    desired_ok now mode selected candidates groups medians measured quality available item p d r.

(** *** The tests of the code decide the specification *)

Lemma fresh_usable measured c : fresh measured c = true <-> usable measured c.
Proof.
  unfold fresh, usable. destruct (measured !! c) as [e|]; [|naive_solver].
  rewrite andb_true_iff, negb_true_iff. naive_solver.
Qed.

Lemma selectedFailed_iff selected candidates item p :
  selected <> block -> selectedFailed selected candidates item p = true <-> active_failed selected candidates item p.
Proof.
  intros Hb. unfold selectedFailed, active_failed, contains. rewrite bool_decide_eq_false_2 by done. simpl.
  rewrite orb_true_iff, negb_true_iff, bool_decide_eq_false, Z.leb_le. done.
Qed.

Lemma stableReserve_iff now selected medians quality available item p c :
  stableReserve now selected medians quality available item p c = true <->
  qualified now selected medians quality available item p c.
Proof.
  unfold stableReserve, qualitySampleAge. destruct (last (getl (st_Samples item) c)) as [sample|] eqn:El.
  2: { rewrite andb_false_l, andb_false_r. split; [done|]. intros []. naive_solver. }
  rewrite !andb_true_iff, !negb_true_iff, !bool_decide_eq_false, Z.leb_le, Z.eqb_eq. split.
  - intros ((((? & ?) & ((? & ?) & Hd)) & ?) & ((((? & ?) & ?) & Hp) & ?)). unfold positive in Hp.
    destruct (hs_DelayMS sample) as [delay|] eqn:Ed; [|done]. apply Z.ltb_lt in Hp.
    split; try done; [by destruct (getp medians c)|]. exists sample, delay. done.
  - intros [? ? ? ? [m Hm] ? (s' & delay & Hs & ? & Hd & ? & ? & ? & ?)]. simplify_eq. unfold positive. rewrite Hd, Hm.
    repeat split; try done. by apply Z.ltb_lt.
Qed.

Lemma higherPriority_iff groups candidates selected c :
  higherPriority groups candidates selected c = true <-> preferred_to groups candidates selected c.
Proof. unfold higherPriority, preferred_to. rewrite orb_true_iff, andb_true_iff, !Z.ltb_lt, Z.eqb_eq. done. Qed.

Lemma measuredReserve_iff selected medians measured item p c :
  (exists current delay, getp medians selected = Some current /\ getp medians c = Some delay /\
    0 < current /\ 0 < delay /\ ps_improvement p < current -w delay) ->
  measuredReserve selected measured item p c = true <-> faster selected medians measured item p c.
Proof.
  intros Hm. unfold measuredReserve. rewrite andb_true_iff, negb_true_iff, orb_true_iff, andb_true_iff, bool_decide_eq_true, Z.ltb_lt.
  assert (Hnow : (match measured !! c with
    | Some e => pe_OK e && negb (bool_decide (pe_DelayMS e = None)) && negb (pe_QualityUnmeasured e) | None => false end) = true <->
    exists e, measured !! c = Some e /\ pe_OK e = true /\ is_Some (pe_DelayMS e) /\ pe_QualityUnmeasured e = false).
  { destruct (measured !! c) as [e|]; [|naive_solver].
    rewrite !andb_true_iff, !negb_true_iff, bool_decide_eq_false, not_eq_None_Some. naive_solver. }
  rewrite Hnow. split.
  - intros [Hs Hor]. split; [done| |done]. intros active reserve Ha Hr. rewrite Ha, Hr in Hs.
    destruct (hs_DelayMS active) as [a|], (hs_DelayMS reserve) as [r|]; try done. apply Z.leb_gt in Hs. eauto.
  - intros [_ Hs Hor]. split; [|done].
    destruct (last (getl (st_Samples item) selected)) as [active|]; [|done].
    destruct (last (getl (st_Samples item) c)) as [reserve|]; [|done].
    destruct (Hs _ _ eq_refl eq_refl) as (a & r & -> & -> & H). by apply Z.leb_gt.
Qed.

Lemma meaningfullyBetter_none selected candidates delays p c :
  meaningfullyBetter selected candidates delays p = [] -> [] ∉ candidates -> c ∈ candidates ->
  ~ exists current d, getp delays selected = Some current /\ getp delays c = Some d /\
      0 < current /\ 0 < d /\ ps_improvement p < current -w d.
Proof.
  unfold meaningfullyBetter. intros H Hne Hc (current & d & E1 & E2 & H1 & H2 & H3). rewrite E1 in H.
  destruct (Z.leb_spec current 0); [lia|]. set (q := filter _ _) in H.
  assert (Hq : c ∈ q).
  { apply list_elem_of_filter. split; [|done]. rewrite E2. apply andb_true_iff. split; by apply Z.ltb_lt. }
  destruct (sort_stable _ q) as [|x r] eqn:E; [apply sort_stable_nil in E; rewrite E in Hq; by apply elem_of_nil in Hq|].
  subst x. apply Hne. assert (Hx : [] ∈ q) by (eapply sort_stable_elem; rewrite E; by left).
  by apply list_elem_of_filter in Hx as [_ ?].
Qed.

(** The head of a ranking of a filtered list, and that it is empty only when
    the filter is. *)
Lemma rank_filter mode groups medians (P : gostr -> Prop) {dec : forall c, Decision (P c)} candidates :
  match rankCandidates (filter P candidates) mode groups medians with
  | c :: _ => c ∈ candidates /\ P c
  | [] => forall c, c ∈ candidates -> ~ P c
  end.
Proof.
  destruct (rankCandidates _ _ _ _) as [|c r] eqn:E.
  - apply sort_stable_nil in E. intros c Hc HP. assert (H : c ∈ filter P candidates) by (by apply list_elem_of_filter).
    rewrite E in H. by apply elem_of_nil in H.
  - destruct (rank_head _ _ _ _ _ _ E) as [Hc _]. apply list_elem_of_filter in Hc. tauto.
Qed.

(** The planned switch for speed: [pending] first, then the best of all. *)
Lemma faster_choice (pendingOK : bool) selected medians p (ms : list gostr) pending :
  [] ∉ ms -> (pendingOK = true -> pending ∈ ms) ->
  let first := if pendingOK then meaningfullyBetter selected [pending] medians p else [] in
  let better := meaningfullyBetter selected ms medians p in
  let c := if bool_decide (first = []) then better else first in
  if bool_decide (c = []) then forall x, x ∈ ms -> ~ exists current d, getp medians selected = Some current /\ getp medians x = Some d /\
      0 < current /\ 0 < d /\ ps_improvement p < current -w d
  else c ∈ ms /\ exists current d, getp medians selected = Some current /\ getp medians c = Some d /\
      0 < current /\ 0 < d /\ ps_improvement p < current -w d.
Proof.
  intros Hne Hp first better c. case_bool_decide as Hc.
  - assert (better = []) by (subst c; case_bool_decide; congruence). intros x Hx. by eapply meaningfullyBetter_none.
  - assert (Hsrc : exists l, meaningfullyBetter selected l medians p = c /\ forall x, x ∈ l -> x ∈ ms).
    { subst c. case_bool_decide as Hf; [by exists ms|]. subst first. destruct pendingOK; [|done]. exists [pending].
      split; [done|]. intros x ->%list_elem_of_singleton. auto. }
    destruct Hsrc as (l & Hl & Hin).
    destruct (meaningfullyBetter_spec _ _ _ _ _ Hl Hc) as (cur & d & E1 & E2 & Hx & H1 & H2 & H3 & _).
    split; [auto|]. by exists cur, d.
Qed.

Lemma selectDesired_ok lenient now mode selected candidates groups medians measured quality available item p :
  [] ∉ candidates ->
  let r := selectDesired lenient now mode selected candidates groups medians measured quality available item p in
  desired_ok now mode selected candidates groups medians measured quality available item p r.1 r.2.
Proof.
  intros Hne. unfold selectDesired. case_bool_decide as Hb.
  { set (rk := emergencyRankingDelays _ _ _ _ _). pose proof (rank_filter mode groups rk (fun c => fresh measured c = true) candidates) as H.
    destruct (rankCandidates _ _ _ _) as [|c r]; simpl.
    - apply stay_blocked; [done|]. intros c Hc. rewrite <- fresh_usable. by apply H.
    - destruct H as [Hc Hf]. apply leave_block; [done|done|]. by apply fresh_usable. }
  destruct (selectedFailed selected candidates item p) eqn:Hf.
  { apply selectedFailed_iff in Hf; [|done]. set (rk := emergencyRankingDelays _ _ _ _ _).
    pose proof (rank_filter mode groups rk (fun c => c <> selected /\ fresh measured c = true) candidates) as H.
    destruct (rankCandidates _ _ _ _) as [|c r]; simpl.
    - apply fail_closed; [done|done|]. intros c Hc Hs Hu. apply (H c Hc). split; [done|]. by apply fresh_usable.
    - destruct H as (Hc & Hs & Hu). apply fail_over; try done. by apply fresh_usable. }
  assert (Hnf : ~ active_failed selected candidates item p) by (rewrite <- selectedFailed_iff, Hf by done; done).
  set (stable := filter _ candidates).
  assert (Hst : forall c, c ∈ stable <-> c ∈ candidates /\ qualified now selected medians quality available item p c).
  { intros c. unfold stable. rewrite list_elem_of_filter, stableReserve_iff. tauto. }
  assert (Hnes : [] ∉ stable) by (intros [? _]%Hst; done).
  destruct (_ && negb (bool_decide (stable = []))) eqn:Hdeg.
  { bool_prop. destruct (rankCandidates stable mode groups medians) as [|c r] eqn:E; [by apply sort_stable_nil in E|].
    destruct (rank_head _ _ _ _ _ _ E) as [Hc _]. apply Hst in Hc as [? ?]. apply soft_switch; try done. left. done. }
  assert (Hfail : forall c, c ∈ stable -> geti (st_Failures item) selected < ps_failureThreshold p).
  { intros c Hc. apply andb_false_iff in Hdeg as [Hd|Hd]; bool_prop; [done|]. subst stable. rewrite Hd in Hc. by apply elem_of_nil in Hc. }
  assert (Hkeep : (forall c, c ∈ stable -> (mode = priority -> ~ preferred_to groups candidates selected c) /\
       (mode <> priority -> ~ faster selected medians measured item p c)) ->
    desired_ok now mode selected candidates groups medians measured quality available item p selected NoReason).
  { intros H. apply keep_selected; [done|done|]. intros c Hc Hq. assert (Hcs : c ∈ stable) by (by apply Hst).
    split; [by eapply Hfail|by apply H]. }
  destruct (bool_decide_reflect (mode = priority)) as [Hm|Hm]; cbn [negb].
  { pose proof (rank_filter mode groups medians (fun c => higherPriority groups candidates selected c = true) stable) as H.
    destruct (rankCandidates _ _ _ _) as [|c r].
    - rewrite bool_decide_eq_true_2 by done. apply Hkeep. intros c Hc. split; [|done]. intros _. rewrite <- higherPriority_iff. by apply H.
    - destruct H as [Hc Hh]. pose proof (proj1 (Hst c) Hc) as [Hcc Hq].
      rewrite bool_decide_eq_false_2 by congruence. simpl. apply soft_switch; try done.
      right. left. split; [done|]. split; [done|]. by apply higherPriority_iff. }
  rewrite bool_decide_eq_true_2 by done. cbn [negb]. set (ms := filter _ stable).
  assert (Hms : forall c, c ∈ ms <-> c ∈ stable /\ measuredReserve selected measured item p c = true).
  { intros c. unfold ms. rewrite list_elem_of_filter. tauto. }
  match goal with |- context [if ?b then meaningfullyBetter _ [_] _ _ else []] => set (pok := b) end.
  pose proof (faster_choice pok selected medians p ms (st_OptimizationCandidate item)) as Hch. cbv zeta in Hch.
  specialize (Hch ltac:(intros [? _]%Hms; done) ltac:(subst pok; intros H; unfold contains in H; by bool_prop)).
  set (first := if pok then _ else _) in *. set (better := meaningfullyBetter selected ms medians p) in *.
  assert (Hsoft : forall c, c ∈ ms -> (exists current d, getp medians selected = Some current /\ getp medians c = Some d /\
      0 < current /\ 0 < d /\ ps_improvement p < current -w d) ->
    desired_ok now mode selected candidates groups medians measured quality available item p c MeaningfullyFaster).
  { intros c [Hc Hr]%Hms Hmed. pose proof (proj1 (Hst c) Hc) as [? ?]. apply soft_switch; try done. right. right.
    split; [done|]. split; [done|]. by apply measuredReserve_iff. }
  destruct (bool_decide_reflect (first = [])) as [E1|E1]; cbn [negb]; [|rewrite bool_decide_eq_false_2 in Hch by done; by apply Hsoft; tauto].
  destruct (bool_decide_reflect (better = [])) as [E2|E2]; cbn [negb]; [|by apply Hsoft; tauto].
  apply Hkeep. intros c Hc. split; [done|]. intros _ Hfa. apply (Hch c); [|by apply fa_median in Hfa].
  apply Hms. split; [done|]. apply (measuredReserve_iff selected medians); [by apply fa_median in Hfa|done].
Qed.

(** ** Two independent wins *)

(** A pair of a round: a win for the candidate with usable sample times. *)
Definition accepted (candidate : gostr) (c : optimizationComparison) : Prop :=
  oc_Result c = Win /\ oc_Candidate c = candidate /\
  fle (oc_ActiveSampleAt c) fzero = false /\ fle (oc_CandidateSampleAt c) fzero = false.

(** The state between rounds: at most one win is pending, and it is recorded. *)
Definition gate_inv (item : policyHealthState) : Prop :=
  (st_OptimizationBaseline item = [] -> st_OptimizationCandidate item = []) /\
  (st_OptimizationChecks item = 0 \/
   st_OptimizationChecks item = 1 /\ st_OptimizationCandidate item <> [] /\
   exists prev, st_OptimizationLastResult item = Some prev /\ accepted (st_OptimizationCandidate item) prev).

(** [second] confirms [first]: a fresh first win, and both sides measured again
    since. *)
Definition confirms (lenient : gostr -> option Z) (now : Z) (p : effectivePolicySettings) (candidate : gostr)
    (first second : optimizationComparison) : Prop :=
  accepted candidate first /\ accepted candidate second /\ freshComparisonAt lenient now (Some first) p = true /\
  oc_At first <> oc_At second /\
  fle (oc_ActiveSampleAt second) (oc_ActiveSampleAt first) = false /\
  fle (oc_CandidateSampleAt second) (oc_CandidateSampleAt first) = false.

Lemma gate_cases lenient now selected desired reason comparison item p :
  gate_inv item -> selected <> [] -> desired <> [] ->
  let '(d, r, item') := gatePlannedOptimization lenient now selected desired reason comparison item p in
  gate_inv item' /\
  (d = selected /\ r = NoReason \/
   d = desired /\ r = reason /\ isPlannedOptimization reason = false /\ st_OptimizationChecks item' = 0 \/
   d = desired /\ r = MeaningfullyFaster /\ st_OptimizationChecks item' = 0 /\
     st_OptimizationCandidate item = desired /\ st_OptimizationBaseline item = selected /\
     exists first second, st_OptimizationLastResult item = Some first /\ comparison = Some second /\
       confirms lenient now p desired first second).
Proof.
  intros Hinv Hsel Hdes. unfold gatePlannedOptimization.
  assert (Hclear : forall i, gate_inv (clearOptimizationCandidate i)) by (intros; split; [done|by left]).
  destruct (negb (bool_decide (desired = selected)) && negb (isPlannedOptimization reason)) eqn:E1.
  { bool_prop. cbv beta iota. split; [done|]. right. left. split_and!; done. }
  destruct (negb (bool_decide (st_OptimizationBaseline item = [])) && _) eqn:E2; [cbv beta iota; split; [done|auto]|].
  assert (Hbase : st_OptimizationBaseline item = [] \/ st_OptimizationBaseline item = selected).
  { apply andb_false_iff in E2 as [E|E]; bool_prop; auto. }
  destruct comparison as [c|]; [|cbv beta iota; split; [match goal with |- gate_inv (if ?b then _ else _) => destruct b end; auto|auto]].
  destruct (_ && pairReason (oc_Reason c)) eqn:E3.
  { cbv beta iota. split; [|auto]. destruct (negb _ || _ || _) eqn:E4; [split; [done|by left]|].
    destruct (Z.eqb_spec (st_OptimizationChecks item) 0); [|done]. split; [apply Hinv|by left]. }
  destruct (negb (is_win (oc_Result c)) || _) eqn:E4; [cbv beta iota; split; [split; [done|by left]|auto]|]. bool_prop.
  destruct (fle (oc_ActiveSampleAt c) fzero || _) eqn:E5; [cbv beta iota; split; [done|auto]|]. bool_prop.
  assert (Hacc : accepted desired c) by (split_and!; try done; by destruct (oc_Result c)).
  set (stale := match st_OptimizationLastResult item with Some _ => _ | None => _ end).
  destruct (negb (bool_decide (st_OptimizationCandidate item = desired)) || stale) eqn:Ereset.
  - (* the first win of a round *) simpl. split; [|by left].
    split; [done|]. right. split; [done|]. split; [done|]. by exists c.
  - (* a pending round *) bool_prop. subst stale.
    destruct (st_OptimizationLastResult item) as [prev|] eqn:Eprev; [|done]. bool_prop.
    destruct Hinv as [Hbc Hinv].
    destruct Hbase as [Hb|Hbase]; [specialize (Hbc Hb); congruence|].
    destruct Hinv as [Hk0|(Hk1 & Hb & prev' & Hp & Hprev)].
    + (* not started *) rewrite Hk0. simpl. split; [|by left]. split; [done|]. right.
      split; [done|]. simpl. split; [congruence|]. exists c. split; [done|]. congruence.
    + rewrite Hk1. simpl. simplify_eq. destruct (_ || _ || _) eqn:Erep.
      * split; [|by left]. split; [done|]. right. split; [done|]. split; [done|]. eauto.
      * bool_prop. simpl. split; [split; [done|by left]|]. right. right.
        split_and!; try done; try congruence. exists prev', c. unfold confirms. split_and!; try done; congruence.
Qed.

(** ** The emergency choice *)

Definition measured_ok (measured : gmap gostr probeEvidence) (c : gostr) : bool :=
  match measured !! c with Some e => pe_OK e | None => false end.

Lemma ready_loop_spec preferred measured expired pending :
  match ready_loop preferred measured expired pending with
  | inl (Some (c, e)) => exists before after, preferred = before ++ c :: after /\ measured !! c = Some e /\ pe_OK e = true /\
      (forall b, b ∈ before -> measured_ok measured b = false) /\
      (expired = true \/ pending = false /\ forall b, b ∈ before -> is_Some (measured !! b))
  | inl None => expired = false /\ (pending = true \/ exists b, b ∈ preferred /\ measured !! b = None)
  | inr q => (forall c, c ∈ preferred -> measured_ok measured c = false) /\
      (q = false <-> pending = false /\ forall c, c ∈ preferred -> is_Some (measured !! c))
  end.
Proof.
  revert pending. induction preferred as [|c l IH]; intros pending; simpl.
  { split; [intros c Hc; by apply elem_of_nil in Hc|]. split; [|by intros [? _]].
    intros ->. split; [done|]. intros c Hc. by apply elem_of_nil in Hc. }
  destruct (measured !! c) as [e|] eqn:Ec.
  - destruct (pe_OK e) eqn:Eok.
    + destruct (pending && negb expired) eqn:Ep; [by bool_prop; split; [|left]|].
      exists [], l. split; [done|]. split; [done|]. split; [done|].
      split; [intros b Hb; by apply elem_of_nil in Hb|].
      apply andb_false_iff in Ep as [Ep|Ep]; bool_prop; [right|by left].
      split; [done|]. intros b Hb. by apply elem_of_nil in Hb.
    + assert (Hc : measured_ok measured c = false) by (unfold measured_ok; by rewrite Ec).
      specialize (IH pending). destruct (ready_loop l measured expired pending) as [[[c' e']|]|q].
      * destruct IH as (before & after & -> & H1 & H2 & H3 & H4). exists (c :: before), after.
        split; [done|]. split; [done|]. split; [done|].
        split; [intros b [->|Hb]%elem_of_cons; auto|].
        destruct H4 as [H4|[H4 H5]]; [by left|right]. split; [done|].
        intros b [->|Hb]%elem_of_cons; [by rewrite Ec|auto].
      * destruct IH as [H1 H2]. split; [done|]. destruct H2 as [|(b & Hb & Hn)]; [by left|right]. exists b. set_solver.
      * destruct IH as [H1 H2]. split; [intros b [->|Hb]%elem_of_cons; auto|]. rewrite H2.
        split; intros [Hp H]; (split; [done|]); intros b; [intros [->|Hb]%elem_of_cons; [by rewrite Ec|auto]|set_solver].
  - assert (Hc : measured_ok measured c = false) by (unfold measured_ok; by rewrite Ec).
    specialize (IH true). destruct (ready_loop l measured expired true) as [[[c' e']|]|q].
    + destruct IH as (before & after & -> & H1 & H2 & H3 & H4). exists (c :: before), after.
      split; [done|]. split; [done|]. split; [done|].
      split; [intros b [->|Hb]%elem_of_cons; auto|]. destruct H4 as [H4|[? _]]; [by left|done].
    + destruct IH as [H1 _]. split; [done|]. right. exists c. split; [set_solver|done].
    + destruct IH as [H1 H2]. split; [intros b [->|Hb]%elem_of_cons; auto|]. split.
      * intros Hq. apply H2 in Hq as [? _]. done.
      * intros [_ H]. destruct (H c ltac:(set_solver)) as [e He]. congruence.
Qed.

(** ** The claims *)

(** C33: every decision of [selectDesired] for non-empty node names is one of
    six kinds, with its grounds.  The active node is kept when it is reachable
    and no qualified reserve is called for (the active one is not degraded, no
    reserve comes before it in priority mode, none is faster in the other
    modes); a block stays when no candidate answered, and ends with one that
    did; from a failed active node (not a candidate any more, or its failures
    reached the threshold) the choice goes to another candidate that answered in
    this round, or to the block when none did; and a reachable one is replaced
    only by a qualified reserve (quality and availability good, enough
    recoveries, no failure, a known delay, a successful and recent latest sample)
    because it is degraded, comes later in priority mode, or is slower in the
    other modes by more than the configured improvement, by the medians and by
    the latest samples, for a reserve measured in this round or already
    compared. *)
Theorem selectDesired_justified (lenient : gostr -> option Z) (now : Z) (mode selected : gostr) (candidates : list gostr)
    (groups : gmap gostr Z) (medians : gmap gostr (option Z)) (measured : gmap gostr probeEvidence)
    (quality available : gmap gostr bool) (item : policyHealthState) (p : effectivePolicySettings) :
  [] ∉ candidates ->
  let r := selectDesired lenient now mode selected candidates groups medians measured quality available item p in
  desired_ok now mode selected candidates groups medians measured quality available item p r.1 r.2.
Proof. apply selectDesired_ok. Qed.

Definition ok_evidence (delay : Z) : probeEvidence :=
  ProbeEvidence false false None false false true None (Some delay) FailureNone.
Definition demo_measured : gmap gostr probeEvidence :=
  <[bs "b" := ok_evidence 90]> (<[bs "c" := ok_evidence 40]> ∅).
Definition demo_failed : policyHealthState :=
  PolicyHealthState (bs "a") ∅ {[bs "a" := 3]} ∅ (st_Samples demo_item) ∅ [] [] [] 0 None ∅ ∅ ∅ [] ∅ (bs "a") true [].

Example selectDesired_justified_witness :
  selectDesired (fun _ => None) (1050 * second) best (bs "a") [bs "a"; bs "b"; bs "c"] ∅ ∅ demo_measured ∅ ∅ demo_failed
    demo_settings = (bs "c", ActiveUnavailable) /\
  desired_ok (1050 * second) best (bs "a") [bs "a"; bs "b"; bs "c"] ∅ ∅ demo_measured ∅ ∅ demo_failed
    demo_settings (bs "c") ActiveUnavailable.
Proof.
  assert (E : selectDesired (fun _ => None) (1050 * second) best (bs "a") [bs "a"; bs "b"; bs "c"] ∅ ∅ demo_measured ∅ ∅
    demo_failed demo_settings = (bs "c", ActiveUnavailable)) by (vm_compute; reflexivity).
  split; [exact E|].
  pose proof (selectDesired_justified (fun _ => None) (1050 * second) best (bs "a") [bs "a"; bs "b"; bs "c"] ∅ ∅
    demo_measured ∅ ∅ demo_failed demo_settings) as H.
  cbv zeta in H. rewrite E in H. apply H. apply (bool_decide_unpack _). vm_compute. exact I.
Defined.

(** C32: a planned switch to a faster reserve needs two independent wins: from
    any state the gate itself can leave behind, it switches for speed only when
    the current comparison and the recorded previous one are both wins of the
    same reserve over the same active node, the previous one is still fresh,
    and both sides were measured again in between; otherwise it keeps the
    active node or passes an unplanned decision through unchanged. *)
Theorem gate_two_wins (lenient : gostr -> option Z) (now : Z) (selected desired : gostr) (reason : switchReason)
    (comparison : option optimizationComparison) (item : policyHealthState) (p : effectivePolicySettings) :
  gate_inv item -> selected <> [] -> desired <> [] ->
  let '(d, r, item') := gatePlannedOptimization lenient now selected desired reason comparison item p in
  gate_inv item' /\
  (d = selected /\ r = NoReason \/
   d = desired /\ r = reason /\ isPlannedOptimization reason = false /\ st_OptimizationChecks item' = 0 \/
   d = desired /\ r = MeaningfullyFaster /\ st_OptimizationChecks item' = 0 /\
     st_OptimizationCandidate item = desired /\ st_OptimizationBaseline item = selected /\
     exists first second, st_OptimizationLastResult item = Some first /\ comparison = Some second /\
       confirms lenient now p desired first second).
Proof. apply gate_cases. Qed.

(** Two rounds in which [c] beats [a] twice. *)
Definition win_at (sec : Z) : optimizationComparison :=
  OptimizationComparison (f64_of_Z sec) (f64_of_Z sec) None None 50 (FormatRFC3339 (sec * second)) (bs "c") Win Better
    (Some 200) (Some 40).
Definition after_first : policyHealthState :=
  (gatePlannedOptimization (fun _ => None) (1000 * second) (bs "a") (bs "c") MeaningfullyFaster (Some (win_at 1000))
     demo_item demo_settings).2.

Example gate_two_wins_witness :
  (gatePlannedOptimization (fun _ => None) (1000 * second) (bs "a") (bs "c") MeaningfullyFaster (Some (win_at 1000))
     demo_item demo_settings).1 = (bs "a", NoReason) /\
  (gatePlannedOptimization (fun _ => None) (1060 * second) (bs "a") (bs "c") MeaningfullyFaster (Some (win_at 1060))
     after_first demo_settings).1 = (bs "c", MeaningfullyFaster) /\ gate_inv after_first.
Proof.
  split; [vm_compute; reflexivity|]. split; [vm_compute; reflexivity|].
  pose proof (gate_two_wins (fun _ => None) (1000 * second) (bs "a") (bs "c") MeaningfullyFaster (Some (win_at 1000))
    demo_item demo_settings) as H. unfold after_first.
  destruct (gatePlannedOptimization (fun _ => None) (1000 * second) (bs "a") (bs "c") MeaningfullyFaster
    (Some (win_at 1000)) demo_item demo_settings) as [[d r] item'].
  apply H; [split; [reflexivity|left; reflexivity]|discriminate|discriminate].
Defined.

(** the emergency race picks well: a preferred candidate is taken only with
    a successful probe, and no better ranked candidate succeeded or, before the
    preference wait expires, is still unanswered; the first success outside the
    ranking is taken only when no preferred candidate succeeded; and once the
    wait is over, or every preferred candidate has answered, some success is
    taken. *)
Theorem ready_correct (choice : emergencyChoice) (measured : gmap gostr probeEvidence) :
  [] ∉ ec_preferred choice ->
  let '(c, e) := ready choice measured in
  (c <> [] ->
     (exists before after, ec_preferred choice = before ++ c :: after /\ measured !! c = Some e /\ pe_OK e = true /\
        (forall b, b ∈ before -> measured_ok measured b = false) /\
        (ec_expired choice = true \/ forall b, b ∈ before -> is_Some (measured !! b))) \/
     c = ec_firstSuccess choice /\ (forall b, b ∈ ec_preferred choice -> measured_ok measured b = false) /\
        (ec_expired choice = true \/ forall b, b ∈ ec_preferred choice -> is_Some (measured !! b))) /\
  (c = [] -> ec_firstSuccess choice <> [] ->
     ec_expired choice = false /\ exists b, b ∈ ec_preferred choice /\ measured !! b = None).
Proof.
  intros Hne. unfold ready. pose proof (ready_loop_spec (ec_preferred choice) measured (ec_expired choice) false) as H.
  destruct (ready_loop _ _ _ _) as [[[c e]|]|q].
  - destruct H as (before & after & E & H1 & H2 & H3 & H4). split.
    + intros _. left. exists before, after. do 4 (split; [done|]). destruct H4 as [|[_ ?]]; auto.
    + intros ->. destruct Hne. rewrite E. set_solver.
  - destruct H as [H1 [?|H2]]; [done|]. split; done.
  - destruct H as [H1 H2]. destruct (negb _ && _) eqn:E.
    + bool_prop. split; [|done]. intros _. right. split; [done|]. split; [done|].
      apply orb_true_iff in H0 as [Hq|?]; [|by left]. bool_prop. right. by apply H2.
    + split; [done|]. intros _ Hf. rewrite (bool_decide_eq_false_2 _ Hf) in E. simpl in E. apply orb_false_iff in E as [Eq Ee].
      split; [done|]. apply negb_false_iff in Eq. subst q.
      destruct (decide (Forall (fun b => is_Some (measured !! b)) (ec_preferred choice))) as [Hall|Hall].
      * rewrite Forall_forall in Hall. discriminate (proj2 H2 (conj eq_refl Hall)).
      * apply not_Forall_Exists, Exists_exists in Hall as (b & Hb & Hn); [|intros b; apply _].
        exists b. split; [done|]. by apply eq_None_not_Some.
Qed.

Example ready_correct_witness :
  ready (EmergencyChoice [bs "x"; bs "c"] (bs "b") false) demo_measured = ([], zeroEvidence) /\
  (exists b, b ∈ [bs "x"; bs "c"] /\ demo_measured !! b = None).
Proof.
  split; [vm_compute; reflexivity|].
  pose proof (ready_correct (EmergencyChoice [bs "x"; bs "c"] (bs "b") false) demo_measured) as H.
  assert (E : ready (EmergencyChoice [bs "x"; bs "c"] (bs "b") false) demo_measured = ([], zeroEvidence))
    by (vm_compute; reflexivity).
  rewrite E in H. apply H; [apply (bool_decide_unpack _); vm_compute; exact I|reflexivity|discriminate].
Defined.
