(* ===== verification/HealthSchedule.v ===== *)
(** * Scheduling of health probes

    Models which nodes a policy probes in one tick: [optimizationPairProbeTargets]
    and [pendingOptimizationPair] of [internal/agent/health_pair.go],
    [regularProbeTargets] of [health_schedule.go], and the probe budget that
    policies share, [beginProbeBudget] and [claimProbeTargets] of
    [health_probe_budget.go]. *)

From Stdlib Require Import String.
From S2P Require Import Prelude GoBase GoSort GoText GoFloat GoTime HealthModel HealthSelect.
Open Scope Z_scope.

Set Default Proof Using "Type".

(** ** One policy *)

Section Targets.
Context (lenient : gostr -> option Z).

Definition pendingOptimizationPair (now : Z) (selected : gostr) (candidates : list gostr) (item : policyHealthState)
    (p : effectivePolicySettings) : option optimizationComparison :=
  let candidate := st_OptimizationCandidate item in
  let previous := st_OptimizationLastResult item in
  if negb (bool_decide (ps_mode p = best)) || (ps_batch p <? 1) || bool_decide (candidate = [])
     || bool_decide (candidate = selected) || negb (bool_decide (st_OptimizationBaseline item = selected))
     || negb (contains candidates candidate) || negb (freshComparisonAt lenient now previous p)
  then None else previous.

(** A node whose last probe is older than the check interval. *)
Definition due (now : Z) (item : policyHealthState) (p : effectivePolicySettings) (node : gostr) : bool :=
  let last := getf (st_LastProbeAt item) node in
  feq last fzero || fge (fsub (f64_of_Z (unix now)) last) (f64_of_Z (ps_active p)).

Definition optimizationPairProbeTargets (now : Z) (selected : gostr) (candidates : list gostr) (item : policyHealthState)
    (p : effectivePolicySettings) : list gostr :=
  let candidate := st_OptimizationCandidate item in
  match pendingOptimizationPair now selected candidates item p with
  | None => []
  | Some previous =>
      let activeAdvanced := fgt (latestQualityObservation item selected).2 (oc_ActiveSampleAt previous) in
      let candidateAdvanced := fgt (latestQualityObservation item candidate).2 (oc_CandidateSampleAt previous) in
      let targets :=
        if activeAdvanced && negb candidateAdvanced then [candidate]
        else if candidateAdvanced && negb activeAdvanced then [selected]
        else if due now item p selected || due now item p candidate then [selected; candidate]
        else if (st_OptimizationChecks item =? 0) && match oc_Reason previous with PairIncomplete => true | _ => false end
        then [selected; candidate] else [] in
      take (Z.to_nat (Z.min (Z.of_nat (length targets)) (ps_batch p))) targets
  end.

(** The inner loop of [regularProbeTargets]: the due candidate, not chosen yet,
    that was probed longest ago. *)
Fixpoint oldestDue (now : Z) (item : policyHealthState) (p : effectivePolicySettings) (result : list gostr) (oldest : gostr)
    (candidates : list gostr) : gostr :=
  match candidates with
  | [] => oldest
  | c :: candidates =>
      let skip := contains result c || negb (due now item p c) in
      let older := bool_decide (oldest = []) || flt (getf (st_LastProbeAt item) c) (getf (st_LastProbeAt item) oldest) in
      oldestDue now item p result (if negb skip && older then c else oldest) candidates
  end.

Fixpoint rotate (fuel : nat) (now : Z) (candidates : list gostr) (item : policyHealthState) (p : effectivePolicySettings)
    (result : list gostr) : outcome (list gostr) :=
  match fuel with
  | O => Stuck
  | S fuel =>
      if negb (Z.of_nat (length result) <? ps_batch p) then Ret result
      else
        let oldest := oldestDue now item p result [] candidates in
        if bool_decide (oldest = []) then Ret result else rotate fuel now candidates item p (result ++ [oldest])
  end.

Definition with_queue (item : policyHealthState) (queue : list gostr) : policyHealthState :=
  PolicyHealthState (st_Selected item) (st_Failures item) (st_AvailabilityFailures item) (st_Recoveries item)
    (st_Samples item) (st_LastProbeAt item) queue (st_OptimizationBaseline item) (st_OptimizationCandidate item)
    (st_OptimizationChecks item) (st_OptimizationLastResult item) (st_MedianDelayMS item)
    (st_QualityOK item) (st_AvailabilityOK item) (st_Shortlist item) (st_PreflightClosed item) (st_RuntimeSelected item)
    (st_RuntimeConfirmed item) (st_UnderlayFailure item).

(** The targets before the rotation. *)
Definition firstTargets (now : Z) (selected : gostr) (candidates : list gostr) (item : policyHealthState)
    (p : effectivePolicySettings) : list gostr :=
  let result := optimizationPairProbeTargets now selected candidates item p in
  let room (l : list gostr) := Z.of_nat (length l) <? ps_batch p in
  let activeTurn := (1 <? ps_batch p) || feq (getf (st_LastProbeAt item) selected) fzero
    || existsb (fun c => negb (bool_decide (c = selected))
                         && fgt (getf (st_LastProbeAt item) c) (getf (st_LastProbeAt item) selected)) candidates in
  let result := if room result && activeTurn && contains candidates selected && due now item p selected
                   && negb (contains result selected) then result ++ [selected] else result in
  let candidate := st_OptimizationCandidate item in
  if (0 <? st_OptimizationChecks item) && room result && negb (bool_decide (candidate = selected))
     && contains candidates candidate && negb (contains result candidate) && due now item p candidate
  then result ++ [candidate] else result.

Definition regularProbeTargets (now : Z) (selected : gostr) (candidates : list gostr) (item : policyHealthState)
    (p : effectivePolicySettings) : outcome (list gostr * policyHealthState) :=
  let! result := rotate (S (length candidates)) now candidates item p (firstTargets now selected candidates item p) in
  Ret (result, with_queue item (without (st_ScanQueue item) result)).
End Targets.

(** ** The shared budget *)

Definition sharedProbeLifetime : Z := 15 * second.

Record healthProbeBudget := HealthProbeBudget {
  bu_Limit : Z; bu_Used : gset gostr; bu_Quality : gmap gostr (Z * probeEvidence); bu_Cursor : Z;
  bu_QualityAttempted : gset gostr; bu_DeferredPolicies : gmap gostr Z }.

(** [beginProbeBudget]: a new tick; [policies] are the policies of the pool. *)
Definition beginProbeBudget (previous : option healthProbeBudget) (probeBudget : Z) (policies : gset gostr) (policyIDs : list gostr)
    : healthProbeBudget * list gostr :=
  let budget := default (HealthProbeBudget 0 ∅ ∅ 0 ∅ ∅) previous in
  let deferred := filter (fun kv => kv.1 ∈ policies) (bu_DeferredPolicies budget) in
  let budget := HealthProbeBudget probeBudget ∅ ∅ (bu_Cursor budget) ∅ deferred in
  let policyIDs :=
    if (1 <? length policyIDs)%nat then
      let offset := Z.to_nat (Z.rem (bu_Cursor budget) (Z.of_nat (length policyIDs))) in
      drop offset policyIDs ++ take offset policyIDs
    else policyIDs in
  (budget, policyIDs).

Section Claim.
(** [contract.Nodes[node].Fingerprint]. *)
Context (fingerprint : gostr -> gostr) (policyID : gostr).

Definition probeKey (node : gostr) : gostr :=
  if negb (bool_decide (fingerprint node = [])) then fingerprint node else policyID ++ [x3a] ++ node.

Definition cachedAt (now : Z) (b : healthProbeBudget) (key : gostr) : bool :=
  match bu_Quality b !! key with Some (at_, _) => time_sub now at_ <=? sharedProbeLifetime | None => false end.
Definition attemptedAt (b : healthProbeBudget) (key : gostr) : bool := bool_decide (key ∈ bu_QualityAttempted b).

Definition markDeferred (now : Z) (b : healthProbeBudget) : healthProbeBudget :=
  match bu_DeferredPolicies b !! policyID with
  | Some _ => b
  | None => HealthProbeBudget (bu_Limit b) (bu_Used b) (bu_Quality b) (bu_Cursor b) (bu_QualityAttempted b)
              (<[policyID:=now]> (bu_DeferredPolicies b))
  end.
Definition use (b : healthProbeBudget) (key : gostr) : healthProbeBudget :=
  HealthProbeBudget (bu_Limit b) ({[key]} ∪ bu_Used b) (bu_Quality b) (bu_Cursor b) (bu_QualityAttempted b) (bu_DeferredPolicies b).

(** The first loop: the keys the targets would newly use; [None] when an
    indivisible pair has a side that was already tried without a result. *)
Fixpoint newKeys (now : Z) (atomicPair : bool) (b : healthProbeBudget) (targets : list gostr) (keys : gset gostr) : option (gset gostr) :=
  match targets with
  | [] => Some keys
  | node :: targets =>
      let key := probeKey node in
      if atomicPair && attemptedAt b key && negb (cachedAt now b key) then None
      else newKeys now atomicPair b targets (if bool_decide (key ∈ bu_Used b) then keys else {[key]} ∪ keys)
  end.

Fixpoint claim_loop (now : Z) (targets accepted deferred : list gostr) (b : healthProbeBudget)
    : list gostr * list gostr * healthProbeBudget :=
  match targets with
  | [] => (accepted, deferred, b)
  | node :: targets =>
      let key := probeKey node in
      let cached := cachedAt now b key in
      if negb cached && attemptedAt b key then claim_loop now targets accepted (deferred ++ [node]) b
      else if cached || bool_decide (key ∈ bu_Used b) || (Z.of_nat (size (bu_Used b)) <? bu_Limit b)
      then claim_loop now targets (accepted ++ [node]) deferred (if cached then b else use b key)
      else claim_loop now targets accepted (deferred ++ [node]) b
  end.

Definition claimProbeTargets (now : Z) (budget : option healthProbeBudget) (targets : list gostr) (atomicPair : bool)
    : list gostr * list gostr * option healthProbeBudget :=
  match budget with
  | None => (targets, [], None)
  | Some b =>
      if bu_Limit b <=? 0 then (targets, [], Some b)
      else
        match newKeys now atomicPair b targets ∅ with
        | None => ([], targets, Some (markDeferred now b))
        | Some keys =>
            if atomicPair && (bu_Limit b <? Z.of_nat (size keys) + Z.of_nat (size (bu_Used b)))
            then ([], targets, Some (markDeferred now b))
            else
              let '(accepted, deferred, b) := claim_loop now targets [] [] b in
              (accepted, deferred, Some (match deferred with [] => b | _ => markDeferred now b end))
        end
  end.
End Claim.

(** ** Facts about the budget *)

Section ClaimFacts.
Context (fingerprint : gostr -> gostr) (policyID : gostr) (now : Z).
Let key := probeKey fingerprint policyID.
Let cached (b : healthProbeBudget) (n : gostr) := cachedAt now b (key n).

Lemma newKeys_spec atomicPair b targets keys0 keys :
  newKeys fingerprint policyID now atomicPair b targets keys0 = Some keys ->
  keys0 ⊆ keys /\ (forall n, n ∈ targets -> key n ∈ bu_Used b \/ key n ∈ keys) /\
  (atomicPair = true -> forall n, n ∈ targets -> attemptedAt b (key n) = true -> cached b n = true).
Proof.
  revert keys0. induction targets as [|n targets IH]; intros keys0; simpl.
  { intros [= <-]. split; [done|]. split; [intros n Hn; by apply elem_of_nil in Hn|].
    intros _ n Hn. by apply elem_of_nil in Hn. }
  fold key. destruct (_ && _) eqn:E; [done|]. intros H.
  destruct (IH _ H) as (H1 & H2 & H3). split; [|split].
  - case_bool_decide; set_solver.
  - intros m [->|Hm]%elem_of_cons; [|auto]. case_bool_decide; [by left|right]. set_solver.
  - intros Ha m [->|Hm]%elem_of_cons Hatt; [|by auto]. rewrite Ha in E.
    fold key in Hatt. rewrite Hatt in E. simpl in E. bool_prop. done.
Qed.

Lemma claim_loop_spec targets accepted deferred b a d b' :
  claim_loop fingerprint policyID now targets accepted deferred b = (a, d, b') ->
  a ++ d ≡ₚ accepted ++ deferred ++ targets /\ bu_Used b ⊆ bu_Used b' /\
  bu_Limit b' = bu_Limit b /\ bu_Quality b' = bu_Quality b /\ bu_QualityAttempted b' = bu_QualityAttempted b /\
  Z.of_nat (size (bu_Used b')) <= Z.max (Z.of_nat (size (bu_Used b))) (bu_Limit b) /\
  (forall n, n ∈ a -> n ∈ accepted \/ n ∈ targets /\ (cached b n = true \/ key n ∈ bu_Used b')) /\
  (forall n, n ∈ a -> n ∈ accepted \/ (attemptedAt b (key n) = true -> cached b n = true)).
Proof.
  revert accepted deferred b. induction targets as [|n targets IH]; intros accepted deferred b; simpl.
  { intros [= <- <- <-]. rewrite app_nil_r. repeat split; try done; try lia; auto. }
  fold key.
  destruct (negb (cachedAt now b (key n)) && attemptedAt b (key n)) eqn:E1.
  { intros H. destruct (IH _ _ _ H) as (P & U & L & Q & A & S & In & At). split; [|split_and!; try done].
    - rewrite P. rewrite <- !(assoc_L (++)). done.
    - intros m Hm. destruct (In m Hm) as [|[? ?]]; [by left|right]. split; [set_solver|done]. }
  destruct (cachedAt now b (key n) || _ || _) eqn:E2.
  - intros H. destruct (IH _ _ _ H) as (P & U & L & Q & A & S & In & At). clear IH.
    remember (if cachedAt now b (key n) then b else use b (key n)) as b1 eqn:Eb1.
    assert (Hb : bu_Limit b1 = bu_Limit b /\ bu_Quality b1 = bu_Quality b /\
      bu_QualityAttempted b1 = bu_QualityAttempted b /\ bu_Used b ⊆ bu_Used b1)
      by (subst b1; destruct (cachedAt now b (key n)); simpl; split_and!; try done; set_solver).
    destruct Hb as (B1 & B2 & B3 & B4).
    assert (Hcached : forall m, cached b1 m = cached b m) by (intros m; unfold cached, cachedAt; by rewrite B2).
    assert (Hatt : forall k, attemptedAt b1 k = attemptedAt b k) by (intros k; unfold attemptedAt; by rewrite B3).
    split; [rewrite P; solve_Permutation|]. split; [set_solver|]. rewrite L, Q, A.
    split; [done|]. split; [done|]. split; [done|]. split; [|split].
    + rewrite B1 in S. destruct (cachedAt now b (key n)) eqn:Ec; subst b1; [done|]. simpl in S, E2.
      destruct (decide (key n ∈ bu_Used b)) as [Hu|Hu].
      * replace ({[key n]} ∪ bu_Used b) with (bu_Used b) in S by set_solver. done.
      * rewrite (bool_decide_eq_false_2 _ Hu) in E2. simpl in E2. bool_prop.
        rewrite size_union in S by set_solver. rewrite size_singleton in S. lia.
    + intros m Hm. destruct (In m Hm) as [Hacc|[Ht Hor]].
      * apply elem_of_app in Hacc as [?| ->%list_elem_of_singleton]; [by left|right]. split; [set_solver|].
        unfold cached. destruct (cachedAt now b (key n)) eqn:Ec; [by left|right].
        apply U. subst b1. simpl. set_solver.
      * right. split; [set_solver|]. by rewrite Hcached in Hor.
    + intros m Hm. destruct (At m Hm) as [Hacc|Ha].
      * apply elem_of_app in Hacc as [?| ->%list_elem_of_singleton]; [by left|right]. intros Hx.
        unfold cached. destruct (cachedAt now b (key n)); [done|]. simpl in E1. congruence.
      * right. by rewrite Hatt, Hcached in Ha.
  - intros H. destruct (IH _ _ _ H) as (P & U & L & Q & A & S & In & At). split; [|split_and!; try done].
    + rewrite P. rewrite <- !(assoc_L (++)). done.
    + intros m Hm. destruct (In m Hm) as [|[? ?]]; [by left|right]. split; [set_solver|done].
Qed.

(** With room for every key, nothing is deferred. *)
Lemma claim_loop_all targets accepted deferred b a d b' keys :
  claim_loop fingerprint policyID now targets accepted deferred b = (a, d, b') ->
  (forall n, n ∈ targets -> key n ∈ keys) -> bu_Used b ⊆ keys -> Z.of_nat (size keys) <= bu_Limit b ->
  (forall n, n ∈ targets -> attemptedAt b (key n) = true -> cached b n = true) ->
  a = accepted ++ targets /\ d = deferred.
Proof.
  revert accepted deferred b. induction targets as [|n targets IH]; intros accepted deferred b; simpl.
  { intros [= <- <- <-]. by rewrite app_nil_r. }
  fold key. intros H Hk Hu Hl Hatt.
  assert (E1 : (negb (cachedAt now b (key n)) && attemptedAt b (key n)) = false).
  { destruct (attemptedAt b (key n)) eqn:E; [|by rewrite andb_false_r].
    pose proof (Hatt n ltac:(set_solver) E) as Hc. unfold cached in Hc. by rewrite Hc. }
  rewrite E1 in H.
  assert (E2 : (cachedAt now b (key n) || bool_decide (key n ∈ bu_Used b) || (Z.of_nat (size (bu_Used b)) <? bu_Limit b)) = true).
  { destruct (decide (key n ∈ bu_Used b)) as [Hin|Hin].
    - rewrite (bool_decide_eq_true_2 _ Hin). by rewrite orb_true_r.
    - apply orb_true_iff. right. apply Z.ltb_lt.
      assert ({[key n]} ∪ bu_Used b ⊆ keys) as Hsub%subseteq_size by (pose proof (Hk n); set_solver).
      rewrite size_union, size_singleton in Hsub by set_solver. lia. }
  rewrite E2 in H. destruct (IH _ _ _ H) as [-> ->].
  - set_solver.
  - destruct (cachedAt now b (key n)); [done|]. simpl. pose proof (Hk n). set_solver.
  - by destruct (cachedAt now b (key n)).
  - intros m Hm. destruct (cachedAt now b (key n)) eqn:Ec; [apply Hatt; set_solver|].
    unfold attemptedAt, cached, cachedAt. simpl. apply (Hatt m). set_solver.
  - by rewrite <- (assoc_L (++)).
Qed.

Lemma markDeferred_fields b :
  bu_Used (markDeferred policyID now b) = bu_Used b /\ bu_Limit (markDeferred policyID now b) = bu_Limit b /\
  bu_Quality (markDeferred policyID now b) = bu_Quality b /\
  bu_QualityAttempted (markDeferred policyID now b) = bu_QualityAttempted b /\
  is_Some (bu_DeferredPolicies (markDeferred policyID now b) !! policyID).
Proof.
  unfold markDeferred. destruct (bu_DeferredPolicies b !! policyID) eqn:E; [by rewrite E|].
  simpl. by rewrite lookup_insert_eq.
Qed.
End ClaimFacts.

(** A claim of a policy on a budget of its tick. *)
Record claim_ok (fingerprint : gostr -> gostr) (policyID : gostr) (now : Z) (b : healthProbeBudget) (targets : list gostr)
    (atomicPair : bool) (accepted deferred : list gostr) (b' : healthProbeBudget) : Prop := {
  cl_split : accepted ++ deferred ≡ₚ targets;
  cl_limit : bu_Limit b' = bu_Limit b;
  cl_used : bu_Used b ⊆ bu_Used b' /\ Z.of_nat (size (bu_Used b')) <= bu_Limit b;
  cl_paid n : n ∈ accepted -> cachedAt now b (probeKey fingerprint policyID n) = true \/
    (probeKey fingerprint policyID n ∈ bu_Used b' /\ attemptedAt b (probeKey fingerprint policyID n) = false);
  cl_deferred : deferred <> [] -> is_Some (bu_DeferredPolicies b' !! policyID);
  cl_atomic : atomicPair = true -> accepted = [] \/ deferred = [];
}.

Lemma claim_ok_holds fingerprint policyID now b targets atomicPair :
  0 < bu_Limit b -> Z.of_nat (size (bu_Used b)) <= bu_Limit b ->
  exists accepted deferred b',
    claimProbeTargets fingerprint policyID now (Some b) targets atomicPair = (accepted, deferred, Some b') /\
    claim_ok fingerprint policyID now b targets atomicPair accepted deferred b'.
Proof.
  intros Hl Hu. unfold claimProbeTargets. rewrite (proj2 (Z.leb_gt _ _) Hl).
  destruct (markDeferred_fields policyID now b) as (M1 & M2 & _ & _ & M3).
  assert (Hrefuse : claim_ok fingerprint policyID now b targets atomicPair [] targets (markDeferred policyID now b)).
  { split; try done; rewrite ?M1, ?M2; try done; [|by intros _; left].
    intros n Hn. by apply elem_of_nil in Hn. }
  destruct (newKeys _ _ _ _ _ _ _) as [keys|] eqn:Ek; [|by eauto].
  destruct (_ && _) eqn:Ea; [by eauto|].
  destruct (claim_loop _ _ _ _ _ _ _) as [[a d] b1] eqn:Ec.
  destruct (claim_loop_spec _ _ _ _ _ _ _ _ _ _ Ec) as (P & U & L & Q & A & S & In & At). simpl in P.
  destruct (newKeys_spec _ _ _ _ _ _ _ _ Ek) as (_ & K1 & K2).
  exists a, d, (match d with [] => b1 | _ => markDeferred policyID now b1 end). split; [done|].
  destruct (markDeferred_fields policyID now b1) as (N1 & N2 & _ & _ & N3).
  split.
  - done.
  - destruct d; rewrite ?N2; done.
  - destruct d; rewrite ?N1; split; try done; lia.
  - intros n Hn. destruct (In n Hn) as [Hx|[Ht Hor]]; [by apply elem_of_nil in Hx|].
    destruct (At n Hn) as [Hx|Hatt]; [by apply elem_of_nil in Hx|].
    destruct (cachedAt now b (probeKey fingerprint policyID n)) eqn:Ecn; [by left|right].
    destruct Hor as [Hc|Hor]; [congruence|]. split; [by destruct d; rewrite ?N1|].
    destruct (attemptedAt b _) eqn:E; [|done]. specialize (Hatt eq_refl). congruence.
  - intros Hd. destruct d; [done|]. done.
  - intros ->. simpl in Ea. bool_prop. right.
    apply (claim_loop_all _ _ _ _ _ _ _ _ _ _ (bu_Used b ∪ keys) Ec).
    + intros n Hn. destruct (K1 n Hn); set_solver.
    + set_solver.
    + assert (Z.of_nat (size (bu_Used b ∪ keys)) <= Z.of_nat (size (bu_Used b)) + Z.of_nat (size keys)); [|lia].
      rewrite size_union_alt. pose proof (subseteq_size (keys ∖ bu_Used b) keys ltac:(set_solver)). lia.
    + intros n Hn. by apply K2.
Qed.

(** ** Facts about one policy's targets *)

Lemma size_list_to_set_le (l : list gostr) : (size (list_to_set l : gset gostr) <= length l)%nat.
Proof.
  induction l as [|x l IH]; [by rewrite list_to_set_nil, size_empty|]. rewrite list_to_set_cons, size_union_alt, size_singleton.
  pose proof (subseteq_size (list_to_set l ∖ {[x]} : gset gostr) (list_to_set l) ltac:(set_solver)). simpl. lia.
Qed.

Lemma oldestDue_spec now item p result oldest candidates :
  [] ∉ candidates ->
  let o := oldestDue now item p result oldest candidates in
  (o = oldest \/ o ∈ candidates /\ (o ∉ result) /\ due now item p o = true) /\
  (o = [] -> oldest = [] /\ forall c, c ∈ candidates -> c ∈ result \/ (due now item p c) = false).
Proof.
  revert oldest. induction candidates as [|c l IH]; intros oldest Hne; simpl.
  { split; [by left|]. intros ->. split; [done|]. intros c Hc. by apply elem_of_nil in Hc. }
  set (skip := contains result c || negb (due now item p c)).
  assert (Hskip : skip = false -> (c ∉ result) /\ due now item p c = true).
  { unfold skip, contains. intros H. by bool_prop. }
  specialize (IH (if negb skip && (bool_decide (oldest = []) ||
    flt (getf (st_LastProbeAt item) c) (getf (st_LastProbeAt item) oldest)) then c else oldest) ltac:(set_solver)).
  cbv zeta in IH. destruct IH as [H1 H2]. split.
  - destruct H1 as [H1|H1]; [|right; set_solver]. rewrite H1.
    destruct (negb skip && _) eqn:E; [|by left]. right. bool_prop. destruct (Hskip ltac:(done)). set_solver.
  - intros Ho. destruct (H2 Ho) as [H3 H4].
    destruct (negb skip && _) eqn:E; [subst c; set_solver|]. split; [done|].
    intros x [->|Hx]%elem_of_cons; [|auto]. subst oldest. rewrite bool_decide_eq_true_2 in E by done.
    rewrite orb_true_l, andb_true_r in E. bool_prop. unfold skip, contains in E.
    apply orb_true_iff in E as [E|E]; bool_prop; auto.
Qed.

(** The rotation ends, within the number of candidates, with a batch that is full
    or has every due candidate. *)
Lemma rotate_spec fuel now candidates item p result :
  [] ∉ candidates -> NoDup result -> (size (list_to_set candidates ∖ list_to_set result : gset gostr) < fuel)%nat ->
  exists r, rotate fuel now candidates item p result = Ret r /\ NoDup r /\ prefix result r /\
    Z.of_nat (length r) <= Z.max (Z.of_nat (length result)) (ps_batch p) /\
    (forall c, c ∈ r -> c ∈ result \/ c ∈ candidates) /\
    (Z.of_nat (length r) < ps_batch p -> forall c, c ∈ candidates -> due now item p c = true -> c ∈ r).
Proof.
  intros Hne. revert result. induction fuel as [|fuel IH]; intros result Hnd Hf; [lia|]. simpl.
  destruct (Z.ltb_spec (Z.of_nat (length result)) (ps_batch p)) as [Hlt|Hge]; simpl.
  2: { exists result. split_and!; try done; [lia|auto|lia]. }
  destruct (oldestDue_spec now item p result [] candidates Hne) as [H1 H2].
  set (o := oldestDue now item p result [] candidates) in *. case_bool_decide as Ho.
  - destruct (H2 Ho) as [_ H3]. exists result. split_and!; try done; [lia|auto|].
    intros _ c Hc Hd. destruct (H3 c Hc); [done|congruence].
  - destruct H1 as [H1|(Hc & Hnr & Hd)]; [done|].
    destruct (IH (result ++ [o])) as (r & E & Hr & Hp & Hl & Hsub & Hfull).
    + apply NoDup_app. split; [done|]. split; [set_solver|apply NoDup_singleton].
    + assert ((list_to_set candidates ∖ list_to_set (result ++ [o]) : gset gostr) ⊂ list_to_set candidates ∖ list_to_set result)
        as Hs%subset_size; [|lia].
      rewrite list_to_set_app. split; [set_solver|]. intros Hsub.
      assert (o ∈ (list_to_set candidates ∖ list_to_set result : gset gostr)) by set_solver. set_solver.
    + exists r. split_and!; try done.
      * etransitivity; [|done]. by apply prefix_app_r.
      * rewrite length_app in Hl. simpl in Hl. lia.
      * intros c Hcr. destruct (Hsub c Hcr) as [Hin|]; [|by right]. apply elem_of_app in Hin as [|Hin]; [by left|].
        apply list_elem_of_singleton in Hin. subst c. by right.
Qed.

Lemma pairTargets_spec lenient now selected candidates item p :
  let r := optimizationPairProbeTargets lenient now selected candidates item p in
  NoDup r /\ Z.of_nat (length r) <= Z.max 0 (ps_batch p) /\ (forall c, c ∈ r -> c = selected \/ c ∈ candidates).
Proof.
  unfold optimizationPairProbeTargets.
  destruct (pendingOptimizationPair lenient now selected candidates item p) as [previous|] eqn:E.
  2: { split; [constructor|]. split; [simpl; lia|]. intros c Hc. by apply elem_of_nil in Hc. }
  unfold pendingOptimizationPair in E. set (candidate := st_OptimizationCandidate item) in *.
  match type of E with (if ?b then _ else _) = _ => destruct b eqn:Eg; [done|] end. bool_prop. unfold contains in *. bool_prop.
  set (targets := if _ && _ then _ else _).
  assert (Ht : NoDup targets /\ forall c, c ∈ targets -> c = selected \/ c ∈ candidates).
  { assert (NoDup [selected; candidate]).
    { apply NoDup_cons. split; [set_solver|apply NoDup_singleton]. }
    unfold targets. repeat case_match; (split; [first [done|apply NoDup_singleton|constructor]|set_solver]). }
  destruct Ht as [Hn Hs]. split; [|split].
  - apply (NoDup_app _ (drop (Z.to_nat (Z.min (Z.of_nat (length targets)) (ps_batch p))) targets)). by rewrite take_drop.
  - rewrite length_take. lia.
  - intros c Hc. apply Hs. eapply elem_of_take in Hc as (i & Hi & _). by eapply list_elem_of_lookup_2.
Qed.

Lemma snoc_ok (P : gostr -> Prop) batch result c :
  NoDup result -> (forall x, x ∈ result -> P x) -> Z.of_nat (length result) < batch -> c ∉ result -> P c ->
  NoDup (result ++ [c]) /\ Z.of_nat (length (result ++ [c])) <= batch /\ (forall x, x ∈ result ++ [c] -> P x).
Proof.
  intros H1 H2 H3 H4 H5. split; [|split].
  - apply NoDup_app. split; [done|]. split; [set_solver|apply NoDup_singleton].
  - rewrite length_app. simpl. lia.
  - intros x [Hx| ->%list_elem_of_singleton]%elem_of_app; auto.
Qed.

Lemma firstTargets_spec lenient now selected candidates item p :
  0 <= ps_batch p ->
  let r := firstTargets lenient now selected candidates item p in
  NoDup r /\ Z.of_nat (length r) <= ps_batch p /\ (forall c, c ∈ r -> c = selected \/ c ∈ candidates).
Proof.
  intros Hb. destruct (pairTargets_spec lenient now selected candidates item p) as (H1 & H2 & H3).
  unfold firstTargets. cbv zeta. set (r0 := optimizationPairProbeTargets lenient now selected candidates item p) in *.
  set (r1 := if _ && negb (contains r0 selected) then r0 ++ [selected] else r0).
  assert (Hr1 : NoDup r1 /\ Z.of_nat (length r1) <= ps_batch p /\ (forall c, c ∈ r1 -> c = selected \/ c ∈ candidates)).
  { unfold r1. destruct (_ && negb (contains r0 selected)) eqn:E; [|split_and!; try done; lia].
    bool_prop. unfold contains in *. bool_prop. apply snoc_ok; auto. }
  destruct Hr1 as (G1 & G2 & G3).
  match goal with |- context [if ?b then r1 ++ _ else r1] => destruct b eqn:E; [|done] end.
  bool_prop. unfold contains in *. bool_prop. apply snoc_ok; auto.
Qed.

(** ** The claims *)

(** C34: a policy's claim on the shared probe budget splits its targets into
    accepted and deferred ones without losing or repeating any; the budget's
    limit on distinct endpoints holds in every tick; an accepted node either has
    a recent shared result or is counted and was not tried before; a policy with
    deferred nodes is remembered; and a comparison pair is claimed as a whole or
    not at all. *)
Theorem claimProbeTargets_correct (fingerprint : gostr -> gostr) (policyID : gostr) (now : Z) (b : healthProbeBudget)
    (targets : list gostr) (atomicPair : bool) :
  0 < bu_Limit b -> Z.of_nat (size (bu_Used b)) <= bu_Limit b ->
  exists accepted deferred b',
    claimProbeTargets fingerprint policyID now (Some b) targets atomicPair = (accepted, deferred, Some b') /\
    claim_ok fingerprint policyID now b targets atomicPair accepted deferred b'.
Proof. apply claim_ok_holds. Qed.

Definition demo_budget : healthProbeBudget := HealthProbeBudget 2 {[bs "fp-a"]} ∅ 0 ∅ ∅.
Definition demo_fingerprint (n : gostr) : gostr := bs "fp-" ++ n.

Example claimProbeTargets_correct_witness :
  (claimProbeTargets demo_fingerprint (bs "p1") 0 (Some demo_budget) [bs "b"; bs "c"] true).1 = ([], [bs "b"; bs "c"]) /\
  exists accepted deferred b',
    claimProbeTargets demo_fingerprint (bs "p1") 0 (Some demo_budget) [bs "a"; bs "b"; bs "c"] false = (accepted, deferred, Some b') /\
    accepted = [bs "a"; bs "b"] /\
    claim_ok demo_fingerprint (bs "p1") 0 demo_budget [bs "a"; bs "b"; bs "c"] false accepted deferred b'.
Proof.
  split; [vm_compute; reflexivity|].
  destruct (claimProbeTargets_correct demo_fingerprint (bs "p1") 0 demo_budget [bs "a"; bs "b"; bs "c"] false)
    as (accepted & deferred & b' & E & H); [vm_compute; reflexivity|vm_compute; discriminate|].
  exists accepted, deferred, b'. split; [exact E|]. split; [|exact H].
  assert (E2 : (claimProbeTargets demo_fingerprint (bs "p1") 0 (Some demo_budget) [bs "a"; bs "b"; bs "c"] false).1.1
    = [bs "a"; bs "b"]) by (vm_compute; reflexivity).
  rewrite E in E2. exact E2.
Defined.

(** C35: the regular probe targets of a policy are computed in finitely many
    rounds, contain no node twice, fit the batch size, name only candidates or
    the active node, and leave a free slot only when every due candidate is in
    the batch; the scan queue loses exactly the chosen nodes. *)
Theorem regularProbeTargets_correct (lenient : gostr -> option Z) (now : Z) (selected : gostr) (candidates : list gostr)
    (item : policyHealthState) (p : effectivePolicySettings) :
  [] ∉ candidates -> 0 <= ps_batch p ->
  exists r, regularProbeTargets lenient now selected candidates item p = Ret (r, with_queue item (without (st_ScanQueue item) r)) /\
    NoDup r /\ Z.of_nat (length r) <= ps_batch p /\ (forall c, c ∈ r -> c = selected \/ c ∈ candidates) /\
    (Z.of_nat (length r) < ps_batch p -> forall c, c ∈ candidates -> due now item p c = true -> c ∈ r).
Proof.
  intros Hne Hb. destruct (firstTargets_spec lenient now selected candidates item p Hb) as (H1 & H2 & H3).
  destruct (rotate_spec (S (length candidates)) now candidates item p _ Hne H1) as (r & E & R1 & _ & R2 & R3 & R4).
  { assert (size (list_to_set candidates ∖ list_to_set (firstTargets lenient now selected candidates item p) : gset gostr)
      <= size (list_to_set candidates : gset gostr))%nat by (apply subseteq_size; set_solver).
    pose proof (size_list_to_set_le candidates). lia. }
  exists r. unfold regularProbeTargets. rewrite E. split; [done|]. split; [done|]. split; [lia|]. split; [|done].
  intros c Hc. destruct (R3 c Hc); auto.
Qed.

Example regularProbeTargets_correct_witness :
  exists r item', regularProbeTargets (fun _ => None) (1050 * second) (bs "a") [bs "a"; bs "b"; bs "c"; bs "d"] demo_item
      demo_settings = Ret (r, item') /\ r = [bs "a"; bs "b"; bs "c"] /\ NoDup r.
Proof.
  destruct (regularProbeTargets_correct (fun _ => None) (1050 * second) (bs "a") [bs "a"; bs "b"; bs "c"; bs "d"] demo_item
    demo_settings) as (r & E & H & _); [apply (bool_decide_unpack _); vm_compute; exact I|vm_compute; discriminate|].
  exists r, (with_queue demo_item (without (st_ScanQueue demo_item) r)). split; [exact E|]. split; [|exact H].
  assert (E2 : match regularProbeTargets (fun _ => None) (1050 * second) (bs "a") [bs "a"; bs "b"; bs "c"; bs "d"] demo_item
    demo_settings with Ret (r, _) => r | _ => [] end = [bs "a"; bs "b"; bs "c"]) by (vm_compute; reflexivity).
  rewrite E in E2. exact E2.
Defined.
